(** * Synchronisation engine of the player: clocks, target delay, audio
      correction, frame dropping

    A shallow embedding of the synchronisation code of

      - [src/core/video_state.cpp]  (module [Core]):   [get_master_sync_type],
        [get_master_clock], [compute_target_delay], [vp_duration],
        [check_external_clock_speed], [synchronize_audio], [video_refresh];
      - [src/video_state.cpp]       (module [Player]): [GetMasterSyncType],
        [GetMasterClock], [ComputeTargetDelay], [SynchronizeAudio],
        [GetVideoFrame], [VideoRefresh].

    A C [double] is an IEEE-754 binary64 value, modelled by the Standard
    Library's [spec_float] with [prec = 53] and [emax = 1024]: every
    operation below is the correctly rounded one, NaN and the infinities
    included.  A C [int] is a [Z] kept in the 32-bit signed range by an
    explicit wrap-around. *)

From Stdlib Require Import ZArith Bool List Lia SpecFloat.
Import ListNotations.

Local Open Scope Z_scope.

(* ================================================================== *)
(** * Part I: definitions *)
(* ================================================================== *)

(** ** C [double] *)

Module Dbl.

Definition prec : Z := 53.
Definition emax : Z := 1024.

Definition double : Type := spec_float.

Definition add : double -> double -> double := SFadd prec emax.
Definition sub : double -> double -> double := SFsub prec emax.
Definition mul : double -> double -> double := SFmul prec emax.
Definition div : double -> double -> double := SFdiv prec emax.
Definition opp : double -> double := SFopp.

(** [fabs] and [isnan] of <math.h>. *)
Definition fabs : double -> double := SFabs.
Definition isnan (x : double) : bool :=
  match x with S754_nan => true | _ => false end.

(** The comparison operators of C: each one is false when an operand is
    NaN, except [!=], which is then true. *)
Definition lt (a b : double) : bool := SFltb a b.
Definition le (a b : double) : bool := SFleb a b.
Definition gt (a b : double) : bool := SFltb b a.
Definition ge (a b : double) : bool := SFleb b a.
Definition ne (a b : double) : bool := negb (SFeqb a b).

(** Conversion of an integer to [double] (round to nearest, ties to
    even), as done implicitly by C on mixed operands. *)
Definition of_int (n : Z) : double := binary_normalize prec emax n 0 false.

(** The decimal literal [num/den] (for instance [0.04] is [lit 4 100]):
    the double nearest to the quotient. *)
Definition lit (num den : Z) : double := div (of_int num) (of_int den).

(** A value is a well-formed binary64 number when its mantissa and
    exponent are the canonical ones. *)
Definition valid (x : double) : bool := valid_binary prec emax x.

(** libavutil's [FFMAX(a,b)] is [((a) > (b) ? (a) : (b))] and
    [FFMIN(a,b)] is [((a) > (b) ? (b) : (a))]. *)
Definition FFMAX (a b : double) : double := if gt a b then a else b.
Definition FFMIN (a b : double) : double := if gt a b then b else a.

(** The integral part of a finite value (rounded toward zero). *)
Definition trunc (x : double) : option Z :=
  match x with
  | S754_zero _ => Some 0
  | S754_finite s m e =>
      Some (cond_Zopp s
              (match e with
               | Zneg p => Z.shiftr (Zpos m) (Zpos p)
               | _ => Z.shiftl (Zpos m) e
               end))
  | _ => None
  end.

End Dbl.

Declare Scope dbl_scope.
Delimit Scope dbl_scope with dbl.
Bind Scope dbl_scope with Dbl.double.
Infix "+" := Dbl.add : dbl_scope.
Infix "-" := Dbl.sub : dbl_scope.
Infix "*" := Dbl.mul : dbl_scope.
Infix "/" := Dbl.div : dbl_scope.
Notation "- x" := (Dbl.opp x) : dbl_scope.
Infix "<?" := Dbl.lt : dbl_scope.
Infix "<=?" := Dbl.le : dbl_scope.
Infix ">?" := Dbl.gt : dbl_scope.
Infix ">=?" := Dbl.ge : dbl_scope.
Infix "!=?" := Dbl.ne (at level 70, no associativity) : dbl_scope.

(** ** C [int] *)

Module Int.

Definition INT_MIN : Z := - 2 ^ 31.
Definition INT_MAX : Z := 2 ^ 31 - 1.

Definition in_range (z : Z) : bool := (INT_MIN <=? z) && (z <=? INT_MAX).

(** Two's-complement wrap-around of a result into 32 bits. *)
Definition wrap (z : Z) : Z := (z + 2 ^ 31) mod 2 ^ 32 - 2 ^ 31.

Definition add (a b : Z) : Z := wrap (a + b).
Definition mul (a b : Z) : Z := wrap (a * b).
(** [/] on [int] truncates toward zero. *)
Definition div (a b : Z) : Z := wrap (Z.quot a b).

(** [static_cast<int>(x)]: the integral part of [x]; when it does not fit
    (or [x] is NaN or infinite) the conversion instruction of the target
    yields [INT_MIN]. *)
Definition of_double (x : Dbl.double) : Z :=
  match Dbl.trunc x with
  | Some z => if in_range z then z else INT_MIN
  | None => INT_MIN
  end.

(** libavutil's [av_clip(a, amin, amax)]. *)
Definition av_clip (a amin amax : Z) : Z :=
  if a <? amin then amin
  else if a >? amax then amax
  else a.

End Int.

(** ** C [float] *)

Module Flt.

Definition prec : Z := 24.
Definition emax : Z := 128.

Definition float : Type := spec_float.

Definition of_int (n : Z) : float := binary_normalize prec emax n 0 false.
Definition div : float -> float -> float := SFdiv prec emax.

(** The promotion of a [float] to [double] keeps the value. *)
Definition to_double (x : float) : Dbl.double :=
  match x with
  | S754_finite s m e =>
      binary_normalize Dbl.prec Dbl.emax (cond_Zopp s (Zpos m)) e s
  | _ => x
  end.

End Flt.

(** ** Constants of [video_state.cpp] *)

(* no AV sync correction is done if below the minimum AV sync threshold *)
Definition AV_SYNC_THRESHOLD_MIN : Dbl.double := Eval vm_compute in Dbl.lit 4 100.
(* AV sync correction is done if above the maximum AV sync threshold *)
Definition AV_SYNC_THRESHOLD_MAX : Dbl.double := Eval vm_compute in Dbl.lit 1 10.
(* If a frame duration is longer than this, it will not be duplicated to
   compensate AV sync *)
Definition AV_SYNC_FRAMEDUP_THRESHOLD : Dbl.double := Eval vm_compute in Dbl.lit 1 10.
Definition AV_NOSYNC_THRESHOLD : Dbl.double := Eval vm_compute in Dbl.of_int 10.
Definition EXTERNAL_CLOCK_MIN_FRAMES : Z := 2.
Definition EXTERNAL_CLOCK_MAX_FRAMES : Z := 10.
(* maximum audio speed change to get correct sync *)
Definition SAMPLE_CORRECTION_PERCENT_MAX : Z := 10.
Definition EXTERNAL_CLOCK_SPEED_MIN : Dbl.double := Eval vm_compute in Dbl.lit 900 1000.
Definition EXTERNAL_CLOCK_SPEED_MAX : Dbl.double := Eval vm_compute in Dbl.lit 1010 1000.
Definition EXTERNAL_CLOCK_SPEED_STEP : Dbl.double := Eval vm_compute in Dbl.lit 1 1000.
(* we use about AUDIO_DIFF_AVG_NB A-V differences to make the average *)
Definition AUDIO_DIFF_AVG_NB : Z := 20.

Definition d_zero : Dbl.double := Eval vm_compute in Dbl.of_int 0.
Definition d_one : Dbl.double := Eval vm_compute in Dbl.of_int 1.
Definition d_two : Dbl.double := Eval vm_compute in Dbl.of_int 2.

(** ** The frame queue *)

(** Modelled from the spec: the frame queue ([core/frame_queue.h] is not
    among the sources).  By the specification's contract (section 4.2),
    [peek], [peek_next] and [peek_last] read the current, the next and the
    previously displayed frame without consuming; [move_to_next] consumes
    the current frame and, with [keep_last], "the consumed frame remains
    addressable via peek_last() until overwritten"; [remaining_count] counts
    the frames not yet consumed.  The ring buffer is kept as the slot of the
    last consumed frame and the FIFO list of the frames not yet consumed;
    before anything was consumed the read slot is the current frame
    itself. *)
Module FrameQueue.

Section Queue.

Variable Frame : Type.

(** Modelled from the spec: the state of [FrameQueue], as the slot of the
    last consumed frame and the frames not yet consumed, oldest first. *)
Record t := {
  keep_last : bool;
  last_shown : option Frame;
  pending : list Frame
}.

(** Modelled from the spec: [nb_remaining()], the number of frames not yet
    consumed. *)
Definition remaining_count (q : t) : nat := length (pending q).

(** Modelled from the spec: [is_empty()], nothing left to consume. *)
Definition is_empty (q : t) : bool :=
  match pending q with [] => true | _ => false end.

(** Modelled from the spec: [peek()], the current frame, not consumed. *)
Definition peek (q : t) : option Frame := hd_error (pending q).

(** Modelled from the spec: [peek_next()], the frame after the current
    one. *)
Definition peek_next (q : t) : option Frame := nth_error (pending q) 1.

(** Modelled from the spec: [peek_last()], the previously displayed frame;
    the current one while nothing was consumed. *)
Definition peek_last (q : t) : option Frame :=
  match last_shown q with
  | Some f => Some f
  | None => hd_error (pending q)
  end.

(** Modelled from the spec: [rindex_shown()], whether a consumed frame sits
    in the last-shown slot. *)
Definition rindex_shown (q : t) : bool :=
  match last_shown q with Some _ => true | None => false end.

(** Modelled from the spec: [move_to_next()] consumes the current frame,
    which with [keep_last] stays addressable by [peek_last]. *)
Definition move_to_next (q : t) : t :=
  match pending q with
  | [] => q
  | f :: rest =>
      {| keep_last := keep_last q;
         last_shown := if keep_last q then Some f else last_shown q;
         pending := rest |}
  end.

End Queue.

Arguments keep_last {Frame}.
Arguments last_shown {Frame}.
Arguments pending {Frame}.
Arguments remaining_count {Frame}.
Arguments is_empty {Frame}.
Arguments peek {Frame}.
Arguments peek_next {Frame}.
Arguments peek_last {Frame}.
Arguments rindex_shown {Frame}.
Arguments move_to_next {Frame}.

End FrameQueue.

(** ** [src/core/video_state.cpp] *)

Module Core.

(** The three synchronisation sources the file dispatches on. *)
Inductive AvSyncType :=
| AV_SYNC_AUDIO_MASTER
| AV_SYNC_VIDEO_MASTER
| AV_SYNC_EXTERNAL_CLOCK.

Definition sync_eqb (a b : AvSyncType) : bool :=
  match a, b with
  | AV_SYNC_AUDIO_MASTER, AV_SYNC_AUDIO_MASTER
  | AV_SYNC_VIDEO_MASTER, AV_SYNC_VIDEO_MASTER
  | AV_SYNC_EXTERNAL_CLOCK, AV_SYNC_EXTERNAL_CLOCK => true
  | _, _ => false
  end.

(** The part of [VideoState] the synchronisation code reads and writes.
    [StreamEngine] is declared outside the modelled file: the record
    carries what its accessors return ([GetClock], [GetSpeed],
    [packet_queue_->nb_packets()]) at the time of the call. *)
Record VideoState := {
  av_sync_type : AvSyncType;          (* opt->av_sync_type *)
  video_st : bool;                    (* video_st != NULL *)
  audio_st : bool;                    (* audio_st != NULL *)
  video_stream : Z;                   (* stream index, negative when closed *)
  audio_stream : Z;
  video_clock : Dbl.double;           (* video_engine_->GetClock() *)
  audio_clock : Dbl.double;           (* audio_engine_->GetClock() *)
  subtitle_clock : Dbl.double;        (* subtitle_engine_->GetClock() *)
  subtitle_speed : Dbl.double;        (* subtitle_engine_->GetSpeed() *)
  video_nb_packets : N;               (* video_engine_->packet_queue_->nb_packets() *)
  audio_nb_packets : N;
  max_frame_duration : Dbl.double;
  audio_diff_cum : Dbl.double;
  audio_diff_avg_coef : Dbl.double;
  audio_diff_threshold : Dbl.double;
  audio_diff_avg_count : Z;
  audio_src_freq : Z                  (* audio_src.freq *)
}.

Definition set_audio_diff (s : VideoState) (cum : Dbl.double) (count : Z)
  : VideoState :=
  {| av_sync_type := av_sync_type s;
     video_st := video_st s; audio_st := audio_st s;
     video_stream := video_stream s; audio_stream := audio_stream s;
     video_clock := video_clock s; audio_clock := audio_clock s;
     subtitle_clock := subtitle_clock s;
     subtitle_speed := subtitle_speed s;
     video_nb_packets := video_nb_packets s;
     audio_nb_packets := audio_nb_packets s;
     max_frame_duration := max_frame_duration s;
     audio_diff_cum := cum;
     audio_diff_avg_coef := audio_diff_avg_coef s;
     audio_diff_threshold := audio_diff_threshold s;
     audio_diff_avg_count := count;
     audio_src_freq := audio_src_freq s |}.

(** [subtitle_engine_->SetClockSpeed(v)]. *)
Definition SetClockSpeed (s : VideoState) (v : Dbl.double) : VideoState :=
  {| av_sync_type := av_sync_type s;
     video_st := video_st s; audio_st := audio_st s;
     video_stream := video_stream s; audio_stream := audio_stream s;
     video_clock := video_clock s; audio_clock := audio_clock s;
     subtitle_clock := subtitle_clock s;
     subtitle_speed := v;
     video_nb_packets := video_nb_packets s;
     audio_nb_packets := audio_nb_packets s;
     max_frame_duration := max_frame_duration s;
     audio_diff_cum := audio_diff_cum s;
     audio_diff_avg_coef := audio_diff_avg_coef s;
     audio_diff_threshold := audio_diff_threshold s;
     audio_diff_avg_count := audio_diff_avg_count s;
     audio_src_freq := audio_src_freq s |}.

Definition get_master_sync_type (s : VideoState) : AvSyncType :=
  match av_sync_type s with
  | AV_SYNC_VIDEO_MASTER =>
      if video_st s then AV_SYNC_VIDEO_MASTER else AV_SYNC_AUDIO_MASTER
  | AV_SYNC_AUDIO_MASTER =>
      if audio_st s then AV_SYNC_AUDIO_MASTER else AV_SYNC_EXTERNAL_CLOCK
  | AV_SYNC_EXTERNAL_CLOCK => AV_SYNC_EXTERNAL_CLOCK
  end.

(* get the current master clock value *)
Definition get_master_clock (s : VideoState) : Dbl.double :=
  match get_master_sync_type s with
  | AV_SYNC_VIDEO_MASTER => video_clock s
  | AV_SYNC_AUDIO_MASTER => audio_clock s
  | AV_SYNC_EXTERNAL_CLOCK => subtitle_clock s
  end.

Definition sync_threshold (delay : Dbl.double) : Dbl.double :=
  Dbl.FFMAX AV_SYNC_THRESHOLD_MIN (Dbl.FFMIN AV_SYNC_THRESHOLD_MAX delay).

Definition compute_target_delay (s : VideoState) (delay : Dbl.double)
  : Dbl.double :=
  (* update delay to follow master synchronisation source *)
  if negb (sync_eqb (get_master_sync_type s) AV_SYNC_VIDEO_MASTER) then
    (* if video is slave, we try to correct big delays by duplicating or
       deleting a frame *)
    let diff := (video_clock s - get_master_clock s)%dbl in
    let sync_threshold := sync_threshold delay in
    if negb (Dbl.isnan diff) && (Dbl.fabs diff <? max_frame_duration s)%dbl
    then
      if (diff <=? - sync_threshold)%dbl then
        Dbl.FFMAX d_zero (delay + diff)%dbl
      else if (diff >=? sync_threshold)%dbl
              && (delay >? AV_SYNC_FRAMEDUP_THRESHOLD)%dbl then
        (delay + diff)%dbl
      else if (diff >=? sync_threshold)%dbl then
        (d_two * delay)%dbl
      else delay
    else delay
  else delay.

(** A queued frame ([Frame]), as far as the scheduler reads it. *)
Record Frame := {
  serial : Z;
  pts : Dbl.double;
  duration : Dbl.double;
  bmp : bool;                         (* bmp != NULL *)
  uploaded : bool;
  sub_start_display_time : Z;         (* sub.start_display_time, uint32_t *)
  sub_end_display_time : Z            (* sub.end_display_time, uint32_t *)
}.

Definition vp_duration (s : VideoState) (vp nextvp : Frame) : Dbl.double :=
  if serial vp =? serial nextvp then
    let duration_ := (pts nextvp - pts vp)%dbl in
    if Dbl.isnan duration_ || (duration_ <=? d_zero)%dbl
       || (duration_ >? max_frame_duration s)%dbl
    then duration vp
    else duration_
  else d_zero.

Definition check_external_clock_speed (s : VideoState) : VideoState :=
  if ((video_stream s >=? 0)
      && (video_nb_packets s <=? Z.to_N EXTERNAL_CLOCK_MIN_FRAMES)%N)
     || ((audio_stream s >=? 0)
         && (audio_nb_packets s <=? Z.to_N EXTERNAL_CLOCK_MIN_FRAMES)%N)
  then
    SetClockSpeed s
      (Dbl.FFMAX EXTERNAL_CLOCK_SPEED_MIN
         (subtitle_speed s - EXTERNAL_CLOCK_SPEED_STEP)%dbl)
  else if ((video_stream s <? 0)
           || (Z.to_N EXTERNAL_CLOCK_MAX_FRAMES <? video_nb_packets s)%N)
          && ((audio_stream s <? 0)
              || (Z.to_N EXTERNAL_CLOCK_MAX_FRAMES <? audio_nb_packets s)%N)
  then
    SetClockSpeed s
      (Dbl.FFMIN EXTERNAL_CLOCK_SPEED_MAX
         (subtitle_speed s + EXTERNAL_CLOCK_SPEED_STEP)%dbl)
  else
    let speed := subtitle_speed s in
    if (speed !=? d_one)%dbl then
      SetClockSpeed s
        (speed + EXTERNAL_CLOCK_SPEED_STEP * (d_one - speed)
                 / Dbl.fabs (d_one - speed))%dbl
    else s.

Definition synchronize_audio (s : VideoState) (nb_samples : Z)
  : VideoState * Z :=
  let wanted_nb_samples := nb_samples in
  (* if not master, then we try to remove or add samples to correct the
     clock *)
  if negb (sync_eqb (get_master_sync_type s) AV_SYNC_AUDIO_MASTER) then
    let diff := (audio_clock s - get_master_clock s)%dbl in
    if negb (Dbl.isnan diff) && (Dbl.fabs diff <? AV_NOSYNC_THRESHOLD)%dbl
    then
      let cum := (diff + audio_diff_avg_coef s * audio_diff_cum s)%dbl in
      if audio_diff_avg_count s <? AUDIO_DIFF_AVG_NB then
        (* not enough measures to have a correct estimate *)
        (set_audio_diff s cum (Int.add (audio_diff_avg_count s) 1),
         wanted_nb_samples)
      else
        (* estimate the A-V difference *)
        let avg_diff := (cum * (d_one - audio_diff_avg_coef s))%dbl in
        if (Dbl.fabs avg_diff >=? audio_diff_threshold s)%dbl then
          let wanted :=
            Int.add nb_samples
              (Int.of_double (diff * Dbl.of_int (audio_src_freq s))%dbl) in
          let min_nb_samples :=
            Int.div (Int.mul nb_samples (100 - SAMPLE_CORRECTION_PERCENT_MAX))
                    100 in
          let max_nb_samples :=
            Int.div (Int.mul nb_samples (100 + SAMPLE_CORRECTION_PERCENT_MAX))
                    100 in
          (set_audio_diff s cum (audio_diff_avg_count s),
           Int.av_clip wanted min_nb_samples max_nb_samples)
        else
          (set_audio_diff s cum (audio_diff_avg_count s), wanted_nb_samples)
    else
      (* too big difference : may be initial PTS errors, so reset A-V
         filter *)
      (set_audio_diff s d_zero 0, wanted_nb_samples)
  else (s, wanted_nb_samples).

(** *** The refresh step *)

Inductive ShowMode :=
| SHOW_MODE_NONE
| SHOW_MODE_VIDEO
| SHOW_MODE_WAVES
| SHOW_MODE_RDFT.

Definition show_mode_eqb (a b : ShowMode) : bool :=
  match a, b with
  | SHOW_MODE_NONE, SHOW_MODE_NONE
  | SHOW_MODE_VIDEO, SHOW_MODE_VIDEO
  | SHOW_MODE_WAVES, SHOW_MODE_WAVES
  | SHOW_MODE_RDFT, SHOW_MODE_RDFT => true
  | _, _ => false
  end.

Inductive Engine := Video | Audio | Subtitle.

(** What the step does to its collaborators: the calls it makes on the
    renderer and on the stream engines, most recent first. *)
Inductive Event :=
| EvImageDisplay (vp : Frame)        (* video_image_display() on peek_last() = vp *)
| EvAudioDisplay                     (* video_audio_display() *)
| EvSubtitleClear (sp : Frame)       (* the texture of an uploaded subtitle is cleared *)
| EvSetClock (pts : Dbl.double) (serial : Z)  (* video_engine_->SetClock(pts, serial) *)
| EvSyncClockWith                    (* subtitle_engine_->SyncClockWith(video_engine_, ...) *)
| EvSetPaused (e : Engine) (paused : bool)
| EvSyncSerialClock (e : Engine).

(** What the step reads from outside: the system time and the stream
    engines, whose code is not among the sources.  The [n]-th reading
    of a step is the value at [n]. *)
Record Env := {
  av_gettime_relative : nat -> Z;
  video_GetClock : nat -> Dbl.double;
  audio_GetClock : nat -> Dbl.double;
  subtitle_GetClock : nat -> Dbl.double;
  video_GetPts : nat -> Dbl.double;
  video_LastUpdatedClock : nat -> Dbl.double
}.

(** The fields a refresh step only reads. *)
Record Config := {
  display_disable : bool;             (* opt->display_disable *)
  show_mode : ShowMode;               (* opt->show_mode *)
  rdftspeed : Dbl.double;             (* opt->rdftspeed *)
  framedrop : Z;                      (* opt->framedrop *)
  realtime : bool;
  subtitle_st : bool;                 (* subtitle_st != NULL *)
  video_queue_serial : Z;             (* video_engine_->packet_queue_->serial *)
  subtitle_queue_serial : Z;          (* subtitle_engine_->packet_queue_->serial *)
  step : bool;
  read_pause_enosys : bool            (* read_pause_return == AVERROR(ENOSYS) *)
}.

(** The fields a refresh step writes. *)
Record Refresh := mkRefresh {
  sync : VideoState;
  video_frame_queue : FrameQueue.t Frame;
  subtitle_frame_queue : FrameQueue.t Frame;
  force_refresh : bool;
  paused : bool;
  last_vis_time : Dbl.double;
  frame_timer : Dbl.double;
  frame_drops_late : Z;
  remaining_time : Dbl.double;        (* *remaining_time *)
  reads : nat;                        (* outside readings made so far *)
  trace : list Event
}.

Definition set_sync (s : VideoState) (r : Refresh) : Refresh :=
  mkRefresh s (video_frame_queue r) (subtitle_frame_queue r)
    (force_refresh r) (paused r) (last_vis_time r) (frame_timer r)
    (frame_drops_late r) (remaining_time r) (reads r) (trace r).
Definition set_video_queue (q : FrameQueue.t Frame) (r : Refresh) : Refresh :=
  mkRefresh (sync r) q (subtitle_frame_queue r)
    (force_refresh r) (paused r) (last_vis_time r) (frame_timer r)
    (frame_drops_late r) (remaining_time r) (reads r) (trace r).
Definition set_subtitle_queue (q : FrameQueue.t Frame) (r : Refresh)
  : Refresh :=
  mkRefresh (sync r) (video_frame_queue r) q
    (force_refresh r) (paused r) (last_vis_time r) (frame_timer r)
    (frame_drops_late r) (remaining_time r) (reads r) (trace r).
Definition set_force_refresh (b : bool) (r : Refresh) : Refresh :=
  mkRefresh (sync r) (video_frame_queue r) (subtitle_frame_queue r)
    b (paused r) (last_vis_time r) (frame_timer r)
    (frame_drops_late r) (remaining_time r) (reads r) (trace r).
Definition set_paused (b : bool) (r : Refresh) : Refresh :=
  mkRefresh (sync r) (video_frame_queue r) (subtitle_frame_queue r)
    (force_refresh r) b (last_vis_time r) (frame_timer r)
    (frame_drops_late r) (remaining_time r) (reads r) (trace r).
Definition set_last_vis_time (t : Dbl.double) (r : Refresh) : Refresh :=
  mkRefresh (sync r) (video_frame_queue r) (subtitle_frame_queue r)
    (force_refresh r) (paused r) t (frame_timer r)
    (frame_drops_late r) (remaining_time r) (reads r) (trace r).
Definition set_frame_timer (t : Dbl.double) (r : Refresh) : Refresh :=
  mkRefresh (sync r) (video_frame_queue r) (subtitle_frame_queue r)
    (force_refresh r) (paused r) (last_vis_time r) t
    (frame_drops_late r) (remaining_time r) (reads r) (trace r).
Definition set_frame_drops_late (n : Z) (r : Refresh) : Refresh :=
  mkRefresh (sync r) (video_frame_queue r) (subtitle_frame_queue r)
    (force_refresh r) (paused r) (last_vis_time r) (frame_timer r)
    n (remaining_time r) (reads r) (trace r).
Definition set_remaining_time (t : Dbl.double) (r : Refresh) : Refresh :=
  mkRefresh (sync r) (video_frame_queue r) (subtitle_frame_queue r)
    (force_refresh r) (paused r) (last_vis_time r) (frame_timer r)
    (frame_drops_late r) t (reads r) (trace r).
Definition next_reading (r : Refresh) : Refresh :=
  mkRefresh (sync r) (video_frame_queue r) (subtitle_frame_queue r)
    (force_refresh r) (paused r) (last_vis_time r) (frame_timer r)
    (frame_drops_late r) (remaining_time r) (S (reads r)) (trace r).
Definition emit (e : Event) (r : Refresh) : Refresh :=
  mkRefresh (sync r) (video_frame_queue r) (subtitle_frame_queue r)
    (force_refresh r) (paused r) (last_vis_time r) (frame_timer r)
    (frame_drops_late r) (remaining_time r) (reads r) (e :: trace r).

Definition d_million : Dbl.double := Eval vm_compute in Dbl.of_int 1000000.

(** [av_gettime_relative() / 1000000.0]. *)
Definition time_now (env : Env) (r : Refresh) : Dbl.double * Refresh :=
  ((Dbl.of_int (av_gettime_relative env (reads r)) / d_million)%dbl,
   next_reading r).

(** The synchronisation state with the stream clocks as they read now. *)
Definition clocks_now (env : Env) (r : Refresh) : VideoState :=
  let s := sync r in
  {| av_sync_type := av_sync_type s;
     video_st := video_st s; audio_st := audio_st s;
     video_stream := video_stream s; audio_stream := audio_stream s;
     video_clock := video_GetClock env (reads r);
     audio_clock := audio_GetClock env (reads r);
     subtitle_clock := subtitle_GetClock env (reads r);
     subtitle_speed := subtitle_speed s;
     video_nb_packets := video_nb_packets s;
     audio_nb_packets := audio_nb_packets s;
     max_frame_duration := max_frame_duration s;
     audio_diff_cum := audio_diff_cum s;
     audio_diff_avg_coef := audio_diff_avg_coef s;
     audio_diff_threshold := audio_diff_threshold s;
     audio_diff_avg_count := audio_diff_avg_count s;
     audio_src_freq := audio_src_freq s |}.

(** [video_image_display()] hands [peek_last()] to the renderer when the
    frame has a bitmap (the subtitle blending, the texture upload and the SDL
    calls are the renderer's). *)
Definition video_image_display (r : Refresh) : Refresh :=
  match FrameQueue.peek_last (video_frame_queue r) with
  | Some vp => if bmp vp then emit (EvImageDisplay vp) r else r
  | None => r
  end.

Definition video_display (c : Config) (r : Refresh) : Refresh :=
  if audio_st (sync r) && negb (show_mode_eqb (show_mode c) SHOW_MODE_VIDEO)
  then emit EvAudioDisplay r
  else if video_st (sync r) then video_image_display r
  else r.

Definition update_video_pts (pts : Dbl.double) (serial : Z) (r : Refresh)
  : Refresh :=
  (* update current video pts *)
  emit EvSyncClockWith (emit (EvSetClock pts serial) r).

Definition stream_toggle_pause (env : Env) (c : Config) (r : Refresh)
  : Refresh :=
  let r :=
    if paused r then
      let (time, r) := time_now env r in
      let r :=
        set_frame_timer
          (frame_timer r + (time - video_LastUpdatedClock env (reads r)))%dbl
          (next_reading r) in
      let r := if negb (read_pause_enosys c)
               then emit (EvSetPaused Video false) r else r in
      emit (EvSyncSerialClock Video) r
    else r in
  let r := emit (EvSyncSerialClock Subtitle) r in
  let r := set_paused (negb (paused r)) r in
  emit (EvSetPaused Subtitle (paused r))
    (emit (EvSetPaused Video (paused r))
       (emit (EvSetPaused Audio (paused r)) r)).

(** [static_cast<float>(ms) / 1000], promoted to [double]. *)
Definition display_time (ms : Z) : Dbl.double :=
  Flt.to_double (Flt.div (Flt.of_int ms) (Flt.of_int 1000)).

Section Refresh.

Variable env : Env.
Variable c : Config.

(** The [while] loop over the subtitle queue: a subtitle that is stale
    or over is consumed; [fuel] bounds the number of turns. *)
Fixpoint drop_subtitles (fuel : nat) (r : Refresh) : option Refresh :=
  match fuel with
  | O => None
  | S fuel =>
      let q := subtitle_frame_queue r in
      match FrameQueue.peek q with
      | Some sp =>
          let sp2 := if (1 <? FrameQueue.remaining_count q)%nat
                     then FrameQueue.peek_next q else None in
          let video_pts := video_GetPts env (reads r) in
          let r := next_reading r in
          if negb (serial sp =? subtitle_queue_serial c)
             || (video_pts
                 >? pts sp + display_time (sub_end_display_time sp))%dbl
             || match sp2 with
                | Some sp2 =>
                    (video_pts
                     >? pts sp2
                        + display_time (sub_start_display_time sp2))%dbl
                | None => false
                end
          then
            let r := if uploaded sp then emit (EvSubtitleClear sp) r
                     else r in
            drop_subtitles fuel
              (set_subtitle_queue (FrameQueue.move_to_next q) r)
          else Some r
      | None => Some r
      end
  end.

(** The body between the label [retry] and the label [display] of
    [video_refresh]; a [goto retry] is a recursive call, made after
    [next()] has consumed a frame, and [fuel] bounds their number. *)
Fixpoint retry (fuel : nat) (r : Refresh) : option Refresh :=
  match fuel with
  | O => None
  | S fuel =>
      let q := video_frame_queue r in
      if (FrameQueue.remaining_count q =? 0)%nat then
        (* nothing to do, no picture to display in the queue *)
        Some r
      else
        (* dequeue the picture *)
        match FrameQueue.peek_last q, FrameQueue.peek q with
        | Some lastvp, Some vp =>
            if negb (serial vp =? video_queue_serial c) then
              retry fuel (set_video_queue (FrameQueue.move_to_next q) r)
            else
              let r :=
                if negb (serial lastvp =? serial vp) then
                  let (time, r) := time_now env r in
                  set_frame_timer time r
                else r in
              if paused r then Some r
              else
                (* compute nominal last_duration *)
                let last_duration := vp_duration (sync r) lastvp vp in
                let delay :=
                  compute_target_delay (clocks_now env r) last_duration in
                let r := next_reading r in
                let (time, r) := time_now env r in
                if (time <? frame_timer r + delay)%dbl then
                  Some (set_remaining_time
                          (Dbl.FFMIN (frame_timer r + delay - time)%dbl
                                     (remaining_time r)) r)
                else
                  let r := set_frame_timer (frame_timer r + delay)%dbl r in
                  let r :=
                    if (delay >? d_zero)%dbl
                       && (time - frame_timer r >? AV_SYNC_THRESHOLD_MAX)%dbl
                    then set_frame_timer time r else r in
                  let r :=
                    if negb (Dbl.isnan (pts vp))
                    then update_video_pts (pts vp) (serial vp) r
                    else r in
                  let late :=
                    if (1 <? FrameQueue.remaining_count q)%nat then
                      match FrameQueue.peek_next q with
                      | Some nextvp =>
                          let duration := vp_duration (sync r) vp nextvp in
                          negb (step c)
                          && ((framedrop c >? 0)
                              || (negb (framedrop c =? 0)
                                  && negb (sync_eqb
                                             (get_master_sync_type (sync r))
                                             AV_SYNC_VIDEO_MASTER)))
                          && (time >? frame_timer r + duration)%dbl
                      | None => false
                      end
                    else false in
                  if late then
                    retry fuel
                      (set_video_queue (FrameQueue.move_to_next q)
                         (set_frame_drops_late
                            (Int.add (frame_drops_late r) 1) r))
                  else
                    let subs :=
                      if subtitle_st c then
                        drop_subtitles
                          (S (FrameQueue.remaining_count
                                (subtitle_frame_queue r))) r
                      else Some r in
                    match subs with
                    | Some r =>
                        let r :=
                          set_video_queue (FrameQueue.move_to_next q) r in
                        let r := set_force_refresh true r in
                        Some (if step c && negb (paused r)
                              then stream_toggle_pause env c r else r)
                    | None => None
                    end
        | _, _ => Some r
        end
  end.

(** [video_refresh(remaining_time)]; the status line printed under
    [opt->show_status] only logs and is left out. *)
Definition video_refresh (r : Refresh) : option Refresh :=
  let r :=
    if negb (paused r)
       && sync_eqb (get_master_sync_type (sync r)) AV_SYNC_EXTERNAL_CLOCK
       && realtime c
    then set_sync (check_external_clock_speed (sync r)) r
    else r in
  let r :=
    if negb (display_disable c)
       && negb (show_mode_eqb (show_mode c) SHOW_MODE_VIDEO)
       && audio_st (sync r)
    then
      let (time, r) := time_now env r in
      let r :=
        if force_refresh r || (last_vis_time r + rdftspeed c <? time)%dbl
        then set_last_vis_time time (video_display c r) else r in
      set_remaining_time
        (Dbl.FFMIN (remaining_time r)
                   (last_vis_time r + rdftspeed c - time)%dbl) r
    else r in
  let r :=
    if video_st (sync r) then
      match retry (S (FrameQueue.remaining_count (video_frame_queue r))) r
      with
      | Some r =>
          (* display picture *)
          Some (if negb (display_disable c) && force_refresh r
                   && show_mode_eqb (show_mode c) SHOW_MODE_VIDEO
                   && FrameQueue.rindex_shown (video_frame_queue r)
                then video_display c r else r)
      | None => None
      end
    else Some r in
  match r with
  | Some r => Some (set_force_refresh false r)
  | None => None
  end.

End Refresh.

End Core.

(** ** [src/video_state.cpp] *)

Module Player.

(** [core::AvSyncType] of [src/core/types.h]. *)
Inductive AvSyncType :=
| AV_SYNC_AUDIO_MASTER (* default choice *)
| AV_SYNC_VIDEO_MASTER.

Definition sync_eqb (a b : AvSyncType) : bool :=
  match a, b with
  | AV_SYNC_AUDIO_MASTER, AV_SYNC_AUDIO_MASTER
  | AV_SYNC_VIDEO_MASTER, AV_SYNC_VIDEO_MASTER => true
  | _, _ => false
  end.

(** [AV_NOPTS_VALUE] of libavutil: [((int64_t)UINT64_C(0x8000000000000000))]. *)
Definition AV_NOPTS_VALUE : Z := - 2 ^ 63.

(** The part of [VideoState] read and written by the synchronisation
    code.  The stream, decoder and packet-queue classes are declared
    outside the modelled file: the record carries what their accessors
    return at the time of the call. *)
Record VideoState := {
  av_sync_type : AvSyncType;          (* opt_->av_sync_type *)
  framedrop : Z;                      (* opt_->framedrop *)
  vstream_clock : Dbl.double;         (* vstream_->GetClock() *)
  astream_clock : Dbl.double;         (* astream_->GetClock() *)
  vstream_q2d : Dbl.double;           (* vstream_->q2d() *)
  vstream_serial : Z;                 (* vstream_->Serial() *)
  viddec_pkt_serial : Z;              (* viddec_->GetPktSerial() *)
  video_nb_packets : N;               (* vstream_->Queue()->NbPackets() *)
  max_frame_duration : Dbl.double;
  frame_last_filter_delay : Dbl.double;
  audio_diff_cum : Dbl.double;
  audio_diff_avg_coef : Dbl.double;
  audio_diff_threshold : Dbl.double;
  audio_diff_avg_count : Z;
  audio_src_freq : Z;                 (* audio_src_.freq *)
  frame_drops_early : N               (* stats_.frame_drops_early *)
}.

Definition set_audio_diff (s : VideoState) (cum : Dbl.double) (count : Z)
  : VideoState :=
  {| av_sync_type := av_sync_type s; framedrop := framedrop s;
     vstream_clock := vstream_clock s; astream_clock := astream_clock s;
     vstream_q2d := vstream_q2d s; vstream_serial := vstream_serial s;
     viddec_pkt_serial := viddec_pkt_serial s;
     video_nb_packets := video_nb_packets s;
     max_frame_duration := max_frame_duration s;
     frame_last_filter_delay := frame_last_filter_delay s;
     audio_diff_cum := cum;
     audio_diff_avg_coef := audio_diff_avg_coef s;
     audio_diff_threshold := audio_diff_threshold s;
     audio_diff_avg_count := count;
     audio_src_freq := audio_src_freq s;
     frame_drops_early := frame_drops_early s |}.

Definition set_frame_drops_early (s : VideoState) (n : N) : VideoState :=
  {| av_sync_type := av_sync_type s; framedrop := framedrop s;
     vstream_clock := vstream_clock s; astream_clock := astream_clock s;
     vstream_q2d := vstream_q2d s; vstream_serial := vstream_serial s;
     viddec_pkt_serial := viddec_pkt_serial s;
     video_nb_packets := video_nb_packets s;
     max_frame_duration := max_frame_duration s;
     frame_last_filter_delay := frame_last_filter_delay s;
     audio_diff_cum := audio_diff_cum s;
     audio_diff_avg_coef := audio_diff_avg_coef s;
     audio_diff_threshold := audio_diff_threshold s;
     audio_diff_avg_count := audio_diff_avg_count s;
     audio_src_freq := audio_src_freq s;
     frame_drops_early := n |}.

Definition GetMasterSyncType (s : VideoState) : AvSyncType :=
  av_sync_type s.

(* get the current master clock value *)
Definition GetMasterClock (s : VideoState) : Dbl.double :=
  if sync_eqb (GetMasterSyncType s) AV_SYNC_VIDEO_MASTER then vstream_clock s
  else astream_clock s.

Definition sync_threshold (delay : Dbl.double) : Dbl.double :=
  Dbl.FFMAX AV_SYNC_THRESHOLD_MIN (Dbl.FFMIN AV_SYNC_THRESHOLD_MAX delay).

Definition ComputeTargetDelay (s : VideoState) (delay : Dbl.double)
  : Dbl.double :=
  (* update delay to follow master synchronisation source *)
  if negb (sync_eqb (GetMasterSyncType s) AV_SYNC_VIDEO_MASTER) then
    (* if video is slave, we try to correct big delays by duplicating or
       deleting a frame *)
    let diff := (vstream_clock s - GetMasterClock s)%dbl in
    let sync_threshold := sync_threshold delay in
    if negb (Dbl.isnan diff) && (Dbl.fabs diff <? max_frame_duration s)%dbl
    then
      if (diff <=? - sync_threshold)%dbl then
        Dbl.FFMAX d_zero (delay + diff)%dbl
      else if (diff >=? sync_threshold)%dbl
              && (delay >? AV_SYNC_FRAMEDUP_THRESHOLD)%dbl then
        (delay + diff)%dbl
      else if (diff >=? sync_threshold)%dbl then
        (d_two * delay)%dbl
      else delay
    else delay
  else delay.

Definition SynchronizeAudio (s : VideoState) (nb_samples : Z)
  : VideoState * Z :=
  let wanted_nb_samples := nb_samples in
  (* if not master, then we try to remove or add samples to correct the
     clock *)
  if negb (sync_eqb (GetMasterSyncType s) AV_SYNC_AUDIO_MASTER) then
    let diff := (astream_clock s - GetMasterClock s)%dbl in
    if negb (Dbl.isnan diff) && (Dbl.fabs diff <? AV_NOSYNC_THRESHOLD)%dbl
    then
      let cum := (diff + audio_diff_avg_coef s * audio_diff_cum s)%dbl in
      if audio_diff_avg_count s <? AUDIO_DIFF_AVG_NB then
        (* not enough measures to have a correct estimate *)
        (set_audio_diff s cum (Int.add (audio_diff_avg_count s) 1),
         wanted_nb_samples)
      else
        (* estimate the A-V difference *)
        let avg_diff := (cum * (d_one - audio_diff_avg_coef s))%dbl in
        if (Dbl.fabs avg_diff >=? audio_diff_threshold s)%dbl then
          let wanted :=
            Int.add nb_samples
              (Int.of_double (diff * Dbl.of_int (audio_src_freq s))%dbl) in
          let min_nb_samples :=
            Int.div (Int.mul nb_samples (100 - SAMPLE_CORRECTION_PERCENT_MAX))
                    100 in
          let max_nb_samples :=
            Int.div (Int.mul nb_samples (100 + SAMPLE_CORRECTION_PERCENT_MAX))
                    100 in
          (set_audio_diff s cum (audio_diff_avg_count s),
           Int.av_clip wanted min_nb_samples max_nb_samples)
        else
          (set_audio_diff s cum (audio_diff_avg_count s), wanted_nb_samples)
    else
      (* too big difference : may be initial PTS errors, so reset A-V
         filter *)
      (set_audio_diff s d_zero 0, wanted_nb_samples)
  else (s, wanted_nb_samples).

(** Frame dropping is enabled for the current master:
    [opt_->framedrop > 0 ||
     (opt_->framedrop && GetMasterSyncType() != AV_SYNC_VIDEO_MASTER)]. *)
Definition framedrop_enabled (s : VideoState) : bool :=
  (framedrop s >? 0)
  || (negb (framedrop s =? 0)
      && negb (sync_eqb (GetMasterSyncType s) AV_SYNC_VIDEO_MASTER)).

(** What [GetVideoFrame] leaves behind: its return value, whether
    [av_frame_unref(frame)] ran, and the state. *)
Record VideoFrameResult := {
  got : Z;
  unref : bool;
  after : VideoState
}.

(** [GetVideoFrame(frame)], given what [viddec_->DecodeFrame(frame)]
    returned and the [pts] it stored in the frame. *)
Definition GetVideoFrame (s : VideoState) (got_picture : Z) (frame_pts : Z)
  : VideoFrameResult :=
  if got_picture <? 0 then {| got := -1; unref := false; after := s |}
  else if negb (got_picture =? 0) then
    let dpts :=
      if negb (frame_pts =? AV_NOPTS_VALUE)
      then (vstream_q2d s * Dbl.of_int frame_pts)%dbl
      else S754_nan in
    if framedrop_enabled s then
      if negb (frame_pts =? AV_NOPTS_VALUE) then
        let diff := (dpts - GetMasterClock s)%dbl in
        if negb (Dbl.isnan diff)
           && (Dbl.fabs diff <? AV_NOSYNC_THRESHOLD)%dbl
           && (diff - frame_last_filter_delay s <? d_zero)%dbl
           && (viddec_pkt_serial s =? vstream_serial s)
           && negb (video_nb_packets s =? 0)%N
        then
          {| got := 0; unref := true;
             after := set_frame_drops_early s (N.succ (frame_drops_early s)) |}
        else {| got := got_picture; unref := false; after := s |}
      else {| got := got_picture; unref := false; after := s |}
    else {| got := got_picture; unref := false; after := s |}
  else {| got := got_picture; unref := false; after := s |}.

(** *** The refresh step *)

(** [core::ShowMode]. *)
Inductive ShowMode :=
| SHOW_MODE_NONE
| SHOW_MODE_VIDEO
| SHOW_MODE_WAVES
| SHOW_MODE_RDFT.

Definition show_mode_eqb (a b : ShowMode) : bool :=
  match a, b with
  | SHOW_MODE_NONE, SHOW_MODE_NONE
  | SHOW_MODE_VIDEO, SHOW_MODE_VIDEO
  | SHOW_MODE_WAVES, SHOW_MODE_WAVES
  | SHOW_MODE_RDFT, SHOW_MODE_RDFT => true
  | _, _ => false
  end.

(** A decoded picture of the frame queue ([core::VideoFrame]), as far as
    the scheduler reads it. *)
Record VideoFrame := {
  serial : Z;
  pts : Dbl.double;
  duration : Dbl.double;
  bmp : bool                          (* bmp != NULL *)
}.

(** The video frame queue and its accessors under the names the file
    calls them by. *)
Definition FrameQueue : Type := FrameQueue.t VideoFrame.
Definition IsEmpty (q : FrameQueue) : bool := FrameQueue.is_empty q.
Definition Peek (q : FrameQueue) : option VideoFrame := FrameQueue.peek q.
Definition PeekNextOrNull (q : FrameQueue) : option VideoFrame :=
  FrameQueue.peek_next q.
Definition PeekLast (q : FrameQueue) : option VideoFrame :=
  FrameQueue.peek_last q.
Definition RindexShown (q : FrameQueue) : bool := FrameQueue.rindex_shown q.
Definition MoveToNext (q : FrameQueue) : FrameQueue :=
  FrameQueue.move_to_next q.

(** What the step does to its collaborators: the calls it makes on the
    renderer and on the stream clocks, most recent first. *)
Inductive Event :=
| EvImageDisplay (vp : VideoFrame)   (* VideoImageDisplay() on PeekLast() = vp *)
| EvAudioDisplay                     (* VideoAudioDisplay() *)
| EvSetClock (pts : Dbl.double) (serial : Z)  (* vstream_->SetClock(pts, serial) *)
| EvSetPaused (video : bool) (paused : bool)  (* vstream_/astream_->SetPaused(paused) *)
| EvSyncSerialClock.                 (* vstream_->SyncSerialClock() *)

(** What the step reads from outside: the system time and the stream
    clocks, whose code is not among the sources.  The [n]-th reading of
    a step is the value at [n]. *)
Record Env := {
  av_gettime_relative : nat -> Z;
  vstream_GetClock : nat -> Dbl.double;
  astream_GetClock : nat -> Dbl.double;
  vstream_LastUpdatedClock : nat -> Dbl.double
}.

(** The fields a refresh step only reads. *)
Record Config := {
  sync : VideoState;
  display_disable : bool;             (* opt_->display_disable *)
  show_mode : ShowMode;               (* opt_->show_mode *)
  vstream_opened : bool;              (* vstream_->IsOpened() *)
  astream_opened : bool;              (* astream_->IsOpened() *)
  video_queue_serial : Z;             (* vstream_->Queue()->Serial() *)
  step : bool;                        (* step_ *)
  read_pause_enosys : bool            (* read_pause_return_ == AVERROR(ENOSYS) *)
}.

(** The fields a refresh step writes. *)
Record Refresh := mkRefresh {
  video_frame_queue : FrameQueue;
  force_refresh : bool;
  paused : bool;
  last_vis_time : Dbl.double;
  frame_timer : Dbl.double;
  frame_drops_late : N;               (* stats_.frame_drops_late *)
  remaining_time : Dbl.double;        (* *remaining_time *)
  reads : nat;                        (* outside readings made so far *)
  trace : list Event
}.

Definition set_queue (q : FrameQueue) (r : Refresh) : Refresh :=
  mkRefresh q (force_refresh r) (paused r) (last_vis_time r) (frame_timer r)
    (frame_drops_late r) (remaining_time r) (reads r) (trace r).
Definition set_force_refresh (b : bool) (r : Refresh) : Refresh :=
  mkRefresh (video_frame_queue r) b (paused r) (last_vis_time r)
    (frame_timer r) (frame_drops_late r) (remaining_time r) (reads r)
    (trace r).
Definition set_paused (b : bool) (r : Refresh) : Refresh :=
  mkRefresh (video_frame_queue r) (force_refresh r) b (last_vis_time r)
    (frame_timer r) (frame_drops_late r) (remaining_time r) (reads r)
    (trace r).
Definition set_last_vis_time (t : Dbl.double) (r : Refresh) : Refresh :=
  mkRefresh (video_frame_queue r) (force_refresh r) (paused r) t
    (frame_timer r) (frame_drops_late r) (remaining_time r) (reads r)
    (trace r).
Definition set_frame_timer (t : Dbl.double) (r : Refresh) : Refresh :=
  mkRefresh (video_frame_queue r) (force_refresh r) (paused r)
    (last_vis_time r) t (frame_drops_late r) (remaining_time r) (reads r)
    (trace r).
Definition set_frame_drops_late (n : N) (r : Refresh) : Refresh :=
  mkRefresh (video_frame_queue r) (force_refresh r) (paused r)
    (last_vis_time r) (frame_timer r) n (remaining_time r) (reads r)
    (trace r).
Definition set_remaining_time (t : Dbl.double) (r : Refresh) : Refresh :=
  mkRefresh (video_frame_queue r) (force_refresh r) (paused r)
    (last_vis_time r) (frame_timer r) (frame_drops_late r) t (reads r)
    (trace r).
Definition next_reading (r : Refresh) : Refresh :=
  mkRefresh (video_frame_queue r) (force_refresh r) (paused r)
    (last_vis_time r) (frame_timer r) (frame_drops_late r)
    (remaining_time r) (S (reads r)) (trace r).
Definition emit (e : Event) (r : Refresh) : Refresh :=
  mkRefresh (video_frame_queue r) (force_refresh r) (paused r)
    (last_vis_time r) (frame_timer r) (frame_drops_late r)
    (remaining_time r) (reads r) (e :: trace r).

Definition d_million : Dbl.double := Eval vm_compute in Dbl.of_int 1000000.

(** [av_gettime_relative() / 1000000.0]. *)
Definition time_now (env : Env) (r : Refresh) : Dbl.double * Refresh :=
  ((Dbl.of_int (av_gettime_relative env (reads r)) / d_million)%dbl,
   next_reading r).

(** The synchronisation state with the stream clocks as they read now. *)
Definition clocks_now (env : Env) (c : Config) (r : Refresh) : VideoState :=
  let s := sync c in
  {| av_sync_type := av_sync_type s; framedrop := framedrop s;
     vstream_clock := vstream_GetClock env (reads r);
     astream_clock := astream_GetClock env (reads r);
     vstream_q2d := vstream_q2d s; vstream_serial := vstream_serial s;
     viddec_pkt_serial := viddec_pkt_serial s;
     video_nb_packets := video_nb_packets s;
     max_frame_duration := max_frame_duration s;
     frame_last_filter_delay := frame_last_filter_delay s;
     audio_diff_cum := audio_diff_cum s;
     audio_diff_avg_coef := audio_diff_avg_coef s;
     audio_diff_threshold := audio_diff_threshold s;
     audio_diff_avg_count := audio_diff_avg_count s;
     audio_src_freq := audio_src_freq s;
     frame_drops_early := frame_drops_early s |}.

(** [VideoImageDisplay()] hands [PeekLast()] to the renderer when the frame
    has a bitmap (the texture upload and the SDL calls are the
    renderer's). *)
Definition VideoImageDisplay (r : Refresh) : Refresh :=
  match PeekLast (video_frame_queue r) with
  | Some vp => if bmp vp then emit (EvImageDisplay vp) r else r
  | None => r
  end.

(* display the current picture, if any *)
Definition VideoDisplay (c : Config) (r : Refresh) : Refresh :=
  if astream_opened c && negb (show_mode_eqb (show_mode c) SHOW_MODE_VIDEO)
  then emit EvAudioDisplay r
  else if vstream_opened c then VideoImageDisplay r
  else r.

Definition StreamTogglePause (env : Env) (c : Config) (r : Refresh)
  : Refresh :=
  let r :=
    if paused r then
      let (time, r) := time_now env r in
      let r :=
        set_frame_timer
          (frame_timer r + (time - vstream_LastUpdatedClock env (reads r)))%dbl
          (next_reading r) in
      let r := if negb (read_pause_enosys c)
               then emit (EvSetPaused true false) r else r in
      emit EvSyncSerialClock r
    else r in
  let r := set_paused (negb (paused r)) r in
  emit (EvSetPaused false (paused r)) (emit (EvSetPaused true (paused r)) r).

Section Refresh.

(** [core::VideoFrame::VpDuration(vp, nextvp, max_frame_duration)], whose
    code is not among the sources. *)
Variable VpDuration : VideoFrame -> VideoFrame -> Dbl.double -> Dbl.double.
Variable env : Env.
Variable c : Config.

(** The body between the label [retry] and the label [display] of
    [VideoRefresh]; a [goto retry] is a recursive call, made after
    [MoveToNext] has consumed a frame, and [fuel] bounds their number. *)
Fixpoint retry (fuel : nat) (r : Refresh) : option Refresh :=
  match fuel with
  | O => None
  | S fuel =>
      let q := video_frame_queue r in
      if IsEmpty q then
        (* nothing to do, no picture to display in the queue *)
        Some r
      else
        (* dequeue the picture *)
        match PeekLast q, Peek q with
        | Some lastvp, Some vp =>
            if negb (serial vp =? video_queue_serial c) then
              retry fuel (set_queue (MoveToNext q) r)
            else
              let r :=
                if negb (serial lastvp =? serial vp) then
                  let (time, r) := time_now env r in
                  set_frame_timer time r
                else r in
              if paused r then Some r
              else
                (* compute nominal last_duration *)
                let last_duration :=
                  VpDuration lastvp vp (max_frame_duration (sync c)) in
                let delay :=
                  ComputeTargetDelay (clocks_now env c r) last_duration in
                let r := next_reading r in
                let (time, r) := time_now env r in
                if (time <? frame_timer r + delay)%dbl then
                  Some (set_remaining_time
                          (Dbl.FFMIN (frame_timer r + delay - time)%dbl
                                     (remaining_time r)) r)
                else
                  let r := set_frame_timer (frame_timer r + delay)%dbl r in
                  let r :=
                    if (delay >? d_zero)%dbl
                       && (time - frame_timer r >? AV_SYNC_THRESHOLD_MAX)%dbl
                    then set_frame_timer time r else r in
                  let r :=
                    if negb (Dbl.isnan (pts vp))
                    then (* update current video pts *)
                      emit (EvSetClock (pts vp) (serial vp)) r
                    else r in
                  let late :=
                    match PeekNextOrNull q with
                    | Some nextvp =>
                        let duration :=
                          VpDuration vp nextvp
                            (max_frame_duration (sync c)) in
                        negb (step c)
                        && framedrop_enabled (sync c)
                        && (time >? frame_timer r + duration)%dbl
                    | None => false
                    end in
                  if late then
                    retry fuel
                      (set_queue (MoveToNext q)
                         (set_frame_drops_late
                            (N.succ (frame_drops_late r)) r))
                  else
                    let r := set_queue (MoveToNext q) r in
                    let r := set_force_refresh true r in
                    Some (if step c && negb (paused r)
                          then StreamTogglePause env c r else r)
        | _, _ => Some r
        end
  end.

(** [VideoRefresh(remaining_time)]; the status line printed under
    [opt_->show_status] only logs and is left out. *)
Definition VideoRefresh (r : Refresh) : option Refresh :=
  let video_st := vstream_opened c in
  let audio_st := astream_opened c in
  let r :=
    if negb (display_disable c)
       && negb (show_mode_eqb (show_mode c) SHOW_MODE_VIDEO) && audio_st
    then
      let (time, r) := time_now env r in
      let r :=
        if force_refresh r || (last_vis_time r <? time)%dbl
        then set_last_vis_time time (VideoDisplay c r) else r in
      set_remaining_time
        (Dbl.FFMIN (remaining_time r) (last_vis_time r - time)%dbl) r
    else r in
  let r :=
    if video_st then
      match retry (S (FrameQueue.remaining_count (video_frame_queue r))) r with
      | Some r =>
          (* display picture *)
          Some (if negb (display_disable c) && force_refresh r
                   && show_mode_eqb (show_mode c) SHOW_MODE_VIDEO
                   && RindexShown (video_frame_queue r)
                then VideoDisplay c r else r)
      | None => None
      end
    else Some r in
  match r with
  | Some r => Some (set_force_refresh false r)
  | None => None
  end.

End Refresh.

End Player.

(* ================================================================== *)
(** * Part II: the statements' vocabulary and example sessions *)
(* ================================================================== *)

(** ** Master clock selection *)

(** The selection chain as the specification words it: video when video is
    configured and open, else audio when audio is configured and open, else
    the external clock. *)
Definition claimed_master_sync_type
  (configured : Core.AvSyncType) (video_open audio_open : bool)
  : Core.AvSyncType :=
  if Core.sync_eqb configured Core.AV_SYNC_VIDEO_MASTER && video_open
  then Core.AV_SYNC_VIDEO_MASTER
  else if Core.sync_eqb configured Core.AV_SYNC_AUDIO_MASTER && audio_open
  then Core.AV_SYNC_AUDIO_MASTER
  else Core.AV_SYNC_EXTERNAL_CLOCK.

(** A session that prefers the video clock and has no stream open. *)
Definition video_preferred_nothing_open : Core.VideoState :=
  {| Core.av_sync_type := Core.AV_SYNC_VIDEO_MASTER;
     Core.video_st := false; Core.audio_st := false;
     Core.video_stream := -1; Core.audio_stream := -1;
     Core.video_clock := S754_nan; Core.audio_clock := S754_nan;
     Core.subtitle_clock := d_zero; Core.subtitle_speed := d_one;
     Core.video_nb_packets := 0; Core.audio_nb_packets := 0;
     Core.max_frame_duration := AV_NOSYNC_THRESHOLD;
     Core.audio_diff_cum := d_zero; Core.audio_diff_avg_coef := d_zero;
     Core.audio_diff_threshold := d_zero; Core.audio_diff_avg_count := 0;
     Core.audio_src_freq := 48000 |}.

(** ** The target delay *)

(** The double nearest to 0.2. *)
Definition d_fifth : Dbl.double := Eval vm_compute in Dbl.lit 2 10.

(** The nominal duration of a frame at 25 frames per second. *)
Definition d_frame_25fps : Dbl.double := Eval vm_compute in Dbl.lit 4 100.

(** The delay policy in the specification's words, for a nominal duration
    [d], a clock difference [diff] and a returned delay [r]. *)
Definition target_delay_policy (d diff r : Dbl.double) : Prop :=
  let sync_threshold :=
    Dbl.FFMAX AV_SYNC_THRESHOLD_MIN (Dbl.FFMIN AV_SYNC_THRESHOLD_MAX d) in
  ((diff <=? - sync_threshold)%dbl = true ->
   r = Dbl.FFMAX d_zero (d + diff)%dbl)
  /\ ((diff >=? sync_threshold)%dbl = true ->
      (d >? AV_SYNC_FRAMEDUP_THRESHOLD)%dbl = true ->
      r = (d + diff)%dbl)
  /\ ((diff >=? sync_threshold)%dbl = true ->
      (d >? AV_SYNC_FRAMEDUP_THRESHOLD)%dbl = false ->
      r = (d_two * d)%dbl)
  /\ ((diff <=? - sync_threshold)%dbl = false ->
      (diff >=? sync_threshold)%dbl = false ->
      r = d).

(** Video trails an audio master by a fifth of a second; both streams are
    open. *)
Definition core_video_lagging : Core.VideoState :=
  {| Core.av_sync_type := Core.AV_SYNC_AUDIO_MASTER;
     Core.video_st := true; Core.audio_st := true;
     Core.video_stream := 0; Core.audio_stream := 1;
     Core.video_clock := d_zero; Core.audio_clock := d_fifth;
     Core.subtitle_clock := d_zero; Core.subtitle_speed := d_one;
     Core.video_nb_packets := 5; Core.audio_nb_packets := 5;
     Core.max_frame_duration := AV_NOSYNC_THRESHOLD;
     Core.audio_diff_cum := d_zero; Core.audio_diff_avg_coef := d_zero;
     Core.audio_diff_threshold := d_zero; Core.audio_diff_avg_count := 0;
     Core.audio_src_freq := 48000 |}.

Definition player_video_lagging : Player.VideoState :=
  {| Player.av_sync_type := Player.AV_SYNC_AUDIO_MASTER;
     Player.framedrop := -1;
     Player.vstream_clock := d_zero; Player.astream_clock := d_fifth;
     Player.vstream_q2d := d_one; Player.vstream_serial := 1;
     Player.viddec_pkt_serial := 1; Player.video_nb_packets := 5;
     Player.max_frame_duration := AV_NOSYNC_THRESHOLD;
     Player.frame_last_filter_delay := d_zero;
     Player.audio_diff_cum := d_zero; Player.audio_diff_avg_coef := d_zero;
     Player.audio_diff_threshold := d_zero;
     Player.audio_diff_avg_count := 0;
     Player.audio_src_freq := 48000; Player.frame_drops_early := 0 |}.

(** The lagging session with every field outside the four inputs changed. *)
Definition core_video_lagging_other : Core.VideoState :=
  {| Core.av_sync_type := Core.AV_SYNC_AUDIO_MASTER;
     Core.video_st := false; Core.audio_st := true;
     Core.video_stream := -1; Core.audio_stream := 0;
     Core.video_clock := d_zero; Core.audio_clock := d_fifth;
     Core.subtitle_clock := S754_nan; Core.subtitle_speed := d_two;
     Core.video_nb_packets := 0; Core.audio_nb_packets := 11;
     Core.max_frame_duration := AV_NOSYNC_THRESHOLD;
     Core.audio_diff_cum := d_one; Core.audio_diff_avg_coef := d_fifth;
     Core.audio_diff_threshold := d_one; Core.audio_diff_avg_count := 20;
     Core.audio_src_freq := 44100 |}.

(** ** Audio correction *)

Definition d_eleven : Dbl.double := Eval vm_compute in Dbl.of_int 11.

(** Audio trails a video master by eleven seconds. *)
Definition core_audio_far_behind : Core.VideoState :=
  {| Core.av_sync_type := Core.AV_SYNC_VIDEO_MASTER;
     Core.video_st := true; Core.audio_st := true;
     Core.video_stream := 0; Core.audio_stream := 1;
     Core.video_clock := d_eleven;
     Core.audio_clock := d_zero;
     Core.subtitle_clock := d_zero; Core.subtitle_speed := d_one;
     Core.video_nb_packets := 5; Core.audio_nb_packets := 5;
     Core.max_frame_duration := AV_NOSYNC_THRESHOLD;
     Core.audio_diff_cum := d_one; Core.audio_diff_avg_coef := d_fifth;
     Core.audio_diff_threshold := d_zero; Core.audio_diff_avg_count := 20;
     Core.audio_src_freq := 48000 |}.

(** [r] lies in the real interval [[nb * 0.9, nb * 1.1]]. *)
Definition within_ten_percent (nb r : Z) : Prop :=
  9 * nb <= 10 * r <= 11 * nb.

(** The largest [nb_samples] whose product by 110 fits an [int]. *)
Definition NB_SAMPLES_MAX : Z := 19522578.

(** The averaging coefficient [exp(log(0.01) / AUDIO_DIFF_AVG_NB)], to three
    decimals. *)
Definition d_avg_coef : Dbl.double := Eval vm_compute in Dbl.lit 794 1000.

(** Audio trails a video master by one second, with the filter warmed
    up. *)
Definition core_audio_behind : Core.VideoState :=
  {| Core.av_sync_type := Core.AV_SYNC_VIDEO_MASTER;
     Core.video_st := true; Core.audio_st := true;
     Core.video_stream := 0; Core.audio_stream := 1;
     Core.video_clock := d_one; Core.audio_clock := d_zero;
     Core.subtitle_clock := d_zero; Core.subtitle_speed := d_one;
     Core.video_nb_packets := 5; Core.audio_nb_packets := 5;
     Core.max_frame_duration := AV_NOSYNC_THRESHOLD;
     Core.audio_diff_cum := d_zero; Core.audio_diff_avg_coef := d_avg_coef;
     Core.audio_diff_threshold := AV_SYNC_THRESHOLD_MIN;
     Core.audio_diff_avg_count := 20;
     Core.audio_src_freq := 48000 |}.

Definition player_audio_behind : Player.VideoState :=
  {| Player.av_sync_type := Player.AV_SYNC_VIDEO_MASTER;
     Player.framedrop := -1;
     Player.vstream_clock := d_one; Player.astream_clock := d_zero;
     Player.vstream_q2d := d_one; Player.vstream_serial := 1;
     Player.viddec_pkt_serial := 1; Player.video_nb_packets := 5;
     Player.max_frame_duration := AV_NOSYNC_THRESHOLD;
     Player.frame_last_filter_delay := d_zero;
     Player.audio_diff_cum := d_zero;
     Player.audio_diff_avg_coef := d_avg_coef;
     Player.audio_diff_threshold := AV_SYNC_THRESHOLD_MIN;
     Player.audio_diff_avg_count := 20;
     Player.audio_src_freq := 48000; Player.frame_drops_early := 0 |}.

(** ** Durations and early drops *)

Definition frame_a : Core.Frame :=
  {| Core.serial := 1; Core.pts := d_one; Core.duration := d_frame_25fps;
     Core.bmp := true; Core.uploaded := false; Core.sub_start_display_time := 0;
     Core.sub_end_display_time := 0 |}.
Definition frame_b : Core.Frame :=
  {| Core.serial := 2; Core.pts := d_two; Core.duration := d_frame_25fps;
     Core.bmp := true; Core.uploaded := false; Core.sub_start_display_time := 0;
     Core.sub_end_display_time := 0 |}.

(** The conditions under which [GetVideoFrame] drops a decoded frame, for a
    frame of timestamp [frame_pts]. *)
Definition early_drop_conditions (s : Player.VideoState) (frame_pts : Z)
  : Prop :=
  let diff :=
    (Player.vstream_q2d s * Dbl.of_int frame_pts - Player.GetMasterClock s)%dbl
  in
  (Player.framedrop s > 0
   \/ (Player.framedrop s <> 0
       /\ Player.GetMasterSyncType s <> Player.AV_SYNC_VIDEO_MASTER))
  /\ frame_pts <> Player.AV_NOPTS_VALUE
  /\ Dbl.isnan diff = false
  /\ (Dbl.fabs diff <? AV_NOSYNC_THRESHOLD)%dbl = true
  /\ (diff - Player.frame_last_filter_delay s <? d_zero)%dbl = true
  /\ Player.viddec_pkt_serial s = Player.vstream_serial s
  /\ Player.video_nb_packets s <> 0%N.

(** The audio master is a second ahead of the decoded frame; frame dropping
    is on. *)
Definition player_frame_late : Player.VideoState :=
  {| Player.av_sync_type := Player.AV_SYNC_AUDIO_MASTER;
     Player.framedrop := -1;
     Player.vstream_clock := d_one; Player.astream_clock := d_two;
     Player.vstream_q2d := d_one; Player.vstream_serial := 1;
     Player.viddec_pkt_serial := 1; Player.video_nb_packets := 5;
     Player.max_frame_duration := AV_NOSYNC_THRESHOLD;
     Player.frame_last_filter_delay := d_zero;
     Player.audio_diff_cum := d_zero; Player.audio_diff_avg_coef := d_zero;
     Player.audio_diff_threshold := d_zero;
     Player.audio_diff_avg_count := 0;
     Player.audio_src_freq := 48000; Player.frame_drops_early := 0 |}.

(** ** The refresh step *)

(** Every [SetClock] among the events carries the serial [qs]. *)
Definition clock_updates_current (qs : Z) (evs : list Player.Event) : Prop :=
  forall p ser, In (Player.EvSetClock p ser) evs -> ser = qs.

(** Every picture displayed among the events carries the serial [qs]. *)
Definition displays_current (qs : Z) (evs : list Player.Event) : Prop :=
  forall vp, In (Player.EvImageDisplay vp) evs -> Player.serial vp = qs.

Definition displays_nothing (evs : list Player.Event) : Prop :=
  forall vp, ~ In (Player.EvImageDisplay vp) evs.

(** What one run of the loop of [VideoRefresh] leaves: clock updates with
    the current serial only, no display, and a display request only for a
    consumed frame of the current serial. *)
Definition retry_post (c : Player.Config) (r r' : Player.Refresh) : Prop :=
  exists evs,
    Player.trace r' = evs ++ Player.trace r
    /\ clock_updates_current (Player.video_queue_serial c) evs
    /\ displays_nothing evs
    /\ FrameQueue.keep_last (Player.video_frame_queue r') = true
    /\ (Player.force_refresh r' = true ->
        Player.force_refresh r = true
        \/ exists vp,
            FrameQueue.last_shown (Player.video_frame_queue r') = Some vp
            /\ Player.serial vp = Player.video_queue_serial c).

Definition core_clock_updates_current (qs : Z) (evs : list Core.Event)
  : Prop :=
  forall p ser, In (Core.EvSetClock p ser) evs -> ser = qs.

Definition core_displays_current (qs : Z) (evs : list Core.Event) : Prop :=
  forall vp, In (Core.EvImageDisplay vp) evs -> Core.serial vp = qs.

Definition core_displays_nothing (evs : list Core.Event) : Prop :=
  forall vp, ~ In (Core.EvImageDisplay vp) evs.

(** Events that touch neither the video clock nor the picture. *)
Definition core_quiet (c : Core.Config) (evs : list Core.Event) : Prop :=
  core_clock_updates_current (Core.video_queue_serial c) evs
  /\ core_displays_nothing evs.

(** The subtitle loop leaves the video queue, the display request and the
    pause flag alone, and only clears subtitle textures. *)
Definition subtitles_post (c : Core.Config) (r r' : Core.Refresh) : Prop :=
  Core.video_frame_queue r' = Core.video_frame_queue r
  /\ Core.force_refresh r' = Core.force_refresh r
  /\ Core.paused r' = Core.paused r
  /\ exists evs, Core.trace r' = evs ++ Core.trace r /\ core_quiet c evs.

(** What one run of the loop of [video_refresh] leaves. *)
Definition core_retry_post (c : Core.Config) (r r' : Core.Refresh) : Prop :=
  exists evs,
    Core.trace r' = evs ++ Core.trace r
    /\ core_quiet c evs
    /\ FrameQueue.keep_last (Core.video_frame_queue r') = true
    /\ Core.sync r' = Core.sync r
    /\ (Core.force_refresh r' = true ->
        Core.force_refresh r = true
        \/ exists vp,
            FrameQueue.last_shown (Core.video_frame_queue r') = Some vp
            /\ Core.serial vp = Core.video_queue_serial c).

(** The computation of [vp_duration] on the frames of [src/video_state.cpp],
    for the examples below. *)
Definition player_vp_duration (vp nextvp : Player.VideoFrame)
  (max_frame_duration : Dbl.double) : Dbl.double :=
  if Player.serial vp =? Player.serial nextvp then
    let d := (Player.pts nextvp - Player.pts vp)%dbl in
    if Dbl.isnan d || (d <=? d_zero)%dbl || (d >? max_frame_duration)%dbl
    then Player.duration vp else d
  else d_zero.

(** A seek has bumped the video packet queue to serial 2; the frame queue
    still holds a frame decoded before it (serial 1) behind the frame on
    screen, and the window was exposed, which forces a refresh. *)
Definition player_frame_on_screen : Player.VideoFrame :=
  {| Player.serial := 1; Player.pts := d_one;
     Player.duration := d_frame_25fps; Player.bmp := true |}.
Definition player_frame_stale : Player.VideoFrame :=
  {| Player.serial := 1; Player.pts := d_two;
     Player.duration := d_frame_25fps; Player.bmp := true |}.

Definition d_refresh_rate : Dbl.double := Eval vm_compute in Dbl.lit 1 100.

Definition player_env_still : Player.Env :=
  {| Player.av_gettime_relative := fun _ => 5000000;
     Player.vstream_GetClock := fun _ => S754_nan;
     Player.astream_GetClock := fun _ => S754_nan;
     Player.vstream_LastUpdatedClock := fun _ => d_zero |}.

Definition player_after_seek : Player.Config :=
  {| Player.sync := player_video_lagging;
     Player.display_disable := false;
     Player.show_mode := Player.SHOW_MODE_VIDEO;
     Player.vstream_opened := true; Player.astream_opened := true;
     Player.video_queue_serial := 2;
     Player.step := false; Player.read_pause_enosys := false |}.

Definition player_exposed (forced : bool) : Player.Refresh :=
  {| Player.video_frame_queue :=
       {| FrameQueue.keep_last := true;
          FrameQueue.last_shown := Some player_frame_on_screen;
          FrameQueue.pending := [player_frame_stale] |};
     Player.force_refresh := forced; Player.paused := false;
     Player.last_vis_time := d_zero; Player.frame_timer := d_zero;
     Player.frame_drops_late := 0; Player.remaining_time := d_refresh_rate;
     Player.reads := 0; Player.trace := [] |}.

Definition core_frame_on_screen : Core.Frame :=
  {| Core.serial := 1; Core.pts := d_one; Core.duration := d_frame_25fps;
     Core.bmp := true; Core.uploaded := true; Core.sub_start_display_time := 0;
     Core.sub_end_display_time := 0 |}.
Definition core_frame_stale : Core.Frame :=
  {| Core.serial := 1; Core.pts := d_two; Core.duration := d_frame_25fps;
     Core.bmp := true; Core.uploaded := false; Core.sub_start_display_time := 0;
     Core.sub_end_display_time := 0 |}.

Definition core_env_still : Core.Env :=
  {| Core.av_gettime_relative := fun _ => 5000000;
     Core.video_GetClock := fun _ => S754_nan;
     Core.audio_GetClock := fun _ => S754_nan;
     Core.subtitle_GetClock := fun _ => S754_nan;
     Core.video_GetPts := fun _ => d_one;
     Core.video_LastUpdatedClock := fun _ => d_zero |}.

Definition core_after_seek : Core.Config :=
  {| Core.display_disable := false;
     Core.show_mode := Core.SHOW_MODE_VIDEO;
     Core.rdftspeed := d_zero; Core.framedrop := -1;
     Core.realtime := false; Core.subtitle_st := false;
     Core.video_queue_serial := 2; Core.subtitle_queue_serial := 0;
     Core.step := false; Core.read_pause_enosys := false |}.

Definition core_exposed (forced : bool) : Core.Refresh :=
  {| Core.sync := core_video_lagging;
     Core.video_frame_queue :=
       {| FrameQueue.keep_last := true;
          FrameQueue.last_shown := Some core_frame_on_screen;
          FrameQueue.pending := [core_frame_stale] |};
     Core.subtitle_frame_queue :=
       {| FrameQueue.keep_last := false;
          FrameQueue.last_shown := None;
          FrameQueue.pending := [] |};
     Core.force_refresh := forced; Core.paused := false;
     Core.last_vis_time := d_zero; Core.frame_timer := d_zero;
     Core.frame_drops_late := 0; Core.remaining_time := d_refresh_rate;
     Core.reads := 0; Core.trace := [] |}.

(** ** The speed of the external clock *)

(** The value of a positive finite number in units of [2 ^ e0]. *)
Definition in_units (e0 : Z) (m : positive) (e : Z) : Z :=
  Zpos m * 2 ^ (e - e0).

(** The value of a finite number in units of [2 ^ -62], the last place of
    the speed step. *)
Definition units (x : Dbl.double) : Z :=
  match x with
  | S754_finite s m e => cond_Zopp s (Zpos m * 2 ^ (e + 62))
  | _ => 0
  end.

(** A normal positive number of exponent -53 or -52, that is, a double in
    [[1/2, 2)]. *)
Definition unit_range (x : Dbl.double) : Prop :=
  exists m e, x = S754_finite false m e
              /\ 2 ^ 52 <= Zpos m < 2 ^ 53
              /\ (e = -53 \/ e = -52).

(** A well-formed speed between the two bounds. *)
Definition speed_ok (x : Dbl.double) : Prop :=
  Dbl.valid x = true
  /\ (EXTERNAL_CLOCK_SPEED_MIN <=? x)%dbl = true
  /\ (x <=? EXTERNAL_CLOCK_SPEED_MAX)%dbl = true.

(** The mantissa of [EXTERNAL_CLOCK_SPEED_STEP]. *)
Definition mS : Z := 4611686018427388.

(** Some open stream's packet queue holds at most
    [EXTERNAL_CLOCK_MIN_FRAMES] packets. *)
Definition low_buffers (s : Core.VideoState) : Prop :=
  (Core.video_stream s >= 0 /\ (Core.video_nb_packets s <= 2)%N)
  \/ (Core.audio_stream s >= 0 /\ (Core.audio_nb_packets s <= 2)%N).

(** Every open stream's packet queue holds more than
    [EXTERNAL_CLOCK_MAX_FRAMES] packets. *)
Definition full_buffers (s : Core.VideoState) : Prop :=
  (Core.video_stream s < 0 \/ (10 < Core.video_nb_packets s)%N)
  /\ (Core.audio_stream s < 0 \/ (10 < Core.audio_nb_packets s)%N).

(** A realtime session on the external clock at speed 1.0 whose video queue
    holds a single packet. *)
Definition core_starving : Core.VideoState :=
  {| Core.av_sync_type := Core.AV_SYNC_EXTERNAL_CLOCK;
     Core.video_st := true; Core.audio_st := true;
     Core.video_stream := 0; Core.audio_stream := 1;
     Core.video_clock := d_zero; Core.audio_clock := d_zero;
     Core.subtitle_clock := d_zero; Core.subtitle_speed := d_one;
     Core.video_nb_packets := 1; Core.audio_nb_packets := 5;
     Core.max_frame_duration := AV_NOSYNC_THRESHOLD;
     Core.audio_diff_cum := d_zero; Core.audio_diff_avg_coef := d_zero;
     Core.audio_diff_threshold := d_zero; Core.audio_diff_avg_count := 0;
     Core.audio_src_freq := 48000 |}.

(* ================================================================== *)
(** * Part II-b: controls, seeking and audio output *)
(* ================================================================== *)

(** ** C [unsigned int], [size_t] and [int64_t] *)

Module UInt.

(** Conversion to [unsigned int] and its wrap-around, 32 bits. *)
Definition wrap (z : Z) : Z := z mod 2 ^ 32.

End UInt.

Module SizeT.

(** Conversion to [size_t] and its wrap-around, 64 bits. *)
Definition wrap (z : Z) : Z := z mod 2 ^ 64.

End SizeT.

Module Int64.

Definition INT64_MIN : Z := - 2 ^ 63.
Definition INT64_MAX : Z := 2 ^ 63 - 1.

Definition in_range (z : Z) : bool := (INT64_MIN <=? z) && (z <=? INT64_MAX).

Definition wrap (z : Z) : Z := (z + 2 ^ 63) mod 2 ^ 64 - 2 ^ 63.

(** Conversion of a [double] to [int64_t]: the integral part; when it
    does not fit (or the value is NaN or infinite) the conversion
    instruction of the target yields [INT64_MIN]. *)
Definition of_double (x : Dbl.double) : Z :=
  match Dbl.trunc x with
  | Some z => if in_range z then z else INT64_MIN
  | None => INT64_MIN
  end.

End Int64.

(** libavutil's [AV_TIME_BASE]. *)
Definition AV_TIME_BASE : Z := 1000000.

(** ** [src/core/video_state.cpp]: keys and seeking *)

Module CoreControl.

(** *** Volume *)

Section Volume.

(** SDL's [SDL_MIX_MAXVOLUME] ([SDL_audio.h]). *)
Variable SDL_MIX_MAXVOLUME : Z.

Definition SDL_VOLUME_STEP : Z := Int.div SDL_MIX_MAXVOLUME 50.

(** What the constructor of [VideoState] makes of [opt->startup_volume]:
    the initial [audio_volume]. *)
Definition startup_volume (startup_volume : Z) : Z :=
  let startup_volume := Int.av_clip startup_volume 0 100 in
  Int.av_clip (Int.div (Int.mul SDL_MIX_MAXVOLUME startup_volume) 100)
    0 SDL_MIX_MAXVOLUME.

Definition update_volume (audio_volume sign step : Z) : Z :=
  Int.av_clip (Int.add audio_volume (Int.mul sign step)) 0 SDL_MIX_MAXVOLUME.

(** The keys [0] and [*] (volume up), [9] and [/] (volume down) of
    [exec()]. *)
Inductive VolumeKey := VolumeUp | VolumeDown.

Definition press_volume_key (audio_volume : Z) (k : VolumeKey) : Z :=
  match k with
  | VolumeUp => update_volume audio_volume 1 SDL_VOLUME_STEP
  | VolumeDown => update_volume audio_volume (-1) SDL_VOLUME_STEP
  end.

End Volume.

(** *** Seek requests *)

Record Seek := {
  seek_req : bool;
  seek_pos : Z;                       (* int64_t *)
  seek_rel : Z;                       (* int64_t *)
  seek_flags : Z                      (* int *)
}.

Section Seeking.

(** libavformat's [AVSEEK_FLAG_BYTE], a bit mask. *)
Variable AVSEEK_FLAG_BYTE : Z.

(** [stream_seek(pos, rel, seek_by_bytes)]; the read thread is also
    signalled, which changes no field. *)
Definition stream_seek (s : Seek) (pos rel : Z) (seek_by_bytes : Z) : Seek :=
  if negb (seek_req s) then
    let seek_flags := Z.land (seek_flags s) (Z.lnot AVSEEK_FLAG_BYTE) in
    let seek_flags :=
      if negb (seek_by_bytes =? 0) then Z.lor seek_flags AVSEEK_FLAG_BYTE
      else seek_flags in
    {| seek_req := true; seek_pos := pos; seek_rel := rel;
       seek_flags := seek_flags |}
  else s.

(** A chapter of the input ([AVChapter]). *)
Record AVChapter := {
  start : Z;                          (* int64_t *)
  time_base : Z * Z                   (* AVRational *)
}.

Definition AV_TIME_BASE_Q : Z * Z := (1, AV_TIME_BASE).

(** libavutil's [av_compare_ts(ts_a, tb_a, ts_b, tb_b)] and
    [av_rescale_q(a, bq, cq)]. *)
Variable av_compare_ts : Z -> Z * Z -> Z -> Z * Z -> Z.
Variable av_rescale_q : Z -> Z * Z -> Z * Z -> Z.

(** The [for] loop of [seek_chapter] from index [i] on, [chapters] being
    the chapters from that index: the value of [i] when the loop is
    left. *)
Fixpoint find_current_chapter (pos : Z) (chapters : list AVChapter) (i : Z)
  : Z :=
  match chapters with
  | [] => i
  | ch :: chapters =>
      if av_compare_ts pos AV_TIME_BASE_Q (start ch) (time_base ch) <? 0
      then Int.add i (-1)
      else find_current_chapter pos chapters (Int.add i 1)
  end.

(** [seek_chapter(incr)]; [ic->nb_chapters] is an [unsigned int], so the
    comparisons with [i] are made on [unsigned int]. *)
Definition seek_chapter (master_clock : Dbl.double)
  (chapters : list AVChapter) (s : Seek) (incr : Z) : Seek :=
  let nb_chapters := Z.of_nat (length chapters) in
  if nb_chapters =? 0 then s
  else
    let pos :=
      Int64.of_double (master_clock * Dbl.of_int AV_TIME_BASE)%dbl in
    (* find the current chapter *)
    let i := find_current_chapter pos chapters 0 in
    let i := Int.add i incr in
    let i := if i >? 0 then i else 0 in
    if UInt.wrap i >=? nb_chapters then s
    else
      match nth_error chapters (Z.to_nat i) with
      | Some ch =>
          stream_seek s (av_rescale_q (start ch) (time_base ch) AV_TIME_BASE_Q)
            0 0
      | None => s
      end.

End Seeking.

(** *** The display mode *)

Record Display := {
  show_mode : Z;                      (* opt->show_mode, a [ShowMode] *)
  force_refresh : bool;
  vfilter_idx : Z                     (* int *)
}.

Section ShowModes.

(** The enumerators [SHOW_MODE_VIDEO] and [SHOW_MODE_NB] of [ShowMode],
    whose declaration is not among the sources. *)
Variable SHOW_MODE_VIDEO : Z.
Variable SHOW_MODE_NB : Z.

Variable video_st : bool.             (* video_st != NULL *)
Variable audio_st : bool.             (* audio_st != NULL *)

(** The [do ... while] loop of [toggle_audio_display]: the value of
    [next] when it is left.  [None] when [fuel] turns did not leave it, or
    when [SHOW_MODE_NB] is zero and the remainder undefined. *)
Fixpoint next_show_mode (fuel : nat) (show_mode next : Z) : option Z :=
  match fuel with
  | O => None
  | S fuel =>
      if SHOW_MODE_NB =? 0 then None
      else
        let next := Z.rem (Int.add next 1) SHOW_MODE_NB in
        if negb (next =? show_mode)
           && ((next =? SHOW_MODE_VIDEO) && negb video_st
               || negb (next =? SHOW_MODE_VIDEO) && negb audio_st)
        then next_show_mode fuel show_mode next
        else Some next
  end.

Definition toggle_audio_display (fuel : nat) (d : Display) : option Display :=
  match next_show_mode fuel (show_mode d) (show_mode d) with
  | Some next =>
      Some (if negb (show_mode d =? next)
            then {| show_mode := next; force_refresh := true;
                    vfilter_idx := vfilter_idx d |}
            else d)
  | None => None
  end.

(** The key [w] of [exec()], with [nb_vfilters] the size of
    [opt->vfilters_list] (a [size_t], converted to [int]). *)
Definition press_w (fuel : nat) (vfilters_list_size : Z) (d : Display)
  : option Display :=
  let nb_vfilters := Int.wrap vfilters_list_size in
  if (show_mode d =? SHOW_MODE_VIDEO)
     && (vfilter_idx d <? Int.add nb_vfilters (-1))
  then
    let vfilter_idx := Int.add (vfilter_idx d) 1 in
    Some {| show_mode := show_mode d; force_refresh := force_refresh d;
            vfilter_idx := if vfilter_idx >=? nb_vfilters then 0
                           else vfilter_idx |}
  else
    toggle_audio_display fuel
      {| show_mode := show_mode d; force_refresh := force_refresh d;
         vfilter_idx := 0 |}.

End ShowModes.

(** *** The end of the input in [read_thread]: [opt->loop] *)

(** What [read_thread] does with [opt->loop] once both decoders have
    played everything: whether the input is played again, and the new
    [opt->loop]. *)
Definition loop_at_end (loop : Z) : bool * Z :=
  if negb (loop =? 1) then
    if loop =? 0 then (true, loop)
    else
      let loop := Int.add loop (-1) in
      (negb (loop =? 0), loop)
  else (false, loop).

(** The window handed to [avformat_seek_file] by [read_thread]. *)
Definition seek_window (s : Seek) : Z * Z * Z :=
  let seek_target := seek_pos s in
  let seek_min :=
    if seek_rel s >? 0
    then Int64.wrap (Int64.wrap (seek_target - seek_rel s) + 2)
    else Int64.INT64_MIN in
  let seek_max :=
    if seek_rel s <? 0
    then Int64.wrap (Int64.wrap (seek_target - seek_rel s) - 2)
    else Int64.INT64_MAX in
  (seek_min, seek_target, seek_max).

End CoreControl.

(** ** [src/video_state.cpp]: controls, seeking *)

Module PlayerControl.

Section Volume.

Variable SDL_MIX_MAXVOLUME : Z.

Definition UpdateVolume (audio_volume sign step : Z) : Z :=
  Int.av_clip (Int.add audio_volume (Int.mul sign step)) 0 SDL_MIX_MAXVOLUME.

End Volume.

Record Seek := {
  seek_req : bool;
  seek_pos : Z;                       (* int64_t *)
  seek_rel : Z;                       (* int64_t *)
  seek_flags : Z                      (* int *)
}.

Section Seeking.

Variable AVSEEK_FLAG_BYTE : Z.

Definition StreamSeek (s : Seek) (pos rel : Z) (seek_by_bytes : Z) : Seek :=
  if negb (seek_req s) then
    let seek_flags := Z.land (seek_flags s) (Z.lnot AVSEEK_FLAG_BYTE) in
    let seek_flags :=
      if negb (seek_by_bytes =? 0) then Z.lor seek_flags AVSEEK_FLAG_BYTE
      else seek_flags in
    {| seek_req := true; seek_pos := pos; seek_rel := rel;
       seek_flags := seek_flags |}
  else s.

Record AVChapter := {
  start : Z;                          (* int64_t *)
  time_base : Z * Z                   (* AVRational *)
}.

Definition AV_TIME_BASE_Q : Z * Z := (1, AV_TIME_BASE).

Variable av_compare_ts : Z -> Z * Z -> Z -> Z * Z -> Z.
Variable av_rescale_q : Z -> Z * Z -> Z * Z -> Z.

(** The [for] loop of [SeekChapter] from index [i] on, [chapters] being
    the chapters from that index: the value of the [unsigned int i] when
    the loop is left. *)
Fixpoint find_current_chapter (pos : Z) (chapters : list AVChapter) (i : Z)
  : Z :=
  match chapters with
  | [] => i
  | ch :: chapters =>
      if av_compare_ts pos AV_TIME_BASE_Q (start ch) (time_base ch) <? 0
      then UInt.wrap (i - 1)
      else find_current_chapter pos chapters (UInt.wrap (i + 1))
  end.

(** [SeekChapter(incr)]: here [i] is an [unsigned int], so [i + incr] is
    computed on [unsigned int] and [FFMAX(i + incr, 0)] compares it with
    zero as such. *)
Definition SeekChapter (master_clock : Dbl.double)
  (chapters : list AVChapter) (s : Seek) (incr : Z) : Seek :=
  let nb_chapters := Z.of_nat (length chapters) in
  if nb_chapters =? 0 then s
  else
    let pos :=
      Int64.of_double (master_clock * Dbl.of_int AV_TIME_BASE)%dbl in
    (* find the current chapter *)
    let i := find_current_chapter pos chapters 0 in
    let sum := UInt.wrap (i + UInt.wrap incr) in
    let ii := if sum >? 0 then sum else 0 in
    if ii >=? nb_chapters then s
    else
      match nth_error chapters (Z.to_nat ii) with
      | Some ch =>
          StreamSeek s (av_rescale_q (start ch) (time_base ch) AV_TIME_BASE_Q)
            0 0
      | None => s
      end.

End Seeking.

Record Display := {
  show_mode : Z;                      (* opt_->show_mode, a [core::ShowMode] *)
  force_refresh : bool;
  vfilter_idx : Z                     (* size_t *)
}.

Section ShowModes.

Variable SHOW_MODE_VIDEO : Z.
Variable SHOW_MODE_NB : Z.

Variable vstream_opened : bool.       (* vstream_->IsOpened() *)
Variable astream_opened : bool.       (* astream_->IsOpened() *)

Fixpoint next_show_mode (fuel : nat) (show_mode next : Z) : option Z :=
  match fuel with
  | O => None
  | S fuel =>
      if SHOW_MODE_NB =? 0 then None
      else
        let next := Z.rem (Int.add next 1) SHOW_MODE_NB in
        if negb (next =? show_mode)
           && ((next =? SHOW_MODE_VIDEO) && negb vstream_opened
               || negb (next =? SHOW_MODE_VIDEO) && negb astream_opened)
        then next_show_mode fuel show_mode next
        else Some next
  end.

Definition ToggleAudioDisplay (fuel : nat) (d : Display) : option Display :=
  match next_show_mode fuel (show_mode d) (show_mode d) with
  | Some next =>
      Some (if negb (show_mode d =? next)
            then {| show_mode := next; force_refresh := true;
                    vfilter_idx := vfilter_idx d |}
            else d)
  | None => None
  end.

(** [ToggleWaveDisplay()]: here [nb_vfilters] is a [size_t], so
    [nb_vfilters - 1] and the comparisons are computed on [size_t]. *)
Definition ToggleWaveDisplay (fuel : nat) (vfilters_list_size : Z)
  (d : Display) : option Display :=
  let nb_vfilters := vfilters_list_size in
  if (show_mode d =? SHOW_MODE_VIDEO)
     && (vfilter_idx d <? SizeT.wrap (nb_vfilters - 1))
  then
    let vfilter_idx := SizeT.wrap (vfilter_idx d + 1) in
    Some {| show_mode := show_mode d; force_refresh := force_refresh d;
            vfilter_idx := if vfilter_idx >=? nb_vfilters then 0
                           else vfilter_idx |}
  else
    ToggleAudioDisplay fuel
      {| show_mode := show_mode d; force_refresh := force_refresh d;
         vfilter_idx := 0 |}.

End ShowModes.

End PlayerControl.

(** ** [src/video_state.cpp]: stepping and the refresh guard *)

Module PlayerStep.

Import Player.

Definition set_step (b : bool) (c : Config) : Config :=
  {| sync := sync c; display_disable := display_disable c;
     show_mode := show_mode c; vstream_opened := vstream_opened c;
     astream_opened := astream_opened c;
     video_queue_serial := video_queue_serial c; step := b;
     read_pause_enosys := read_pause_enosys c |}.

Definition StepToNextFrame (env : Env) (c : Config) (r : Refresh)
  : Config * Refresh :=
  (* if the stream is paused unpause it, then step *)
  let r := if paused r then StreamTogglePause env c r else r in
  (set_step true c, r).

Definition TogglePause (env : Env) (c : Config) (r : Refresh)
  : Config * Refresh :=
  let r := StreamTogglePause env c r in
  (set_step false c, r).

Definition TryRefreshVideo
  (VpDuration : VideoFrame -> VideoFrame -> Dbl.double -> Dbl.double)
  (env : Env) (c : Config) (r : Refresh) : option Refresh :=
  if negb (show_mode_eqb (show_mode c) SHOW_MODE_NONE)
     && (negb (paused r) || force_refresh r)
  then VideoRefresh VpDuration env c r
  else Some r.

End PlayerStep.

(** ** [src/core/video_state.cpp]: stepping and the refresh guard *)

Module CoreStep.

Import Core.

Definition set_step (b : bool) (c : Config) : Config :=
  {| display_disable := display_disable c; show_mode := show_mode c;
     rdftspeed := rdftspeed c; framedrop := framedrop c;
     realtime := realtime c; subtitle_st := subtitle_st c;
     video_queue_serial := video_queue_serial c;
     subtitle_queue_serial := subtitle_queue_serial c; step := b;
     read_pause_enosys := read_pause_enosys c |}.

Definition step_to_next_frame (env : Env) (c : Config) (r : Refresh)
  : Config * Refresh :=
  (* if the stream is paused unpause it, then step *)
  let r := if paused r then stream_toggle_pause env c r else r in
  (set_step true c, r).

Definition toggle_pause (env : Env) (c : Config) (r : Refresh)
  : Config * Refresh :=
  let r := stream_toggle_pause env c r in
  (set_step false c, r).

Definition REFRESH_RATE : Dbl.double := Eval vm_compute in Dbl.lit 1 100.

(** One turn of the loop of [refresh_loop_wait_event], from the
    assignment of [remaining_time] on (the cursor, the sleep and the event
    pump are SDL's). *)
Definition refresh_turn (env : Env) (c : Config) (r : Refresh)
  : option Refresh :=
  let r := set_remaining_time REFRESH_RATE r in
  if negb (show_mode_eqb (show_mode c) SHOW_MODE_NONE)
     && (negb (paused r) || force_refresh r)
  then video_refresh env c r
  else Some r.

End CoreStep.

(** ** The sample array of the audio display (both files) *)

Module SampleDisplay.

(** The array of [short] the audio display is drawn from and the index
    the next sample goes to. *)
Record Samples := {
  sample_array : list Z;
  sample_array_index : Z              (* int *)
}.

(** [memcpy(dst + at, src, len * sizeof(short))] on arrays of [short]:
    [None] when [len] is negative or a range leaves its array. *)
Definition memcpy (dst : list Z) (at_ : Z) (src : list Z) (len : Z)
  : option (list Z) :=
  if (0 <=? len) && (0 <=? at_) && (at_ + len <=? Z.of_nat (length dst))
     && (len <=? Z.of_nat (length src))
  then Some (firstn (Z.to_nat at_) dst ++ firstn (Z.to_nat len) src
             ++ skipn (Z.to_nat (at_ + len)) dst)
  else None.

Section Ring.

(** [SAMPLE_ARRAY_SIZE], defined in a header that is not among the
    sources. *)
Variable SAMPLE_ARRAY_SIZE : Z.

(** The [while] loop of [update_sample_display]; [samples] are the
    [short]s at the pointer [samples]. *)
Fixpoint copy_samples (fuel : nat) (st : Samples) (samples : list Z)
  (size : Z) : option Samples :=
  match fuel with
  | O => None
  | S fuel =>
      if size >? 0 then
        let len := Int.wrap (SAMPLE_ARRAY_SIZE - sample_array_index st) in
        let len := if len >? size then size else len in
        match memcpy (sample_array st) (sample_array_index st) samples len
        with
        | Some array =>
            let samples := skipn (Z.to_nat len) samples in
            let index := Int.add (sample_array_index st) len in
            let index := if index >=? SAMPLE_ARRAY_SIZE then 0 else index in
            copy_samples fuel
              {| sample_array := array; sample_array_index := index |}
              samples (Int.wrap (size - len))
        | None => None
        end
      else Some st
  end.

(** [update_sample_display(samples, samples_size)]: the division by
    [sizeof(short)] is made on [size_t]. *)
Definition update_sample_display (fuel : nat) (st : Samples)
  (samples : list Z) (samples_size : Z) : option Samples :=
  let size := Int.wrap (SizeT.wrap samples_size / 2) in
  copy_samples fuel st samples size.

End Ring.

End SampleDisplay.

(** ** The audio callback (both files) *)

Module AudioOut.

(** What [audio_decode_frame()] leaves when it succeeds: its result, the
    bytes at [audio_buf], [audio_clock] and [audio_clock_serial]; a
    negative [audio_size] is a failure, which leaves them alone. *)
Record Decoded := {
  audio_size : Z;
  decoded_buf : list Z;
  decoded_clock : Dbl.double;
  decoded_clock_serial : Z
}.

(** The fields of [VideoState] that the callback uses.  Their
    declarations are in [video_state.h]; the sizes and indexes are read
    as [int], as the locals [len1] and [audio_size] which they are
    assigned from and to. *)
Record Audio := {
  audio_buf : option (list Z);        (* NULL, or the bytes it points to *)
  audio_buf_size : Z;
  audio_buf_index : Z;
  audio_write_buf_size : Z;
  audio_clock : Dbl.double;
  audio_clock_serial : Z;
  audio_callback_time : Z;            (* int64_t *)
  muted : bool;
  audio_volume : Z;
  samples : SampleDisplay.Samples;
  decodes : nat                       (* calls of audio_decode_frame so far *)
}.

Inductive Event :=
| EvSetClockAt (pts : Dbl.double) (serial : Z) (time : Dbl.double)
| EvSyncClockWith.                    (* subtitle_engine_->SyncClockWith(audio_engine_, ...) *)

(** The [int16_t]s that a buffer of bytes holds, low byte first. *)
Fixpoint shorts_of_bytes (bytes : list Z) : list Z :=
  match bytes with
  | lo :: hi :: bytes =>
      (let u := lo + 256 * hi in if u <? 32768 then u else u - 65536)
      :: shorts_of_bytes bytes
  | _ => []
  end.

(** The [len] bytes from [at_] on, [None] when they are not all there. *)
Definition bytes_at (buf : list Z) (at_ len : Z) : option (list Z) :=
  if (0 <=? len) && (0 <=? at_) && (at_ + len <=? Z.of_nat (length buf))
  then Some (firstn (Z.to_nat len) (skipn (Z.to_nat at_) buf))
  else None.

Section Callback.

(** SDL's constants and mixer, the size of the sample array, and what
    the calls of [audio_decode_frame()] return, in order. *)
Variable SDL_AUDIO_MIN_BUFFER_SIZE : Z.
Variable SDL_MIX_MAXVOLUME : Z.
Variable SDL_MixAudio : list Z -> list Z -> Z -> list Z.
Variable SAMPLE_ARRAY_SIZE : Z.
Variable audio_decode_frame : nat -> Decoded.

Variable show_mode_is_video : bool.   (* opt->show_mode == SHOW_MODE_VIDEO *)
Variable frame_size : Z.              (* audio_tgt.frame_size *)
Variable bytes_per_sec : Z.           (* audio_tgt.bytes_per_sec *)
Variable audio_hw_buf_size : Z.

(** The refill of [audio_buf] when it has been played to its end. *)
Definition refill (a : Audio) : option Audio :=
  let d := audio_decode_frame (decodes a) in
  if audio_size d <? 0 then
    (* if error, just output silence *)
    if frame_size =? 0 then None
    else
      Some {| audio_buf := None;
              audio_buf_size :=
                Int.mul (Int.div SDL_AUDIO_MIN_BUFFER_SIZE frame_size)
                  frame_size;
              audio_buf_index := 0;
              audio_write_buf_size := audio_write_buf_size a;
              audio_clock := audio_clock a;
              audio_clock_serial := audio_clock_serial a;
              audio_callback_time := audio_callback_time a;
              muted := muted a; audio_volume := audio_volume a;
              samples := samples a; decodes := S (decodes a) |}
  else
    let shown :=
      if negb show_mode_is_video then
        let shorts := shorts_of_bytes (decoded_buf d) in
        SampleDisplay.update_sample_display SAMPLE_ARRAY_SIZE
          (S (length shorts)) (samples a) shorts (audio_size d)
      else Some (samples a) in
    match shown with
    | Some samples =>
        Some {| audio_buf := Some (decoded_buf d);
                audio_buf_size := audio_size d;
                audio_buf_index := 0;
                audio_write_buf_size := audio_write_buf_size a;
                audio_clock := decoded_clock d;
                audio_clock_serial := decoded_clock_serial d;
                audio_callback_time := audio_callback_time a;
                muted := muted a; audio_volume := audio_volume a;
                samples := samples; decodes := S (decodes a) |}
    | None => None
    end.

(** The [len1] bytes written to [stream] in one turn: a copy of the
    buffer at full volume, else silence with the buffer mixed in unless
    the player is muted or has no buffer. *)
Definition output (a : Audio) (len1 : Z) : option (list Z) :=
  match audio_buf a with
  | Some buf =>
      if negb (muted a) && (audio_volume a =? SDL_MIX_MAXVOLUME)
      then bytes_at buf (audio_buf_index a) len1
      else if len1 <? 0 then None
      else
        let silence := repeat 0 (Z.to_nat len1) in
        if negb (muted a) then
          match bytes_at buf (audio_buf_index a) len1 with
          | Some src => Some (SDL_MixAudio silence src (audio_volume a))
          | None => None
          end
        else Some silence
  | None =>
      if len1 <? 0 then None else Some (repeat 0 (Z.to_nat len1))
  end.

(** The [while] loop of [sdl_audio_callback]: the state it leaves and
    the bytes written to [stream], in order. *)
Fixpoint fill (fuel : nat) (a : Audio) (stream : list Z) (len : Z)
  : option (Audio * list Z) :=
  match fuel with
  | O => None
  | S fuel =>
      if len >? 0 then
        match (if audio_buf_index a >=? audio_buf_size a
               then refill a else Some a) with
        | Some a =>
            let len1 := Int.wrap (audio_buf_size a - audio_buf_index a) in
            let len1 := if len1 >? len then len else len1 in
            match output a len1 with
            | Some bytes =>
                fill fuel
                  {| audio_buf := audio_buf a;
                     audio_buf_size := audio_buf_size a;
                     audio_buf_index := Int.add (audio_buf_index a) len1;
                     audio_write_buf_size := audio_write_buf_size a;
                     audio_clock := audio_clock a;
                     audio_clock_serial := audio_clock_serial a;
                     audio_callback_time := audio_callback_time a;
                     muted := muted a; audio_volume := audio_volume a;
                     samples := samples a; decodes := decodes a |}
                  (stream ++ bytes) (Int.wrap (len - len1))
            | None => None
            end
        | None => None
        end
      else Some (a, stream)
  end.

(** [sdl_audio_callback(opaque, stream, len)], with
    [av_gettime_relative()] read as [now]; [subtitles] tells the file:
    [src/core/video_state.cpp] also synchronises the subtitle clock. *)
Definition sdl_audio_callback (subtitles : bool) (fuel : nat) (now : Z)
  (a : Audio) (len : Z) : option (Audio * list Z * list Event) :=
  let a :=
    {| audio_buf := audio_buf a; audio_buf_size := audio_buf_size a;
       audio_buf_index := audio_buf_index a;
       audio_write_buf_size := audio_write_buf_size a;
       audio_clock := audio_clock a;
       audio_clock_serial := audio_clock_serial a;
       audio_callback_time := now;
       muted := muted a; audio_volume := audio_volume a;
       samples := samples a; decodes := decodes a |} in
  match fill fuel a [] len with
  | Some (a, stream) =>
      let a :=
        {| audio_buf := audio_buf a; audio_buf_size := audio_buf_size a;
           audio_buf_index := audio_buf_index a;
           audio_write_buf_size :=
             Int.wrap (audio_buf_size a - audio_buf_index a);
           audio_clock := audio_clock a;
           audio_clock_serial := audio_clock_serial a;
           audio_callback_time := audio_callback_time a;
           muted := muted a; audio_volume := audio_volume a;
           samples := samples a; decodes := decodes a |} in
      (* Let's assume the audio driver that is used by SDL has two
         periods. *)
      let events :=
        if negb (Dbl.isnan (audio_clock a)) then
          let pts :=
            (audio_clock a
             - Dbl.of_int
                 (Int.add (Int.mul 2 audio_hw_buf_size)
                    (audio_write_buf_size a))
               / Dbl.of_int bytes_per_sec)%dbl in
          EvSetClockAt pts (audio_clock_serial a)
            (Dbl.of_int (audio_callback_time a) / Dbl.of_int 1000000)%dbl
          :: (if subtitles then [EvSyncClockWith] else [])
        else [] in
      Some (a, stream, events)
  | None => None
  end.

End Callback.

End AudioOut.

(** ** Vocabulary of the statements about the controls *)

(** The number of leading chapters that have begun at [pos], by
    [av_compare_ts]. *)
Fixpoint chapters_begun (av_compare_ts : Z -> Z * Z -> Z -> Z * Z -> Z)
  (pos : Z) (chapters : list CoreControl.AVChapter) : nat :=
  match chapters with
  | [] => O
  | ch :: chapters =>
      if av_compare_ts pos CoreControl.AV_TIME_BASE_Q
           (CoreControl.start ch) (CoreControl.time_base ch) <? 0
      then O
      else S (chapters_begun av_compare_ts pos chapters)
  end.

(** The same count on the chapters of [src/video_state.cpp]. *)
Fixpoint player_chapters_begun
  (av_compare_ts : Z -> Z * Z -> Z -> Z * Z -> Z)
  (pos : Z) (chapters : list PlayerControl.AVChapter) : nat :=
  match chapters with
  | [] => O
  | ch :: chapters =>
      if av_compare_ts pos PlayerControl.AV_TIME_BASE_Q
           (PlayerControl.start ch) (PlayerControl.time_base ch) <? 0
      then O
      else S (player_chapters_begun av_compare_ts pos chapters)
  end.

(** [n] ends of the input in a row: how many times the input was played
    again, and the [opt->loop] they leave. *)
Fixpoint loop_at_ends (n : nat) (loop : Z) : nat * Z :=
  match n with
  | O => (O, loop)
  | S n =>
      let (again, loop) := CoreControl.loop_at_end loop in
      let (k, loop) := loop_at_ends n loop in
      ((if again then S k else k), loop)
  end.


(** An input with three chapters starting at 0 s, 60 s and 120 s in
    milliseconds, the comparison and the rescaling of time stamps done
    exactly, and no seek pending. *)
Definition example_compare_ts (ts_a : Z) (tb_a : Z * Z) (ts_b : Z)
  (tb_b : Z * Z) : Z :=
  Z.sgn (ts_a * fst tb_a * snd tb_b - ts_b * fst tb_b * snd tb_a).

Definition example_rescale_q (a : Z) (bq cq : Z * Z) : Z :=
  a * fst bq * snd cq / (snd bq * fst cq).

Definition core_three_chapters : list CoreControl.AVChapter :=
  [ {| CoreControl.start := 0; CoreControl.time_base := (1, 1000) |};
    {| CoreControl.start := 60000; CoreControl.time_base := (1, 1000) |};
    {| CoreControl.start := 120000; CoreControl.time_base := (1, 1000) |} ].

Definition core_no_seek : CoreControl.Seek :=
  {| CoreControl.seek_req := false; CoreControl.seek_pos := 0;
     CoreControl.seek_rel := 0; CoreControl.seek_flags := 0 |}.

Definition player_three_chapters : list PlayerControl.AVChapter :=
  [ {| PlayerControl.start := 0; PlayerControl.time_base := (1, 1000) |};
    {| PlayerControl.start := 60000; PlayerControl.time_base := (1, 1000) |};
    {| PlayerControl.start := 120000;
       PlayerControl.time_base := (1, 1000) |} ].

Definition player_no_seek : PlayerControl.Seek :=
  {| PlayerControl.seek_req := false; PlayerControl.seek_pos := 0;
     PlayerControl.seek_rel := 0; PlayerControl.seek_flags := 0 |}.

(** The frames left once the leading frames of another serial than [qs]
    are taken away. *)
Fixpoint player_drop_stale (qs : Z) (l : list Player.VideoFrame)
  : list Player.VideoFrame :=
  match l with
  | [] => []
  | vp :: rest =>
      if Player.serial vp =? qs then l else player_drop_stale qs rest
  end.

Fixpoint core_drop_stale (qs : Z) (l : list Core.Frame) : list Core.Frame :=
  match l with
  | [] => []
  | vp :: rest =>
      if Core.serial vp =? qs then l else core_drop_stale qs rest
  end.

(** No event of the list sets the video clock or pauses a stream. *)
Definition player_still (evs : list Player.Event) : Prop :=
  forall e, In e evs ->
    match e with
    | Player.EvSetClock _ _ | Player.EvSetPaused _ _
    | Player.EvSyncSerialClock => False
    | _ => True
    end.

Definition core_still (evs : list Core.Event) : Prop :=
  forall e, In e evs ->
    match e with
    | Core.EvSetClock _ _ | Core.EvSyncClockWith | Core.EvSetPaused _ _
    | Core.EvSyncSerialClock _ | Core.EvSubtitleClear _ => False
    | _ => True
    end.

(** A session of [src/video_state.cpp] for the statements on pausing and
    stepping: the system time stands at 5 s, the clocks are not set; the
    video queue is at serial 2 and holds a frame of serial 1 decoded before
    a seek, then two frames of serial 2. *)
Definition player_clock_5s : Player.Env :=
  {| Player.av_gettime_relative := fun _ => 5000000;
     Player.vstream_GetClock := fun _ => S754_nan;
     Player.astream_GetClock := fun _ => S754_nan;
     Player.vstream_LastUpdatedClock := fun _ => d_zero |}.

Definition player_sync_audio : Player.VideoState :=
  {| Player.av_sync_type := Player.AV_SYNC_AUDIO_MASTER;
     Player.framedrop := -1;
     Player.vstream_clock := S754_nan; Player.astream_clock := S754_nan;
     Player.vstream_q2d := d_one; Player.vstream_serial := 2;
     Player.viddec_pkt_serial := 2; Player.video_nb_packets := 5;
     Player.max_frame_duration := AV_NOSYNC_THRESHOLD;
     Player.frame_last_filter_delay := d_zero;
     Player.audio_diff_cum := d_zero; Player.audio_diff_avg_coef := d_zero;
     Player.audio_diff_threshold := d_zero;
     Player.audio_diff_avg_count := 0;
     Player.audio_src_freq := 48000; Player.frame_drops_early := 0 |}.

Definition player_video_shown (step : bool) : Player.Config :=
  {| Player.sync := player_sync_audio;
     Player.display_disable := false;
     Player.show_mode := Player.SHOW_MODE_VIDEO;
     Player.vstream_opened := true; Player.astream_opened := true;
     Player.video_queue_serial := 2;
     Player.step := step; Player.read_pause_enosys := false |}.

Definition player_frame (serial : Z) (pts : Dbl.double) : Player.VideoFrame :=
  {| Player.serial := serial; Player.pts := pts;
     Player.duration := d_frame_25fps; Player.bmp := true |}.

Definition player_queue_after_seek (paused forced : bool) : Player.Refresh :=
  {| Player.video_frame_queue :=
       {| FrameQueue.keep_last := true;
          FrameQueue.last_shown := Some (player_frame 1 d_zero);
          FrameQueue.pending :=
            [player_frame 1 d_one; player_frame 2 d_one;
             player_frame 2 d_two] |};
     Player.force_refresh := forced; Player.paused := paused;
     Player.last_vis_time := d_zero; Player.frame_timer := d_zero;
     Player.frame_drops_late := 0;
     Player.remaining_time := CoreStep.REFRESH_RATE;
     Player.reads := 0; Player.trace := [] |}.

(** The duration between two frames of [src/video_state.cpp], computed as
    [vp_duration] does in [src/core/video_state.cpp]. *)
Definition example_VpDuration (vp nextvp : Player.VideoFrame)
  (max_frame_duration : Dbl.double) : Dbl.double :=
  if Player.serial vp =? Player.serial nextvp then
    let d := (Player.pts nextvp - Player.pts vp)%dbl in
    if Dbl.isnan d || (d <=? d_zero)%dbl || (d >? max_frame_duration)%dbl
    then Player.duration vp else d
  else d_zero.

(** The same session in [src/core/video_state.cpp]. *)
Definition core_clock_5s : Core.Env :=
  {| Core.av_gettime_relative := fun _ => 5000000;
     Core.video_GetClock := fun _ => S754_nan;
     Core.audio_GetClock := fun _ => S754_nan;
     Core.subtitle_GetClock := fun _ => S754_nan;
     Core.video_GetPts := fun _ => d_one;
     Core.video_LastUpdatedClock := fun _ => d_zero |}.

Definition core_sync_audio : Core.VideoState :=
  {| Core.av_sync_type := Core.AV_SYNC_AUDIO_MASTER;
     Core.video_st := true; Core.audio_st := true;
     Core.video_stream := 0; Core.audio_stream := 1;
     Core.video_clock := S754_nan; Core.audio_clock := S754_nan;
     Core.subtitle_clock := S754_nan; Core.subtitle_speed := d_one;
     Core.video_nb_packets := 5; Core.audio_nb_packets := 5;
     Core.max_frame_duration := AV_NOSYNC_THRESHOLD;
     Core.audio_diff_cum := d_zero; Core.audio_diff_avg_coef := d_zero;
     Core.audio_diff_threshold := d_zero; Core.audio_diff_avg_count := 0;
     Core.audio_src_freq := 48000 |}.

Definition core_video_shown (step : bool) : Core.Config :=
  {| Core.display_disable := false;
     Core.show_mode := Core.SHOW_MODE_VIDEO;
     Core.rdftspeed := d_zero; Core.framedrop := -1;
     Core.realtime := false; Core.subtitle_st := false;
     Core.video_queue_serial := 2; Core.subtitle_queue_serial := 0;
     Core.step := step; Core.read_pause_enosys := false |}.

Definition core_frame (serial : Z) (pts : Dbl.double) : Core.Frame :=
  {| Core.serial := serial; Core.pts := pts;
     Core.duration := d_frame_25fps; Core.bmp := true;
     Core.uploaded := false; Core.sub_start_display_time := 0;
     Core.sub_end_display_time := 0 |}.

Definition core_queue_after_seek (paused forced : bool) : Core.Refresh :=
  {| Core.sync := core_sync_audio;
     Core.video_frame_queue :=
       {| FrameQueue.keep_last := true;
          FrameQueue.last_shown := Some (core_frame 1 d_zero);
          FrameQueue.pending :=
            [core_frame 1 d_one; core_frame 2 d_one; core_frame 2 d_two] |};
     Core.subtitle_frame_queue :=
       {| FrameQueue.keep_last := false;
          FrameQueue.last_shown := None;
          FrameQueue.pending := [] |};
     Core.force_refresh := forced; Core.paused := paused;
     Core.last_vis_time := d_zero; Core.frame_timer := d_zero;
     Core.frame_drops_late := 0;
     Core.remaining_time := CoreStep.REFRESH_RATE;
     Core.reads := 0; Core.trace := [] |}.

(** Writing samples one at a time into a circular array of [size]
    places. *)
Fixpoint ring_push (size : Z) (st : SampleDisplay.Samples)
  (samples : list Z) : SampleDisplay.Samples :=
  match samples with
  | [] => st
  | x :: samples =>
      let i := SampleDisplay.sample_array_index st in
      ring_push size
        {| SampleDisplay.sample_array :=
             firstn (Z.to_nat i) (SampleDisplay.sample_array st) ++ [x]
             ++ skipn (S (Z.to_nat i)) (SampleDisplay.sample_array st);
           SampleDisplay.sample_array_index :=
             if i + 1 >=? size then 0 else i + 1 |}
        samples
  end.

(** A state of the sample array: [size] places and an index within. *)
Definition ring_ok (size : Z) (st : SampleDisplay.Samples) : Prop :=
  Z.of_nat (length (SampleDisplay.sample_array st)) = size
  /\ 0 <= SampleDisplay.sample_array_index st < size.

(** A run of audio frames through [synchronize_audio]: before each frame
    the rest of the player changes the state by [world] (the clocks move),
    then the frame of [nb_samples] samples is synchronised; the results
    are the sample counts wanted. *)
Fixpoint core_audio_run (s : Core.VideoState)
  (frames : list ((Core.VideoState -> Core.VideoState) * Z)) : list Z :=
  match frames with
  | [] => []
  | (world, nb_samples) :: frames =>
      let (s', wanted) := Core.synchronize_audio (world s) nb_samples in
      wanted :: core_audio_run s' frames
  end.

Fixpoint player_audio_run (s : Player.VideoState)
  (frames : list ((Player.VideoState -> Player.VideoState) * Z)) : list Z :=
  match frames with
  | [] => []
  | (world, nb_samples) :: frames =>
      let (s', wanted) := Player.SynchronizeAudio (world s) nb_samples in
      wanted :: player_audio_run s' frames
  end.

(** A change of the state that leaves the count of measures of the A-V
    filter alone. *)
Definition core_keeps_count (world : Core.VideoState -> Core.VideoState)
  : Prop :=
  forall s, Core.audio_diff_avg_count (world s) = Core.audio_diff_avg_count s.

Definition player_keeps_count
  (world : Player.VideoState -> Player.VideoState) : Prop :=
  forall s,
    Player.audio_diff_avg_count (world s) = Player.audio_diff_avg_count s.

(** The video master, with the audio clock a tenth of a second ahead. *)
Definition core_video_master : Core.VideoState :=
  {| Core.av_sync_type := Core.AV_SYNC_VIDEO_MASTER;
     Core.video_st := true; Core.audio_st := true;
     Core.video_stream := 0; Core.audio_stream := 1;
     Core.video_clock := d_one; Core.audio_clock := d_two;
     Core.subtitle_clock := S754_nan; Core.subtitle_speed := d_one;
     Core.video_nb_packets := 5; Core.audio_nb_packets := 5;
     Core.max_frame_duration := AV_NOSYNC_THRESHOLD;
     Core.audio_diff_cum := d_zero; Core.audio_diff_avg_coef := d_zero;
     Core.audio_diff_threshold := d_zero; Core.audio_diff_avg_count := 0;
     Core.audio_src_freq := 48000 |}.

Definition player_video_master : Player.VideoState :=
  {| Player.av_sync_type := Player.AV_SYNC_VIDEO_MASTER;
     Player.framedrop := -1;
     Player.vstream_clock := d_one; Player.astream_clock := d_two;
     Player.vstream_q2d := d_one; Player.vstream_serial := 2;
     Player.viddec_pkt_serial := 2; Player.video_nb_packets := 5;
     Player.max_frame_duration := AV_NOSYNC_THRESHOLD;
     Player.frame_last_filter_delay := d_zero;
     Player.audio_diff_cum := d_zero; Player.audio_diff_avg_coef := d_zero;
     Player.audio_diff_threshold := d_zero;
     Player.audio_diff_avg_count := 0;
     Player.audio_src_freq := 48000; Player.frame_drops_early := 0 |}.

(** A state of the audio output: the index within the size, and the
    buffer, when there is one, holding [audio_buf_size] bytes at least. *)
Definition audio_ok (a : AudioOut.Audio) : Prop :=
  0 <= AudioOut.audio_buf_index a <= AudioOut.audio_buf_size a
  /\ AudioOut.audio_buf_size a < 2 ^ 30
  /\ match AudioOut.audio_buf a with
     | Some buf => AudioOut.audio_buf_size a <= Z.of_nat (length buf)
     | None => True
     end.

(** Every call of [audio_decode_frame()] fails, or returns the size of
    the buffer it leaves, which is not empty. *)
Definition decodes_ok (audio_decode_frame : nat -> AudioOut.Decoded) : Prop :=
  forall n,
    AudioOut.audio_size (audio_decode_frame n) < 0
    \/ (0 < AudioOut.audio_size (audio_decode_frame n) < 2 ^ 30
        /\ Z.of_nat (length (AudioOut.decoded_buf (audio_decode_frame n)))
           = AudioOut.audio_size (audio_decode_frame n)).

(** An audio output for the examples: the decoder fails on every other
    call and returns four bytes otherwise; the mixer scales the source by
    the volume. *)
Definition example_decode (n : nat) : AudioOut.Decoded :=
  if Nat.even n
  then {| AudioOut.audio_size := 4; AudioOut.decoded_buf := [1; 2; 3; 4];
          AudioOut.decoded_clock := d_one;
          AudioOut.decoded_clock_serial := 1 |}
  else {| AudioOut.audio_size := -1; AudioOut.decoded_buf := [];
          AudioOut.decoded_clock := d_zero;
          AudioOut.decoded_clock_serial := 0 |}.

Definition example_mix (dst src : list Z) (volume : Z) : list Z :=
  map (fun p => fst p + snd p * volume / 128) (combine dst (src ++ repeat 0 (length dst))).

Definition example_audio (muted : bool) : AudioOut.Audio :=
  {| AudioOut.audio_buf := None; AudioOut.audio_buf_size := 0;
     AudioOut.audio_buf_index := 0; AudioOut.audio_write_buf_size := 0;
     AudioOut.audio_clock := S754_nan; AudioOut.audio_clock_serial := -1;
     AudioOut.audio_callback_time := 0;
     AudioOut.muted := muted; AudioOut.audio_volume := 64;
     AudioOut.samples :=
       {| SampleDisplay.sample_array := [0; 0; 0; 0];
          SampleDisplay.sample_array_index := 0 |};
     AudioOut.decodes := 0 |}.

(** ** Cycling through the streams of the input *)

Module Media.

(** libavutil's [enum AVMediaType]. *)
Inductive AVMediaType :=
| AVMEDIA_TYPE_UNKNOWN
| AVMEDIA_TYPE_VIDEO
| AVMEDIA_TYPE_AUDIO
| AVMEDIA_TYPE_DATA
| AVMEDIA_TYPE_SUBTITLE
| AVMEDIA_TYPE_ATTACHMENT.

Definition media_type_eqb (a b : AVMediaType) : bool :=
  match a, b with
  | AVMEDIA_TYPE_UNKNOWN, AVMEDIA_TYPE_UNKNOWN
  | AVMEDIA_TYPE_VIDEO, AVMEDIA_TYPE_VIDEO
  | AVMEDIA_TYPE_AUDIO, AVMEDIA_TYPE_AUDIO
  | AVMEDIA_TYPE_DATA, AVMEDIA_TYPE_DATA
  | AVMEDIA_TYPE_SUBTITLE, AVMEDIA_TYPE_SUBTITLE
  | AVMEDIA_TYPE_ATTACHMENT, AVMEDIA_TYPE_ATTACHMENT => true
  | _, _ => false
  end.

(** What the function reads of an [AVStream]: the fields of
    [st->codecpar]. *)
Record AVStream := {
  codec_type : AVMediaType;
  sample_rate : Z;
  channels : Z
}.

(** [array[i]] for an [int] index; [None] outside of the array. *)
Definition at_index {A : Type} (array : list A) (i : Z) : option A :=
  if i <? 0 then None else nth_error array (Z.to_nat i).

(** The calls that end the function. *)
Inductive Event :=
| EvClose (stream_index : Z)          (* stream_component_close(old_index) *)
| EvOpen (stream_index : Z).          (* stream_component_open(stream_index) *)

(** How the [while (true)] loop is left. *)
Inductive Outcome :=
| Return
| TheEnd (stream_index : Z).

(** The [for] loop that looks for [stream_index] in [p->stream_index],
    an array of [unsigned int], from [start_index] on, [entries] being
    the entries from that index: the value of [start_index] when the loop
    is left. *)
Fixpoint program_position (entries : list Z) (stream_index : Z)
  (start_index : Z) : Z :=
  match entries with
  | [] => start_index
  | entry :: entries =>
      if entry =? UInt.wrap stream_index then start_index
      else program_position entries stream_index (Int.add start_index 1)
  end.

End Media.

Module CoreCycle.

Import Media.

Record Streams := {
  video_stream : Z;
  audio_stream : Z;
  subtitle_stream : Z;
  last_video_stream : Z;
  last_audio_stream : Z;
  last_subtitle_stream : Z
}.

Section Cycle.

(** [ic->streams], with [ic->nb_streams] its length, and libavformat's
    [av_find_program_from_stream(ic, NULL, s)]: the [stream_index] array
    of the program found, [nb_stream_indexes] being its length. *)
Variable streams : list AVStream.
Variable av_find_program_from_stream : Z -> option (list Z).

Section Loop.

Variable codec_type : AVMediaType.
Variable p : option (list Z).
Variable lnb_streams : Z.
Variable start_index : Z.

(** The [while (true)] loop of [stream_cycle_channel]; the state it
    leaves differs in [last_subtitle_stream] at most. *)
Fixpoint cycle (fuel : nat) (s : Streams) (stream_index : Z)
  : option (Streams * Outcome) :=
  match fuel with
  | O => None
  | S fuel =>
      let stream_index := Int.add stream_index 1 in
      let wrapped :=
        if stream_index >=? lnb_streams then
          if media_type_eqb codec_type AVMEDIA_TYPE_SUBTITLE then
            inl ({| video_stream := video_stream s;
                    audio_stream := audio_stream s;
                    subtitle_stream := subtitle_stream s;
                    last_video_stream := last_video_stream s;
                    last_audio_stream := last_audio_stream s;
                    last_subtitle_stream := -1 |}, TheEnd (-1))
          else if start_index =? -1 then inl (s, Return)
          else inr 0
        else inr stream_index in
      match wrapped with
      | inl out => Some out
      | inr stream_index =>
          if stream_index =? start_index then Some (s, Return)
          else
            let i :=
              match p with
              | Some entries => at_index entries stream_index
              | None => Some stream_index
              end in
            match i with
            | Some i =>
                match at_index streams i with
                | Some st =>
                    if media_type_eqb (Media.codec_type st) codec_type then
                      (* check that parameters are OK *)
                      match codec_type with
                      | AVMEDIA_TYPE_AUDIO =>
                          if negb (sample_rate st =? 0)
                             && negb (channels st =? 0)
                          then Some (s, TheEnd stream_index)
                          else cycle fuel s stream_index
                      | AVMEDIA_TYPE_VIDEO
                      | AVMEDIA_TYPE_SUBTITLE =>
                          Some (s, TheEnd stream_index)
                      | _ => cycle fuel s stream_index
                      end
                    else cycle fuel s stream_index
                | None => None
                end
            | None => None
            end
      end
  end.

End Loop.

(** [stream_cycle_channel(codec_type)]: the state it leaves and the calls
    that end it, in order. *)
Definition stream_cycle_channel (fuel : nat) (s : Streams)
  (codec_type : AVMediaType) : option (Streams * list Event) :=
  let lnb_streams := Int.wrap (Z.of_nat (length streams)) in
  let '(start_index, old_index) :=
    match codec_type with
    | AVMEDIA_TYPE_VIDEO => (last_video_stream s, video_stream s)
    | AVMEDIA_TYPE_AUDIO => (last_audio_stream s, audio_stream s)
    | _ => (last_subtitle_stream s, subtitle_stream s)
    end in
  let stream_index := start_index in
  let p :=
    if negb (media_type_eqb codec_type AVMEDIA_TYPE_VIDEO)
       && negb (video_stream s =? -1)
    then av_find_program_from_stream (video_stream s)
    else None in
  let '(lnb_streams, start_index, stream_index) :=
    match p with
    | Some entries =>
        let lnb_streams := Int.wrap (Z.of_nat (length entries)) in
        let start_index :=
          program_position (firstn (Z.to_nat lnb_streams) entries)
            stream_index 0 in
        let start_index :=
          if start_index =? lnb_streams then -1 else start_index in
        (lnb_streams, start_index, start_index)
    | None => (lnb_streams, start_index, stream_index)
    end in
  match cycle codec_type p lnb_streams start_index fuel s stream_index with
  | Some (s, TheEnd stream_index) =>
      let i :=
        match p with
        | Some entries =>
            if negb (stream_index =? -1)
            then option_map Int.wrap (at_index entries stream_index)
            else Some stream_index
        | None => Some stream_index
        end in
      match i with
      | Some stream_index => Some (s, [EvClose old_index; EvOpen stream_index])
      | None => None
      end
  | Some (s, Return) => Some (s, [])
  | None => None
  end.

End Cycle.

End CoreCycle.

Module PlayerCycle.

Import Media.

Definition invalid_stream_index : Z := -1.

(** What the function reads of the player: the indexes of the video and
    audio streams ([vstream_->Index()], [astream_->Index()]), whether the
    video stream is opened, and the streams opened last. *)
Record Streams := {
  vstream_index : Z;
  astream_index : Z;
  vstream_opened : bool;
  last_video_stream : Z;
  last_audio_stream : Z
}.

Section Cycle.

Variable streams : list AVStream.
Variable av_find_program_from_stream : Z -> option (list Z).

Section Loop.

Variable codec_type : AVMediaType.
Variable p : option (list Z).
Variable lnb_streams : Z.
Variable start_index : Z.

(** The [while (true)] loop of [StreamCycleChannel]. *)
Fixpoint cycle (fuel : nat) (stream_index : Z) : option Outcome :=
  match fuel with
  | O => None
  | S fuel =>
      let stream_index := Int.add stream_index 1 in
      let wrapped :=
        if stream_index >=? lnb_streams then
          if start_index =? invalid_stream_index then None
          else Some 0
        else Some stream_index in
      match wrapped with
      | None => Some Return
      | Some stream_index =>
          if stream_index =? start_index then Some Return
          else
            let i :=
              match p with
              | Some entries => at_index entries stream_index
              | None => Some stream_index
              end in
            match i with
            | Some i =>
                match at_index streams i with
                | Some st =>
                    if media_type_eqb (Media.codec_type st) codec_type then
                      (* check that parameters are OK *)
                      match codec_type with
                      | AVMEDIA_TYPE_AUDIO =>
                          if negb (sample_rate st =? 0)
                             && negb (channels st =? 0)
                          then Some (TheEnd stream_index)
                          else cycle fuel stream_index
                      | AVMEDIA_TYPE_VIDEO
                      | AVMEDIA_TYPE_SUBTITLE => Some (TheEnd stream_index)
                      | _ => cycle fuel stream_index
                      end
                    else cycle fuel stream_index
                | None => None
                end
            | None => None
            end
      end
  end.

End Loop.

(** [StreamCycleChannel(codec_type)]: the calls that end it, in order.
    For another type than video and audio only [DNOTREACHED()] is
    executed, which is taken to do nothing. *)
Definition StreamCycleChannel (fuel : nat) (s : Streams)
  (codec_type : AVMediaType) : option (list Event) :=
  let '(start_index, old_index) :=
    match codec_type with
    | AVMEDIA_TYPE_VIDEO => (last_video_stream s, vstream_index s)
    | AVMEDIA_TYPE_AUDIO => (last_audio_stream s, astream_index s)
    | _ => (invalid_stream_index, invalid_stream_index)
    end in
  let stream_index := start_index in
  let lnb_streams := Int.wrap (Z.of_nat (length streams)) in
  let p :=
    if negb (media_type_eqb codec_type AVMEDIA_TYPE_VIDEO)
       && vstream_opened s
    then av_find_program_from_stream old_index
    else None in
  let '(lnb_streams, start_index, stream_index) :=
    match p with
    | Some entries =>
        let lnb_streams := Int.wrap (Z.of_nat (length entries)) in
        let start_index :=
          program_position (firstn (Z.to_nat lnb_streams) entries)
            stream_index 0 in
        let start_index :=
          if start_index =? lnb_streams then invalid_stream_index
          else start_index in
        (lnb_streams, start_index, start_index)
    | None => (lnb_streams, start_index, stream_index)
    end in
  match cycle codec_type p lnb_streams start_index fuel stream_index with
  | Some (TheEnd stream_index) =>
      let i :=
        match p with
        | Some entries =>
            if negb (stream_index =? invalid_stream_index)
            then option_map Int.wrap (at_index entries stream_index)
            else Some stream_index
        | None => Some stream_index
        end in
      match i with
      | Some stream_index => Some [EvClose old_index; EvOpen stream_index]
      | None => None
      end
  | Some Return => Some []
  | None => None
  end.

End Cycle.

End PlayerCycle.

(** *** Vocabulary for cycling *)

(** Whether stream number [i] can be switched to for [codec_type]: it
    has that type, which is video, audio or subtitle, and an audio stream
    has a sample rate and channels. *)
Definition selectable (streams : list Media.AVStream)
  (codec_type : Media.AVMediaType) (i : Z) : bool :=
  match Media.at_index streams i with
  | Some st =>
      Media.media_type_eqb (Media.codec_type st) codec_type
      && match codec_type with
         | Media.AVMEDIA_TYPE_AUDIO =>
             negb (Media.sample_rate st =? 0)
             && negb (Media.channels st =? 0)
         | Media.AVMEDIA_TYPE_VIDEO
         | Media.AVMEDIA_TYPE_SUBTITLE => true
         | _ => false
         end
  | None => false
  end.

(** The integers [lo], [lo + 1], ... below [hi]. *)
Definition interval (lo hi : Z) : list Z :=
  map (fun k => lo + Z.of_nat k) (seq 0 (Z.to_nat (hi - lo))).

(** The places visited from [start] among [n]: those after [start] and
    then, unless the search stops at the end ([wrap] is false), those
    before it. *)
Definition places_after (wrap : bool) (start n : Z) : list Z :=
  interval (start + 1) n ++ (if wrap then interval 0 start else []).

(** The first selectable stream among [places], the stream at a place
    being given by [slot]. *)
Definition first_selectable (streams : list Media.AVStream)
  (codec_type : Media.AVMediaType) (slot : Z -> Z) (places : list Z)
  : option Z :=
  option_map slot
    (find (fun k => selectable streams codec_type (slot k)) places).

(** The first place of [i] among [entries], counted from [k]; [-1] when
    it is not among them. *)
Fixpoint position_from (entries : list Z) (i : Z) (k : Z) : Z :=
  match entries with
  | [] => -1
  | entry :: entries =>
      if entry =? i then k else position_from entries i (k + 1)
  end.

(** How the streams are gone through.  Without a program the places
    are the [nb_streams] streams themselves and the search starts from
    stream [start]; with a program the places are its entries and the
    search starts from the entry that is [start], if there is one. *)
Definition places_count (p : option (list Z)) (nb_streams : Z) : Z :=
  match p with
  | Some entries => Z.of_nat (length entries)
  | None => nb_streams
  end.

Definition start_place (p : option (list Z)) (start : Z) : Z :=
  match p with
  | Some entries => position_from entries start 0
  | None => start
  end.

Definition slot_of (p : option (list Z)) (k : Z) : Z :=
  match p with
  | Some entries => nth (Z.to_nat k) entries (-1)
  | None => k
  end.

(** The program is made of streams of the input, and the search starts
    from a stream of the input or from none. *)
Definition cycle_ready (p : option (list Z)) (nb_streams start : Z) : Prop :=
  nb_streams < 2 ^ 30
  /\ -1 <= start < nb_streams
  /\ match p with
     | Some entries =>
         Z.of_nat (length entries) < 2 ^ 30
         /\ Forall (fun entry => 0 <= entry < nb_streams) entries
     | None => True
     end.

(** What [stream_cycle_channel] starts from: the stream of the type
    opened last, the stream of the type in use, and the program of the
    video stream for another type than video. *)
Definition core_cycle_start (s : CoreCycle.Streams)
  (codec_type : Media.AVMediaType) : Z :=
  match codec_type with
  | Media.AVMEDIA_TYPE_VIDEO => CoreCycle.last_video_stream s
  | Media.AVMEDIA_TYPE_AUDIO => CoreCycle.last_audio_stream s
  | _ => CoreCycle.last_subtitle_stream s
  end.

Definition core_cycle_old (s : CoreCycle.Streams)
  (codec_type : Media.AVMediaType) : Z :=
  match codec_type with
  | Media.AVMEDIA_TYPE_VIDEO => CoreCycle.video_stream s
  | Media.AVMEDIA_TYPE_AUDIO => CoreCycle.audio_stream s
  | _ => CoreCycle.subtitle_stream s
  end.

Definition core_cycle_program
  (av_find_program_from_stream : Z -> option (list Z))
  (s : CoreCycle.Streams) (codec_type : Media.AVMediaType)
  : option (list Z) :=
  match codec_type with
  | Media.AVMEDIA_TYPE_VIDEO => None
  | _ =>
      if CoreCycle.video_stream s =? -1 then None
      else av_find_program_from_stream (CoreCycle.video_stream s)
  end.

Definition core_subtitles_off (s : CoreCycle.Streams) : CoreCycle.Streams :=
  {| CoreCycle.video_stream := CoreCycle.video_stream s;
     CoreCycle.audio_stream := CoreCycle.audio_stream s;
     CoreCycle.subtitle_stream := CoreCycle.subtitle_stream s;
     CoreCycle.last_video_stream := CoreCycle.last_video_stream s;
     CoreCycle.last_audio_stream := CoreCycle.last_audio_stream s;
     CoreCycle.last_subtitle_stream := -1 |}.

(** The same for [StreamCycleChannel], whose program is the one of the
    stream in use. *)
Definition player_cycle_start (s : PlayerCycle.Streams)
  (codec_type : Media.AVMediaType) : Z :=
  match codec_type with
  | Media.AVMEDIA_TYPE_VIDEO => PlayerCycle.last_video_stream s
  | _ => PlayerCycle.last_audio_stream s
  end.

Definition player_cycle_old (s : PlayerCycle.Streams)
  (codec_type : Media.AVMediaType) : Z :=
  match codec_type with
  | Media.AVMEDIA_TYPE_VIDEO => PlayerCycle.vstream_index s
  | _ => PlayerCycle.astream_index s
  end.

Definition player_cycle_program
  (av_find_program_from_stream : Z -> option (list Z))
  (s : PlayerCycle.Streams) (codec_type : Media.AVMediaType)
  : option (list Z) :=
  match codec_type with
  | Media.AVMEDIA_TYPE_VIDEO => None
  | _ =>
      if PlayerCycle.vstream_opened s
      then av_find_program_from_stream (PlayerCycle.astream_index s)
      else None
  end.

(** Four streams for the examples: video, audio without a sample rate,
    and two audio streams; the program of the streams 0 and 2 lists the
    streams 3, 0, 1 and 2, in this order. *)
Definition example_streams : list Media.AVStream :=
  [ {| Media.codec_type := Media.AVMEDIA_TYPE_VIDEO;
       Media.sample_rate := 0; Media.channels := 0 |};
    {| Media.codec_type := Media.AVMEDIA_TYPE_AUDIO;
       Media.sample_rate := 0; Media.channels := 2 |};
    {| Media.codec_type := Media.AVMEDIA_TYPE_AUDIO;
       Media.sample_rate := 44100; Media.channels := 2 |};
    {| Media.codec_type := Media.AVMEDIA_TYPE_AUDIO;
       Media.sample_rate := 48000; Media.channels := 6 |} ].

Definition example_program (stream : Z) : option (list Z) :=
  if (stream =? 0) || (stream =? 2) then Some [3; 0; 1; 2] else None.

Definition core_example_selection : CoreCycle.Streams :=
  {| CoreCycle.video_stream := 0; CoreCycle.audio_stream := 2;
     CoreCycle.subtitle_stream := -1;
     CoreCycle.last_video_stream := 0; CoreCycle.last_audio_stream := 2;
     CoreCycle.last_subtitle_stream := -1 |}.

Definition player_example_selection : PlayerCycle.Streams :=
  {| PlayerCycle.vstream_index := 0; PlayerCycle.astream_index := 2;
     PlayerCycle.vstream_opened := true;
     PlayerCycle.last_video_stream := 0;
     PlayerCycle.last_audio_stream := 2 |}.

(* ================================================================== *)
(** * Part III: properties *)
(* ================================================================== *)

(** ** Comparison of doubles *)

Section DoubleFacts.

Import Dbl.

Lemma isnan_false_compare x y :
  isnan x = false -> isnan y = false -> exists c, SFcompare x y = Some c.
Proof.
  destruct x as [sx | sx | | sx mx ex], y as [sy | sy | | sy my ey];
    simpl; intros; try discriminate; eauto.
Qed.

Lemma compare_antisym x y c :
  SFcompare x y = Some c -> SFcompare y x = Some (CompOpp c).
Proof.
  destruct x as [sx | sx | | sx mx ex], y as [sy | sy | | sy my ey];
    simpl; try discriminate;
    try (destruct sx; intros [= <-]; reflexivity);
    try (destruct sy; intros [= <-]; reflexivity);
    try (destruct sx, sy; intros [= <-]; reflexivity).
  pose proof (Pos.compare_cont_antisym mx my Eq) as Hm; simpl in Hm.
  destruct sx, sy; intros [= <-]; try reflexivity;
    rewrite (Z.compare_antisym ey ex), <- Hm;
    destruct (ey ?= ex), (Pos.compare_cont Eq mx my); reflexivity.
Qed.

(** On numbers, [a < b] fails exactly when [b <= a]. *)
Lemma lt_false_le x y :
  isnan x = false -> isnan y = false -> (x <? y)%dbl = false ->
  (y <=? x)%dbl = true.
Proof.
  intros Hx Hy. unfold lt, le, SFltb, SFleb.
  destruct (isnan_false_compare x y Hx Hy) as [c Hc].
  rewrite Hc, (compare_antisym _ _ _ Hc). destruct c; simpl; congruence.
Qed.

Lemma le_lt_false x y : (y <=? x)%dbl = true -> (x <? y)%dbl = false.
Proof.
  unfold lt, le, SFltb, SFleb.
  destruct (SFcompare y x) as [c|] eqn:Hc; [|discriminate].
  rewrite (compare_antisym _ _ _ Hc). destruct c; simpl; congruence.
Qed.

End DoubleFacts.

(** ** The synchronisation threshold *)

Section SyncThreshold.

Import Dbl.

Lemma ltb_pos_pos m e m' e' :
  SFltb (S754_finite false m e) (S754_finite false m' e') = true ->
  e < e' \/ (e = e' /\ (m < m')%positive).
Proof.
  unfold SFltb, SFcompare. rewrite Pos.compare_cont_spec.
  unfold Pos.switch_Eq.
  destruct (Z.compare_spec e e') as [He | He | He]; try discriminate; auto.
  destruct (Pos.compare_spec m m') as [Hm | Hm | Hm]; try discriminate; auto.
Qed.

(** [FFMAX(AV_SYNC_THRESHOLD_MIN, FFMIN(AV_SYNC_THRESHOLD_MAX, delay))] is
    always a positive number no larger than the upper threshold, whatever
    [delay] is (NaN and infinities included). *)
Lemma sync_threshold_shape (d : double) :
  exists m e,
    FFMAX AV_SYNC_THRESHOLD_MIN (FFMIN AV_SYNC_THRESHOLD_MAX d)
    = S754_finite false m e
    /\ e <= -56.
Proof.
  unfold FFMAX, FFMIN, gt.
  destruct (SFltb d AV_SYNC_THRESHOLD_MAX) eqn:Hmax.
  - destruct (SFltb d AV_SYNC_THRESHOLD_MIN) eqn:Hmin.
    + eexists _, _; split; [reflexivity | lia].
    + destruct d as [s | s | | s m e]; try discriminate.
      * destruct s; discriminate.
      * destruct s; [discriminate|].
        exists m, e; split; [reflexivity|].
        apply ltb_pos_pos in Hmax. clear Hmin. destruct Hmax as [H | [H _]]; lia.
  - replace (SFltb AV_SYNC_THRESHOLD_MAX AV_SYNC_THRESHOLD_MIN) with false
      by (vm_compute; reflexivity).
    eexists _, _; split; [reflexivity | lia].
Qed.

(** A difference at or above a positive threshold is not at or below its
    opposite: the first two branches of the delay policy exclude each
    other. *)
Lemma ge_pos_not_le_neg (x : double) m e :
  (x >=? S754_finite false m e)%dbl = true ->
  (x <=? - S754_finite false m e)%dbl = false.
Proof.
  unfold ge, le, SFleb.
  destruct x as [s | s | | s mx ex]; cbn [SFcompare opp SFopp negb];
    try discriminate; destruct s; intros H; try discriminate H; reflexivity.
Qed.

(** A lag of a fifth of a second is below the opposite of every value the
    threshold takes. *)
Lemma lag_le_neg_threshold (d : double) :
  (- d_fifth
   <=? - FFMAX AV_SYNC_THRESHOLD_MIN (FFMIN AV_SYNC_THRESHOLD_MAX d))%dbl
  = true.
Proof.
  destruct (sync_threshold_shape d) as (m & e & -> & He).
  unfold le, SFleb, d_fifth. cbn [SFcompare opp SFopp negb].
  destruct (Z.compare_spec (-55) e) as [Heq | Hlt | Hgt];
    try reflexivity; lia.
Qed.

End SyncThreshold.

(** ** Master clock selection *)

(** With video preferred and no video stream, [get_master_sync_type] answers
    the audio clock, here the clock of a stream that is not open, where the
    worded chain answers the external clock. *)
Lemma master_sync_type_counterexample :
  Core.get_master_sync_type video_preferred_nothing_open
  = Core.AV_SYNC_AUDIO_MASTER
  /\ claimed_master_sync_type
       (Core.av_sync_type video_preferred_nothing_open)
       (Core.video_st video_preferred_nothing_open)
       (Core.audio_st video_preferred_nothing_open)
     = Core.AV_SYNC_EXTERNAL_CLOCK
  /\ Core.get_master_sync_type video_preferred_nothing_open
     <> claimed_master_sync_type
          (Core.av_sync_type video_preferred_nothing_open)
          (Core.video_st video_preferred_nothing_open)
          (Core.audio_st video_preferred_nothing_open).
Proof. repeat split; discriminate. Qed.

(** C2 (amended).  [Core.get_master_sync_type] answers the video clock
    exactly when video is configured and a video stream is open; the audio
    clock exactly when audio is configured and an audio stream is open, or
    video is configured and no video stream is open (whether or not an audio
    stream is); the external clock in the remaining cases.  It agrees with
    the worded chain except when video is configured without a video
    stream.  [Player.GetMasterSyncType] answers the configured type whatever
    streams are open. *)
Theorem master_sync_type_chain :
  (forall s : Core.VideoState,
      let r := Core.get_master_sync_type s in
      (r = Core.AV_SYNC_VIDEO_MASTER <->
         Core.av_sync_type s = Core.AV_SYNC_VIDEO_MASTER
         /\ Core.video_st s = true)
      /\ (r = Core.AV_SYNC_AUDIO_MASTER <->
            (Core.av_sync_type s = Core.AV_SYNC_AUDIO_MASTER
             /\ Core.audio_st s = true)
            \/ (Core.av_sync_type s = Core.AV_SYNC_VIDEO_MASTER
                /\ Core.video_st s = false))
      /\ (r = Core.AV_SYNC_EXTERNAL_CLOCK <->
            Core.av_sync_type s = Core.AV_SYNC_EXTERNAL_CLOCK
            \/ (Core.av_sync_type s = Core.AV_SYNC_AUDIO_MASTER
                /\ Core.audio_st s = false))
      /\ (~ (Core.av_sync_type s = Core.AV_SYNC_VIDEO_MASTER
             /\ Core.video_st s = false) ->
          r = claimed_master_sync_type
                (Core.av_sync_type s) (Core.video_st s) (Core.audio_st s)))
  /\ (forall s : Player.VideoState,
         Player.GetMasterSyncType s = Player.av_sync_type s).
Proof.
  split; [|reflexivity].
  intros s r; subst r.
  unfold Core.get_master_sync_type, claimed_master_sync_type.
  destruct (Core.av_sync_type s), (Core.video_st s), (Core.audio_st s);
    cbn; intuition congruence.
Qed.

Lemma master_sync_type_chain_witness :
  Core.get_master_sync_type video_preferred_nothing_open
  = Core.AV_SYNC_AUDIO_MASTER.
Proof.
  apply (proj2 (proj1 (proj2 (proj1 master_sync_type_chain
                                video_preferred_nothing_open)))).
  right. split; reflexivity.
Defined.

(** ** The target delay *)

Lemma target_delay_policy_holds (d diff : Dbl.double) :
  target_delay_policy d diff
    (if (diff <=? - Dbl.FFMAX AV_SYNC_THRESHOLD_MIN
                      (Dbl.FFMIN AV_SYNC_THRESHOLD_MAX d))%dbl
     then Dbl.FFMAX d_zero (d + diff)%dbl
     else if (diff >=? Dbl.FFMAX AV_SYNC_THRESHOLD_MIN
                         (Dbl.FFMIN AV_SYNC_THRESHOLD_MAX d))%dbl
             && (d >? AV_SYNC_FRAMEDUP_THRESHOLD)%dbl
          then (d + diff)%dbl
          else if (diff >=? Dbl.FFMAX AV_SYNC_THRESHOLD_MIN
                              (Dbl.FFMIN AV_SYNC_THRESHOLD_MAX d))%dbl
               then (d_two * d)%dbl
               else d).
Proof.
  unfold target_delay_policy.
  destruct (sync_threshold_shape d) as (m & e & Hst & _).
  rewrite Hst.
  destruct (diff >=? S754_finite false m e)%dbl eqn:Hge.
  - rewrite (ge_pos_not_le_neg _ _ _ Hge).
    destruct (d >? AV_SYNC_FRAMEDUP_THRESHOLD)%dbl; cbn [andb];
      repeat split; intros; congruence.
  - cbn [andb].
    destruct (diff <=? - S754_finite false m e)%dbl;
      repeat split; intros; congruence.
Qed.

(** C1.  When video is not the master and [diff = video_clock -
    master_clock] is a number of magnitude below [max_frame_duration], the
    returned delay is [max(0, d + diff)] if [diff <= -sync_threshold],
    [d + diff] if [diff >= sync_threshold] and [d > 0.1], [2 * d] if
    [diff >= sync_threshold] and not [d > 0.1], and [d] otherwise, with
    [sync_threshold = max(0.04, min(0.1, d))]; in both files. *)
Theorem compute_target_delay_policy :
  (forall (s : Core.VideoState) (d : Dbl.double),
      Core.get_master_sync_type s <> Core.AV_SYNC_VIDEO_MASTER ->
      let diff := (Core.video_clock s - Core.get_master_clock s)%dbl in
      Dbl.isnan diff = false ->
      (Dbl.fabs diff <? Core.max_frame_duration s)%dbl = true ->
      target_delay_policy d diff (Core.compute_target_delay s d))
  /\ (forall (s : Player.VideoState) (d : Dbl.double),
         Player.GetMasterSyncType s <> Player.AV_SYNC_VIDEO_MASTER ->
         let diff := (Player.vstream_clock s - Player.GetMasterClock s)%dbl in
         Dbl.isnan diff = false ->
         (Dbl.fabs diff <? Player.max_frame_duration s)%dbl = true ->
         target_delay_policy d diff (Player.ComputeTargetDelay s d)).
Proof.
  split; intros s d Hm diff Hnan Hlt.
  - unfold Core.compute_target_delay, Core.sync_threshold.
    fold diff. rewrite Hnan, Hlt.
    destruct (Core.get_master_sync_type s); try congruence;
      cbn [Core.sync_eqb negb andb]; apply target_delay_policy_holds.
  - unfold Player.ComputeTargetDelay, Player.sync_threshold.
    fold diff. rewrite Hnan, Hlt.
    destruct (Player.GetMasterSyncType s); try congruence;
      cbn [Player.sync_eqb negb andb]; apply target_delay_policy_holds.
Qed.

Lemma compute_target_delay_policy_witness :
  target_delay_policy d_frame_25fps (- d_fifth)%dbl
    (Core.compute_target_delay core_video_lagging d_frame_25fps).
Proof.
  apply (proj1 compute_target_delay_policy core_video_lagging d_frame_25fps).
  - discriminate.
  - reflexivity.
  - vm_compute; reflexivity.
Defined.

(** C6.  Two calls in states that agree on which clock is master, on the
    video clock, on the master clock and on [max_frame_duration] return
    the same delay for the same nominal duration, whatever the rest of the
    two states; in both files. *)
Theorem compute_target_delay_deterministic :
  (forall (s1 s2 : Core.VideoState) (d : Dbl.double),
      Core.get_master_sync_type s1 = Core.get_master_sync_type s2 ->
      Core.video_clock s1 = Core.video_clock s2 ->
      Core.get_master_clock s1 = Core.get_master_clock s2 ->
      Core.max_frame_duration s1 = Core.max_frame_duration s2 ->
      Core.compute_target_delay s1 d = Core.compute_target_delay s2 d)
  /\ (forall (s1 s2 : Player.VideoState) (d : Dbl.double),
         Player.GetMasterSyncType s1 = Player.GetMasterSyncType s2 ->
         Player.vstream_clock s1 = Player.vstream_clock s2 ->
         Player.GetMasterClock s1 = Player.GetMasterClock s2 ->
         Player.max_frame_duration s1 = Player.max_frame_duration s2 ->
         Player.ComputeTargetDelay s1 d = Player.ComputeTargetDelay s2 d).
Proof.
  split; intros s1 s2 d Hty Hv Hm Hmax.
  - unfold Core.compute_target_delay. rewrite Hty, Hv, Hm, Hmax. reflexivity.
  - unfold Player.ComputeTargetDelay. rewrite Hty, Hv, Hm, Hmax. reflexivity.
Qed.

Lemma compute_target_delay_deterministic_witness :
  Core.compute_target_delay core_video_lagging d_frame_25fps
  = Core.compute_target_delay core_video_lagging_other d_frame_25fps.
Proof.
  apply (proj1 compute_target_delay_deterministic
           core_video_lagging core_video_lagging_other d_frame_25fps);
    reflexivity.
Defined.

(** *** A lagging video frame *)

Section LaggingVideo.

Import Dbl.

Lemma fifth_ge_threshold (d : double) :
  (d_fifth >=? FFMAX AV_SYNC_THRESHOLD_MIN (FFMIN AV_SYNC_THRESHOLD_MAX d))%dbl
  = true.
Proof.
  destruct (sync_threshold_shape d) as (m & e & -> & He).
  unfold ge, SFleb, d_fifth. cbn [SFcompare].
  destruct (Z.compare_spec e (-55)) as [Heq | Hlt | Hgt];
    try reflexivity; lia.
Qed.

(** With video a fifth of a second behind the audio master and a frame of
    0.04 s, both files return a delay of 0, not the doubled 0.08. *)
Lemma lagging_video_counterexample :
  (Core.get_master_sync_type core_video_lagging = Core.AV_SYNC_AUDIO_MASTER
   /\ (Core.video_clock core_video_lagging
       - Core.get_master_clock core_video_lagging)%dbl = (- d_fifth)%dbl
   /\ (AV_SYNC_THRESHOLD_MAX <? d_fifth)%dbl = true
   /\ (d_fifth <? Core.max_frame_duration core_video_lagging)%dbl = true
   /\ Core.compute_target_delay core_video_lagging d_frame_25fps = d_zero
   /\ Core.compute_target_delay core_video_lagging d_frame_25fps
      <> (d_two * d_frame_25fps)%dbl)
  /\ (Player.GetMasterSyncType player_video_lagging
      = Player.AV_SYNC_AUDIO_MASTER
      /\ (Player.vstream_clock player_video_lagging
          - Player.GetMasterClock player_video_lagging)%dbl = (- d_fifth)%dbl
      /\ Player.ComputeTargetDelay player_video_lagging d_frame_25fps
         = d_zero
      /\ Player.ComputeTargetDelay player_video_lagging d_frame_25fps
         <> (d_two * d_frame_25fps)%dbl).
Proof. vm_compute. repeat split; discriminate. Qed.

(** C3 (amended).  With audio as master and the video clock a fifth of a
    second behind it ([diff = -0.2], of magnitude below
    [max_frame_duration]), the returned delay is [max(0, d - 0.2)]: the
    frame's delay is shortened, not doubled.  The doubled delay is what a
    video clock a fifth of a second AHEAD of the master gets, when
    [d > 0.1] fails.  In both files. *)
Theorem lagging_video_shortens_delay :
  (forall (s : Core.VideoState) (d : double),
      Core.get_master_sync_type s = Core.AV_SYNC_AUDIO_MASTER ->
      (d_fifth <? Core.max_frame_duration s)%dbl = true ->
      ((Core.video_clock s - Core.audio_clock s)%dbl = (- d_fifth)%dbl ->
       Core.compute_target_delay s d = FFMAX d_zero (d + - d_fifth)%dbl)
      /\ ((Core.video_clock s - Core.audio_clock s)%dbl = d_fifth ->
          (d >? AV_SYNC_FRAMEDUP_THRESHOLD)%dbl = false ->
          Core.compute_target_delay s d = (d_two * d)%dbl))
  /\ (forall (s : Player.VideoState) (d : double),
         Player.GetMasterSyncType s = Player.AV_SYNC_AUDIO_MASTER ->
         (d_fifth <? Player.max_frame_duration s)%dbl = true ->
         ((Player.vstream_clock s - Player.astream_clock s)%dbl
          = (- d_fifth)%dbl ->
          Player.ComputeTargetDelay s d = FFMAX d_zero (d + - d_fifth)%dbl)
         /\ ((Player.vstream_clock s - Player.astream_clock s)%dbl = d_fifth ->
             (d >? AV_SYNC_FRAMEDUP_THRESHOLD)%dbl = false ->
             Player.ComputeTargetDelay s d = (d_two * d)%dbl)).
Proof.
  split; intros s d Hm Hmax.
  - unfold Core.compute_target_delay, Core.get_master_clock, Core.sync_threshold.
    rewrite Hm. cbn [Core.sync_eqb negb].
    split.
    + intros ->. change (fabs (- d_fifth)) with d_fifth.
      rewrite Hmax, lag_le_neg_threshold. reflexivity.
    + intros -> Hd. change (fabs d_fifth) with d_fifth.
      pose proof (fifth_ge_threshold d) as Hge.
      destruct (sync_threshold_shape d) as (m & e & Hst & _).
      rewrite Hst in *.
      rewrite Hmax, Hd, Hge, (ge_pos_not_le_neg _ _ _ Hge).
      reflexivity.
  - unfold Player.ComputeTargetDelay, Player.GetMasterClock,
      Player.sync_threshold.
    rewrite Hm. cbn [Player.sync_eqb negb].
    split.
    + intros ->. change (fabs (- d_fifth)) with d_fifth.
      rewrite Hmax, lag_le_neg_threshold. reflexivity.
    + intros -> Hd. change (fabs d_fifth) with d_fifth.
      pose proof (fifth_ge_threshold d) as Hge.
      destruct (sync_threshold_shape d) as (m & e & Hst & _).
      rewrite Hst in *.
      rewrite Hmax, Hd, Hge, (ge_pos_not_le_neg _ _ _ Hge).
      reflexivity.
Qed.

Lemma lagging_video_shortens_delay_witness :
  Core.compute_target_delay core_video_lagging d_frame_25fps
  = FFMAX d_zero (d_frame_25fps + - d_fifth)%dbl.
Proof.
  apply (proj1 lagging_video_shortens_delay core_video_lagging d_frame_25fps).
  - reflexivity.
  - vm_compute; reflexivity.
  - reflexivity.
Defined.

End LaggingVideo.

(** ** Audio correction *)

Section AudioSync.

Import Dbl.

(** The guard of the averaging filter fails on a NaN difference and on a
    difference of magnitude at least [AV_NOSYNC_THRESHOLD]. *)
Lemma nosync_guard_fails (diff : double) :
  isnan diff = true \/ (fabs diff >=? AV_NOSYNC_THRESHOLD)%dbl = true ->
  negb (isnan diff) && (fabs diff <? AV_NOSYNC_THRESHOLD)%dbl = false.
Proof.
  intros [Hnan | Hge].
  - rewrite Hnan. reflexivity.
  - rewrite (le_lt_false _ _ Hge). apply andb_false_r.
Qed.

(** C7.  When audio is not the master and [diff = audio_clock -
    master_clock] is NaN or of magnitude at least [AV_NOSYNC_THRESHOLD]
    (10 s), the call sets [audio_diff_avg_count] and [audio_diff_cum] to 0
    and returns [nb_samples] itself; in both files. *)
Theorem synchronize_audio_resets_filter :
  (forall (s : Core.VideoState) (nb_samples : Z),
      Core.get_master_sync_type s <> Core.AV_SYNC_AUDIO_MASTER ->
      let diff := (Core.audio_clock s - Core.get_master_clock s)%dbl in
      isnan diff = true \/ (fabs diff >=? AV_NOSYNC_THRESHOLD)%dbl = true ->
      let (s', wanted) := Core.synchronize_audio s nb_samples in
      Core.audio_diff_avg_count s' = 0
      /\ Core.audio_diff_cum s' = d_zero
      /\ wanted = nb_samples)
  /\ (forall (s : Player.VideoState) (nb_samples : Z),
         Player.GetMasterSyncType s <> Player.AV_SYNC_AUDIO_MASTER ->
         let diff := (Player.astream_clock s - Player.GetMasterClock s)%dbl in
         isnan diff = true \/ (fabs diff >=? AV_NOSYNC_THRESHOLD)%dbl = true ->
         let (s', wanted) := Player.SynchronizeAudio s nb_samples in
         Player.audio_diff_avg_count s' = 0
         /\ Player.audio_diff_cum s' = d_zero
         /\ wanted = nb_samples).
Proof.
  split; intros s nb Hm diff Hdiff.
  - unfold Core.synchronize_audio. fold diff.
    rewrite (nosync_guard_fails diff Hdiff).
    destruct (Core.get_master_sync_type s); try congruence;
      cbn; auto.
  - unfold Player.SynchronizeAudio. fold diff.
    rewrite (nosync_guard_fails diff Hdiff).
    destruct (Player.GetMasterSyncType s); try congruence;
      cbn; auto.
Qed.

Lemma synchronize_audio_resets_filter_witness :
  let (s', wanted) := Core.synchronize_audio core_audio_far_behind 1024 in
  Core.audio_diff_avg_count s' = 0
  /\ Core.audio_diff_cum s' = d_zero
  /\ wanted = 1024.
Proof.
  apply (proj1 synchronize_audio_resets_filter core_audio_far_behind 1024).
  - discriminate.
  - right. vm_compute. reflexivity.
Defined.

End AudioSync.

(** *** Bounds of the corrected sample count *)

Section SampleBounds.

Lemma wrap_in_range z : Int.INT_MIN <= z <= Int.INT_MAX -> Int.wrap z = z.
Proof.
  unfold Int.wrap, Int.INT_MIN, Int.INT_MAX. intros H.
  rewrite Z.mod_small; lia.
Qed.

Lemma av_clip_bounds a amin amax :
  amin <= amax -> amin <= Int.av_clip a amin amax <= amax.
Proof.
  unfold Int.av_clip. intros H.
  destruct (Z.ltb_spec a amin); [lia|].
  destruct (a >? amax) eqn:Hgt; [lia|].
  rewrite Z.gtb_ltb in Hgt. apply Z.ltb_ge in Hgt. lia.
Qed.

Lemma percent_of_samples nb p :
  0 <= nb <= NB_SAMPLES_MAX -> 0 <= p <= 110 ->
  Int.div (Int.mul nb p) 100 = nb * p / 100.
Proof.
  unfold NB_SAMPLES_MAX. intros Hnb Hp.
  unfold Int.div, Int.mul.
  assert (Hr : 0 <= nb * p <= Int.INT_MAX) by (unfold Int.INT_MAX; nia).
  rewrite (wrap_in_range (nb * p)) by (unfold Int.INT_MIN; lia).
  rewrite Z.quot_div_nonneg by lia.
  apply wrap_in_range.
  assert (0 <= nb * p / 100 <= nb * p)
    by (split; [apply Z.div_pos; lia | apply Z.div_le_upper_bound; lia]).
  unfold Int.INT_MIN; lia.
Qed.

Lemma clipped_samples_bounds a nb :
  0 <= nb <= NB_SAMPLES_MAX ->
  nb * 90 / 100
  <= Int.av_clip a
       (Int.div (Int.mul nb (100 - SAMPLE_CORRECTION_PERCENT_MAX)) 100)
       (Int.div (Int.mul nb (100 + SAMPLE_CORRECTION_PERCENT_MAX)) 100)
  <= nb * 110 / 100.
Proof.
  intros Hnb.
  change (100 - SAMPLE_CORRECTION_PERCENT_MAX) with 90.
  change (100 + SAMPLE_CORRECTION_PERCENT_MAX) with 110.
  rewrite !percent_of_samples by lia.
  apply av_clip_bounds.
  apply Z.div_le_mono; lia.
Qed.

Lemma unchanged_samples_bounds nb :
  0 <= nb -> nb * 90 / 100 <= nb <= nb * 110 / 100.
Proof.
  intros Hnb. split.
  - apply Z.div_le_upper_bound; lia.
  - apply Z.div_le_lower_bound; lia.
Qed.

(** For a block of 1024 samples the lower bound is computed in integers,
    [1024 * 90 / 100 = 921], and 921 is below [1024 * 0.9 = 921.6]. *)
Lemma synchronize_audio_counterexample :
  (snd (Core.synchronize_audio core_audio_behind 1024) = 921
   /\ ~ within_ten_percent 1024
          (snd (Core.synchronize_audio core_audio_behind 1024)))
  /\ (snd (Player.SynchronizeAudio player_audio_behind 1024) = 921
      /\ ~ within_ten_percent 1024
             (snd (Player.SynchronizeAudio player_audio_behind 1024))).
Proof.
  assert (Hc : snd (Core.synchronize_audio core_audio_behind 1024) = 921)
    by (vm_compute; reflexivity).
  assert (Hp : snd (Player.SynchronizeAudio player_audio_behind 1024) = 921)
    by (vm_compute; reflexivity).
  rewrite Hc, Hp. unfold within_ten_percent. repeat split; lia.
Qed.

(** C4 (amended).  For [0 <= nb_samples <= 19522578] (so that
    [nb_samples * 110] fits an [int]) and every synchronisation state, the
    returned count lies between the two integer quotients
    [nb_samples * 90 / 100] and [nb_samples * 110 / 100]; it is therefore
    at most [nb_samples * 1.1] and above [nb_samples * 0.9 - 1].  In both
    files. *)
Theorem synchronize_audio_bounds :
  (forall (s : Core.VideoState) (nb_samples : Z),
      0 <= nb_samples <= NB_SAMPLES_MAX ->
      let r := snd (Core.synchronize_audio s nb_samples) in
      nb_samples * 90 / 100 <= r <= nb_samples * 110 / 100
      /\ 9 * nb_samples - 10 < 10 * r <= 11 * nb_samples)
  /\ (forall (s : Player.VideoState) (nb_samples : Z),
         0 <= nb_samples <= NB_SAMPLES_MAX ->
         let r := snd (Player.SynchronizeAudio s nb_samples) in
         nb_samples * 90 / 100 <= r <= nb_samples * 110 / 100
         /\ 9 * nb_samples - 10 < 10 * r <= 11 * nb_samples).
Proof.
  assert (Hreal : forall nb r,
             nb * 90 / 100 <= r <= nb * 110 / 100 ->
             nb * 90 / 100 <= r <= nb * 110 / 100
             /\ 9 * nb - 10 < 10 * r <= 11 * nb).
  { intros nb r H. split; [exact H|].
    pose proof (Z.div_mod (nb * 90) 100 ltac:(lia)).
    pose proof (Z.mod_pos_bound (nb * 90) 100 ltac:(lia)).
    pose proof (Z.div_mod (nb * 110) 100 ltac:(lia)).
    pose proof (Z.mod_pos_bound (nb * 110) 100 ltac:(lia)).
    lia. }
  split; intros s nb Hnb r; apply Hreal; subst r.
  - unfold Core.synchronize_audio.
    repeat match goal with
           | |- context [if ?c then _ else _] => destruct c
           end; cbn [snd];
      solve [apply clipped_samples_bounds; exact Hnb
            | apply unchanged_samples_bounds; lia].
  - unfold Player.SynchronizeAudio.
    repeat match goal with
           | |- context [if ?c then _ else _] => destruct c
           end; cbn [snd];
      solve [apply clipped_samples_bounds; exact Hnb
            | apply unchanged_samples_bounds; lia].
Qed.

Lemma synchronize_audio_bounds_witness :
  1024 * 90 / 100 <= snd (Core.synchronize_audio core_audio_behind 1024)
                  <= 1024 * 110 / 100
  /\ 9 * 1024 - 10 < 10 * snd (Core.synchronize_audio core_audio_behind 1024)
                   <= 11 * 1024.
Proof.
  apply (proj1 synchronize_audio_bounds core_audio_behind 1024).
  unfold NB_SAMPLES_MAX. lia.
Defined.

End SampleBounds.

(** ** Duration between two queued frames *)

(** C9.  [vp_duration] returns 0.0 when the two frames carry different
    serials; with equal serials it returns [nextvp->pts - vp->pts], except
    that it returns [vp->duration] when that difference is NaN, is at most
    0, or exceeds [max_frame_duration]. *)
Theorem vp_duration_cases :
  forall (s : Core.VideoState) (vp nextvp : Core.Frame),
    (Core.serial vp <> Core.serial nextvp ->
     Core.vp_duration s vp nextvp = d_zero)
    /\ (Core.serial vp = Core.serial nextvp ->
        let diff := (Core.pts nextvp - Core.pts vp)%dbl in
        (Dbl.isnan diff = true
         \/ (diff <=? d_zero)%dbl = true
         \/ (diff >? Core.max_frame_duration s)%dbl = true ->
         Core.vp_duration s vp nextvp = Core.duration vp)
        /\ (Dbl.isnan diff = false ->
            (diff <=? d_zero)%dbl = false ->
            (diff >? Core.max_frame_duration s)%dbl = false ->
            Core.vp_duration s vp nextvp = diff)).
Proof.
  intros s vp nextvp. split.
  - intros Hne. unfold Core.vp_duration.
    apply Z.eqb_neq in Hne. rewrite Hne. reflexivity.
  - intros Heq diff. unfold Core.vp_duration.
    apply Z.eqb_eq in Heq. rewrite Heq. fold diff. split.
    + intros [H | [H | H]]; rewrite H; cbn [orb];
        rewrite ?orb_true_r; reflexivity.
    + intros H1 H2 H3. rewrite H1, H2, H3. reflexivity.
Qed.

Lemma vp_duration_cases_witness :
  Core.vp_duration core_video_lagging frame_a frame_b = d_zero.
Proof.
  apply (proj1 (vp_duration_cases core_video_lagging frame_a frame_b)).
  discriminate.
Defined.

(** ** Early frame drop *)

Lemma framedrop_enabled_spec (s : Player.VideoState) :
  Player.framedrop_enabled s = true <->
  (Player.framedrop s > 0
   \/ (Player.framedrop s <> 0
       /\ Player.GetMasterSyncType s <> Player.AV_SYNC_VIDEO_MASTER)).
Proof.
  unfold Player.framedrop_enabled.
  rewrite orb_true_iff, andb_true_iff, !negb_true_iff, Z.gtb_ltb,
    Z.ltb_lt, Z.eqb_neq.
  destruct (Player.GetMasterSyncType s); cbn [Player.sync_eqb];
    intuition (try lia; try congruence).
Qed.

(** C10.  For a successfully decoded picture ([got_picture > 0]),
    [GetVideoFrame] unreferences the frame and reports no picture exactly
    when frame dropping is enabled for the current master, the frame has a
    pts, [diff = pts_seconds - master_clock] is a number of magnitude below
    [AV_NOSYNC_THRESHOLD], [diff - frame_last_filter_delay < 0], the
    decoder's packet serial is the stream's serial and the video packet
    queue is not empty; otherwise the frame is passed on, nothing else
    changing. *)
Theorem early_drop_iff :
  forall (s : Player.VideoState) (got_picture frame_pts : Z),
    got_picture > 0 ->
    let r := Player.GetVideoFrame s got_picture frame_pts in
    (early_drop_conditions s frame_pts ->
     Player.got r = 0 /\ Player.unref r = true
     /\ Player.frame_drops_early (Player.after r)
        = N.succ (Player.frame_drops_early s))
    /\ (~ early_drop_conditions s frame_pts ->
        Player.got r = got_picture /\ Player.unref r = false
        /\ Player.after r = s).
Proof.
  intros s g p Hg r. subst r.
  unfold Player.GetVideoFrame, early_drop_conditions.
  destruct (Z.ltb_spec g 0) as [Hlt | _]; [lia|].
  destruct (Z.eqb_spec g 0) as [Hz | _]; [lia|]. cbn [negb].
  rewrite <- framedrop_enabled_spec.
  destruct (Player.framedrop_enabled s).
  2: { split; [intros [H _]; discriminate H | auto]. }
  destruct (Z.eqb_spec p Player.AV_NOPTS_VALUE) as [Hp | Hp]; cbn [negb].
  { split; [intros (_ & H & _); contradiction | auto]. }
  set (diff := (Player.vstream_q2d s * Dbl.of_int p
                - Player.GetMasterClock s)%dbl).
  destruct (Dbl.isnan diff); cbn [negb andb].
  { split; [intros (_ & _ & H & _); discriminate H | auto]. }
  destruct (Dbl.fabs diff <? AV_NOSYNC_THRESHOLD)%dbl; cbn [andb].
  2: { split; [intros (_ & _ & _ & H & _); discriminate H | auto]. }
  destruct (diff - Player.frame_last_filter_delay s <? d_zero)%dbl;
    cbn [andb].
  2: { split; [intros (_ & _ & _ & _ & H & _); discriminate H | auto]. }
  destruct (Z.eqb_spec (Player.viddec_pkt_serial s) (Player.vstream_serial s))
    as [Hs | Hs]; cbn [andb].
  2: { split; [intros (_ & _ & _ & _ & _ & H & _); contradiction | auto]. }
  destruct (N.eqb_spec (Player.video_nb_packets s) 0) as [Hn | Hn];
    cbn [negb].
  { split; [intros (_ & _ & _ & _ & _ & _ & H); contradiction | auto]. }
  split; [intros _; cbn; auto | intros H; exfalso; apply H; auto 10].
Qed.

Lemma early_drop_iff_witness :
  Player.got (Player.GetVideoFrame player_frame_late 1 1) = 0
  /\ Player.unref (Player.GetVideoFrame player_frame_late 1 1) = true
  /\ Player.frame_drops_early
       (Player.after (Player.GetVideoFrame player_frame_late 1 1))
     = N.succ (Player.frame_drops_early player_frame_late).
Proof.
  apply (proj1 (early_drop_iff player_frame_late 1 1 ltac:(lia))).
  unfold early_drop_conditions.
  repeat split; try (vm_compute; congruence).
  right. split; discriminate.
Defined.

(** ** The frame queue *)

Section QueueFacts.

Context {Frame : Type}.
Implicit Types q : FrameQueue.t Frame.

Lemma move_to_next_keep_last q :
  FrameQueue.keep_last (FrameQueue.move_to_next q) = FrameQueue.keep_last q.
Proof. unfold FrameQueue.move_to_next. destruct (FrameQueue.pending q); reflexivity. Qed.

Lemma move_to_next_last_shown q vp rest :
  FrameQueue.keep_last q = true -> FrameQueue.pending q = vp :: rest ->
  FrameQueue.last_shown (FrameQueue.move_to_next q) = Some vp.
Proof. unfold FrameQueue.move_to_next. intros -> ->. reflexivity. Qed.

Lemma move_to_next_remaining q vp :
  FrameQueue.peek q = Some vp ->
  S (FrameQueue.remaining_count (FrameQueue.move_to_next q))
  = FrameQueue.remaining_count q.
Proof.
  unfold FrameQueue.peek, FrameQueue.move_to_next, FrameQueue.remaining_count.
  destruct (FrameQueue.pending q); [discriminate | reflexivity].
Qed.

End QueueFacts.

(** ** The refresh step of [src/video_state.cpp] *)

Section PlayerRefresh.

Import Player.

Variable VpDuration : VideoFrame -> VideoFrame -> Dbl.double -> Dbl.double.
Variable env : Env.
Variable c : Config.

Lemma MoveToNext_keep_last (q : FrameQueue) :
  FrameQueue.keep_last (MoveToNext q) = FrameQueue.keep_last q.
Proof. apply move_to_next_keep_last. Qed.

Lemma MoveToNext_last_shown (q : FrameQueue) vp rest :
  FrameQueue.keep_last q = true -> FrameQueue.pending q = vp :: rest ->
  FrameQueue.last_shown (MoveToNext q) = Some vp.
Proof. apply move_to_next_last_shown. Qed.

Lemma StreamTogglePause_running r :
  paused r = false ->
  StreamTogglePause env c r
  = emit (EvSetPaused false true)
      (emit (EvSetPaused true true) (set_paused true r)).
Proof.
  intros H. unfold StreamTogglePause. rewrite H. cbv zeta. rewrite H.
  reflexivity.
Qed.

(** A stale head is consumed and the loop starts over: no clock update,
    no display request, nothing but the queue changes. *)
Lemma retry_stale_head fuel r vp rest :
  FrameQueue.pending (video_frame_queue r) = vp :: rest ->
  serial vp <> video_queue_serial c ->
  retry VpDuration env c (S fuel) r
  = retry VpDuration env c fuel
      (set_queue (MoveToNext (video_frame_queue r)) r).
Proof.
  intros Hq Hs. cbn [retry].
  unfold IsEmpty, PeekLast, Peek, FrameQueue.is_empty, FrameQueue.peek_last,
    FrameQueue.peek. rewrite Hq.
  apply Z.eqb_neq in Hs.
  destruct (FrameQueue.last_shown (video_frame_queue r)); cbn [hd_error];
    rewrite Hs; reflexivity.
Qed.

Lemma retry_post_refl r :
  FrameQueue.keep_last (video_frame_queue r) = true -> (retry_post c) r r.
Proof.
  intros Hk. exists []. repeat split; auto.
  - intros p ser [].
  - intros vp [].
Qed.

Lemma retry_post_same r r' :
  FrameQueue.keep_last (video_frame_queue r') = true ->
  trace r' = trace r -> force_refresh r' = force_refresh r ->
  (retry_post c) r r'.
Proof.
  intros Hk Ht Hf. exists []. repeat split; auto.
  - intros p ser [].
  - intros vp [].
  - rewrite Hf. auto.
Qed.

Lemma retry_post_trans r1 r2 r3 :
  (retry_post c) r1 r2 -> (retry_post c) r2 r3 ->
  (force_refresh r2 = true -> force_refresh r1 = true) ->
  (retry_post c) r1 r3.
Proof.
  intros (e1 & Ht1 & Hc1 & Hd1 & Hk1 & Hf1) (e2 & Ht2 & Hc2 & Hd2 & Hk2 & Hf2)
         Hf.
  exists (e2 ++ e1). repeat split.
  - rewrite Ht2, Ht1, app_assoc. reflexivity.
  - intros p ser Hin. apply in_app_or in Hin. destruct Hin; eauto.
  - intros vp Hin. apply in_app_or in Hin. destruct Hin as [H | H];
      [eapply Hd2 | eapply Hd1]; eauto.
  - assumption.
  - intros H3. destruct (Hf2 H3) as [H2 | H2]; auto.
Qed.

Lemma retry_invariant fuel :
  forall r r',
    FrameQueue.keep_last (video_frame_queue r) = true ->
    retry VpDuration env c fuel r = Some r' ->
    (retry_post c) r r'.
Proof.
  induction fuel as [| fuel IH]; intros r r' Hk Hr; [discriminate|].
  cbn [retry] in Hr.
  destruct (IsEmpty (video_frame_queue r)) eqn:Hempty.
  { injection Hr as <-. apply retry_post_refl, Hk. }
  destruct (FrameQueue.pending (video_frame_queue r)) as [| vp rest] eqn:Hq.
  { unfold IsEmpty, FrameQueue.is_empty in Hempty. rewrite Hq in Hempty.
    discriminate. }
  assert (Hpeek : Peek (video_frame_queue r) = Some vp)
    by (unfold Peek, FrameQueue.peek; rewrite Hq; reflexivity).
  rewrite Hpeek in Hr.
  destruct (PeekLast (video_frame_queue r)) as [lastvp |] eqn:Hlast.
  2: { injection Hr as <-. apply retry_post_refl, Hk. }
  destruct (serial vp =? video_queue_serial c) eqn:Hser; cbn [negb] in Hr.
  2: { apply IH in Hr; [| cbn; rewrite MoveToNext_keep_last; exact Hk].
       eapply retry_post_trans; [| exact Hr | cbn; auto].
       apply retry_post_same; cbn; auto.
       rewrite MoveToNext_keep_last; exact Hk. }
  apply Z.eqb_eq in Hser.
  set (r1 := if negb (serial lastvp =? serial vp)
             then let (time, r0) := time_now env r in set_frame_timer time r0
             else r) in Hr.
  assert (H1 : video_frame_queue r1 = video_frame_queue r
               /\ trace r1 = trace r /\ force_refresh r1 = force_refresh r).
  { subst r1. destruct (negb (serial lastvp =? serial vp)); cbn; auto. }
  destruct H1 as (Hq1 & Ht1 & Hf1).
  assert (Hpost1 : (retry_post c) r r1).
  { apply retry_post_same; auto. rewrite Hq1; exact Hk. }
  clearbody r1.
  destruct (paused r1) eqn:Hp.
  { injection Hr as <-. exact Hpost1. }
  cbn [time_now] in Hr.
  match type of Hr with
  | (if ?b then _ else _) = _ => destruct b
  end.
  { injection Hr as <-.
    eapply retry_post_trans; [exact Hpost1 | | rewrite Hf1; auto].
    apply retry_post_same; cbn; auto. rewrite Hq1; exact Hk. }
  (* the frame is due *)
  match type of Hr with
  | context [set_frame_timer ?t (next_reading (next_reading r1))] =>
      set (r2 := set_frame_timer t (next_reading (next_reading r1))) in Hr
  end.
  match type of Hr with
  | context [if ?b then set_frame_timer ?t r2 else r2] =>
      set (r3 := if b then set_frame_timer t r2 else r2) in Hr
  end.
  assert (H3 : video_frame_queue r3 = video_frame_queue r
               /\ trace r3 = trace r /\ force_refresh r3 = force_refresh r
               /\ paused r3 = false).
  { subst r3 r2.
    match goal with |- context [if ?b then _ else _] => destruct b end;
      cbn; auto. }
  destruct H3 as (Hq3 & Ht3 & Hf3 & Hp3). clearbody r3. clear r2.
  set (r4 := if negb (Dbl.isnan (pts vp))
             then emit (EvSetClock (pts vp) (serial vp)) r3 else r3) in Hr.
  assert (H4 : video_frame_queue r4 = video_frame_queue r
               /\ force_refresh r4 = force_refresh r
               /\ paused r4 = false
               /\ exists evs, trace r4 = evs ++ trace r
                              /\ clock_updates_current (video_queue_serial c) evs
                              /\ displays_nothing evs).
  { subst r4. destruct (negb (Dbl.isnan (pts vp))); cbn.
    - repeat split; auto. exists [EvSetClock (pts vp) (serial vp)].
      rewrite Ht3. repeat split.
      + intros p ser [[= _ <-] | []]. exact Hser.
      + intros f [H | []]; discriminate H.
    - repeat split; auto. exists []. rewrite Ht3. repeat split.
      + intros p ser [].
      + intros f []. }
  destruct H4 as (Hq4 & Hf4 & Hp4 & evs4 & Ht4 & Hc4 & Hd4). clearbody r4.
  assert (Hpost4 : (retry_post c) r r4).
  { exists evs4. repeat split; auto.
    - rewrite Hq4; exact Hk.
    - rewrite Hf4; auto. }
  match type of Hr with
  | (if ?b then _ else _) = _ => destruct b
  end.
  - (* late: drop the frame and start over *)
    apply IH in Hr; [| cbn; rewrite MoveToNext_keep_last; exact Hk].
    eapply retry_post_trans; [| exact Hr | cbn; rewrite Hf4; auto].
    eapply retry_post_trans; [exact Hpost4 | | rewrite Hf4; auto].
    apply retry_post_same; cbn; auto.
    rewrite MoveToNext_keep_last; exact Hk.
  - (* shown: the consumed frame carries the current serial *)
    injection Hr as <-.
    cbn [paused set_force_refresh set_queue]. rewrite Hp4. cbn [negb].
    rewrite andb_true_r.
    assert (Hshown : FrameQueue.last_shown (MoveToNext (video_frame_queue r)) = Some vp)
      by (eapply MoveToNext_last_shown; eauto).
    destruct (step c).
    + rewrite StreamTogglePause_running by (cbn; exact Hp4).
      exists (EvSetPaused false true :: EvSetPaused true true :: evs4).
      cbn. rewrite Ht4. repeat split.
      * intros p ser [H | [H | H]]; try discriminate H. eauto.
      * intros f [H | [H | H]]; try discriminate H. eapply Hd4; eauto.
      * rewrite MoveToNext_keep_last; exact Hk.
      * intros _. right. exists vp. auto.
    + exists evs4. cbn. rewrite Ht4. repeat split; auto.
      * rewrite MoveToNext_keep_last; exact Hk.
      * intros _. right. exists vp. auto.
Qed.

Lemma retry_terminates fuel :
  forall r,
    (FrameQueue.remaining_count (video_frame_queue r) < fuel)%nat ->
    exists r', retry VpDuration env c fuel r = Some r'.
Proof.
  induction fuel as [| fuel IH]; intros r Hlen; [inversion Hlen|].
  cbn [retry].
  destruct (IsEmpty (video_frame_queue r)); [eauto|].
  destruct (PeekLast (video_frame_queue r)); [| eauto].
  destruct (Peek (video_frame_queue r)) eqn:Hpeek; [| eauto].
  assert (Hnext : forall r0,
             video_frame_queue r0 = MoveToNext (video_frame_queue r) ->
             exists r', retry VpDuration env c fuel r0 = Some r').
  { intros r0 Hq0. apply IH. rewrite Hq0.
    apply PeanoNat.lt_S_n. unfold MoveToNext.
    rewrite (move_to_next_remaining _ _ Hpeek). exact Hlen. }
  destruct (negb (serial v0 =? video_queue_serial c)).
  { apply Hnext. reflexivity. }
  match goal with
  | |- context [if paused ?x then _ else _] => destruct (paused x)
  end; [eauto|].
  cbn [time_now].
  repeat match goal with
         | |- exists r', (if ?b then _ else _) = Some r' => destruct b
         end; eauto.
Qed.

Lemma VideoDisplay_audio r :
  astream_opened c = true ->
  show_mode_eqb (show_mode c) SHOW_MODE_VIDEO = false ->
  VideoDisplay c r = emit EvAudioDisplay r.
Proof. unfold VideoDisplay. intros -> ->. reflexivity. Qed.

(** The whole step: it returns; every clock update carries the current
    serial; unless a refresh was already forced on entry, every picture
    displayed carries the current serial. *)
Lemma VideoRefresh_post r :
  FrameQueue.keep_last (video_frame_queue r) = true ->
  exists r' evs,
    VideoRefresh VpDuration env c r = Some r'
    /\ trace r' = evs ++ trace r
    /\ clock_updates_current (video_queue_serial c) evs
    /\ (force_refresh r = false ->
        displays_current (video_queue_serial c) evs).
Proof.
  intros Hk. unfold VideoRefresh.
  match goal with
  | |- context [retry _ _ _ _ ?x] => set (r1 := x)
  end.
  assert (H1 : video_frame_queue r1 = video_frame_queue r
               /\ force_refresh r1 = force_refresh r
               /\ exists evs, trace r1 = evs ++ trace r
                              /\ clock_updates_current (video_queue_serial c) evs
                              /\ displays_nothing evs).
  { subst r1.
    destruct (negb (display_disable c)); cbn [andb];
      [| repeat split; auto; exists []; repeat split;
         [intros p ser [] | intros f []]].
    destruct (show_mode_eqb (show_mode c) SHOW_MODE_VIDEO) eqn:Hmode;
      cbn [negb andb];
      [repeat split; auto; exists []; repeat split;
       [intros p ser [] | intros f []] |].
    destruct (astream_opened c) eqn:Ha;
      [| repeat split; auto; exists []; repeat split;
         [intros p ser [] | intros f []]].
    cbn [time_now].
    match goal with |- context [if ?b then _ else _] => destruct b end.
    - rewrite VideoDisplay_audio by assumption. cbn.
      repeat split; auto. exists [EvAudioDisplay]. repeat split.
      + intros p ser [H | []]; discriminate H.
      + intros f [H | []]; discriminate H.
    - cbn. repeat split; auto. exists []. repeat split;
        [intros p ser [] | intros f []]. }
  destruct H1 as (Hq1 & Hf1 & evs1 & Ht1 & Hc1 & Hd1). clearbody r1.
  destruct (vstream_opened c) eqn:Hv.
  2: { exists (set_force_refresh false r1), evs1. cbn.
       repeat split; auto. intros _ f Hin. elim (Hd1 f Hin). }
  destruct (retry_terminates
              (S (FrameQueue.remaining_count (video_frame_queue r1))) r1)
    as [r2 Hr2]; [apply PeanoNat.Nat.lt_succ_diag_r|].
  rewrite Hr2.
  destruct (retry_invariant _ _ _ ltac:(rewrite Hq1; exact Hk) Hr2)
    as (evs2 & Ht2 & Hc2 & Hd2 & Hk2 & Hf2).
  match goal with
  | |- context [if ?b then VideoDisplay c r2 else r2] => destruct b eqn:Hshow
  end.
  - apply andb_prop in Hshow. destruct Hshow as [Hshow Hrs].
    apply andb_prop in Hshow. destruct Hshow as [Hshow Hmode].
    apply andb_prop in Hshow. destruct Hshow as [_ Hforce].
    unfold VideoDisplay. rewrite Hmode, Hv, andb_false_r.
    unfold VideoImageDisplay, PeekLast, FrameQueue.peek_last.
    unfold RindexShown, FrameQueue.rindex_shown in Hrs.
    destruct (FrameQueue.last_shown (video_frame_queue r2)) as [f |] eqn:Hl;
      [| discriminate].
    destruct (bmp f).
    + exists (set_force_refresh false (emit (EvImageDisplay f) r2)),
        (EvImageDisplay f :: evs2 ++ evs1).
      cbn. rewrite Ht2, Ht1, app_assoc. repeat split.
      * intros p ser [H | H]; [discriminate H|].
        apply in_app_or in H. destruct H; eauto.
      * intros Hno f' [H | H].
        -- injection H as <-.
           destruct (Hf2 Hforce) as [H | (vp & Hvp & Hs)];
             [congruence | congruence].
        -- apply in_app_or in H. destruct H as [H | H];
             [elim (Hd2 f' H) | elim (Hd1 f' H)].
    + exists (set_force_refresh false r2), (evs2 ++ evs1).
      cbn. rewrite Ht2, Ht1, app_assoc. repeat split.
      * intros p ser H. apply in_app_or in H. destruct H; eauto.
      * intros _ f' H. apply in_app_or in H. destruct H as [H | H];
          [elim (Hd2 f' H) | elim (Hd1 f' H)].
  - exists (set_force_refresh false r2), (evs2 ++ evs1).
    cbn. rewrite Ht2, Ht1, app_assoc. repeat split.
    + intros p ser H. apply in_app_or in H. destruct H; eauto.
    + intros _ f' H. apply in_app_or in H. destruct H as [H | H];
        [elim (Hd2 f' H) | elim (Hd1 f' H)].
Qed.

End PlayerRefresh.

(** ** The refresh step of [src/core/video_state.cpp] *)

Section CoreRefresh.

Import Core.

Variable env : Env.
Variable c : Config.

Lemma core_quiet_nil : (core_quiet c) [].
Proof. split; [intros p ser [] | intros f []]. Qed.

Lemma core_quiet_app e1 e2 :
  (core_quiet c) e1 -> (core_quiet c) e2 -> (core_quiet c) (e1 ++ e2).
Proof.
  intros [Hc1 Hd1] [Hc2 Hd2]. split.
  - intros p ser H. apply in_app_or in H. destruct H; eauto.
  - intros f H. apply in_app_or in H. destruct H as [H | H];
      [eapply Hd1 | eapply Hd2]; eauto.
Qed.

Lemma core_quiet_cons e evs :
  (forall f, e <> EvImageDisplay f) ->
  (forall p ser, e = EvSetClock p ser -> ser = video_queue_serial c) ->
  (core_quiet c) evs -> (core_quiet c) (e :: evs).
Proof.
  intros Hd Hc [Hc' Hd']. split.
  - intros p ser [H | H]; eauto.
  - intros f [H | H]; [eapply Hd | eapply Hd']; eauto.
Qed.

Lemma stream_toggle_pause_running r :
  paused r = false ->
  stream_toggle_pause env c r
  = emit (EvSetPaused Subtitle true)
      (emit (EvSetPaused Video true)
         (emit (EvSetPaused Audio true)
            (set_paused true (emit (EvSyncSerialClock Subtitle) r)))).
Proof.
  intros H. unfold stream_toggle_pause. rewrite H. cbv zeta.
  cbn [paused emit set_paused]. rewrite H. reflexivity.
Qed.

Lemma drop_subtitles_invariant fuel :
  forall r r', drop_subtitles env c fuel r = Some r' -> (subtitles_post c) r r'.
Proof.
  induction fuel as [| fuel IH]; intros r r' Hr; [discriminate|].
  cbn [drop_subtitles] in Hr.
  destruct (FrameQueue.peek (subtitle_frame_queue r)) as [sp |].
  2: { injection Hr as <-. repeat split; auto. exists [].
       split; [reflexivity | apply core_quiet_nil]. }
  match type of Hr with
  | (if ?b then _ else _) = _ => destruct b
  end.
  2: { injection Hr as <-. repeat split; auto. exists [].
       split; [reflexivity | apply core_quiet_nil]. }
  apply IH in Hr. destruct Hr as (Hq & Hf & Hp & evs & Ht & Hquiet).
  destruct (uploaded sp); cbn in Hq, Hf, Hp, Ht.
  - repeat split; auto. exists (evs ++ [EvSubtitleClear sp]). split.
    + rewrite Ht, <- app_assoc. reflexivity.
    + apply core_quiet_app; [exact Hquiet|].
      apply core_quiet_cons; [discriminate | discriminate | apply core_quiet_nil].
  - repeat split; auto. exists evs. auto.
Qed.

Lemma drop_subtitles_terminates fuel :
  forall r,
    (FrameQueue.remaining_count (subtitle_frame_queue r) < fuel)%nat ->
    exists r', drop_subtitles env c fuel r = Some r'.
Proof.
  induction fuel as [| fuel IH]; intros r Hlen; [inversion Hlen|].
  cbn [drop_subtitles].
  destruct (FrameQueue.peek (subtitle_frame_queue r)) as [sp |] eqn:Hpeek;
    [| eauto].
  match goal with
  | |- exists r', (if ?b then _ else _) = Some r' => destruct b
  end; [| eauto].
  apply IH. destruct (uploaded sp); cbn;
    apply PeanoNat.lt_S_n;
    rewrite (move_to_next_remaining _ _ Hpeek); exact Hlen.
Qed.

(** A stale head is consumed and the loop starts over: no clock update,
    no display request, nothing but the queue changes. *)
Lemma core_retry_stale_head fuel r vp rest :
  FrameQueue.pending (video_frame_queue r) = vp :: rest ->
  serial vp <> video_queue_serial c ->
  retry env c (S fuel) r
  = retry env c fuel
      (set_video_queue (FrameQueue.move_to_next (video_frame_queue r)) r).
Proof.
  intros Hq Hs. cbn [retry].
  unfold FrameQueue.remaining_count, FrameQueue.peek_last, FrameQueue.peek.
  rewrite Hq. apply Z.eqb_neq in Hs.
  destruct (FrameQueue.last_shown (video_frame_queue r));
    cbn [hd_error length Nat.eqb]; rewrite Hs; reflexivity.
Qed.

Lemma core_retry_post_same r r' :
  FrameQueue.keep_last (video_frame_queue r') = true ->
  trace r' = trace r -> force_refresh r' = force_refresh r ->
  sync r' = sync r ->
  (core_retry_post c) r r'.
Proof.
  intros Hk Ht Hf Hs. exists []. repeat split; auto.
  - intros p ser [].
  - intros vp [].
  - rewrite Hf. auto.
Qed.

Lemma core_retry_post_trans r1 r2 r3 :
  (core_retry_post c) r1 r2 -> (core_retry_post c) r2 r3 ->
  (force_refresh r2 = true -> force_refresh r1 = true) ->
  (core_retry_post c) r1 r3.
Proof.
  intros (e1 & Ht1 & Hq1 & Hk1 & Hs1 & Hf1) (e2 & Ht2 & Hq2 & Hk2 & Hs2 & Hf2)
         Hf.
  exists (e2 ++ e1). repeat split.
  - rewrite Ht2, Ht1, app_assoc. reflexivity.
  - apply (core_quiet_app e2 e1 Hq2 Hq1).
  - apply (core_quiet_app e2 e1 Hq2 Hq1).
  - assumption.
  - congruence.
  - intros H3. destruct (Hf2 H3) as [H2 | H2]; auto.
Qed.

Lemma core_retry_invariant fuel :
  forall r r',
    FrameQueue.keep_last (video_frame_queue r) = true ->
    retry env c fuel r = Some r' ->
    (core_retry_post c) r r'.
Proof.
  induction fuel as [| fuel IH]; intros r r' Hk Hr; [discriminate|].
  cbn [retry] in Hr.
  destruct (FrameQueue.remaining_count (video_frame_queue r) =? 0)%nat
    eqn:Hempty.
  { injection Hr as <-. apply core_retry_post_same; auto. }
  destruct (FrameQueue.pending (video_frame_queue r)) as [| vp rest] eqn:Hq.
  { unfold FrameQueue.remaining_count in Hempty. rewrite Hq in Hempty.
    discriminate. }
  assert (Hpeek : FrameQueue.peek (video_frame_queue r) = Some vp)
    by (unfold FrameQueue.peek; rewrite Hq; reflexivity).
  rewrite Hpeek in Hr.
  destruct (FrameQueue.peek_last (video_frame_queue r)) as [lastvp |] eqn:Hlast.
  2: { injection Hr as <-. apply core_retry_post_same; auto. }
  destruct (serial vp =? video_queue_serial c) eqn:Hser; cbn [negb] in Hr.
  2: { apply IH in Hr; [| cbn; rewrite move_to_next_keep_last; exact Hk].
       eapply core_retry_post_trans; [| exact Hr | cbn; auto].
       apply core_retry_post_same; cbn; auto.
       rewrite move_to_next_keep_last; exact Hk. }
  apply Z.eqb_eq in Hser.
  set (r1 := if negb (serial lastvp =? serial vp)
             then let (time, r0) := time_now env r in set_frame_timer time r0
             else r) in Hr.
  assert (H1 : video_frame_queue r1 = video_frame_queue r
               /\ trace r1 = trace r /\ force_refresh r1 = force_refresh r
               /\ sync r1 = sync r).
  { subst r1. destruct (negb (serial lastvp =? serial vp)); cbn; auto. }
  destruct H1 as (Hq1 & Ht1 & Hf1 & Hs1).
  assert (Hpost1 : (core_retry_post c) r r1).
  { apply core_retry_post_same; auto. rewrite Hq1; exact Hk. }
  clearbody r1.
  destruct (paused r1) eqn:Hp.
  { injection Hr as <-. exact Hpost1. }
  cbn [time_now] in Hr.
  match type of Hr with
  | (if ?b then _ else _) = _ => destruct b
  end.
  { injection Hr as <-.
    eapply core_retry_post_trans; [exact Hpost1 | | rewrite Hf1; auto].
    apply core_retry_post_same; cbn; auto. rewrite Hq1; exact Hk. }
  (* the frame is due *)
  match type of Hr with
  | context [set_frame_timer ?t (next_reading (next_reading r1))] =>
      set (r2 := set_frame_timer t (next_reading (next_reading r1))) in Hr
  end.
  match type of Hr with
  | context [if ?b then set_frame_timer ?t r2 else r2] =>
      set (r3 := if b then set_frame_timer t r2 else r2) in Hr
  end.
  assert (H3 : video_frame_queue r3 = video_frame_queue r
               /\ trace r3 = trace r /\ force_refresh r3 = force_refresh r
               /\ paused r3 = false /\ sync r3 = sync r).
  { subst r3 r2.
    match goal with |- context [if ?b then _ else _] => destruct b end;
      cbn; auto. }
  destruct H3 as (Hq3 & Ht3 & Hf3 & Hp3 & Hs3). clearbody r3. clear r2.
  set (r4 := if negb (Dbl.isnan (pts vp))
             then update_video_pts (pts vp) (serial vp) r3 else r3) in Hr.
  assert (H4 : video_frame_queue r4 = video_frame_queue r
               /\ force_refresh r4 = force_refresh r
               /\ paused r4 = false
               /\ sync r4 = sync r
               /\ exists evs, trace r4 = evs ++ trace r /\ (core_quiet c) evs).
  { subst r4. destruct (negb (Dbl.isnan (pts vp))); cbn.
    - repeat split; auto.
      exists [EvSyncClockWith; EvSetClock (pts vp) (serial vp)].
      rewrite Ht3. split; [reflexivity|].
      apply core_quiet_cons; [discriminate | discriminate |].
      apply core_quiet_cons;
        [discriminate | intros p ser [= _ <-]; exact Hser
        | apply core_quiet_nil].
    - repeat split; auto. exists []. rewrite Ht3.
      split; [reflexivity | apply core_quiet_nil]. }
  destruct H4 as (Hq4 & Hf4 & Hp4 & Hs4 & evs4 & Ht4 & Hquiet4).
  clearbody r4.
  assert (Hpost4 : (core_retry_post c) r r4).
  { exists evs4. repeat split; auto; try apply Hquiet4.
    - rewrite Hq4; exact Hk.
    - rewrite Hf4; auto. }
  match type of Hr with
  | (if ?b then _ else _) = _ => destruct b
  end.
  - (* late: drop the frame and start over *)
    apply IH in Hr; [| cbn; rewrite move_to_next_keep_last; exact Hk].
    eapply core_retry_post_trans; [| exact Hr | cbn; rewrite Hf4; auto].
    eapply core_retry_post_trans; [exact Hpost4 | | rewrite Hf4; auto].
    apply core_retry_post_same; cbn; auto.
    rewrite move_to_next_keep_last; exact Hk.
  - (* shown: the consumed frame carries the current serial *)
    match type of Hr with
    | match ?s with Some _ => _ | None => _ end = _ =>
        destruct s as [r5 |] eqn:Hsubs
    end; [| discriminate].
    assert (H5 : (subtitles_post c) r4 r5).
    { destruct (subtitle_st c).
      - eapply drop_subtitles_invariant; eauto.
      - injection Hsubs as <-. repeat split; auto. exists [].
        split; [reflexivity | apply core_quiet_nil]. }
    destruct H5 as (Hq5 & Hf5 & Hp5 & evs5 & Ht5 & Hquiet5).
    injection Hr as <-.
    cbn [paused set_force_refresh set_video_queue]. rewrite Hp5, Hp4.
    cbn [negb]. rewrite andb_true_r.
    assert (Hshown : FrameQueue.last_shown
                       (FrameQueue.move_to_next (video_frame_queue r))
                     = Some vp)
      by (eapply move_to_next_last_shown; eauto).
    assert (Hs5 : sync r5 = sync r).
    { destruct (subtitle_st c).
      - clear - Hsubs Hs4.
        revert Hsubs. generalize (S (FrameQueue.remaining_count
                                       (subtitle_frame_queue r4))).
        intros n. revert r4 Hs4.
        induction n as [| n IHn]; intros r4 Hs4 Hsubs; [discriminate|].
        cbn [drop_subtitles] in Hsubs.
        destruct (FrameQueue.peek (subtitle_frame_queue r4)) as [sp |];
          [| injection Hsubs as <-; exact Hs4].
        match type of Hsubs with
        | (if ?b then _ else _) = _ => destruct b
        end; [| injection Hsubs as <-; cbn; exact Hs4].
        eapply IHn; [| exact Hsubs]. destruct (uploaded sp); cbn; exact Hs4.
      - injection Hsubs as <-. exact Hs4. }
    destruct (step c).
    + rewrite stream_toggle_pause_running by (cbn; rewrite Hp5; exact Hp4).
      exists (EvSetPaused Subtitle true :: EvSetPaused Video true
                :: EvSetPaused Audio true :: EvSyncSerialClock Subtitle
                :: evs5 ++ evs4).
      cbn. rewrite Ht5, Ht4, app_assoc. repeat split.
      * repeat (apply core_quiet_cons; [discriminate | discriminate |]).
        apply core_quiet_app; assumption.
      * repeat (apply core_quiet_cons; [discriminate | discriminate |]).
        apply core_quiet_app; assumption.
      * rewrite move_to_next_keep_last; exact Hk.
      * exact Hs5.
      * intros _. right. exists vp. auto.
    + exists (evs5 ++ evs4). cbn. rewrite Ht5, Ht4, app_assoc.
      repeat split.
      * apply core_quiet_app; assumption.
      * apply core_quiet_app; assumption.
      * rewrite move_to_next_keep_last; exact Hk.
      * exact Hs5.
      * intros _. right. exists vp. auto.
Qed.

Lemma core_retry_terminates fuel :
  forall r,
    (FrameQueue.remaining_count (video_frame_queue r) < fuel)%nat ->
    exists r', retry env c fuel r = Some r'.
Proof.
  induction fuel as [| fuel IH]; intros r Hlen; [inversion Hlen|].
  cbn [retry].
  destruct (FrameQueue.remaining_count (video_frame_queue r) =? 0)%nat;
    [eauto|].
  destruct (FrameQueue.peek_last (video_frame_queue r)); [| eauto].
  destruct (FrameQueue.peek (video_frame_queue r)) eqn:Hpeek; [| eauto].
  assert (Hnext : forall r0,
             video_frame_queue r0
             = FrameQueue.move_to_next (video_frame_queue r) ->
             exists r', retry env c fuel r0 = Some r').
  { intros r0 Hq0. apply IH. rewrite Hq0.
    apply PeanoNat.lt_S_n.
    rewrite (move_to_next_remaining _ _ Hpeek). exact Hlen. }
  destruct (negb (serial f0 =? video_queue_serial c)).
  { apply Hnext. reflexivity. }
  match goal with
  | |- context [if paused ?x then _ else _] => destruct (paused x)
  end; [eauto|].
  cbn [time_now].
  match goal with
  | |- exists r', (if ?b then _ else _) = Some r' => destruct b
  end; [eauto|].
  match goal with
  | |- exists r', (if ?b then _ else _) = Some r' => destruct b
  end; [apply Hnext; reflexivity|].
  match goal with
  | |- context [if subtitle_st c then drop_subtitles env c ?n ?x else _] =>
      destruct (subtitle_st c);
      [destruct (drop_subtitles_terminates n x
                   (PeanoNat.Nat.lt_succ_diag_r _)) as [r5 ->] |]
  end; eauto.
Qed.

Lemma video_display_audio r :
  audio_st (sync r) = true ->
  show_mode_eqb (show_mode c) SHOW_MODE_VIDEO = false ->
  video_display c r = emit EvAudioDisplay r.
Proof. unfold video_display. intros -> ->. reflexivity. Qed.

(** The whole step: it returns; every clock update carries the current
    serial; unless a refresh was already forced on entry, every picture
    displayed carries the current serial. *)
Lemma video_refresh_post r :
  FrameQueue.keep_last (video_frame_queue r) = true ->
  exists r' evs,
    video_refresh env c r = Some r'
    /\ trace r' = evs ++ trace r
    /\ core_clock_updates_current (video_queue_serial c) evs
    /\ (force_refresh r = false ->
        core_displays_current (video_queue_serial c) evs).
Proof.
  intros Hk. unfold video_refresh.
  match goal with
  | |- context [if ?b then set_sync ?s r else r] =>
      set (r0 := if b then set_sync s r else r)
  end.
  assert (H0 : video_frame_queue r0 = video_frame_queue r
               /\ force_refresh r0 = force_refresh r
               /\ trace r0 = trace r).
  { subst r0.
    match goal with |- context [if ?b then _ else _] => destruct b end;
      cbn; auto. }
  destruct H0 as (Hq0 & Hf0 & Ht0). clearbody r0.
  match goal with
  | |- context [retry _ _ _ ?x] => set (r1 := x)
  end.
  assert (H1 : video_frame_queue r1 = video_frame_queue r
               /\ force_refresh r1 = force_refresh r
               /\ sync r1 = sync r0
               /\ exists evs, trace r1 = evs ++ trace r /\ (core_quiet c) evs).
  { subst r1.
    destruct (negb (display_disable c)); cbn [andb];
      [| repeat split; auto; exists []; split;
         [exact Ht0 | apply core_quiet_nil]].
    destruct (show_mode_eqb (show_mode c) SHOW_MODE_VIDEO) eqn:Hmode;
      cbn [negb andb];
      [repeat split; auto; exists []; split;
       [exact Ht0 | apply core_quiet_nil] |].
    destruct (audio_st (sync r0)) eqn:Ha;
      [| repeat split; auto; exists []; split;
         [exact Ht0 | apply core_quiet_nil]].
    cbn [time_now].
    match goal with |- context [if ?b then _ else _] => destruct b end.
    - rewrite video_display_audio by assumption. cbn.
      repeat split; auto. exists [EvAudioDisplay]. rewrite Ht0.
      split; [reflexivity|].
      apply core_quiet_cons; [discriminate | discriminate | apply core_quiet_nil].
    - cbn. repeat split; auto. exists []. split;
        [exact Ht0 | apply core_quiet_nil]. }
  destruct H1 as (Hq1 & Hf1 & Hs1 & evs1 & Ht1 & Hc1 & Hd1). clearbody r1.
  destruct (video_st (sync r1)) eqn:Hv.
  2: { exists (set_force_refresh false r1), evs1. cbn.
       repeat split; auto. intros _ f Hin. elim (Hd1 f Hin). }
  destruct (core_retry_terminates
              (S (FrameQueue.remaining_count (video_frame_queue r1))) r1)
    as [r2 Hr2]; [apply PeanoNat.Nat.lt_succ_diag_r|].
  rewrite Hr2.
  destruct (core_retry_invariant _ _ _ ltac:(rewrite Hq1; exact Hk) Hr2)
    as (evs2 & Ht2 & [Hc2 Hd2] & Hk2 & Hs2 & Hf2).
  match goal with
  | |- context [if ?b then video_display c r2 else r2] => destruct b eqn:Hshow
  end.
  - apply andb_prop in Hshow. destruct Hshow as [Hshow Hrs].
    apply andb_prop in Hshow. destruct Hshow as [Hshow Hmode].
    apply andb_prop in Hshow. destruct Hshow as [_ Hforce].
    unfold video_display. rewrite Hmode, Hs2, Hv, andb_false_r.
    unfold video_image_display, FrameQueue.peek_last.
    unfold FrameQueue.rindex_shown in Hrs.
    destruct (FrameQueue.last_shown (video_frame_queue r2)) as [f |] eqn:Hl;
      [| discriminate].
    destruct (bmp f).
    + exists (set_force_refresh false (emit (EvImageDisplay f) r2)),
        (EvImageDisplay f :: evs2 ++ evs1).
      cbn. rewrite Ht2, Ht1, app_assoc. repeat split.
      * intros p ser [H | H]; [discriminate H|].
        apply in_app_or in H. destruct H; eauto.
      * intros Hno f' [H | H].
        -- injection H as <-.
           destruct (Hf2 Hforce) as [H | (vp & Hvp & Hs)];
             [congruence | congruence].
        -- apply in_app_or in H. destruct H as [H | H];
             [elim (Hd2 f' H) | elim (Hd1 f' H)].
    + exists (set_force_refresh false r2), (evs2 ++ evs1).
      cbn. rewrite Ht2, Ht1, app_assoc. repeat split.
      * intros p ser H. apply in_app_or in H. destruct H; eauto.
      * intros _ f' H. apply in_app_or in H. destruct H as [H | H];
          [elim (Hd2 f' H) | elim (Hd1 f' H)].
  - exists (set_force_refresh false r2), (evs2 ++ evs1).
    cbn. rewrite Ht2, Ht1, app_assoc. repeat split.
    + intros p ser H. apply in_app_or in H. destruct H; eauto.
    + intros _ f' H. apply in_app_or in H. destruct H as [H | H];
        [elim (Hd2 f' H) | elim (Hd1 f' H)].
Qed.

End CoreRefresh.

(** ** Stale frames *)

(** With a refresh already forced, the step consumes the stale head and
    then displays it: [peek_last()] is the frame just consumed. *)
Lemma stale_frame_displayed_counterexample :
  (FrameQueue.peek (Player.video_frame_queue (player_exposed true))
   = Some player_frame_stale
   /\ Player.serial player_frame_stale
      <> Player.video_queue_serial player_after_seek
   /\ exists r',
       Player.VideoRefresh player_vp_duration player_env_still
         player_after_seek (player_exposed true) = Some r'
       /\ Player.trace r' = [Player.EvImageDisplay player_frame_stale]
       /\ FrameQueue.pending (Player.video_frame_queue r') = [])
  /\ (FrameQueue.peek (Core.video_frame_queue (core_exposed true))
      = Some core_frame_stale
      /\ Core.serial core_frame_stale
         <> Core.video_queue_serial core_after_seek
      /\ exists r',
          Core.video_refresh core_env_still core_after_seek (core_exposed true)
          = Some r'
          /\ Core.trace r' = [Core.EvImageDisplay core_frame_stale]
          /\ FrameQueue.pending (Core.video_frame_queue r') = []).
Proof.
  split; (split; [reflexivity | split; [discriminate |]]);
    eexists; (split; [vm_compute; reflexivity | split; reflexivity]).
Qed.

(** C5 (amended).  In every execution of the refresh step (which always
    returns), a head frame whose serial differs from the packet queue's is
    consumed and the loop starts over with nothing but the queue changed: no
    clock update and no display request come from it.  Every [SetClock] of
    the step carries the current serial, and when no refresh was forced on
    entry every picture the step displays carries the current serial.  In
    both files. *)
Theorem stale_frames_not_scheduled :
  (forall VpDuration (env : Player.Env) (c : Player.Config)
          (r : Player.Refresh),
      FrameQueue.keep_last (Player.video_frame_queue r) = true ->
      (forall fuel vp rest,
          FrameQueue.pending (Player.video_frame_queue r) = vp :: rest ->
          Player.serial vp <> Player.video_queue_serial c ->
          Player.retry VpDuration env c (S fuel) r
          = Player.retry VpDuration env c fuel
              (Player.set_queue
                 (Player.MoveToNext (Player.video_frame_queue r)) r))
      /\ exists r' evs,
          Player.VideoRefresh VpDuration env c r = Some r'
          /\ Player.trace r' = evs ++ Player.trace r
          /\ clock_updates_current (Player.video_queue_serial c) evs
          /\ (Player.force_refresh r = false ->
              displays_current (Player.video_queue_serial c) evs))
  /\ (forall (env : Core.Env) (c : Core.Config) (r : Core.Refresh),
         FrameQueue.keep_last (Core.video_frame_queue r) = true ->
         (forall fuel vp rest,
             FrameQueue.pending (Core.video_frame_queue r) = vp :: rest ->
             Core.serial vp <> Core.video_queue_serial c ->
             Core.retry env c (S fuel) r
             = Core.retry env c fuel
                 (Core.set_video_queue
                    (FrameQueue.move_to_next (Core.video_frame_queue r)) r))
         /\ exists r' evs,
             Core.video_refresh env c r = Some r'
             /\ Core.trace r' = evs ++ Core.trace r
             /\ core_clock_updates_current (Core.video_queue_serial c) evs
             /\ (Core.force_refresh r = false ->
                 core_displays_current (Core.video_queue_serial c) evs)).
Proof.
  split.
  - intros VpDuration env c r Hk. split.
    + intros fuel vp rest. apply retry_stale_head.
    + apply VideoRefresh_post, Hk.
  - intros env c r Hk. split.
    + intros fuel vp rest. apply core_retry_stale_head.
    + apply video_refresh_post, Hk.
Qed.

Lemma stale_frames_not_scheduled_witness :
  exists r' evs,
    Player.VideoRefresh player_vp_duration player_env_still player_after_seek
      (player_exposed false) = Some r'
    /\ Player.trace r' = evs ++ Player.trace (player_exposed false)
    /\ clock_updates_current (Player.video_queue_serial player_after_seek) evs
    /\ (Player.force_refresh (player_exposed false) = false ->
        displays_current (Player.video_queue_serial player_after_seek) evs).
Proof.
  apply (proj1 stale_frames_not_scheduled player_vp_duration player_env_still
           player_after_seek (player_exposed false)).
  reflexivity.
Defined.

(** ** Rounding in binary64 *)

Section Rounding.

(** [digits2_pos] counts the binary digits. *)
Lemma digits2_pos_size p : digits2_pos p = Pos.size p.
Proof. induction p; cbn; congruence. Qed.

Lemma digits2_pos_log2 p : Zpos (digits2_pos p) = Z.log2 (Zpos p) + 1.
Proof.
  rewrite digits2_pos_size.
  destruct p; cbn [Z.log2 Pos.size]; rewrite ?Pos2Z.inj_succ; lia.
Qed.

Lemma digits2_pos_bounds p d :
  2 ^ (d - 1) <= Zpos p < 2 ^ d -> Zpos (digits2_pos p) = d.
Proof.
  intros H. rewrite digits2_pos_log2.
  assert (0 <= d - 1).
  { destruct (Z.le_gt_cases 0 (d - 1)) as [|Hn]; [assumption|].
    destruct (Z.eq_dec d 0) as [-> | Hd]; [cbn in H; lia|].
    rewrite (Z.pow_neg_r 2 d) in H by lia. lia. }
  rewrite (Z.log2_unique (Zpos p) (d - 1)); try lia.
  unfold Z.succ. replace (d - 1 + 1) with d by lia. exact H.
Qed.

Lemma digits2_pos_range p :
  2 ^ (Zpos (digits2_pos p) - 1) <= Zpos p < 2 ^ Zpos (digits2_pos p).
Proof.
  rewrite digits2_pos_log2.
  replace (Z.log2 (Zpos p) + 1 - 1) with (Z.log2 (Zpos p)) by lia.
  pose proof (Z.log2_spec (Zpos p) ltac:(lia)) as H.
  unfold Z.succ in H. exact H.
Qed.

(** One shift of the rounding record. *)
Lemma shr_1_spec m r s :
  0 <= m ->
  shr_1 (Build_shr_record m r s)
  = Build_shr_record (Z.div2 m) (Z.odd m) (r || s).
Proof.
  intros Hm. destruct m as [| p | p]; [reflexivity | | lia].
  destruct p; reflexivity.
Qed.

(** [n] shifts of an exact record: the quotient, the bit below it and
    whether anything lies below that bit. *)
Lemma shr_iter_spec (n : nat) m :
  0 <= m ->
  Nat.iter (S n) shr_1 (Build_shr_record m false false)
  = Build_shr_record (m / 2 ^ Z.of_nat (S n))
      (Z.odd (m / 2 ^ Z.of_nat n))
      (negb (m mod 2 ^ Z.of_nat n =? 0)).
Proof.
  intros Hm. induction n as [| n IH].
  - cbn [Nat.iter]. rewrite shr_1_spec by assumption.
    rewrite Z.div2_div. cbn. rewrite Z.div_1_r, Z.mod_1_r. reflexivity.
  - change (Nat.iter (S (S n)) shr_1 ?x) with (shr_1 (Nat.iter (S n) shr_1 x)).
    rewrite IH.
    assert (Hp : 0 < 2 ^ Z.of_nat n) by (apply Z.pow_pos_nonneg; lia).
    assert (Hp1 : 2 ^ Z.of_nat (S n) = 2 * 2 ^ Z.of_nat n).
    { rewrite Nat2Z.inj_succ, Z.pow_succ_r by lia. reflexivity. }
    assert (Hp2 : 2 ^ Z.of_nat (S (S n)) = 2 * 2 ^ Z.of_nat (S n)).
    { rewrite (Nat2Z.inj_succ (S n)), Z.pow_succ_r by lia. reflexivity. }
    rewrite shr_1_spec by (apply Z.div_pos; lia).
    rewrite Z.div2_div, Z.div_div by lia.
    f_equal.
    + rewrite Hp2. f_equal. lia.
    + (* nothing below bit n+1 iff bit n is clear and nothing lies below it *)
      rewrite Hp1, (Z.mul_comm 2), Z.rem_mul_r by lia.
      pose proof (Zmod_odd (m / 2 ^ Z.of_nat n)) as Hodd.
      pose proof (Z.mod_pos_bound m (2 ^ Z.of_nat n) ltac:(lia)).
      destruct (Z.odd (m / 2 ^ Z.of_nat n));
        destruct (Z.eqb_spec (m mod 2 ^ Z.of_nat n) 0) as [E' | E'];
        cbn [negb orb]; symmetry;
        [apply negb_true_iff, Z.eqb_neq | apply negb_true_iff, Z.eqb_neq
        | apply negb_false_iff, Z.eqb_eq | apply negb_true_iff, Z.eqb_neq];
        nia.
Qed.

Lemma iter_pos_nat {A} (f : A -> A) p :
  forall x, iter_pos f p x = Nat.iter (Pos.to_nat p) f x.
Proof.
  induction p as [p IH | p IH |]; intros x; cbn [iter_pos].
  - rewrite !IH, Pos2Nat.inj_xI.
    change (S (2 * Pos.to_nat p)) with (1 + 2 * Pos.to_nat p)%nat.
    replace (1 + 2 * Pos.to_nat p)%nat
      with (Pos.to_nat p + (Pos.to_nat p + 1))%nat by lia.
    rewrite !Nat.iter_add. reflexivity.
  - rewrite !IH, Pos2Nat.inj_xO.
    replace (2 * Pos.to_nat p)%nat
      with (Pos.to_nat p + Pos.to_nat p)%nat by lia.
    rewrite Nat.iter_add. reflexivity.
  - reflexivity.
Qed.

(** Rounding to nearest, ties to even, after a shift by [n >= 1]: the
    result is one of the two neighbours of the quotient and is within
    half a unit of it. *)
Lemma round_shift_spec X p :
  0 < X ->
  let mrs := iter_pos shr_1 p (Build_shr_record X false false) in
  let R := round_nearest_even (shr_m mrs) (loc_of_shr_record mrs) in
  X / 2 ^ Zpos p <= R <= X / 2 ^ Zpos p + 1
  /\ 2 * Z.abs (R * 2 ^ Zpos p - X) <= 2 ^ Zpos p.
Proof.
  intros HX mrs R. subst R mrs.
  rewrite iter_pos_nat.
  destruct (Pos2Nat.is_succ p) as [k Hk]. rewrite Hk.
  rewrite shr_iter_spec by lia.
  assert (Hn : Zpos p = Z.of_nat (S k)) by lia.
  rewrite Hn.
  assert (Hp : 0 < 2 ^ Z.of_nat k) by (apply Z.pow_pos_nonneg; lia).
  assert (Hp1 : 2 ^ Z.of_nat (S k) = 2 * 2 ^ Z.of_nat k).
  { rewrite Nat2Z.inj_succ, Z.pow_succ_r by lia. reflexivity. }
  rewrite Hp1.
  pose proof (Z.div_mod X (2 ^ Z.of_nat k) ltac:(lia)) as Hdm.
  pose proof (Z.mod_pos_bound X (2 ^ Z.of_nat k) ltac:(lia)) as Hlow.
  pose proof (Z.div_mod (X / 2 ^ Z.of_nat k) 2 ltac:(lia)) as Hdm2.
  pose proof (Zmod_odd (X / 2 ^ Z.of_nat k)) as Hodd.
  assert (Hq : X / (2 * 2 ^ Z.of_nat k) = X / 2 ^ Z.of_nat k / 2)
    by (rewrite (Z.mul_comm 2), Z.div_div by lia; reflexivity).
  rewrite Hq.
  set (q := X / 2 ^ Z.of_nat k / 2) in *.
  set (low := X mod 2 ^ Z.of_nat k) in *.
  set (P := 2 ^ Z.of_nat k) in *.
  cbn [shr_m loc_of_shr_record].
  destruct (Z.odd (X / P)); destruct (Z.eqb_spec low 0) as [E | E];
    cbn [negb round_nearest_even].
  - destruct (Z.even q); split; nia.
  - split; nia.
  - split; nia.
  - split; nia.
Qed.

(** *** Rounding of a long mantissa in binary64 *)

Lemma fexp_normal e : -1074 <= e - 53 -> fexp 53 1024 e = e - 53.
Proof. unfold fexp, emin. lia. Qed.

(** A mantissa of [53 + n] digits, [n >= 1], is rounded to 53 digits: the
    result is a normal number within half a unit of the last place kept. *)
Lemma binary_round_aux_long sx X e n :
  0 < n ->
  Zpos (digits2_pos X) = 53 + n ->
  -1074 <= e + n -> e + n + 1 <= 971 ->
  exists m' e',
    binary_round_aux 53 1024 sx (Zpos X) e loc_Exact
    = S754_finite sx m' e'
    /\ 2 ^ 52 <= Zpos m' < 2 ^ 53
    /\ (e' = e + n \/ (e' = e + n + 1 /\ Zpos m' = 2 ^ 52))
    /\ 2 * Z.abs (in_units e m' e' - Zpos X) <= 2 ^ n.
Proof.
  intros Hn Hd He1 He2.
  unfold binary_round_aux, shr_fexp. cbn [Zdigits2 shr_record_of_loc].
  rewrite Hd, fexp_normal by lia.
  replace (53 + n + e - 53 - e) with n by lia.
  destruct n as [| p | p]; try lia. cbn [shr].
  pose proof (round_shift_spec (Zpos X) p ltac:(lia)) as HR.
  cbv zeta in HR.
  set (R := round_nearest_even _ _) in *.
  destruct HR as [[HR1 HR2] HR3].
  pose proof (digits2_pos_range X) as HX. rewrite Hd in HX.
  replace (53 + Zpos p - 1) with (52 + Zpos p) in HX by lia.
  rewrite !Z.pow_add_r in HX by lia.
  assert (Hpp : 0 < 2 ^ Zpos p) by (apply Z.pow_pos_nonneg; lia).
  assert (Hq : 2 ^ 52 <= Zpos X / 2 ^ Zpos p < 2 ^ 53).
  { split.
    - apply Z.div_le_lower_bound; lia.
    - apply Z.div_lt_upper_bound; lia. }
  destruct (Z.eq_dec R (2 ^ 53)) as [HRe | HRn].
  - (* the rounding carries into a 54th digit *)
    rewrite HRe.
    change (Zdigits2 (2 ^ 53)) with 54.
    rewrite fexp_normal by lia.
    replace (54 + (e + Zpos p) - 53 - (e + Zpos p)) with 1 by lia.
    cbn [shr iter_pos shr_1 shr_m]. 
    change (2 ^ 53) with (Zpos (4503599627370496~0)).
    cbn [shr_1 shr_m].
    replace (e + Zpos p + 1 <=? 1024 - 53) with true
      by (symmetry; apply Z.leb_le; lia).
    exists 4503599627370496%positive, (e + Zpos p + 1).
    split; [reflexivity|]. split; [lia|]. split; [right; split; reflexivity|].
    unfold in_units. replace (e + Zpos p + 1 - e) with (Zpos p + 1) by lia.
    rewrite Z.pow_add_r by lia.
    rewrite HRe in HR3.
    change (2 ^ 53) with (4503599627370496 * 2 ^ 1) in HR3.
    replace (Zpos 4503599627370496 * (2 ^ Zpos p * 2 ^ 1))
      with (4503599627370496 * 2 ^ 1 * 2 ^ Zpos p) by ring.
    exact HR3.
  - assert (HRr : 2 ^ 52 <= R < 2 ^ 53) by lia.
    destruct R as [| m' | m']; try lia.
    cbn [Zdigits2]. rewrite (digits2_pos_bounds m' 53) by exact HRr.
    rewrite fexp_normal by lia.
    replace (53 + (e + Zpos p) - 53 - (e + Zpos p)) with 0 by lia.
    cbn [shr shr_m].
    replace (e + Zpos p <=? 1024 - 53) with true
      by (symmetry; apply Z.leb_le; lia).
    exists m', (e + Zpos p).
    split; [reflexivity|]. split; [lia|]. split; [left; reflexivity|].
    unfold in_units. replace (e + Zpos p - e) with (Zpos p) by lia.
    exact HR3.
Qed.

Lemma pos_iter_xO m k : Zpos (Pos.iter xO m k) = Zpos m * 2 ^ Zpos k.
Proof.
  induction k as [| k IH] using Pos.peano_ind.
  - cbn [Pos.iter]. rewrite Pos2Z.inj_xO. change (2 ^ 1) with 2. ring.
  - rewrite Pos.iter_succ, Pos2Z.inj_xO, IH, Pos2Z.inj_succ,
      Z.pow_succ_r by lia. ring.
Qed.

(** Alignment of a mantissa on a smaller exponent keeps the value. *)
Lemma shl_align_spec m e e' :
  e' <= e ->
  exists m', shl_align m e e' = (m', e')
             /\ Zpos m' = Zpos m * 2 ^ (e - e').
Proof.
  intros He. unfold shl_align.
  destruct (e' - e) as [| d | d] eqn:Hd; try lia.
  - assert (e' = e) by lia. subst e'. exists m.
    rewrite Z.sub_diag. cbn. split; [reflexivity | lia].
  - exists (Pos.iter xO m d). split; [reflexivity|].
    rewrite pos_iter_xO. f_equal. f_equal. lia.
Qed.

Lemma shl_align_none m e e' : e <= e' -> shl_align m e e' = (m, e).
Proof.
  intros He. unfold shl_align.
  destruct (e' - e) as [| d | d] eqn:Hd; try lia; reflexivity.
Qed.

(** A mantissa of at most 53 digits is normalised without rounding. *)
Lemma binary_round_short sx X e :
  Zpos (digits2_pos X) <= 53 ->
  -1074 <= Zpos (digits2_pos X) + e - 53 -> e <= 971 ->
  exists m',
    binary_round 53 1024 sx X e
    = S754_finite sx m' (Zpos (digits2_pos X) + e - 53)
    /\ 2 ^ 52 <= Zpos m' < 2 ^ 53.
Proof.
  intros Hd He1 He2. unfold binary_round.
  rewrite fexp_normal by lia.
  destruct (shl_align_spec X e (Zpos (digits2_pos X) + e - 53) ltac:(lia))
    as (mz & -> & Hmz).
  pose proof (digits2_pos_range X) as HX.
  set (d := Zpos (digits2_pos X)) in *.
  assert (Hmz' : 2 ^ 52 <= Zpos mz < 2 ^ 53).
  { rewrite Hmz. replace (e - (d + e - 53)) with (53 - d) by lia.
    assert (0 < d) by (subst d; lia).
    assert (E1 : 2 ^ 52 = 2 ^ (d - 1) * 2 ^ (53 - d))
      by (rewrite <- Z.pow_add_r by lia; f_equal; lia).
    assert (E2 : 2 ^ 53 = 2 ^ d * 2 ^ (53 - d))
      by (rewrite <- Z.pow_add_r by lia; f_equal; lia).
    rewrite E1, E2.
    assert (0 < 2 ^ (53 - d)) by (apply Z.pow_pos_nonneg; lia).
    split; [apply Z.mul_le_mono_nonneg_r | apply Z.mul_lt_mono_pos_r]; lia. }
  exists mz. split; [| exact Hmz'].
  unfold binary_round_aux, shr_fexp. cbn [Zdigits2 shr_record_of_loc].
  rewrite (digits2_pos_bounds mz 53) by exact Hmz'.
  rewrite fexp_normal by lia.
  replace (53 + (d + e - 53) - 53 - (d + e - 53)) with 0 by lia.
  cbn [shr shr_m loc_of_shr_record round_nearest_even Zdigits2
         shr_record_of_loc].
  rewrite (digits2_pos_bounds mz 53) by exact Hmz'.
  rewrite fexp_normal by lia.
  replace (53 + (d + e - 53) - 53 - (d + e - 53)) with 0 by lia.
  cbn [shr shr_m].
  replace (d + e - 53 <=? 1024 - 53) with true
    by (symmetry; apply Z.leb_le; lia).
  reflexivity.
Qed.

(** A mantissa of [53 + n] digits on an exponent that needs no alignment
    is rounded. *)
Lemma binary_round_long sx X e n :
  0 < n ->
  Zpos (digits2_pos X) = 53 + n ->
  -1074 <= e + n -> e + n + 1 <= 971 ->
  exists m' e',
    binary_round 53 1024 sx X e = S754_finite sx m' e'
    /\ 2 ^ 52 <= Zpos m' < 2 ^ 53
    /\ (e' = e + n \/ (e' = e + n + 1 /\ Zpos m' = 2 ^ 52))
    /\ 2 * Z.abs (in_units e m' e' - Zpos X) <= 2 ^ n.
Proof.
  intros Hn Hd He1 He2. unfold binary_round.
  rewrite Hd, fexp_normal by lia.
  rewrite shl_align_none by lia.
  apply binary_round_aux_long; assumption.
Qed.

Lemma round_nearest_even_envelope m l :
  m <= round_nearest_even m l <= m + 1.
Proof.
  destruct l as [| []]; cbn; try lia. destruct (Z.even m); lia.
Qed.

Lemma shr_record_of_loc_m m l : shr_m (shr_record_of_loc m l) = m.
Proof. destruct l as [| []]; reflexivity. Qed.

Lemma loc_of_shr_record_of_loc m l :
  loc_of_shr_record (shr_record_of_loc m l) = l.
Proof. destruct l as [| []]; reflexivity. Qed.

Lemma shr_1_of_loc m l :
  0 <= m -> shr_m (shr_1 (shr_record_of_loc m l)) = Z.div2 m.
Proof.
  intros Hm. destruct l as [| []]; cbn [shr_record_of_loc];
    rewrite shr_1_spec by assumption; reflexivity.
Qed.

Lemma new_location_exact nb : new_location nb 0 = loc_Exact.
Proof.
  unfold new_location, new_location_even, new_location_odd.
  destruct (Z.even nb); reflexivity.
Qed.

Lemma div_eucl_div_mod a b : Z.div_eucl a b = (a / b, a mod b).
Proof.
  unfold Z.div, Z.modulo. destruct (Z.div_eucl a b). reflexivity.
Qed.


(** *** Numbers between one half and two *)

Implicit Types x y : spec_float.

Lemma unit_range_valid x : unit_range x -> valid_binary 53 1024 x = true.
Proof.
  intros (m & e & -> & Hm & He).
  unfold valid_binary, bounded, canonical_mantissa.
  rewrite (digits2_pos_bounds m 53) by exact Hm.
  rewrite fexp_normal by lia.
  apply andb_true_intro. split; [apply Z.eqb_eq | apply Z.leb_le]; lia.
Qed.

Lemma compare_pos_pos m e m' e' :
  SFcompare (S754_finite false m e) (S754_finite false m' e')
  = Some (match e ?= e' with
          | Lt => Lt | Gt => Gt | Eq => (Zpos m ?= Zpos m')
          end).
Proof.
  cbn [SFcompare]. rewrite Pos.compare_cont_spec. cbn [Pos.switch_Eq].
  destruct (e ?= e'); try reflexivity.
  destruct (m ?= m')%positive eqn:E; cbn [Z.compare]; rewrite E; reflexivity.
Qed.

(** On such numbers the comparison is the comparison of the values. *)
Lemma unit_range_compare x y :
  unit_range x -> unit_range y ->
  SFcompare x y = Some (units x ?= units y).
Proof.
  intros (m & e & -> & Hm & He) (m' & e' & -> & Hm' & He').
  rewrite compare_pos_pos. cbn [units cond_Zopp]. f_equal.
  assert (E9 : 2 ^ (-53 + 62) = 512) by reflexivity.
  assert (E10 : 2 ^ (-52 + 62) = 1024) by reflexivity.
  destruct He as [-> | ->], He' as [-> | ->]; rewrite ?E9, ?E10; symmetry.
  - change (-53 ?= -53) with Eq.
    destruct (Z.compare_spec (Zpos m) (Zpos m'));
      [apply Z.compare_eq_iff | apply Z.compare_lt_iff
      | apply Z.compare_gt_iff]; lia.
  - change (-53 ?= -52) with Lt. apply Z.compare_lt_iff. lia.
  - change (-52 ?= -53) with Gt. apply Z.compare_gt_iff. lia.
  - change (-52 ?= -52) with Eq.
    destruct (Z.compare_spec (Zpos m) (Zpos m'));
      [apply Z.compare_eq_iff | apply Z.compare_lt_iff
      | apply Z.compare_gt_iff]; lia.
Qed.

Lemma unit_range_leb x y :
  unit_range x -> unit_range y -> SFleb x y = (units x <=? units y).
Proof.
  intros Hx Hy. unfold SFleb, Z.leb.
  rewrite (unit_range_compare x y Hx Hy).
  destruct (units x ?= units y); reflexivity.
Qed.

Lemma unit_range_ltb x y :
  unit_range x -> unit_range y -> SFltb x y = (units x <? units y).
Proof.
  intros Hx Hy. unfold SFltb, Z.ltb.
  rewrite (unit_range_compare x y Hx Hy).
  destruct (units x ?= units y); reflexivity.
Qed.

Lemma unit_range_eqb x y :
  unit_range x -> unit_range y -> SFeqb x y = (units x =? units y).
Proof.
  intros Hx Hy. unfold SFeqb.
  rewrite (unit_range_compare x y Hx Hy).
  destruct (Z.compare_spec (units x) (units y));
    destruct (Z.eqb_spec (units x) (units y)); try reflexivity; lia.
Qed.

Lemma unit_range_units_inj x y :
  unit_range x -> unit_range y -> units x = units y -> x = y.
Proof.
  intros (m & e & -> & Hm & He) (m' & e' & -> & Hm' & He').
  cbn [units cond_Zopp].
  assert (E9 : 2 ^ (-53 + 62) = 512) by reflexivity.
  assert (E10 : 2 ^ (-52 + 62) = 1024) by reflexivity.
  destruct He as [-> | ->], He' as [-> | ->]; rewrite ?E9, ?E10;
    intros H; try lia; f_equal; lia.
Qed.

Lemma unit_range_MIN : unit_range EXTERNAL_CLOCK_SPEED_MIN.
Proof. eexists _, _. split; [reflexivity|]. split; [cbn; lia | auto]. Qed.
Lemma unit_range_MAX : unit_range EXTERNAL_CLOCK_SPEED_MAX.
Proof. eexists _, _. split; [reflexivity|]. split; [cbn; lia | auto]. Qed.
Lemma unit_range_ONE : unit_range d_one.
Proof. eexists _, _. split; [reflexivity|]. split; [cbn; lia | auto]. Qed.

Lemma speed_ok_unit_range x :
  speed_ok x ->
  unit_range x /\ units EXTERNAL_CLOCK_SPEED_MIN <= units x <= units EXTERNAL_CLOCK_SPEED_MAX.
Proof.
  intros (Hv & Hlo & Hhi).
  destruct x as [s | s | | s m e]; try discriminate;
    try (destruct s; discriminate).
  destruct s; [discriminate|].
  unfold Dbl.le, SFleb, EXTERNAL_CLOCK_SPEED_MIN, EXTERNAL_CLOCK_SPEED_MAX
    in Hlo, Hhi.
  rewrite compare_pos_pos in Hlo, Hhi.
  assert (He : e = -53 \/ e = -52).
  { destruct (Z.compare_spec (-53) e), (Z.compare_spec e (-52));
      try discriminate; lia. }
  unfold Dbl.valid, valid_binary, bounded, canonical_mantissa in Hv.
  apply andb_prop in Hv. destruct Hv as [Hc _]. apply Z.eqb_eq in Hc.
  pose proof (digits2_pos_range m) as Hm.
  assert (Hd : Zpos (digits2_pos m) = 53).
  { unfold fexp, emin, Dbl.prec, Dbl.emax in Hc. clear Hlo Hhi Hm. lia. }
  rewrite Hd in Hm. change (53 - 1) with 52 in Hm.
  assert (Hu : unit_range (S754_finite false m e)).
  { exists m, e. auto. }
  split; [exact Hu|].
  pose proof (unit_range_leb _ _ unit_range_MIN Hu) as H1.
  pose proof (unit_range_leb _ _ Hu unit_range_MAX) as H2.
  unfold SFleb, EXTERNAL_CLOCK_SPEED_MIN, EXTERNAL_CLOCK_SPEED_MAX in H1, H2.
  rewrite compare_pos_pos in H1, H2.
  rewrite H1 in Hlo. rewrite H2 in Hhi.
  apply Z.leb_le in Hlo, Hhi. split; assumption.
Qed.

Lemma unit_range_speed_ok x :
  unit_range x -> units EXTERNAL_CLOCK_SPEED_MIN <= units x <= units EXTERNAL_CLOCK_SPEED_MAX -> speed_ok x.
Proof.
  intros Hu [Hlo Hhi]. split; [apply unit_range_valid, Hu|]. unfold Dbl.le.
  rewrite (unit_range_leb _ _ unit_range_MIN Hu),
    (unit_range_leb _ _ Hu unit_range_MAX).
  split; apply Z.leb_le; assumption.
Qed.

(** The sum of exact multiples of [2 ^ -62], between one half and two, is
    rounded to a double within [2 ^ -53] of it. *)
Lemma normalize_units X :
  2 ^ 61 <= X < 2 ^ 63 - 2 ^ 10 ->
  exists r,
    binary_normalize 53 1024 X (-62) false = r
    /\ unit_range r
    /\ 2 * Z.abs (units r - X) <= 2 ^ 10.
Proof.
  intros HX. destruct X as [| X | X]; try lia.
  cbn [binary_normalize].
  destruct (Z_lt_le_dec (Zpos X) (2 ^ 62)) as [Hlt | Hge].
  - destruct (binary_round_long false X (-62) 9) as (m' & e' & Hr & Hm & He & Hb);
      try lia.
    { apply digits2_pos_bounds. lia. }
    exists (S754_finite false m' e'). split; [exact Hr|].
    unfold in_units in Hb. replace (e' - -62) with (e' + 62) in Hb by lia.
    split.
    + exists m', e'. split; [reflexivity|]. split; [exact Hm | lia].
    + cbn [units cond_Zopp]. change (2 ^ 9) with 512 in Hb.
      change (2 ^ 10) with 1024. lia.
  - destruct (binary_round_long false X (-62) 10) as (m' & e' & Hr & Hm & He & Hb);
      try lia.
    { apply digits2_pos_bounds. lia. }
    exists (S754_finite false m' e'). split; [exact Hr|].
    unfold in_units in Hb. replace (e' - -62) with (e' + 62) in Hb by lia.
    assert (He' : e' = -52).
    { destruct He as [-> | [-> Hc]]; [reflexivity|].
      exfalso. rewrite Hc in Hb.
      change (2 ^ 52 * 2 ^ (-62 + 10 + 1 + 62)) with (2 ^ 63) in Hb. lia. }
    split.
    + exists m', e'. split; [reflexivity|]. split; [exact Hm | lia].
    + cbn [units cond_Zopp]. exact Hb.
Qed.

(** Sum and difference of a number of the range and a multiple of
    [2 ^ -62]. *)
Lemma add_units x st mt :
  unit_range x ->
  SFadd 53 1024 x (S754_finite st mt (-62))
  = binary_normalize 53 1024
      (units x + cond_Zopp st (Zpos mt)) (-62) false.
Proof.
  intros (m & e & -> & Hm & He). cbn [SFadd units cond_Zopp].
  replace (Z.min e (-62)) with (-62) by lia.
  destruct (shl_align_spec m e (-62) ltac:(lia)) as (m' & -> & Hm').
  rewrite (shl_align_none mt (-62) (-62)) by lia. cbn [fst].
  rewrite Hm'. replace (e - -62) with (e + 62) by lia. reflexivity.
Qed.

Lemma sub_units x mt :
  unit_range x ->
  SFsub 53 1024 x (S754_finite false mt (-62))
  = binary_normalize 53 1024 (units x - Zpos mt) (-62) false.
Proof.
  intros (m & e & -> & Hm & He). cbn [SFsub units cond_Zopp].
  replace (Z.min e (-62)) with (-62) by lia.
  destruct (shl_align_spec m e (-62) ltac:(lia)) as (m' & -> & Hm').
  rewrite (shl_align_none mt (-62) (-62)) by lia. cbn [fst].
  rewrite Hm'. replace (e - -62) with (e + 62) by lia. reflexivity.
Qed.


(** *** The step toward 1.0 *)

Lemma digits2_pos_le p d : 0 <= d -> Zpos p < 2 ^ d -> Zpos (digits2_pos p) <= d.
Proof.
  intros Hd Hp. pose proof (digits2_pos_range p) as [Hlo _].
  destruct (Z_le_gt_dec (Zpos (digits2_pos p)) d) as [|Hgt]; [assumption|].
  exfalso.
  assert (2 ^ d <= 2 ^ (Zpos (digits2_pos p) - 1))
    by (apply Z.pow_le_mono_r; lia).
  lia.
Qed.

(** [1.0 - x] is computed exactly: a normal number whose sign tells on
    which side of 1.0 the speed lies. *)
Lemma one_minus x :
  unit_range x -> units x <> 2 ^ 62 ->
  exists mx ex,
    SFsub 53 1024 d_one x = S754_finite (2 ^ 62 <? units x) mx ex
    /\ 2 ^ 52 <= Zpos mx < 2 ^ 53
    /\ -105 <= ex <= -52.
Proof.
  intros (m & e & -> & Hm & He) Hne. cbn [units cond_Zopp] in *.
  unfold d_one. cbn [SFsub cond_Zopp].
  replace (Z.min (-52) e) with e by lia.
  destruct (shl_align_spec 4503599627370496 (-52) e ltac:(lia))
    as (m1 & -> & Hm1).
  rewrite (shl_align_none m e e) by lia. cbn [fst].
  change (Zpos 4503599627370496) with (2 ^ 52) in Hm1.
  assert (Hcase : (e = -53 /\ Zpos m1 = 2 ^ 53 /\ units (S754_finite false m e) = Zpos m * 2 ^ 9)
                  \/ (e = -52 /\ Zpos m1 = 2 ^ 52 /\ units (S754_finite false m e) = Zpos m * 2 ^ 10)).
  { destruct He as [-> | ->]; [left | right]; split; try reflexivity;
      split; try reflexivity; rewrite Hm1; reflexivity. }
  cbn [units cond_Zopp] in Hcase.
  destruct Hcase as [(-> & Hm1' & Hu) | (-> & Hm1' & Hu)];
    rewrite Hu in *; rewrite Hm1'; clear Hu Hm1 Hm1' m1.
  - (* below 1.0 *)
    replace (2 ^ 62 <? Zpos m * 2 ^ 9) with false
      by (symmetry; apply Z.ltb_ge; change (2 ^ 62) with (2 ^ 53 * 2 ^ 9); lia).
    destruct (2 ^ 53 - Zpos m) as [| X | X] eqn:HX; try lia.
    cbn [binary_normalize].
    destruct (binary_round_short false X (-53)) as (mx & Hr & Hmx).
    + apply digits2_pos_le; lia.
    + pose proof (Pos2Z.is_pos (digits2_pos X)). lia.
    + lia.
    + exists mx, (Zpos (digits2_pos X) + -53 - 53).
      split; [exact Hr|]. split; [exact Hmx|].
      pose proof (Pos2Z.is_pos (digits2_pos X)).
      pose proof (digits2_pos_le X 53 ltac:(lia) ltac:(lia)). lia.
  - (* above 1.0 *)
    replace (2 ^ 62 <? Zpos m * 2 ^ 10) with true
      by (symmetry; apply Z.ltb_lt; change (2 ^ 62) with (2 ^ 52 * 2 ^ 10);
          change (2 ^ 62) with (2 ^ 52 * 2 ^ 10) in Hne; lia).
    change (2 ^ 62) with (2 ^ 52 * 2 ^ 10) in Hne.
    destruct (2 ^ 52 - Zpos m) as [| X | X] eqn:HX; try lia.
    cbn [binary_normalize].
    destruct (binary_round_short true X (-52)) as (mx & Hr & Hmx).
    + apply digits2_pos_le; lia.
    + pose proof (Pos2Z.is_pos (digits2_pos X)). lia.
    + lia.
    + exists mx, (Zpos (digits2_pos X) + -52 - 53).
      split; [exact Hr|]. split; [exact Hmx|].
      pose proof (Pos2Z.is_pos (digits2_pos X)).
      pose proof (digits2_pos_le X 52 ltac:(lia) ltac:(lia)). lia.
Qed.

(** The product of the step and a normal number is rounded without carry. *)
Lemma step_times sx mx ex :
  2 ^ 52 <= Zpos mx < 2 ^ 53 -> -105 <= ex <= -52 ->
  exists mp n,
    SFmul 53 1024 EXTERNAL_CLOCK_SPEED_STEP (S754_finite sx mx ex)
    = S754_finite sx mp (-62 + ex + n)
    /\ 2 ^ 52 <= Zpos mp < 2 ^ 53
    /\ (n = 52 \/ n = 53)
    /\ 2 * Z.abs (Zpos mp * 2 ^ n - mS * Zpos mx) <= 2 ^ n.
Proof.
  intros Hmx Hex. unfold EXTERNAL_CLOCK_SPEED_STEP. cbn [SFmul xorb].
  assert (Hprod : Zpos (4611686018427388 * mx) = mS * Zpos mx)
    by (rewrite Pos2Z.inj_mul; reflexivity).
  unfold mS in *.
  destruct (Z_lt_le_dec (4611686018427388 * Zpos mx) (2 ^ 105)) as [Hlt | Hge].
  - destruct (binary_round_aux_long sx (4611686018427388 * mx) (-62 + ex) 52)
      as (mp & ep & Hr & Hmp & He & Hb); try lia.
    { apply digits2_pos_bounds. rewrite Hprod. lia. }
    rewrite Hprod in Hb. unfold in_units in Hb.
    destruct He as [-> | [-> Hc]].
    + exists mp, 52. replace (-62 + ex + 52 - (-62 + ex)) with 52 in Hb by lia.
      auto.
    + exfalso. rewrite Hc in Hb.
      replace (-62 + ex + 52 + 1 - (-62 + ex)) with 53 in Hb by lia.
      change (2 ^ 52 * 2 ^ 53) with (2 ^ 105) in Hb. lia.
  - destruct (binary_round_aux_long sx (4611686018427388 * mx) (-62 + ex) 53)
      as (mp & ep & Hr & Hmp & He & Hb); try lia.
    { apply digits2_pos_bounds. rewrite Hprod. lia. }
    rewrite Hprod in Hb. unfold in_units in Hb.
    destruct He as [-> | [-> Hc]].
    + exists mp, 53. replace (-62 + ex + 53 - (-62 + ex)) with 53 in Hb by lia.
      auto.
    + exfalso. rewrite Hc in Hb.
      replace (-62 + ex + 53 + 1 - (-62 + ex)) with 54 in Hb by lia.
      change (2 ^ 52 * 2 ^ 54) with (2 ^ 106) in Hb. lia.
Qed.


Lemma step_quotient sx mp mx ex n :
  2 ^ 52 <= Zpos mp < 2 ^ 53 ->
  2 ^ 52 <= Zpos mx < 2 ^ 53 ->
  -105 <= ex <= -52 ->
  n = 52 \/ n = 53 ->
  2 * Z.abs (Zpos mp * 2 ^ n - mS * Zpos mx) <= 2 ^ n ->
  exists mq,
    SFdiv 53 1024 (S754_finite sx mp (-62 + ex + n))
      (S754_finite false mx ex)
    = S754_finite sx mq (-62)
    /\ mS - 1 <= Zpos mq <= mS + 1.
Proof.
  intros Hmp Hmx Hex Hn Hb. cbn [SFdiv].
  unfold SFdiv_core_binary. cbn [Zdigits2].
  rewrite (digits2_pos_bounds mp 53), (digits2_pos_bounds mx 53) by assumption.
  replace (53 + (-62 + ex + n) - (53 + ex)) with (n - 62) by lia.
  replace (-62 + ex + n - ex) with (n - 62) by lia.
  rewrite fexp_normal by lia.
  replace (Z.min (n - 62 - 53) (n - 62)) with (n - 115) by lia.
  replace (n - 62 - (n - 115)) with 53 by lia.
  rewrite Z.shiftl_mul_pow2 by lia.
  rewrite div_eucl_div_mod. rewrite xorb_false_r.
  pose proof (Z.div_mod (Zpos mp * 2 ^ 53) (Zpos mx) ltac:(lia)) as Hdm.
  pose proof (Z.mod_pos_bound (Zpos mp * 2 ^ 53) (Zpos mx) ltac:(lia)) as Hr.
  set (Q := Zpos mp * 2 ^ 53 / Zpos mx) in *.
  set (R := (Zpos mp * 2 ^ 53) mod Zpos mx) in *.
  unfold mS in *.
  unfold binary_round_aux, shr_fexp.
  destruct Hn as [-> | ->].
  - (* the product had 105 digits: the quotient has 54 *)
    assert (HQ : 2 * 4611686018427388 - 1 <= Q <= 2 * 4611686018427388 + 1).
    { change (2 ^ 52) with 4503599627370496 in *.
      change (2 ^ 53) with 9007199254740992 in *.
      split.
      - apply Z.div_le_lower_bound; lia.
      - assert (Q < 2 * 4611686018427388 + 2); [| lia].
        apply Z.div_lt_upper_bound; lia. }
    clearbody Q R.
    destruct Q as [| q | q]; try lia.
    cbn [Zdigits2]. rewrite (digits2_pos_bounds q 54) by lia.
    rewrite fexp_normal by lia.
    change (54 + (52 - 115) - 53 - (52 - 115)) with 1.
    cbn [shr iter_pos].
    rewrite shr_1_of_loc by lia.
    set (l := loc_of_shr_record _).
    pose proof (round_nearest_even_envelope (Z.div2 (Zpos q)) l) as Henv.
    pose proof (Zdiv2_odd_eqn (Zpos q)) as Hq2.
    assert (Hd2 : 4611686018427388 - 1 <= Z.div2 (Zpos q) <= 4611686018427388)
      by (destruct (Z.odd (Zpos q)); lia).
    set (R1 := round_nearest_even (Z.div2 (Zpos q)) l) in *. clearbody R1.
    destruct R1 as [| mq | mq]; try lia.
    cbn [Zdigits2]. rewrite (digits2_pos_bounds mq 53) by lia.
    rewrite fexp_normal by lia.
    change (53 + (52 - 115 + 1) - 53 - (52 - 115 + 1)) with 0.
    cbn [shr shr_record_of_loc shr_m].
    exists mq. split; [reflexivity | lia].
  - (* the product had 106 digits: the quotient has 53 *)
    assert (HQ : 4611686018427388 - 1 <= Q <= 4611686018427388 + 1).
    { change (2 ^ 52) with 4503599627370496 in *.
      change (2 ^ 53) with 9007199254740992 in *.
      split.
      - apply Z.div_le_lower_bound; lia.
      - assert (Q < 4611686018427388 + 2); [| lia].
        apply Z.div_lt_upper_bound; lia. }
    assert (HR : Q = 4611686018427388 + 1 -> R = 0).
    { change (2 ^ 52) with 4503599627370496 in *.
      change (2 ^ 53) with 9007199254740992 in *. intros HQe. nia. }
    clearbody Q R.
    destruct Q as [| q | q]; try lia.
    cbn [Zdigits2]. rewrite (digits2_pos_bounds q 53) by lia.
    rewrite fexp_normal by lia.
    change (53 + (53 - 115) - 53 - (53 - 115)) with 0.
    cbn [shr]. rewrite shr_record_of_loc_m, loc_of_shr_record_of_loc.
    pose proof (round_nearest_even_envelope (Zpos q)
                  (new_location (Zpos mx) R)) as Henv.
    assert (Hexact : Zpos q = 4611686018427388 + 1 ->
                     round_nearest_even (Zpos q) (new_location (Zpos mx) R)
                     = Zpos q).
    { intros HQe. rewrite (HR HQe), new_location_exact. reflexivity. }
    set (R1 := round_nearest_even (Zpos q) (new_location (Zpos mx) R)) in *.
    clearbody R1.
    assert (HR1 : 4611686018427388 - 1 <= R1 <= 4611686018427388 + 1).
    { destruct (Z.eq_dec (Zpos q) (4611686018427388 + 1)) as [E | E].
      - rewrite (Hexact E). lia.
      - lia. }
    destruct R1 as [| mq | mq]; try lia.
    cbn [Zdigits2]. rewrite (digits2_pos_bounds mq 53) by lia.
    rewrite fexp_normal by lia.
    change (53 + (53 - 115) - 53 - (53 - 115)) with 0.
    cbn [shr shr_record_of_loc shr_m].
    exists mq. split; [reflexivity | lia].
Qed.

End Rounding.

(** ** The speed of the external clock *)

Section ExternalClockSpeed.

Import Dbl.
Implicit Types x : double.

Lemma units_MIN : units EXTERNAL_CLOCK_SPEED_MIN = 4150517416584649216.
Proof. reflexivity. Qed.
Lemma units_MAX : units EXTERNAL_CLOCK_SPEED_MAX = 4657802878611661824.
Proof. reflexivity. Qed.
Lemma units_ONE : units d_one = 4611686018427387904.
Proof. reflexivity. Qed.
Lemma units_STEP : units EXTERNAL_CLOCK_SPEED_STEP = 4611686018427388.
Proof. reflexivity. Qed.

(** Slowing down: [FFMAX(EXTERNAL_CLOCK_SPEED_MIN, speed - STEP)]. *)
Lemma speed_down x :
  speed_ok x ->
  let x' := FFMAX EXTERNAL_CLOCK_SPEED_MIN (x - EXTERNAL_CLOCK_SPEED_STEP)%dbl in
  speed_ok x'
  /\ units x' <= units x
  /\ units x - units x' <= units EXTERNAL_CLOCK_SPEED_STEP + 2 ^ 9
  /\ (units EXTERNAL_CLOCK_SPEED_MIN < units x -> units x' < units x).
Proof.
  intros Hok x'. subst x'.
  destruct (speed_ok_unit_range x Hok) as [Hu [Hlo Hhi]].
  rewrite units_MIN in *. rewrite units_MAX in *. rewrite units_STEP.
  unfold FFMAX, gt, sub, EXTERNAL_CLOCK_SPEED_STEP.
  rewrite (sub_units x _ Hu).
  destruct (normalize_units (units x - Zpos 4611686018427388))
    as (r & -> & Hur & Hb); [lia|].
  rewrite (unit_range_ltb r _ Hur unit_range_MIN), units_MIN.
  change (2 ^ 10) with 1024 in Hb. change (2 ^ 9) with 512.
  destruct (Z.ltb_spec (units r) 4150517416584649216).
  - rewrite units_MIN. split; [| lia].
    apply unit_range_speed_ok; [apply unit_range_MIN|].
    rewrite units_MIN, units_MAX. lia.
  - split; [| lia].
    apply unit_range_speed_ok; [exact Hur|].
    rewrite units_MIN, units_MAX. lia.
Qed.

(** Speeding up: [FFMIN(EXTERNAL_CLOCK_SPEED_MAX, speed + STEP)]. *)
Lemma speed_up x :
  speed_ok x ->
  let x' := FFMIN EXTERNAL_CLOCK_SPEED_MAX (x + EXTERNAL_CLOCK_SPEED_STEP)%dbl in
  speed_ok x'
  /\ units x <= units x'
  /\ units x' - units x <= units EXTERNAL_CLOCK_SPEED_STEP + 2 ^ 9
  /\ (units x < units EXTERNAL_CLOCK_SPEED_MAX -> units x < units x').
Proof.
  intros Hok x'. subst x'.
  destruct (speed_ok_unit_range x Hok) as [Hu [Hlo Hhi]].
  rewrite units_MIN in *. rewrite units_MAX in *. rewrite units_STEP.
  unfold FFMIN, gt, add, EXTERNAL_CLOCK_SPEED_STEP.
  rewrite (add_units x false _ Hu). cbn [cond_Zopp].
  destruct (normalize_units (units x + Zpos 4611686018427388))
    as (r & -> & Hur & Hb); [lia|].
  rewrite (unit_range_ltb r _ Hur unit_range_MAX), units_MAX.
  change (2 ^ 10) with 1024 in Hb. change (2 ^ 9) with 512.
  destruct (Z.ltb_spec (units r) 4657802878611661824).
  - split; [| lia].
    apply unit_range_speed_ok; [exact Hur|].
    rewrite units_MIN, units_MAX. lia.
  - rewrite units_MAX. split; [| lia].
    apply unit_range_speed_ok; [apply unit_range_MAX|].
    rewrite units_MIN, units_MAX. lia.
Qed.

(** The correction [STEP * (1.0 - speed) / fabs(1.0 - speed)] is the step
    to within one unit of its last place, with the sign of
    [1.0 - speed]. *)
Lemma step_toward_one x :
  unit_range x -> units x <> 2 ^ 62 ->
  exists mq,
    (EXTERNAL_CLOCK_SPEED_STEP * (d_one - x) / fabs (d_one - x))%dbl
    = S754_finite (2 ^ 62 <? units x) mq (-62)
    /\ mS - 1 <= Zpos mq <= mS + 1.
Proof.
  intros Hu Hne. unfold mul, div, sub, fabs, prec, emax.
  destruct (one_minus x Hu Hne) as (mx & ex & -> & Hmx & Hex).
  cbn [SFabs].
  destruct (step_times (2 ^ 62 <? units x) mx ex Hmx Hex)
    as (mp & n & -> & Hmp & Hn & Hb).
  apply step_quotient; assumption.
Qed.

(** Relaxing: [speed + STEP * (1.0 - speed) / fabs(1.0 - speed)]. *)
Lemma speed_relax x :
  speed_ok x -> (x !=? d_one)%dbl = true ->
  let x' := (x + EXTERNAL_CLOCK_SPEED_STEP * (d_one - x)
                 / fabs (d_one - x))%dbl in
  speed_ok x'
  /\ Z.abs (units x' - units x) <= units EXTERNAL_CLOCK_SPEED_STEP + 1 + 2 ^ 9
  /\ (units x < units d_one -> units x < units x')
  /\ (units d_one < units x -> units x' < units x).
Proof.
  intros Hok Hne x'. subst x'.
  destruct (speed_ok_unit_range x Hok) as [Hu [Hlo Hhi]].
  rewrite units_MIN in *. rewrite units_MAX in *.
  rewrite units_STEP, units_ONE.
  unfold ne in Hne. rewrite (unit_range_eqb x d_one Hu unit_range_ONE) in Hne.
  rewrite units_ONE in Hne. apply negb_true_iff, Z.eqb_neq in Hne.
  destruct (step_toward_one x Hu) as (mq & -> & Hmq);
    [change (2 ^ 62) with 4611686018427387904; exact Hne|].
  unfold mS in Hmq. unfold add. rewrite (add_units x _ mq Hu).
  change (2 ^ 62) with 4611686018427387904.
  assert (Hgrid : exists k, units x = 512 * k).
  { destruct Hu as (m & e & -> & _ & [-> | ->]); cbn [units cond_Zopp].
    - exists (Zpos m). change (2 ^ (-53 + 62)) with 512. lia.
    - exists (2 * Zpos m). change (2 ^ (-52 + 62)) with 1024. lia. }
  destruct Hgrid as [k Hk].
  change (2 ^ 9) with 512.
  destruct (Z.ltb_spec 4611686018427387904 (units x)) as [Habove | Hbelow];
    cbn [cond_Zopp].
  - destruct (normalize_units (units x + - Zpos mq))
      as (r & -> & Hur & Hb); [lia|].
    change (2 ^ 10) with 1024 in Hb.
    split; [| lia].
    apply unit_range_speed_ok; [exact Hur|].
    rewrite units_MIN, units_MAX. lia.
  - destruct (normalize_units (units x + Zpos mq))
      as (r & -> & Hur & Hb); [lia|].
    change (2 ^ 10) with 1024 in Hb.
    split; [| lia].
    apply unit_range_speed_ok; [exact Hur|].
    rewrite units_MIN, units_MAX. lia.
Qed.

End ExternalClockSpeed.

(** *** The adjustment as a whole *)

Section ExternalClockStep.

Import Dbl.

Lemma low_buffers_reflect s :
  ((Core.video_stream s >=? 0)
   && (Core.video_nb_packets s <=? Z.to_N EXTERNAL_CLOCK_MIN_FRAMES)%N)
  || ((Core.audio_stream s >=? 0)
      && (Core.audio_nb_packets s <=? Z.to_N EXTERNAL_CLOCK_MIN_FRAMES)%N)
  = true <-> low_buffers s.
Proof.
  unfold low_buffers. change (Z.to_N EXTERNAL_CLOCK_MIN_FRAMES) with 2%N.
  rewrite orb_true_iff, !andb_true_iff, !Z.geb_le, !N.leb_le. lia.
Qed.

Lemma full_buffers_reflect s :
  ((Core.video_stream s <? 0)
   || (Z.to_N EXTERNAL_CLOCK_MAX_FRAMES <? Core.video_nb_packets s)%N)
  && ((Core.audio_stream s <? 0)
      || (Z.to_N EXTERNAL_CLOCK_MAX_FRAMES <? Core.audio_nb_packets s)%N)
  = true <-> full_buffers s.
Proof.
  unfold full_buffers. change (Z.to_N EXTERNAL_CLOCK_MAX_FRAMES) with 10%N.
  rewrite andb_true_iff, !orb_true_iff, !Z.ltb_lt, !N.ltb_lt. reflexivity.
Qed.

(** From 1.0 with a starving queue the speed becomes the double nearest to
    0.999, which lies further from 1.0 than the step 0.001: by
    [2 ^ -60] in units of [2 ^ -62], and also further than the exact
    decimal 0.001. *)
Lemma speed_step_counterexample :
  let s' := Core.check_external_clock_speed core_starving in
  low_buffers core_starving
  /\ speed_ok (Core.subtitle_speed core_starving)
  /\ Core.subtitle_speed s' = S754_finite false 8998192055486251 (-53)
  /\ units (Core.subtitle_speed core_starving) - units (Core.subtitle_speed s')
     = 4611686018427392
  /\ units EXTERNAL_CLOCK_SPEED_STEP = 4611686018427388
  /\ units (Core.subtitle_speed core_starving) - units (Core.subtitle_speed s')
     > units EXTERNAL_CLOCK_SPEED_STEP
  /\ 1000 * (units (Core.subtitle_speed core_starving)
             - units (Core.subtitle_speed s')) > 2 ^ 62.
Proof.
  assert (H : Core.subtitle_speed (Core.check_external_clock_speed core_starving)
              = S754_finite false 8998192055486251 (-53))
    by (vm_compute; reflexivity).
  cbv zeta. rewrite H.
  split; [left; cbn; lia|].
  split; [repeat split; vm_compute; reflexivity|].
  repeat split.
Qed.

(** C8 (amended).  When the speed of the external clock is a double in
    [[0.900, 1.010]] before [check_external_clock_speed], it is one after;
    the call changes it by at most the step 0.001 plus a rounding error,
    [2 ^ -52] at most (the bound reads in units of [2 ^ -62]); it does not
    increase, and decreases unless already 0.900, when an open stream's
    queue holds at most 2 packets; otherwise it does not decrease, and
    increases unless already 1.010, when every open stream's queue holds
    more than 10 packets; otherwise it increases when below 1.0,
    decreases when above 1.0, and nothing changes when it is 1.0. *)
Theorem external_clock_speed_step :
  forall s : Core.VideoState,
    speed_ok (Core.subtitle_speed s) ->
    let sp := Core.subtitle_speed s in
    let sp' := Core.subtitle_speed (Core.check_external_clock_speed s) in
    speed_ok sp'
    /\ Z.abs (units sp' - units sp) <= units EXTERNAL_CLOCK_SPEED_STEP + 2 ^ 10
    /\ (low_buffers s ->
        (sp' <=? sp)%dbl = true
        /\ ((EXTERNAL_CLOCK_SPEED_MIN <? sp)%dbl = true ->
            (sp' <? sp)%dbl = true))
    /\ (~ low_buffers s -> full_buffers s ->
        (sp <=? sp')%dbl = true
        /\ ((sp <? EXTERNAL_CLOCK_SPEED_MAX)%dbl = true ->
            (sp <? sp')%dbl = true))
    /\ (~ low_buffers s -> ~ full_buffers s ->
        ((sp <? d_one)%dbl = true -> (sp <? sp')%dbl = true)
        /\ ((d_one <? sp)%dbl = true -> (sp' <? sp)%dbl = true)
        /\ ((sp !=? d_one)%dbl = false ->
            Core.check_external_clock_speed s = s)).
Proof.
  intros s Hok sp sp'. subst sp sp'.
  destruct (speed_ok_unit_range _ Hok) as [Hu _].
  unfold Core.check_external_clock_speed.
  pose proof (low_buffers_reflect s) as Hlow.
  pose proof (full_buffers_reflect s) as Hfull.
  assert (E9 : 2 ^ 9 = 512) by reflexivity.
  assert (E10 : 2 ^ 10 = 1024) by reflexivity.
  assert (ES : units EXTERNAL_CLOCK_SPEED_STEP = 4611686018427388)
    by reflexivity.
  rewrite E10, ES.
  match goal with
  | |- context [if ?b then Core.SetClockSpeed _ _ else _] =>
      destruct b eqn:Hb1
  end.
  - (* a queue is starving *)
    cbn [Core.subtitle_speed Core.SetClockSpeed].
    destruct (speed_down _ Hok) as (Hok' & Hle & Hstep & Hstrict).
    cbv zeta in Hok', Hle, Hstep, Hstrict. rewrite E9, ES in Hstep.
    destruct (speed_ok_unit_range _ Hok') as [Hu' _].
    split; [exact Hok'|]. split; [lia|].
    split; [| split; [intros Hn; elim Hn; apply Hlow; reflexivity
                     | intros Hn; elim Hn; apply Hlow; reflexivity]].
    intros _. unfold le, lt.
    rewrite (unit_range_leb _ _ Hu' Hu), (unit_range_ltb _ _ Hu' Hu),
      (unit_range_ltb _ _ unit_range_MIN Hu).
    split; [apply Z.leb_le; exact Hle|].
    intros H. apply Z.ltb_lt. apply Z.ltb_lt in H. auto.
  - assert (Hnlow : ~ low_buffers s)
      by (intros H; apply Hlow in H; congruence).
    match goal with
    | |- context [if ?b then Core.SetClockSpeed _ _ else _] =>
        destruct b eqn:Hb2
    end.
    + (* every queue is full *)
      cbn [Core.subtitle_speed Core.SetClockSpeed].
      destruct (speed_up _ Hok) as (Hok' & Hle & Hstep & Hstrict).
      cbv zeta in Hok', Hle, Hstep, Hstrict. rewrite E9, ES in Hstep.
      destruct (speed_ok_unit_range _ Hok') as [Hu' _].
      split; [exact Hok'|]. split; [lia|].
      split; [intros H; contradiction|].
      split; [| intros _ Hn; elim Hn; apply Hfull; reflexivity].
      intros _ _. unfold le, lt.
      rewrite (unit_range_leb _ _ Hu Hu'), (unit_range_ltb _ _ Hu Hu'),
        (unit_range_ltb _ _ Hu unit_range_MAX).
      split; [apply Z.leb_le; exact Hle|].
      intros H. apply Z.ltb_lt. apply Z.ltb_lt in H. auto.
    + assert (Hnfull : ~ full_buffers s)
        by (intros H; apply Hfull in H; congruence).
      destruct (Core.subtitle_speed s !=? d_one)%dbl eqn:Hne.
      * (* relax toward 1.0 *)
        cbn [Core.subtitle_speed Core.SetClockSpeed].
        destruct (speed_relax _ Hok Hne) as (Hok' & Hstep & Hup & Hdown).
        cbv zeta in Hok', Hstep, Hup, Hdown. rewrite E9, ES in Hstep.
        destruct (speed_ok_unit_range _ Hok') as [Hu' _].
        split; [exact Hok'|]. split; [lia|].
        split; [intros H; contradiction|].
        split; [intros _ H; contradiction|].
        intros _ _. unfold lt.
        rewrite (unit_range_ltb _ _ Hu Hu'), (unit_range_ltb _ _ Hu' Hu),
          (unit_range_ltb _ _ Hu unit_range_ONE),
          (unit_range_ltb _ _ unit_range_ONE Hu).
        split; [intros H; apply Z.ltb_lt; apply Z.ltb_lt in H; auto|].
        split; [intros H; apply Z.ltb_lt; apply Z.ltb_lt in H; auto|].
        discriminate.
      * (* already 1.0 *)
        unfold ne in Hne. apply negb_false_iff in Hne.
        rewrite (unit_range_eqb _ _ Hu unit_range_ONE) in Hne.
        apply Z.eqb_eq in Hne.
        split; [exact Hok|]. split; [lia|].
        split; [intros H; contradiction|].
        split; [intros _ H; contradiction|].
        intros _ _. unfold lt.
        rewrite (unit_range_ltb _ _ Hu unit_range_ONE),
          (unit_range_ltb _ _ unit_range_ONE Hu), Hne, Z.ltb_irrefl.
        repeat split; discriminate.
Qed.

Lemma external_clock_speed_step_witness :
  speed_ok (Core.subtitle_speed
              (Core.check_external_clock_speed core_starving)).
Proof.
  apply (external_clock_speed_step core_starving).
  repeat split; vm_compute; reflexivity.
Defined.

End ExternalClockStep.

(* ================================================================== *)
(** * Part IV: properties of the controls, of seeking and of the audio
      output *)
(* ================================================================== *)

(** ** Volume *)

Section CoreVolume.

Import CoreControl.

Variable MAXVOL : Z.
Hypothesis MAXVOL_range : 0 <= MAXVOL < 2 ^ 24.

Lemma core_update_volume_range v sign step :
  0 <= update_volume MAXVOL v sign step <= MAXVOL.
Proof. unfold update_volume. apply av_clip_bounds. lia. Qed.

Lemma core_volume_step : SDL_VOLUME_STEP MAXVOL = MAXVOL / 50.
Proof.
  unfold SDL_VOLUME_STEP, Int.div.
  rewrite Z.quot_div_nonneg by lia.
  apply wrap_in_range.
  assert (0 <= MAXVOL / 50 <= MAXVOL)
    by (split; [apply Z.div_pos; lia | apply Z.div_le_upper_bound; lia]).
  unfold Int.INT_MIN, Int.INT_MAX. lia.
Qed.

Lemma core_volume_up v :
  0 <= v <= MAXVOL ->
  press_volume_key MAXVOL v VolumeUp = Z.min (v + MAXVOL / 50) MAXVOL.
Proof.
  intros Hv. cbn [press_volume_key]. unfold update_volume.
  rewrite core_volume_step.
  assert (0 <= MAXVOL / 50 <= MAXVOL)
    by (split; [apply Z.div_pos; lia | apply Z.div_le_upper_bound; lia]).
  unfold Int.mul, Int.add.
  rewrite (wrap_in_range (1 * (MAXVOL / 50)))
    by (unfold Int.INT_MIN, Int.INT_MAX; lia).
  rewrite wrap_in_range by (unfold Int.INT_MIN, Int.INT_MAX; lia).
  unfold Int.av_clip.
  destruct (Z.ltb_spec (v + 1 * (MAXVOL / 50)) 0); [lia|].
  rewrite Z.gtb_ltb.
  destruct (Z.ltb_spec MAXVOL (v + 1 * (MAXVOL / 50))); lia.
Qed.

Lemma core_volume_down v :
  0 <= v <= MAXVOL ->
  press_volume_key MAXVOL v VolumeDown = Z.max (v - MAXVOL / 50) 0.
Proof.
  intros Hv. cbn [press_volume_key]. unfold update_volume.
  rewrite core_volume_step.
  assert (0 <= MAXVOL / 50 <= MAXVOL)
    by (split; [apply Z.div_pos; lia | apply Z.div_le_upper_bound; lia]).
  unfold Int.mul, Int.add.
  rewrite (wrap_in_range (-1 * (MAXVOL / 50)))
    by (unfold Int.INT_MIN, Int.INT_MAX; lia).
  rewrite wrap_in_range by (unfold Int.INT_MIN, Int.INT_MAX; lia).
  unfold Int.av_clip.
  destruct (Z.ltb_spec (v + -1 * (MAXVOL / 50)) 0); [lia|].
  rewrite Z.gtb_ltb.
  destruct (Z.ltb_spec MAXVOL (v + -1 * (MAXVOL / 50))); lia.
Qed.

Lemma core_startup_volume_percent p :
  startup_volume MAXVOL p = MAXVOL * Z.max 0 (Z.min p 100) / 100.
Proof.
  unfold startup_volume.
  set (q := Int.av_clip p 0 100).
  assert (Hq : q = Z.max 0 (Z.min p 100)).
  { subst q. unfold Int.av_clip.
    destruct (Z.ltb_spec p 0); [lia|].
    rewrite Z.gtb_ltb. destruct (Z.ltb_spec 100 p); lia. }
  assert (Hq' : 0 <= q <= 100) by lia.
  rewrite <- Hq. clearbody q.
  unfold Int.mul, Int.div.
  rewrite (wrap_in_range (MAXVOL * q))
    by (unfold Int.INT_MIN, Int.INT_MAX; nia).
  rewrite Z.quot_div_nonneg by nia.
  assert (0 <= MAXVOL * q / 100 <= MAXVOL).
  { split; [apply Z.div_pos; nia | apply Z.div_le_upper_bound; nia]. }
  rewrite wrap_in_range by (unfold Int.INT_MIN, Int.INT_MAX; lia).
  unfold Int.av_clip.
  destruct (Z.ltb_spec (MAXVOL * q / 100) 0); [lia|].
  rewrite Z.gtb_ltb.
  destruct (Z.ltb_spec MAXVOL (MAXVOL * q / 100)); lia.
Qed.

End CoreVolume.

(** X1.  The volume of [src/core/video_state.cpp] never leaves
    [0 .. SDL_MIX_MAXVOLUME]: the constructor turns the start-up volume, a
    percentage clipped to [0 .. 100], into [SDL_MIX_MAXVOLUME * p / 100],
    and whatever volume keys are pressed afterwards, and with whatever
    arguments [update_volume] is called, the volume stays in the range. *)
Theorem core_volume_invariant :
  forall (MAXVOL : Z) (startup : Z)
         (calls : list (Z * Z)),
    0 <= MAXVOL < 2 ^ 24 ->
    let v0 := CoreControl.startup_volume MAXVOL startup in
    let v :=
      fold_left
        (fun v call => CoreControl.update_volume MAXVOL v (fst call) (snd call))
        calls v0 in
    v0 = MAXVOL * Z.max 0 (Z.min startup 100) / 100
    /\ 0 <= v0 <= MAXVOL
    /\ 0 <= v <= MAXVOL.
Proof.
  intros MAXVOL startup calls HM v0 v.
  assert (H0 : v0 = MAXVOL * Z.max 0 (Z.min startup 100) / 100)
    by (apply core_startup_volume_percent; exact HM).
  assert (Hr0 : 0 <= v0 <= MAXVOL).
  { rewrite H0. split; [apply Z.div_pos; nia|].
    apply Z.div_le_upper_bound; nia. }
  repeat split; try tauto; try lia.
  - subst v. clearbody v0. clear H0.
    revert v0 Hr0. induction calls as [| call calls IH]; intros v0 Hr0;
      cbn [fold_left]; [lia|].
    apply IH, core_update_volume_range. lia.
  - subst v. clearbody v0. clear H0.
    revert v0 Hr0. induction calls as [| call calls IH]; intros v0 Hr0;
      cbn [fold_left]; [lia|].
    apply IH, core_update_volume_range. lia.
Qed.

Lemma core_volume_invariant_witness :
  let v0 := CoreControl.startup_volume 128 250 in
  let v :=
    fold_left
      (fun v call => CoreControl.update_volume 128 v (fst call) (snd call))
      [(1, 2); (-1, 200)] v0 in
  v0 = 128 * Z.max 0 (Z.min 250 100) / 100
  /\ 0 <= v0 <= 128
  /\ 0 <= v <= 128.
Proof.
  apply (core_volume_invariant 128 250 [(1, 2); (-1, 200)]).
  vm_compute. split; [discriminate | reflexivity].
Defined.

(** X2.  Volume up followed by volume down gives the volume back exactly
    when the step up was not clipped at [SDL_MIX_MAXVOLUME]. *)
Theorem core_volume_up_down :
  forall (MAXVOL v : Z),
    0 <= MAXVOL < 2 ^ 24 ->
    0 <= v <= MAXVOL ->
    CoreControl.press_volume_key MAXVOL
      (CoreControl.press_volume_key MAXVOL v CoreControl.VolumeUp)
      CoreControl.VolumeDown = v
    <-> v + CoreControl.SDL_VOLUME_STEP MAXVOL <= MAXVOL.
Proof.
  intros MAXVOL v HM Hv.
  rewrite core_volume_up by assumption.
  rewrite core_volume_step by assumption.
  assert (0 <= MAXVOL / 50 <= MAXVOL)
    by (split; [apply Z.div_pos; lia | apply Z.div_le_upper_bound; lia]).
  rewrite core_volume_down by lia.
  lia.
Qed.

Lemma core_volume_up_down_witness :
  CoreControl.press_volume_key 128
    (CoreControl.press_volume_key 128 127 CoreControl.VolumeUp)
    CoreControl.VolumeDown = 127
  <-> 127 + CoreControl.SDL_VOLUME_STEP 128 <= 128.
Proof.
  apply (core_volume_up_down 128 127); vm_compute;
    split; (discriminate || reflexivity).
Defined.

(** ** Seek requests *)

(** X3.  A seek request is a latch: while one is pending, [stream_seek]
    changes nothing, so the first request wins; and a request that is
    taken sets the [AVSEEK_FLAG_BYTE] bits exactly when [seek_by_bytes] is
    not zero, leaving every other bit of [seek_flags] as it was. *)
Theorem core_stream_seek_latch :
  forall (FLAG : Z) (s : CoreControl.Seek) (pos rel by_bytes : Z),
    let s' := CoreControl.stream_seek FLAG s pos rel by_bytes in
    (forall pos' rel' by_bytes',
        CoreControl.stream_seek FLAG s' pos' rel' by_bytes' = s')
    /\ (CoreControl.seek_req s = true -> s' = s)
    /\ (CoreControl.seek_req s = false ->
        CoreControl.seek_req s' = true
        /\ CoreControl.seek_pos s' = pos
        /\ CoreControl.seek_rel s' = rel
        /\ forall n, 0 <= n ->
             Z.testbit (CoreControl.seek_flags s') n
             = if Z.testbit FLAG n then negb (by_bytes =? 0)
               else Z.testbit (CoreControl.seek_flags s) n).
Proof.
  intros FLAG s pos rel by_bytes. cbv zeta.
  unfold CoreControl.stream_seek.
  destruct (CoreControl.seek_req s) eqn:Hreq; cbn [negb].
  - split; [| split]; [| reflexivity | discriminate].
    intros. rewrite Hreq. reflexivity.
  - split; [| split]; [reflexivity | discriminate |].
    intros _. cbn [CoreControl.seek_req CoreControl.seek_pos
                   CoreControl.seek_rel CoreControl.seek_flags].
    split; [reflexivity|]. split; [reflexivity|]. split; [reflexivity|].
    intros n Hn.
    destruct (by_bytes =? 0); cbn [negb].
    + rewrite Z.land_spec, Z.lnot_spec by assumption.
      destruct (Z.testbit FLAG n); cbn; [apply andb_false_r | apply andb_true_r].
    + rewrite Z.lor_spec, Z.land_spec, Z.lnot_spec by assumption.
      destruct (Z.testbit FLAG n); cbn;
        [apply orb_true_r | rewrite orb_false_r; apply andb_true_r].
Qed.

(** ** Chapters *)

Section CoreChapters.

Import CoreControl.

Variable FLAG : Z.
Variable av_compare_ts : Z -> Z * Z -> Z -> Z * Z -> Z.
Variable av_rescale_q : Z -> Z * Z -> Z * Z -> Z.

Lemma core_find_current_chapter pos chapters i :
  0 <= i -> i + Z.of_nat (length chapters) < 2 ^ 31 ->
  find_current_chapter av_compare_ts pos chapters i
  = i + Z.of_nat (chapters_begun av_compare_ts pos chapters)
    - (if (chapters_begun av_compare_ts pos chapters <? length chapters)%nat then 1 else 0).
Proof.
  revert i. induction chapters as [| ch chapters IH]; intros i Hi Hlen.
  - cbn. lia.
  - cbn [find_current_chapter chapters_begun length].
    cbn [length] in Hlen.
    destruct (av_compare_ts pos AV_TIME_BASE_Q (start ch) (time_base ch) <? 0).
    + cbn. unfold Int.add. rewrite wrap_in_range
        by (unfold Int.INT_MIN, Int.INT_MAX; lia). lia.
    + unfold Int.add. rewrite wrap_in_range
        by (unfold Int.INT_MIN, Int.INT_MAX; lia).
      rewrite IH by lia.
      change (S (chapters_begun av_compare_ts pos chapters) <? S (length chapters))%nat
        with (chapters_begun av_compare_ts pos chapters <? length chapters)%nat.
      lia.
Qed.

Lemma chapters_begun_le pos chapters :
  (chapters_begun av_compare_ts pos chapters <= length chapters)%nat.
Proof.
  induction chapters as [| ch chapters IH]; cbn; [lia|].
  destruct (_ <? 0); lia.
Qed.

Lemma core_seek_chapter_target clock chapters s incr :
  chapters <> [] -> Z.of_nat (length chapters) < 2 ^ 30 ->
  - 2 ^ 30 <= incr <= 2 ^ 30 ->
  let pos := Int64.of_double (clock * Dbl.of_int AV_TIME_BASE)%dbl in
  let n := Z.of_nat (length chapters) in
  let k := Z.of_nat (chapters_begun av_compare_ts pos chapters) in
  let current := if k <? n then k - 1 else n in
  seek_chapter FLAG av_compare_ts av_rescale_q clock chapters s incr
  = match nth_error chapters (Z.to_nat (Z.max (current + incr) 0)) with
    | Some ch =>
        stream_seek FLAG s
          (av_rescale_q (start ch) (time_base ch) AV_TIME_BASE_Q) 0 0
    | None => s
    end.
Proof.
  intros Hne Hlen Hincr pos n k current.
  unfold seek_chapter. fold pos. fold n.
  assert (Hn : 0 < n).
  { subst n. destruct chapters; [congruence | cbn [length]; lia]. }
  destruct (Z.eqb_spec n 0); [lia|].
  rewrite core_find_current_chapter by lia.
  pose proof (chapters_begun_le pos chapters) as Hk.
  assert (Hcur : 0 + Z.of_nat (chapters_begun av_compare_ts pos chapters)
                 - (if (chapters_begun av_compare_ts pos chapters
                        <? length chapters)%nat then 1 else 0) = current).
  { subst current k n.
    destruct (Nat.ltb_spec (chapters_begun av_compare_ts pos chapters)
                (length chapters));
      destruct (Z.ltb_spec
                  (Z.of_nat (chapters_begun av_compare_ts pos chapters))
                  (Z.of_nat (length chapters))); lia. }
  rewrite Hcur.
  assert (Hc : -1 <= current <= n).
  { subst current. destruct (Z.ltb_spec k n); subst k n; lia. }
  unfold Int.add.
  rewrite wrap_in_range by (unfold Int.INT_MIN, Int.INT_MAX; lia).
  rewrite Z.gtb_ltb.
  assert (Hmax : (if 0 <? current + incr then current + incr else 0)
                 = Z.max (current + incr) 0)
    by (destruct (Z.ltb_spec 0 (current + incr)); lia).
  rewrite Hmax.
  set (j := Z.max (current + incr) 0).
  assert (Hj : 0 <= j < 2 ^ 31) by (subst j; lia).
  unfold UInt.wrap. rewrite Z.mod_small by lia.
  rewrite Z.geb_leb.
  destruct (Z.leb_spec n j) as [Hge | Hlt]; [| reflexivity].
  assert (Hnone : nth_error chapters (Z.to_nat j) = None)
    by (apply nth_error_None; subst n; lia).
  rewrite Hnone. reflexivity.
Qed.

End CoreChapters.

(** X4.  [seek_chapter(incr)] of [src/core/video_state.cpp] in plain
    integers.  With [k] the number of leading chapters begun at the
    master clock, the current chapter is [k - 1], except that past the
    start of the last chapter it counts as [n], the number of chapters;
    the seek goes to chapter [max (current + incr, 0)] when there is one,
    and nothing happens otherwise.  So one chapter back from the first
    chapter restarts it, and one chapter back from the last chapter also
    restarts it. *)
Theorem core_seek_chapter_target_chapter :
  forall (FLAG : Z) (av_compare_ts : Z -> Z * Z -> Z -> Z * Z -> Z)
         (av_rescale_q : Z -> Z * Z -> Z * Z -> Z)
         (clock : Dbl.double) (chapters : list CoreControl.AVChapter)
         (s : CoreControl.Seek) (incr : Z),
    chapters <> [] -> Z.of_nat (length chapters) < 2 ^ 30 ->
    - 2 ^ 30 <= incr <= 2 ^ 30 ->
    let pos := Int64.of_double (clock * Dbl.of_int AV_TIME_BASE)%dbl in
    let n := Z.of_nat (length chapters) in
    let k := Z.of_nat (chapters_begun av_compare_ts pos chapters) in
    let current := if k <? n then k - 1 else n in
    CoreControl.seek_chapter FLAG av_compare_ts av_rescale_q clock chapters
      s incr
    = match nth_error chapters (Z.to_nat (Z.max (current + incr) 0)) with
      | Some ch =>
          CoreControl.stream_seek FLAG s
            (av_rescale_q (CoreControl.start ch) (CoreControl.time_base ch)
               CoreControl.AV_TIME_BASE_Q) 0 0
      | None => s
      end.
Proof. intros. apply core_seek_chapter_target; assumption. Qed.

Lemma core_seek_chapter_target_chapter_witness :
  let pos := Int64.of_double (d_two * Dbl.of_int AV_TIME_BASE)%dbl in
  let n := Z.of_nat (length core_three_chapters) in
  let k := Z.of_nat (chapters_begun example_compare_ts pos
                       core_three_chapters) in
  let current := if k <? n then k - 1 else n in
  CoreControl.seek_chapter 2 example_compare_ts example_rescale_q d_two
    core_three_chapters core_no_seek (-1)
  = match nth_error core_three_chapters
            (Z.to_nat (Z.max (current + -1) 0)) with
    | Some ch =>
        CoreControl.stream_seek 2 core_no_seek
          (example_rescale_q (CoreControl.start ch)
             (CoreControl.time_base ch) CoreControl.AV_TIME_BASE_Q) 0 0
    | None => core_no_seek
    end.
Proof.
  apply (core_seek_chapter_target_chapter 2 example_compare_ts
           example_rescale_q d_two core_three_chapters core_no_seek (-1)).
  - discriminate.
  - reflexivity.
  - split; discriminate.
Defined.

Section PlayerChapters.

Import PlayerControl.

Variable FLAG : Z.
Variable av_compare_ts : Z -> Z * Z -> Z -> Z * Z -> Z.
Variable av_rescale_q : Z -> Z * Z -> Z * Z -> Z.

Lemma player_find_current_chapter pos chapters i :
  0 <= i -> i + Z.of_nat (length chapters) < 2 ^ 32 ->
  find_current_chapter av_compare_ts pos chapters i
  = (i + Z.of_nat (player_chapters_begun av_compare_ts pos chapters)
     - (if (player_chapters_begun av_compare_ts pos chapters
            <? length chapters)%nat then 1 else 0)) mod 2 ^ 32.
Proof.
  revert i. induction chapters as [| ch chapters IH]; intros i Hi Hlen.
  - cbn. rewrite Z.mod_small; lia.
  - cbn [find_current_chapter player_chapters_begun length].
    cbn [length] in Hlen.
    destruct (av_compare_ts pos AV_TIME_BASE_Q (start ch) (time_base ch) <? 0).
    + cbn. unfold UInt.wrap. f_equal. lia.
    + unfold UInt.wrap. rewrite (Z.mod_small (i + 1)) by lia.
      rewrite IH by lia.
      change (S (player_chapters_begun av_compare_ts pos chapters)
              <? S (length chapters))%nat
        with (player_chapters_begun av_compare_ts pos chapters
              <? length chapters)%nat.
      f_equal. lia.
Qed.

Lemma player_chapters_begun_le pos chapters :
  (player_chapters_begun av_compare_ts pos chapters <= length chapters)%nat.
Proof.
  induction chapters as [| ch chapters IH]; cbn; [lia|].
  destruct (_ <? 0); lia.
Qed.

Lemma player_seek_chapter_target clock chapters s incr :
  chapters <> [] -> Z.of_nat (length chapters) < 2 ^ 30 ->
  - 2 ^ 30 <= incr <= 2 ^ 30 ->
  let pos := Int64.of_double (clock * Dbl.of_int AV_TIME_BASE)%dbl in
  let n := Z.of_nat (length chapters) in
  let k := Z.of_nat (player_chapters_begun av_compare_ts pos chapters) in
  let current := if k <? n then k - 1 else n in
  SeekChapter FLAG av_compare_ts av_rescale_q clock chapters s incr
  = if current + incr <? 0 then s
    else
      match nth_error chapters (Z.to_nat (current + incr)) with
      | Some ch =>
          StreamSeek FLAG s
            (av_rescale_q (start ch) (time_base ch) AV_TIME_BASE_Q) 0 0
      | None => s
      end.
Proof.
  intros Hne Hlen Hincr pos n k current.
  unfold SeekChapter. fold pos. fold n.
  assert (Hn : 0 < n).
  { subst n. destruct chapters; [congruence | cbn [length]; lia]. }
  destruct (Z.eqb_spec n 0); [lia|].
  rewrite player_find_current_chapter by lia.
  pose proof (player_chapters_begun_le pos chapters) as Hk.
  assert (Hcur : 0 + Z.of_nat (player_chapters_begun av_compare_ts pos chapters)
                 - (if (player_chapters_begun av_compare_ts pos chapters
                        <? length chapters)%nat then 1 else 0) = current).
  { subst current k n.
    destruct (Nat.ltb_spec (player_chapters_begun av_compare_ts pos chapters)
                (length chapters));
      destruct (Z.ltb_spec
                  (Z.of_nat (player_chapters_begun av_compare_ts pos chapters))
                  (Z.of_nat (length chapters))); lia. }
  rewrite Hcur.
  assert (Hc : -1 <= current <= n).
  { subst current. destruct (Z.ltb_spec k n); subst k n; lia. }
  unfold UInt.wrap.
  rewrite Zplus_mod_idemp_l, Zplus_mod_idemp_r.
  set (sum := (current + incr) mod 2 ^ 32).
  assert (Hsum0 : 0 <= sum < 2 ^ 32) by (apply Z.mod_pos_bound; lia).
  assert (Hii : (if sum >? 0 then sum else 0) = sum).
  { rewrite Z.gtb_ltb. destruct (Z.ltb_spec 0 sum); lia. }
  rewrite Hii. rewrite Z.geb_leb.
  destruct (Z.ltb_spec (current + incr) 0) as [Hneg | Hpos].
  - assert (Hs : sum = current + incr + 2 ^ 32).
    { subst sum. symmetry. apply Z.mod_unique with (q := -1); lia. }
    destruct (Z.leb_spec n sum); [reflexivity | lia].
  - assert (Hs : sum = current + incr)
      by (subst sum; apply Z.mod_small; lia).
    rewrite Hs.
    destruct (Z.leb_spec n (current + incr)) as [Hge | Hlt]; [| reflexivity].
    assert (Hnone : nth_error chapters (Z.to_nat (current + incr)) = None)
      by (apply nth_error_None; subst n; lia).
    rewrite Hnone. reflexivity.
Qed.

End PlayerChapters.

(** X5.  [SeekChapter(incr)] of [src/video_state.cpp] in plain integers.
    Its index is an [unsigned int], so [FFMAX(i + incr, 0)] clips
    nothing: with the current chapter counted as in
    [src/core/video_state.cpp], the seek goes to chapter
    [current + incr] when that is the index of a chapter, and nothing
    happens otherwise.  So one chapter back from the first chapter does
    nothing here, where [src/core/video_state.cpp] restarts the
    chapter. *)
Theorem player_seek_chapter_target_chapter :
  forall (FLAG : Z) (av_compare_ts : Z -> Z * Z -> Z -> Z * Z -> Z)
         (av_rescale_q : Z -> Z * Z -> Z * Z -> Z)
         (clock : Dbl.double) (chapters : list PlayerControl.AVChapter)
         (s : PlayerControl.Seek) (incr : Z),
    chapters <> [] -> Z.of_nat (length chapters) < 2 ^ 30 ->
    - 2 ^ 30 <= incr <= 2 ^ 30 ->
    let pos := Int64.of_double (clock * Dbl.of_int AV_TIME_BASE)%dbl in
    let n := Z.of_nat (length chapters) in
    let k := Z.of_nat (player_chapters_begun av_compare_ts pos chapters) in
    let current := if k <? n then k - 1 else n in
    PlayerControl.SeekChapter FLAG av_compare_ts av_rescale_q clock chapters
      s incr
    = if current + incr <? 0 then s
      else
        match nth_error chapters (Z.to_nat (current + incr)) with
        | Some ch =>
            PlayerControl.StreamSeek FLAG s
              (av_rescale_q (PlayerControl.start ch)
                 (PlayerControl.time_base ch) PlayerControl.AV_TIME_BASE_Q)
              0 0
        | None => s
        end.
Proof. intros. apply player_seek_chapter_target; assumption. Qed.

Lemma player_seek_chapter_target_chapter_witness :
  let pos := Int64.of_double (d_two * Dbl.of_int AV_TIME_BASE)%dbl in
  let n := Z.of_nat (length player_three_chapters) in
  let k := Z.of_nat (player_chapters_begun example_compare_ts pos
                       player_three_chapters) in
  let current := if k <? n then k - 1 else n in
  PlayerControl.SeekChapter 2 example_compare_ts example_rescale_q d_two
    player_three_chapters player_no_seek (-1)
  = if current + -1 <? 0 then player_no_seek
    else
      match nth_error player_three_chapters (Z.to_nat (current + -1)) with
      | Some ch =>
          PlayerControl.StreamSeek 2 player_no_seek
            (example_rescale_q (PlayerControl.start ch)
               (PlayerControl.time_base ch) PlayerControl.AV_TIME_BASE_Q)
            0 0
      | None => player_no_seek
      end.
Proof.
  apply (player_seek_chapter_target_chapter 2 example_compare_ts
           example_rescale_q d_two player_three_chapters player_no_seek (-1)).
  - discriminate.
  - reflexivity.
  - split; discriminate.
Defined.

(** ** The display mode *)

Section ShowModeCycle.

Variable VIDEO : Z.
Variable NB : Z.
Variable video : bool.
Variable audio : bool.
Hypothesis NB_range : 0 < NB < 2 ^ 30.

Variable m : Z.
Hypothesis m_range : 0 <= m < NB.





End ShowModeCycle.



(** X7.  With no video filter configured and the video shown, the key
    [w] of [src/core/video_state.cpp] goes on to [toggle_audio_display],
    but [ToggleWaveDisplay] of [src/video_state.cpp] never reaches
    [ToggleAudioDisplay]: there [nb_vfilters - 1] is computed on [size_t]
    and wraps around to the largest value, so the filter index is reset
    and the display mode stays as it is. *)
Theorem wave_display_without_filters :
  forall (VIDEO NB : Z) (video audio : bool) (fuel : nat)
         (d : CoreControl.Display) (p : PlayerControl.Display),
    CoreControl.show_mode d = VIDEO ->
    PlayerControl.show_mode p = VIDEO ->
    -1 <= CoreControl.vfilter_idx d ->
    0 <= PlayerControl.vfilter_idx p < 2 ^ 64 - 1 ->
    CoreControl.press_w VIDEO NB video audio fuel 0 d
    = CoreControl.toggle_audio_display VIDEO NB video audio fuel
        {| CoreControl.show_mode := VIDEO;
           CoreControl.force_refresh := CoreControl.force_refresh d;
           CoreControl.vfilter_idx := 0 |}
    /\ PlayerControl.ToggleWaveDisplay VIDEO NB video audio fuel 0 p
       = Some {| PlayerControl.show_mode := VIDEO;
                 PlayerControl.force_refresh := PlayerControl.force_refresh p;
                 PlayerControl.vfilter_idx := 0 |}.
Proof.
  intros VIDEO NB video audio fuel d p Hd Hp Hi Hpi. split.
  - unfold CoreControl.press_w. rewrite Hd, Z.eqb_refl. cbn [andb].
    change (Int.add (Int.wrap 0) (-1)) with (-1).
    destruct (Z.ltb_spec (CoreControl.vfilter_idx d) (-1)); [lia|].
    reflexivity.
  - unfold PlayerControl.ToggleWaveDisplay. rewrite Hp, Z.eqb_refl.
    cbn [andb].
    change (SizeT.wrap (0 - 1)) with (2 ^ 64 - 1).
    destruct (Z.ltb_spec (PlayerControl.vfilter_idx p) (2 ^ 64 - 1)); [| lia].
    rewrite Z.geb_leb.
    assert (Hw : 0 <= SizeT.wrap (PlayerControl.vfilter_idx p + 1))
      by (unfold SizeT.wrap; apply Z.mod_pos_bound; lia).
    destruct (Z.leb_spec 0 (SizeT.wrap (PlayerControl.vfilter_idx p + 1)));
      [reflexivity | lia].
Qed.

Lemma wave_display_without_filters_witness :
  CoreControl.press_w 0 3 true true 3 0
    {| CoreControl.show_mode := 0; CoreControl.force_refresh := false;
       CoreControl.vfilter_idx := 0 |}
  = CoreControl.toggle_audio_display 0 3 true true 3
      {| CoreControl.show_mode := 0;
         CoreControl.force_refresh :=
           CoreControl.force_refresh
             {| CoreControl.show_mode := 0;
                CoreControl.force_refresh := false;
                CoreControl.vfilter_idx := 0 |};
         CoreControl.vfilter_idx := 0 |}
  /\ PlayerControl.ToggleWaveDisplay 0 3 true true 3 0
       {| PlayerControl.show_mode := 0; PlayerControl.force_refresh := false;
          PlayerControl.vfilter_idx := 0 |}
     = Some {| PlayerControl.show_mode := 0;
               PlayerControl.force_refresh :=
                 PlayerControl.force_refresh
                   {| PlayerControl.show_mode := 0;
                      PlayerControl.force_refresh := false;
                      PlayerControl.vfilter_idx := 0 |};
               PlayerControl.vfilter_idx := 0 |}.
Proof.
  apply (wave_display_without_filters 0 3 true true 3
           {| CoreControl.show_mode := 0; CoreControl.force_refresh := false;
              CoreControl.vfilter_idx := 0 |}
           {| PlayerControl.show_mode := 0;
              PlayerControl.force_refresh := false;
              PlayerControl.vfilter_idx := 0 |}).
  - reflexivity.
  - reflexivity.
  - discriminate.
  - split; [discriminate | reflexivity].
Defined.

(** ** The end of the input *)

Lemma loop_at_ends_one n : loop_at_ends n 1 = (O, 1).
Proof.
  induction n as [| n IH]; [reflexivity|].
  change (loop_at_ends (S n) 1)
    with (let (k, loop) := loop_at_ends n 1 in (k, loop)).
  rewrite IH. reflexivity.
Qed.

Lemma loop_at_ends_zero n : loop_at_ends n 0 = (n, 0).
Proof.
  induction n as [| n IH]; [reflexivity|].
  change (loop_at_ends (S n) 0)
    with (let (k, loop) := loop_at_ends n 0 in (S k, loop)).
  rewrite IH. reflexivity.
Qed.

(** X8.  What [opt->loop] means at the end of the input: with [0] the
    input is played again at every end, for ever; with [n >= 1] it is
    played again [n - 1] times, so [n] times in all, and [opt->loop] is
    then [1] for good. *)
Theorem loop_option_plays_n_times :
  forall (loop : Z) (ends : nat),
    1 <= loop <= Int.INT_MAX ->
    (Z.to_nat loop - 1 <= ends)%nat ->
    loop_at_ends ends loop = ((Z.to_nat loop - 1)%nat, 1)
    /\ loop_at_ends ends 0 = (ends, 0).
Proof.
  intros loop ends Hl He. split; [| apply loop_at_ends_zero].
  revert loop Hl He. induction ends as [| ends IH]; intros loop Hl He.
  - assert (loop = 1) by lia. subst loop. reflexivity.
  - destruct (Z.eq_dec loop 1) as [-> | Hne]; [apply loop_at_ends_one|].
    cbn [loop_at_ends]. unfold CoreControl.loop_at_end.
    apply Z.eqb_neq in Hne. rewrite Hne. cbn [negb].
    destruct (Z.eqb_spec loop 0); [lia|].
    unfold Int.add.
    rewrite wrap_in_range by (unfold Int.INT_MIN, Int.INT_MAX in *; lia).
    destruct (Z.eqb_spec (loop + -1) 0); [lia|]. cbn [negb].
    rewrite IH by (unfold Int.INT_MAX in *; lia).
    f_equal. lia.
Qed.

Lemma loop_option_plays_n_times_witness :
  loop_at_ends 5 3 = ((Z.to_nat 3 - 1)%nat, 1)
  /\ loop_at_ends 5 0 = (5%nat, 0).
Proof.
  apply (loop_option_plays_n_times 3 5).
  - split; discriminate.
  - vm_compute. repeat constructor.
Defined.

(** ** The seek window *)

(** X9.  The window that [read_thread] hands to [avformat_seek_file]
    contains the seek target, except when the seek is relative by exactly
    one unit in either direction: then the target lies just outside the
    window. *)
Theorem seek_window_contains_target :
  forall (s : CoreControl.Seek),
    - 2 ^ 61 < CoreControl.seek_pos s < 2 ^ 61 ->
    - 2 ^ 61 < CoreControl.seek_rel s < 2 ^ 61 ->
    let '(seek_min, seek_target, seek_max) := CoreControl.seek_window s in
    seek_target = CoreControl.seek_pos s
    /\ ((seek_min <= seek_target <= seek_max)
        <-> (CoreControl.seek_rel s <> 1 /\ CoreControl.seek_rel s <> -1)).
Proof.
  intros s Hp Hr. unfold CoreControl.seek_window.
  assert (Hw : forall z, - 2 ^ 63 <= z < 2 ^ 63 -> Int64.wrap z = z).
  { intros z Hz. unfold Int64.wrap. rewrite Z.mod_small; lia. }
  rewrite (Hw (CoreControl.seek_pos s - CoreControl.seek_rel s)) by lia.
  rewrite (Hw (CoreControl.seek_pos s - CoreControl.seek_rel s + 2)) by lia.
  rewrite (Hw (CoreControl.seek_pos s - CoreControl.seek_rel s - 2)) by lia.
  split; [reflexivity|].
  unfold Int64.INT64_MIN, Int64.INT64_MAX.
  rewrite Z.gtb_ltb.
  destruct (Z.ltb_spec 0 (CoreControl.seek_rel s));
    destruct (Z.ltb_spec (CoreControl.seek_rel s) 0); lia.
Qed.

Lemma seek_window_contains_target_witness :
  let '(seek_min, seek_target, seek_max) :=
    CoreControl.seek_window
      {| CoreControl.seek_req := true; CoreControl.seek_pos := 5000000;
         CoreControl.seek_rel := 1; CoreControl.seek_flags := 0 |} in
  seek_target
  = CoreControl.seek_pos
      {| CoreControl.seek_req := true; CoreControl.seek_pos := 5000000;
         CoreControl.seek_rel := 1; CoreControl.seek_flags := 0 |}
  /\ ((seek_min <= seek_target <= seek_max)
      <-> (CoreControl.seek_rel
             {| CoreControl.seek_req := true; CoreControl.seek_pos := 5000000;
                CoreControl.seek_rel := 1; CoreControl.seek_flags := 0 |}
           <> 1
           /\ CoreControl.seek_rel
                {| CoreControl.seek_req := true;
                   CoreControl.seek_pos := 5000000;
                   CoreControl.seek_rel := 1; CoreControl.seek_flags := 0 |}
              <> -1)).
Proof.
  apply (seek_window_contains_target
           {| CoreControl.seek_req := true; CoreControl.seek_pos := 5000000;
              CoreControl.seek_rel := 1; CoreControl.seek_flags := 0 |});
    split; reflexivity.
Defined.

(** ** Comparisons of [double] *)

Lemma dbl_gt_irrefl (x : Dbl.double) : (x >? x)%dbl = false.
Proof.
  unfold Dbl.gt, SFltb, SFcompare.
  destruct x as [s | s | | s m e]; try destruct s; try reflexivity.
  - rewrite Z.compare_refl, Pos.compare_cont_refl. reflexivity.
  - rewrite Z.compare_refl, Pos.compare_cont_refl. reflexivity.
Qed.

Lemma FFMIN_left_not_above (x y : Dbl.double) :
  (Dbl.FFMIN x y >? y)%dbl = false.
Proof.
  unfold Dbl.FFMIN. destruct (x >? y)%dbl eqn:H; [apply dbl_gt_irrefl | exact H].
Qed.

Lemma dbl_lt_trans (x y z : Dbl.double) :
  (x <? y)%dbl = true -> (y <? z)%dbl = true -> (x <? z)%dbl = true.
Proof.
  unfold Dbl.lt, SFltb, SFcompare.
  destruct x as [sx | sx | | sx mx ex], y as [sy | sy | | sy my ey],
    z as [sz | sz | | sz mz ez];
    try destruct sx; try destruct sy; try destruct sz;
    try discriminate; try reflexivity; intros Hxy Hyz.
  - (* negative, negative, negative *)
    destruct (Z.compare_spec ex ey) as [He | He | He]; try discriminate;
      destruct (Z.compare_spec ey ez) as [He' | He' | He']; try discriminate;
      destruct (Z.compare_spec ex ez) as [He'' | He'' | He'']; try lia;
      try reflexivity.
    rewrite Pos.compare_cont_spec in *. unfold Pos.switch_Eq in *.
    destruct (Pos.compare_spec mx my); try discriminate;
      destruct (Pos.compare_spec my mz); try discriminate;
      destruct (Pos.compare_spec mx mz); try lia; reflexivity.
  - (* positive, positive, positive *)
    destruct (Z.compare_spec ex ey) as [He | He | He]; try discriminate;
      destruct (Z.compare_spec ey ez) as [He' | He' | He']; try discriminate;
      destruct (Z.compare_spec ex ez) as [He'' | He'' | He'']; try lia;
      try reflexivity.
    rewrite Pos.compare_cont_spec in *. unfold Pos.switch_Eq in *.
    destruct (Pos.compare_spec mx my); try discriminate;
      destruct (Pos.compare_spec my mz); try discriminate;
      destruct (Pos.compare_spec mx mz); try lia; reflexivity.
Qed.

Lemma dbl_lt_asym (x y : Dbl.double) :
  (x <? y)%dbl = true -> (y <? x)%dbl = false.
Proof.
  intros Hxy. destruct (y <? x)%dbl eqn:Hyx; [| reflexivity].
  pose proof (dbl_lt_trans _ _ _ Hxy Hyx) as H.
  pose proof (dbl_gt_irrefl x) as H'. unfold Dbl.gt in H'.
  unfold Dbl.lt in H. congruence.
Qed.

Lemma FFMIN_right_not_above (x y : Dbl.double) :
  (Dbl.FFMIN x y >? x)%dbl = false.
Proof.
  unfold Dbl.FFMIN. destruct (x >? y)%dbl eqn:H; [| apply dbl_gt_irrefl].
  unfold Dbl.gt in *. apply dbl_lt_asym. exact H.
Qed.

(** Two waits in a row, each a minimum with the one before. *)
Lemma wait_not_above_twice (a y c : Dbl.double) :
  (c >? Dbl.FFMIN a y)%dbl = false -> (c >? a)%dbl = false.
Proof.
  unfold Dbl.FFMIN. destruct (a >? y)%dbl eqn:Hay; [| auto].
  intros Hcy. destruct (c >? a)%dbl eqn:Hca; [| reflexivity].
  unfold Dbl.gt in *.
  pose proof (dbl_lt_trans _ _ _ Hay Hca) as H. unfold Dbl.lt in H.
  congruence.
Qed.

(** ** The refresh step, case by case *)

Section PlayerRefreshCases.

Import Player.

Variable VpDuration : VideoFrame -> VideoFrame -> Dbl.double -> Dbl.double.
Variable env : Env.
Variable c : Config.

(** What a turn of the loop of [VideoRefresh] can do, told by the fields
    of the state: stop on an empty queue; consume a stale head and go on;
    stop because the player is paused, or because the head is not due
    yet; drop a late head and go on; or consume the head to show it. *)
Lemma retry_cases fuel r r' :
  retry VpDuration env c (S fuel) r = Some r' ->
  match FrameQueue.pending (video_frame_queue r) with
  | [] => r' = r
  | vp :: rest =>
      if serial vp =? video_queue_serial c then
        (* the player is paused; or the head is not due yet *)
        (video_frame_queue r' = video_frame_queue r
         /\ trace r' = trace r
         /\ force_refresh r' = force_refresh r
         /\ paused r' = paused r
         /\ frame_drops_late r' = frame_drops_late r
         /\ (paused r = true /\ remaining_time r' = remaining_time r
             \/ paused r = false
                /\ exists x,
                    remaining_time r'
                    = Dbl.FFMIN x (remaining_time r)))
        (* the head is late and dropped *)
        \/ (paused r = false /\ step c = false
            /\ exists r5,
                video_frame_queue r5 = MoveToNext (video_frame_queue r)
                /\ force_refresh r5 = force_refresh r
                /\ paused r5 = false
                /\ frame_drops_late r5 = N.succ (frame_drops_late r)
                /\ remaining_time r5 = remaining_time r
                /\ (exists evs, trace r5 = evs ++ trace r)
                /\ retry VpDuration env c fuel r5 = Some r')
        (* the head is consumed, to be shown *)
        \/ (paused r = false
            /\ video_frame_queue r' = MoveToNext (video_frame_queue r)
            /\ force_refresh r' = true
            /\ paused r' = step c
            /\ frame_drops_late r' = frame_drops_late r
            /\ remaining_time r' = remaining_time r
            /\ exists evs, trace r' = evs ++ trace r)
      else
        retry VpDuration env c fuel
          (set_queue (MoveToNext (video_frame_queue r)) r) = Some r'
  end.
Proof.
  intros Hr. cbn [retry] in Hr.
  destruct (FrameQueue.pending (video_frame_queue r)) as [| vp rest] eqn:Hq.
  { unfold IsEmpty, FrameQueue.is_empty in Hr. rewrite Hq in Hr.
    cbv iota in Hr. injection Hr as <-. reflexivity. }
  unfold IsEmpty, FrameQueue.is_empty in Hr. rewrite Hq in Hr.
  cbv iota in Hr.
  assert (Hpeek : Peek (video_frame_queue r) = Some vp)
    by (unfold Peek, FrameQueue.peek; rewrite Hq; reflexivity).
  rewrite Hpeek in Hr.
  assert (Hlast : exists lastvp, PeekLast (video_frame_queue r) = Some lastvp).
  { unfold PeekLast, FrameQueue.peek_last. rewrite Hq.
    destruct (FrameQueue.last_shown (video_frame_queue r));
      eexists; reflexivity. }
  destruct Hlast as [lastvp Hlast]. rewrite Hlast in Hr.
  destruct (serial vp =? video_queue_serial c) eqn:Hser; cbn [negb] in Hr;
    [| exact Hr].
  set (r1 := if negb (serial lastvp =? serial vp)
             then let (time, r0) := time_now env r in set_frame_timer time r0
             else r) in Hr.
  assert (H1 : video_frame_queue r1 = video_frame_queue r
               /\ trace r1 = trace r /\ force_refresh r1 = force_refresh r
               /\ paused r1 = paused r
               /\ frame_drops_late r1 = frame_drops_late r
               /\ remaining_time r1 = remaining_time r).
  { subst r1. destruct (negb (serial lastvp =? serial vp)); cbn; auto 10. }
  destruct H1 as (Hq1 & Ht1 & Hf1 & Hp1 & Hd1 & Hrt1). clearbody r1.
  destruct (paused r1) eqn:Hp.
  { injection Hr as <-. left. repeat split; auto; congruence. }
  cbn [time_now] in Hr.
  match type of Hr with
  | (if ?b then _ else _) = _ => destruct b
  end.
  { injection Hr as <-. left. cbn. repeat split; auto; try congruence.
    right. split; [congruence|]. rewrite <- Hrt1. eexists. reflexivity. }
  (* the frame is due *)
  match type of Hr with
  | context [set_frame_timer ?t (next_reading (next_reading r1))] =>
      set (r2 := set_frame_timer t (next_reading (next_reading r1))) in Hr
  end.
  match type of Hr with
  | context [if ?b then set_frame_timer ?t r2 else r2] =>
      set (r3 := if b then set_frame_timer t r2 else r2) in Hr
  end.
  assert (H3 : video_frame_queue r3 = video_frame_queue r
               /\ trace r3 = trace r /\ force_refresh r3 = force_refresh r
               /\ paused r3 = false
               /\ frame_drops_late r3 = frame_drops_late r
               /\ remaining_time r3 = remaining_time r).
  { subst r3 r2.
    match goal with |- context [if ?b then _ else _] => destruct b end;
      cbn; auto 10. }
  destruct H3 as (Hq3 & Ht3 & Hf3 & Hp3 & Hd3 & Hrt3). clearbody r3. clear r2.
  set (r4 := if negb (Dbl.isnan (pts vp))
             then emit (EvSetClock (pts vp) (serial vp)) r3 else r3) in Hr.
  assert (H4 : video_frame_queue r4 = video_frame_queue r
               /\ force_refresh r4 = force_refresh r
               /\ paused r4 = false
               /\ frame_drops_late r4 = frame_drops_late r
               /\ remaining_time r4 = remaining_time r
               /\ exists evs, trace r4 = evs ++ trace r).
  { subst r4. destruct (negb (Dbl.isnan (pts vp))); cbn.
    - repeat split; auto. exists [EvSetClock (pts vp) (serial vp)].
      rewrite Ht3. reflexivity.
    - repeat split; auto. exists []. rewrite Ht3. reflexivity. }
  destruct H4 as (Hq4 & Hf4 & Hp4 & Hd4 & Hrt4 & evs4 & Ht4). clearbody r4.
  rewrite <- Hp1.
  match type of Hr with
  | (if ?b then _ else _) = _ => destruct b eqn:Hlate
  end.
  - (* late *)
    right. left. split; [reflexivity|]. split.
    { destruct (PeekNextOrNull (video_frame_queue r)); [| discriminate].
      apply andb_prop in Hlate. destruct Hlate as [Hlate _].
      apply andb_prop in Hlate. destruct Hlate as [Hlate _].
      apply negb_true_iff in Hlate. exact Hlate. }
    eexists.
    split; [| split; [| split; [| split; [| split; [| split;
      [| exact Hr]]]]]]; cbn; auto;
      [rewrite Hd4; reflexivity | eauto].
  - (* shown *)
    right. right. split; [reflexivity|].
    injection Hr as <-.
    cbn [paused set_force_refresh set_queue]. rewrite Hp4. cbn [negb].
    rewrite andb_true_r.
    destruct (step c).
    + rewrite StreamTogglePause_running by (cbn; exact Hp4).
      cbn. repeat split; auto.
      exists (EvSetPaused false true :: EvSetPaused true true :: evs4).
      rewrite Ht4. reflexivity.
    + cbn. repeat split; auto. eauto.
Qed.

Lemma MoveToNext_pending (q : FrameQueue) :
  FrameQueue.pending (MoveToNext q) = tl (FrameQueue.pending q).
Proof.
  unfold MoveToNext, FrameQueue.move_to_next.
  destruct (FrameQueue.pending q) eqn:Hq; [rewrite Hq|]; reflexivity.
Qed.

(** While the player is paused the loop only takes stale frames away. *)
Lemma retry_paused fuel :
  forall r r',
    paused r = true ->
    retry VpDuration env c fuel r = Some r' ->
    FrameQueue.pending (video_frame_queue r')
    = player_drop_stale (video_queue_serial c)
        (FrameQueue.pending (video_frame_queue r))
    /\ trace r' = trace r /\ paused r' = true
    /\ force_refresh r' = force_refresh r
    /\ frame_drops_late r' = frame_drops_late r
    /\ remaining_time r' = remaining_time r.
Proof.
  induction fuel as [| fuel IH]; intros r r' Hp Hr; [discriminate|].
  apply retry_cases in Hr.
  destruct (FrameQueue.pending (video_frame_queue r)) as [| vp rest] eqn:Hq.
  { subst r'. rewrite Hq. auto 10. }
  cbn [player_drop_stale].
  destruct (serial vp =? video_queue_serial c).
  - destruct Hr as [(Hq' & Ht & Hf & Hp' & Hd & Hrt) | [H | H]];
      [| destruct H as [H _]; congruence | destruct H as [H _]; congruence].
    rewrite Hq', Hq. repeat split; auto; try congruence.
    destruct Hrt as [[_ H] | [H _]]; congruence.
  - apply IH in Hr; [| exact Hp].
    cbn in Hr. rewrite MoveToNext_pending, Hq in Hr. exact Hr.
Qed.

(** In step mode the loop drops no late frame: it stops before the first
    frame of the current serial, or consumes it and pauses. *)
Lemma retry_step fuel :
  forall r r',
    step c = true -> paused r = false ->
    retry VpDuration env c fuel r = Some r' ->
    frame_drops_late r' = frame_drops_late r
    /\ (paused r' = true /\ force_refresh r' = true
        /\ (exists vp,
              player_drop_stale (video_queue_serial c)
                (FrameQueue.pending (video_frame_queue r))
              = vp :: FrameQueue.pending (video_frame_queue r'))
        \/ paused r' = false /\ force_refresh r' = force_refresh r
           /\ trace r' = trace r
           /\ FrameQueue.pending (video_frame_queue r')
              = player_drop_stale (video_queue_serial c)
                  (FrameQueue.pending (video_frame_queue r))).
Proof.
  induction fuel as [| fuel IH]; intros r r' Hs Hp Hr; [discriminate|].
  apply retry_cases in Hr.
  destruct (FrameQueue.pending (video_frame_queue r)) as [| vp rest] eqn:Hq.
  { subst r'. rewrite Hq. auto 10. }
  cbn [player_drop_stale].
  destruct (serial vp =? video_queue_serial c).
  - destruct Hr as [(Hq' & Ht & Hf & Hp' & Hd & Hrt) | [H | H]].
    + split; [exact Hd|]. right. rewrite Hq', Hq. repeat split; congruence.
    + destruct H as (_ & H & _). congruence.
    + destruct H as (_ & Hq' & Hf & Hp' & Hd & _).
      split; [exact Hd|]. left. repeat split; try congruence.
      exists vp. rewrite Hq', MoveToNext_pending, Hq. reflexivity.
  - apply IH in Hr; [| exact Hs | exact Hp].
    cbn in Hr. rewrite MoveToNext_pending, Hq in Hr. exact Hr.
Qed.

(** The loop only consumes frames, from the head, and counts as dropped
    late only frames of the current serial that it consumed. *)
Lemma retry_consumes fuel :
  forall r r',
    retry VpDuration env c fuel r = Some r' ->
    exists consumed,
      FrameQueue.pending (video_frame_queue r)
      = consumed ++ FrameQueue.pending (video_frame_queue r')
      /\ (frame_drops_late r <= frame_drops_late r'
          <= frame_drops_late r
             + N.of_nat
                 (length
                    (filter
                       (fun vp => (serial vp =? video_queue_serial c)%Z)
                       consumed)))%N.
Proof.
  induction fuel as [| fuel IH]; intros r r' Hr; [discriminate|].
  apply retry_cases in Hr.
  destruct (FrameQueue.pending (video_frame_queue r)) as [| vp rest] eqn:Hq.
  { subst r'. rewrite Hq. exists []. cbn. split; [reflexivity | lia]. }
  destruct (serial vp =? video_queue_serial c) eqn:Hser.
  - destruct Hr as [(Hq' & Ht & Hf & Hp' & Hd & Hrt) | [H | H]].
    + exists []. rewrite Hq', Hq, Hd. cbn. split; [reflexivity | lia].
    + destruct H as (_ & _ & r5 & Hq5 & _ & _ & Hd5 & _ & _ & Hr5).
      apply IH in Hr5. destruct Hr5 as (consumed & Hc & Hn).
      rewrite Hq5, MoveToNext_pending, Hq in Hc. cbn [tl] in Hc.
      exists (vp :: consumed). cbn [app filter]. rewrite Hser.
      cbn [length]. split; [congruence | lia].
    + destruct H as (_ & Hq' & _ & _ & Hd & _).
      exists [vp]. rewrite Hq', MoveToNext_pending, Hq, Hd.
      cbn [tl app filter]. rewrite Hser. cbn. split; [reflexivity | lia].
  - apply IH in Hr. destruct Hr as (consumed & Hc & Hn).
    cbn in Hc, Hn. rewrite MoveToNext_pending, Hq in Hc. cbn [tl] in Hc.
    exists (vp :: consumed). cbn [app filter]. rewrite Hser.
    split; [congruence | lia].
Qed.

(** The loop never lengthens the wait asked of the caller. *)
Lemma retry_remaining_time fuel :
  forall r r',
    retry VpDuration env c fuel r = Some r' ->
    (remaining_time r' >? remaining_time r)%dbl = false.
Proof.
  induction fuel as [| fuel IH]; intros r r' Hr; [discriminate|].
  apply retry_cases in Hr.
  destruct (FrameQueue.pending (video_frame_queue r)) as [| vp rest] eqn:Hq.
  { subst r'. apply dbl_gt_irrefl. }
  destruct (serial vp =? video_queue_serial c) eqn:Hser.
  - destruct Hr as [(Hq' & Ht & Hf & Hp' & Hd & Hrt) | [H | H]].
    + destruct Hrt as [[_ ->] | [_ [x ->]]];
        [apply dbl_gt_irrefl | apply FFMIN_left_not_above].
    + destruct H as (_ & _ & r5 & _ & _ & _ & _ & Hrt5 & _ & Hr5).
      apply IH in Hr5. rewrite Hrt5 in Hr5. exact Hr5.
    + destruct H as (_ & _ & _ & _ & _ & -> & _). apply dbl_gt_irrefl.
  - apply IH in Hr. exact Hr.
Qed.

Lemma player_still_nil : player_still [].
Proof. intros e []. Qed.

Lemma player_still_app e1 e2 :
  player_still e1 -> player_still e2 -> player_still (e1 ++ e2).
Proof.
  intros H1 H2 e Hin. apply in_app_or in Hin.
  destruct Hin; [apply H1 | apply H2]; assumption.
Qed.

Lemma VideoDisplay_still r :
  video_frame_queue (VideoDisplay c r) = video_frame_queue r
  /\ paused (VideoDisplay c r) = paused r
  /\ frame_drops_late (VideoDisplay c r) = frame_drops_late r
  /\ remaining_time (VideoDisplay c r) = remaining_time r
  /\ force_refresh (VideoDisplay c r) = force_refresh r
  /\ last_vis_time (VideoDisplay c r) = last_vis_time r
  /\ exists evs, trace (VideoDisplay c r) = evs ++ trace r
                 /\ player_still evs.
Proof.
  unfold VideoDisplay, VideoImageDisplay.
  destruct (astream_opened c && negb (show_mode_eqb (show_mode c)
                                        SHOW_MODE_VIDEO)).
  { cbn. repeat split. exists [EvAudioDisplay]. split; [reflexivity|].
    intros e [<- | []]. exact I. }
  destruct (vstream_opened c);
    [| repeat split; exists []; split;
       [reflexivity | apply player_still_nil]].
  destruct (PeekLast (video_frame_queue r)) as [vp |];
    [| repeat split; exists []; split;
       [reflexivity | apply player_still_nil]].
  destruct (bmp vp);
    [| repeat split; exists []; split;
       [reflexivity | apply player_still_nil]].
  cbn. repeat split. exists [EvImageDisplay vp]. split; [reflexivity|].
  intros e [<- | []]. exact I.
Qed.

(** The whole step: what comes before the loop, the loop, and the
    display that follows it. *)
Lemma VideoRefresh_cases r :
  exists r1 r2 r',
    VideoRefresh VpDuration env c r = Some r'
    /\ (video_frame_queue r1 = video_frame_queue r
        /\ paused r1 = paused r
        /\ frame_drops_late r1 = frame_drops_late r
        /\ force_refresh r1 = force_refresh r
        /\ (remaining_time r1 = remaining_time r
            \/ exists y, remaining_time r1
                         = Dbl.FFMIN (remaining_time r) y)
        /\ exists evs, trace r1 = evs ++ trace r /\ player_still evs)
    /\ (if vstream_opened c
        then retry VpDuration env c
               (S (FrameQueue.remaining_count (video_frame_queue r1))) r1
             = Some r2
        else r2 = r1)
    /\ (video_frame_queue r' = video_frame_queue r2
        /\ paused r' = paused r2
        /\ frame_drops_late r' = frame_drops_late r2
        /\ remaining_time r' = remaining_time r2
        /\ force_refresh r' = false
        /\ exists evs, trace r' = evs ++ trace r2 /\ player_still evs).
Proof.
  unfold VideoRefresh.
  match goal with
  | |- context [retry _ _ _ _ ?x] => set (r1 := x)
  end.
  assert (H1 : video_frame_queue r1 = video_frame_queue r
               /\ paused r1 = paused r
               /\ frame_drops_late r1 = frame_drops_late r
               /\ force_refresh r1 = force_refresh r
               /\ (remaining_time r1 = remaining_time r
                   \/ exists y, remaining_time r1
                                = Dbl.FFMIN (remaining_time r) y)
               /\ exists evs, trace r1 = evs ++ trace r /\ player_still evs).
  { subst r1.
    destruct (negb (display_disable c)
              && negb (show_mode_eqb (show_mode c) SHOW_MODE_VIDEO)
              && astream_opened c);
      [| repeat split; auto; exists []; split;
         [reflexivity | apply player_still_nil]].
    cbn [time_now].
    destruct (VideoDisplay_still (next_reading r))
      as (Dq & Dp & Dd & Drt & Df & Dl & evs & Dt & Ds).
    match goal with |- context [if ?b then _ else _] => destruct b end.
    - cbn. rewrite Dq, Dp, Dd, Drt, Df, Dt. cbn.
      repeat split; auto. right. eexists. reflexivity. eauto.
    - cbn. repeat split; auto. right. eexists. reflexivity.
      exists []. split; [reflexivity | apply player_still_nil]. }
  clearbody r1.
  assert (Hepi : forall r2,
             let r' := set_force_refresh false
                         (if negb (display_disable c) && force_refresh r2
                             && show_mode_eqb (show_mode c) SHOW_MODE_VIDEO
                             && RindexShown (video_frame_queue r2)
                          then VideoDisplay c r2 else r2) in
             video_frame_queue r' = video_frame_queue r2
             /\ paused r' = paused r2
             /\ frame_drops_late r' = frame_drops_late r2
             /\ remaining_time r' = remaining_time r2
             /\ force_refresh r' = false
             /\ exists evs, trace r' = evs ++ trace r2 /\ player_still evs).
  { intros r2.
    destruct (VideoDisplay_still r2)
      as (Dq & Dp & Dd & Drt & Df & Dl & evs & Dt & Ds).
    match goal with |- context [if ?b then _ else _] => destruct b end.
    - cbn. rewrite Dq, Dp, Dd, Drt, Dt. repeat split; auto. eauto.
    - cbn. repeat split; auto. exists []. split;
        [reflexivity | apply player_still_nil]. }
  destruct (vstream_opened c) eqn:Hv.
  - destruct (retry_terminates VpDuration env c
                (S (FrameQueue.remaining_count (video_frame_queue r1))) r1)
      as [r2 Hr2]; [apply PeanoNat.Nat.lt_succ_diag_r|].
    rewrite Hr2.
    eexists r1, r2, _. split; [reflexivity|].
    split; [exact H1|]. split; [exact Hr2|]. apply Hepi.
  - eexists r1, r1, _. split; [reflexivity|].
    split; [exact H1|]. split; [reflexivity|].
    destruct H1 as (Hq1 & Hp1 & Hd1 & Hf1 & Hrt1 & evs1 & Ht1 & Hs1).
    cbn. repeat split; auto. exists []. split;
      [reflexivity | apply player_still_nil].
Qed.

End PlayerRefreshCases.

Lemma player_drop_stale_split qs l :
  exists stale,
    l = stale ++ player_drop_stale qs l
    /\ forall vp, In vp stale -> Player.serial vp <> qs.
Proof.
  induction l as [| vp l IH]; [exists []; split; [reflexivity | intros ? []]|].
  cbn [player_drop_stale].
  destruct (Z.eqb_spec (Player.serial vp) qs) as [Heq | Hne].
  - exists []. split; [reflexivity | intros ? []].
  - destruct IH as (stale & Hl & Hs). exists (vp :: stale). split.
    + cbn [app]. congruence.
    + intros vp' [<- | Hin]; auto.
Qed.

(** X10.  A paused player shows no new picture.  Unless a refresh is
    forced, [TryRefreshVideo] does nothing at all; when one is forced, the
    step returns, the player is still paused, the frames it took from the
    queue are leading frames of another serial than the queue's (all of
    them, when there is a video stream), no frame is counted as dropped,
    and it sets no clock and pauses no stream. *)
Theorem player_paused_refresh_freezes :
  forall (VpDuration :
            Player.VideoFrame -> Player.VideoFrame -> Dbl.double -> Dbl.double)
         (env : Player.Env) (c : Player.Config) (r : Player.Refresh),
    Player.paused r = true ->
    exists r',
      PlayerStep.TryRefreshVideo VpDuration env c r = Some r'
      /\ (Player.force_refresh r = false -> r' = r)
      /\ Player.paused r' = true
      /\ Player.frame_drops_late r' = Player.frame_drops_late r
      /\ (exists evs,
            Player.trace r' = evs ++ Player.trace r /\ player_still evs)
      /\ (exists stale,
            FrameQueue.pending (Player.video_frame_queue r)
            = stale ++ FrameQueue.pending (Player.video_frame_queue r')
            /\ forall vp, In vp stale ->
                 Player.serial vp <> Player.video_queue_serial c)
      /\ (Player.force_refresh r = true ->
          Player.show_mode c <> Player.SHOW_MODE_NONE ->
          Player.vstream_opened c = true ->
          FrameQueue.pending (Player.video_frame_queue r')
          = player_drop_stale (Player.video_queue_serial c)
              (FrameQueue.pending (Player.video_frame_queue r))).
Proof.
  intros VpDuration env c r Hp.
  unfold PlayerStep.TryRefreshVideo. rewrite Hp. cbn [negb orb].
  assert (Hidle :
            Player.force_refresh r = false
            \/ Player.show_mode c = Player.SHOW_MODE_NONE ->
            exists r',
              Some r = Some r'
              /\ (Player.force_refresh r = false -> r' = r)
              /\ Player.paused r' = true
              /\ Player.frame_drops_late r' = Player.frame_drops_late r
              /\ (exists evs,
                    Player.trace r' = evs ++ Player.trace r
                    /\ player_still evs)
              /\ (exists stale,
                    FrameQueue.pending (Player.video_frame_queue r)
                    = stale
                      ++ FrameQueue.pending (Player.video_frame_queue r')
                    /\ forall vp, In vp stale ->
                         Player.serial vp <> Player.video_queue_serial c)
              /\ (Player.force_refresh r = true ->
                  Player.show_mode c <> Player.SHOW_MODE_NONE ->
                  Player.vstream_opened c = true ->
                  FrameQueue.pending (Player.video_frame_queue r')
                  = player_drop_stale (Player.video_queue_serial c)
                      (FrameQueue.pending (Player.video_frame_queue r)))).
  { intros Hwhy. exists r.
    split; [reflexivity|]. split; [reflexivity|]. split; [exact Hp|].
    split; [reflexivity|].
    split; [exists []; split; [reflexivity | apply player_still_nil]|].
    split; [exists []; split; [reflexivity | intros ? []]|].
    intros Hf Hm _. destruct Hwhy; congruence. }
  destruct (Player.show_mode_eqb (Player.show_mode c) Player.SHOW_MODE_NONE)
    eqn:Hmode; cbn [negb andb].
  { apply Hidle. right. destruct (Player.show_mode c); cbn in Hmode;
      congruence. }
  destruct (Player.force_refresh r) eqn:Hf; [| apply Hidle; left; reflexivity].
  clear Hidle.
  destruct (VideoRefresh_cases VpDuration env c r)
    as (r1 & r2 & r' & Hr & H1 & H2 & H3).
  destruct H1 as (Hq1 & Hp1 & Hd1 & Hf1 & Hrt1 & evs1 & Ht1 & Hs1).
  destruct H3 as (Hq3 & Hp3 & Hd3 & Hrt3 & Hf3 & evs3 & Ht3 & Hs3).
  assert (Hloop :
            Player.paused r2 = true
            /\ Player.frame_drops_late r2 = Player.frame_drops_late r1
            /\ Player.trace r2 = Player.trace r1
            /\ (exists stale,
                  FrameQueue.pending (Player.video_frame_queue r1)
                  = stale ++ FrameQueue.pending (Player.video_frame_queue r2)
                  /\ forall vp, In vp stale ->
                       Player.serial vp <> Player.video_queue_serial c)
            /\ (Player.vstream_opened c = true ->
                FrameQueue.pending (Player.video_frame_queue r2)
                = player_drop_stale (Player.video_queue_serial c)
                    (FrameQueue.pending (Player.video_frame_queue r1)))).
  { destruct (Player.vstream_opened c).
    - apply retry_paused in H2; [| congruence].
      destruct H2 as (Hq2 & Ht2 & Hp2 & Hf2 & Hd2 & Hrt2).
      split; [exact Hp2|]. split; [exact Hd2|]. split; [exact Ht2|].
      split; [| intros _; exact Hq2].
      rewrite Hq2. apply player_drop_stale_split.
    - subst r2.
      split; [congruence|]. split; [reflexivity|]. split; [reflexivity|].
      split; [| discriminate].
      exists []. split; [reflexivity | intros ? []]. }
  destruct Hloop as (Hp2 & Hd2 & Ht2 & Hst2 & Hq2).
  exists r'. split; [exact Hr|]. split; [discriminate|].
  split; [congruence|]. split; [congruence|]. split.
  { exists (evs3 ++ evs1). split.
    - rewrite Ht3, Ht2, Ht1, app_assoc. reflexivity.
    - apply player_still_app; assumption. }
  split.
  { rewrite Hq3, <- Hq1. exact Hst2. }
  intros _ _ Hv. rewrite Hq3, <- Hq1. apply Hq2, Hv.
Qed.

Lemma player_paused_refresh_freezes_witness :
  exists r',
    PlayerStep.TryRefreshVideo example_VpDuration player_clock_5s
      (player_video_shown false) (player_queue_after_seek true true)
    = Some r'
    /\ (Player.force_refresh (player_queue_after_seek true true) = false ->
        r' = player_queue_after_seek true true)
    /\ Player.paused r' = true
    /\ Player.frame_drops_late r'
       = Player.frame_drops_late (player_queue_after_seek true true)
    /\ (exists evs,
          Player.trace r'
          = evs ++ Player.trace (player_queue_after_seek true true)
          /\ player_still evs)
    /\ (exists stale,
          FrameQueue.pending
            (Player.video_frame_queue (player_queue_after_seek true true))
          = stale ++ FrameQueue.pending (Player.video_frame_queue r')
          /\ forall vp, In vp stale ->
               Player.serial vp
               <> Player.video_queue_serial (player_video_shown false))
    /\ (Player.force_refresh (player_queue_after_seek true true) = true ->
        Player.show_mode (player_video_shown false)
        <> Player.SHOW_MODE_NONE ->
        Player.vstream_opened (player_video_shown false) = true ->
        FrameQueue.pending (Player.video_frame_queue r')
        = player_drop_stale
            (Player.video_queue_serial (player_video_shown false))
            (FrameQueue.pending
               (Player.video_frame_queue
                  (player_queue_after_seek true true)))).
Proof.
  apply (player_paused_refresh_freezes example_VpDuration player_clock_5s
           (player_video_shown false) (player_queue_after_seek true true)).
  reflexivity.
Defined.

(** X11.  Stepping shows one frame.  [StepToNextFrame] leaves the player
    running with [step_] set, whether it was paused or not; the refresh
    step that follows returns, drops no late frame, and either finds no
    frame of the queue's serial due and changes nothing but stale frames,
    or consumes exactly the first frame of the queue's serial, asks for
    its display and pauses the player again. *)
Theorem player_step_shows_one_frame :
  forall (VpDuration :
            Player.VideoFrame -> Player.VideoFrame -> Dbl.double -> Dbl.double)
         (env : Player.Env) (c : Player.Config) (r : Player.Refresh),
    Player.vstream_opened c = true ->
    let (c1, r1) := PlayerStep.StepToNextFrame env c r in
    Player.step c1 = true
    /\ Player.paused r1 = false
    /\ Player.video_frame_queue r1 = Player.video_frame_queue r
    /\ exists r',
        Player.VideoRefresh VpDuration env c1 r1 = Some r'
        /\ Player.frame_drops_late r' = Player.frame_drops_late r
        /\ (Player.paused r' = true
            /\ (exists vp,
                  player_drop_stale (Player.video_queue_serial c)
                    (FrameQueue.pending (Player.video_frame_queue r))
                  = vp :: FrameQueue.pending (Player.video_frame_queue r'))
            \/ Player.paused r' = false
               /\ FrameQueue.pending (Player.video_frame_queue r')
                  = player_drop_stale (Player.video_queue_serial c)
                      (FrameQueue.pending (Player.video_frame_queue r))).
Proof.
  intros VpDuration env c r Hv.
  unfold PlayerStep.StepToNextFrame.
  set (r1 := if Player.paused r then Player.StreamTogglePause env c r else r).
  assert (H1 : Player.paused r1 = false
               /\ Player.video_frame_queue r1 = Player.video_frame_queue r
               /\ Player.frame_drops_late r1 = Player.frame_drops_late r).
  { subst r1. destruct (Player.paused r) eqn:Hp; [| auto].
    unfold Player.StreamTogglePause. rewrite Hp. cbn.
    destruct (negb (Player.read_pause_enosys c)); cbn; rewrite Hp; auto. }
  destruct H1 as (Hp1 & Hq1 & Hd1). clearbody r1.
  split; [reflexivity|]. split; [exact Hp1|]. split; [exact Hq1|].
  destruct (VideoRefresh_cases VpDuration env (PlayerStep.set_step true c) r1)
    as (r2 & r3 & r' & Hr & H2 & H3 & H4).
  destruct H2 as (Hq2 & Hp2 & Hd2 & Hf2 & Hrt2 & evs2 & Ht2 & Hs2).
  destruct H4 as (Hq4 & Hp4 & Hd4 & Hrt4 & Hf4 & evs4 & Ht4 & Hs4).
  cbn [Player.vstream_opened PlayerStep.set_step] in H3. rewrite Hv in H3.
  apply retry_step in H3; [| reflexivity | congruence].
  cbn [Player.video_queue_serial PlayerStep.set_step] in H3.
  destruct H3 as (Hd3 & Hcase).
  exists r'. split; [exact Hr|]. split; [congruence|].
  rewrite Hq4, Hp4, <- Hq1, <- Hq2.
  destruct Hcase as [(Hp3 & _ & Hvp) | (Hp3 & _ & _ & Hq3)]; auto.
Qed.

Lemma player_step_shows_one_frame_witness :
  let (c1, r1) :=
    PlayerStep.StepToNextFrame player_clock_5s (player_video_shown false)
      (player_queue_after_seek true false) in
  Player.step c1 = true
  /\ Player.paused r1 = false
  /\ Player.video_frame_queue r1
     = Player.video_frame_queue (player_queue_after_seek true false)
  /\ exists r',
      Player.VideoRefresh example_VpDuration player_clock_5s c1 r1 = Some r'
      /\ Player.frame_drops_late r'
         = Player.frame_drops_late (player_queue_after_seek true false)
      /\ (Player.paused r' = true
          /\ (exists vp,
                player_drop_stale
                  (Player.video_queue_serial (player_video_shown false))
                  (FrameQueue.pending
                     (Player.video_frame_queue
                        (player_queue_after_seek true false)))
                = vp :: FrameQueue.pending (Player.video_frame_queue r'))
          \/ Player.paused r' = false
             /\ FrameQueue.pending (Player.video_frame_queue r')
                = player_drop_stale
                    (Player.video_queue_serial (player_video_shown false))
                    (FrameQueue.pending
                       (Player.video_frame_queue
                          (player_queue_after_seek true false)))).
Proof.
  apply (player_step_shows_one_frame example_VpDuration player_clock_5s
           (player_video_shown false) (player_queue_after_seek true false)).
  reflexivity.
Defined.

(** X12.  [VideoRefresh] returns and only consumes frames, from the head
    of the queue: the frames left are a tail of the frames found, and at
    most as many frames are counted as dropped late as frames of the
    queue's serial were consumed. *)
Theorem player_refresh_consumes_head :
  forall (VpDuration :
            Player.VideoFrame -> Player.VideoFrame -> Dbl.double -> Dbl.double)
         (env : Player.Env) (c : Player.Config) (r : Player.Refresh),
    exists r' consumed,
      Player.VideoRefresh VpDuration env c r = Some r'
      /\ FrameQueue.pending (Player.video_frame_queue r)
         = consumed ++ FrameQueue.pending (Player.video_frame_queue r')
      /\ (Player.frame_drops_late r <= Player.frame_drops_late r'
          <= Player.frame_drops_late r
             + N.of_nat
                 (length
                    (filter
                       (fun vp =>
                          (Player.serial vp =? Player.video_queue_serial c)%Z)
                       consumed)))%N.
Proof.
  intros VpDuration env c r.
  destruct (VideoRefresh_cases VpDuration env c r)
    as (r1 & r2 & r' & Hr & H1 & H2 & H3).
  destruct H1 as (Hq1 & Hp1 & Hd1 & Hf1 & Hrt1 & evs1 & Ht1 & Hs1).
  destruct H3 as (Hq3 & Hp3 & Hd3 & Hrt3 & Hf3 & evs3 & Ht3 & Hs3).
  destruct (Player.vstream_opened c).
  - apply retry_consumes in H2. destruct H2 as (consumed & Hc & Hn).
    exists r', consumed. split; [exact Hr|].
    rewrite Hq3, Hd3, <- Hq1, <- Hd1. auto.
  - subst r2. exists r', []. split; [exact Hr|].
    rewrite Hq3, Hd3, Hq1, Hd1. cbn. split; [reflexivity | lia].
Qed.

(** X13.  [VideoRefresh] never lengthens the wait it is given: the
    [remaining_time] it leaves is not above the one it found. *)
Theorem player_refresh_never_lengthens_wait :
  forall (VpDuration :
            Player.VideoFrame -> Player.VideoFrame -> Dbl.double -> Dbl.double)
         (env : Player.Env) (c : Player.Config) (r : Player.Refresh),
    exists r',
      Player.VideoRefresh VpDuration env c r = Some r'
      /\ (Player.remaining_time r' >? Player.remaining_time r)%dbl = false.
Proof.
  intros VpDuration env c r.
  destruct (VideoRefresh_cases VpDuration env c r)
    as (r1 & r2 & r' & Hr & H1 & H2 & H3).
  destruct H1 as (Hq1 & Hp1 & Hd1 & Hf1 & Hrt1 & evs1 & Ht1 & Hs1).
  destruct H3 as (Hq3 & Hp3 & Hd3 & Hrt3 & Hf3 & evs3 & Ht3 & Hs3).
  exists r'. split; [exact Hr|]. rewrite Hrt3.
  assert (H12 : (Player.remaining_time r2 >? Player.remaining_time r1)%dbl
                = false).
  { destruct (Player.vstream_opened c).
    - eapply retry_remaining_time. exact H2.
    - subst r2. apply dbl_gt_irrefl. }
  destruct Hrt1 as [Heq | [y Hy]].
  - rewrite <- Heq. exact H12.
  - rewrite Hy in H12. eapply wait_not_above_twice. exact H12.
Qed.

Section CoreRefreshCases.

Import Core.

Variable env : Env.
Variable c : Config.

Lemma drop_subtitles_fields fuel :
  forall r r',
    drop_subtitles env c fuel r = Some r' ->
    video_frame_queue r' = video_frame_queue r
    /\ force_refresh r' = force_refresh r
    /\ paused r' = paused r
    /\ frame_drops_late r' = frame_drops_late r
    /\ remaining_time r' = remaining_time r
    /\ sync r' = sync r
    /\ exists evs, trace r' = evs ++ trace r.
Proof.
  induction fuel as [| fuel IH]; intros r r' Hr; [discriminate|].
  cbn [drop_subtitles] in Hr.
  destruct (FrameQueue.peek (subtitle_frame_queue r)) as [sp |].
  2: { injection Hr as <-. repeat split; auto. exists []. reflexivity. }
  match type of Hr with
  | (if ?b then _ else _) = _ => destruct b
  end.
  2: { injection Hr as <-. repeat split; auto. exists []. reflexivity. }
  apply IH in Hr. destruct Hr as (Hq & Hf & Hp & Hd & Hrt & Hs & evs & Ht).
  destruct (uploaded sp); cbn in Hq, Hf, Hp, Hd, Hrt, Hs, Ht.
  - repeat split; auto. exists (evs ++ [EvSubtitleClear sp]).
    rewrite Ht, <- app_assoc. reflexivity.
  - repeat split; auto. exists evs. exact Ht.
Qed.

(** What a turn of the loop of [video_refresh] can do, told by the fields
    of the state. *)
Lemma core_retry_cases fuel r r' :
  retry env c (S fuel) r = Some r' ->
  match FrameQueue.pending (video_frame_queue r) with
  | [] => r' = r
  | vp :: rest =>
      if serial vp =? video_queue_serial c then
        (* the player is paused; or the head is not due yet *)
        (video_frame_queue r' = video_frame_queue r
         /\ trace r' = trace r
         /\ force_refresh r' = force_refresh r
         /\ paused r' = paused r
         /\ frame_drops_late r' = frame_drops_late r
         /\ sync r' = sync r
         /\ (paused r = true /\ remaining_time r' = remaining_time r
             \/ paused r = false
                /\ exists x,
                    remaining_time r'
                    = Dbl.FFMIN x (remaining_time r)))
        (* the head is late and dropped *)
        \/ (paused r = false /\ step c = false
            /\ exists r5,
                video_frame_queue r5
                = FrameQueue.move_to_next (video_frame_queue r)
                /\ force_refresh r5 = force_refresh r
                /\ paused r5 = false
                /\ frame_drops_late r5 = Int.add (frame_drops_late r) 1
                /\ remaining_time r5 = remaining_time r
                /\ sync r5 = sync r
                /\ (exists evs, trace r5 = evs ++ trace r)
                /\ retry env c fuel r5 = Some r')
        (* the head is consumed, to be shown *)
        \/ (paused r = false
            /\ video_frame_queue r'
               = FrameQueue.move_to_next (video_frame_queue r)
            /\ force_refresh r' = true
            /\ paused r' = step c
            /\ frame_drops_late r' = frame_drops_late r
            /\ remaining_time r' = remaining_time r
            /\ sync r' = sync r
            /\ exists evs, trace r' = evs ++ trace r)
      else
        retry env c fuel
          (set_video_queue (FrameQueue.move_to_next (video_frame_queue r)) r)
        = Some r'
  end.
Proof.
  intros Hr. cbn [retry] in Hr.
  destruct (FrameQueue.pending (video_frame_queue r)) as [| vp rest] eqn:Hq.
  { assert (Hcount : (FrameQueue.remaining_count (video_frame_queue r)
                       =? 0)%nat = true)
      by (unfold FrameQueue.remaining_count; rewrite Hq; reflexivity).
    rewrite Hcount in Hr. injection Hr as <-. reflexivity. }
  assert (Hcount : (FrameQueue.remaining_count (video_frame_queue r)
                     =? 0)%nat = false)
    by (unfold FrameQueue.remaining_count; rewrite Hq; reflexivity).
  rewrite Hcount in Hr.
  assert (Hpeek : FrameQueue.peek (video_frame_queue r) = Some vp)
    by (unfold FrameQueue.peek; rewrite Hq; reflexivity).
  rewrite Hpeek in Hr.
  assert (Hlast : exists lastvp,
             FrameQueue.peek_last (video_frame_queue r) = Some lastvp).
  { unfold FrameQueue.peek_last. rewrite Hq.
    destruct (FrameQueue.last_shown (video_frame_queue r));
      eexists; reflexivity. }
  destruct Hlast as [lastvp Hlast]. rewrite Hlast in Hr.
  destruct (serial vp =? video_queue_serial c) eqn:Hser; cbn [negb] in Hr;
    [| exact Hr].
  set (r1 := if negb (serial lastvp =? serial vp)
             then let (time, r0) := time_now env r in set_frame_timer time r0
             else r) in Hr.
  assert (H1 : video_frame_queue r1 = video_frame_queue r
               /\ trace r1 = trace r /\ force_refresh r1 = force_refresh r
               /\ paused r1 = paused r
               /\ frame_drops_late r1 = frame_drops_late r
               /\ remaining_time r1 = remaining_time r
               /\ sync r1 = sync r
               /\ subtitle_frame_queue r1 = subtitle_frame_queue r).
  { subst r1. destruct (negb (serial lastvp =? serial vp)); cbn; auto 10. }
  destruct H1 as (Hq1 & Ht1 & Hf1 & Hp1 & Hd1 & Hrt1 & Hs1 & Hsq1).
  clearbody r1.
  destruct (paused r1) eqn:Hp.
  { injection Hr as <-. left. repeat split; auto; congruence. }
  cbn [time_now] in Hr.
  match type of Hr with
  | (if ?b then _ else _) = _ => destruct b
  end.
  { injection Hr as <-. left. cbn. repeat split; auto; try congruence.
    right. split; [congruence|]. rewrite <- Hrt1. eexists. reflexivity. }
  (* the frame is due *)
  match type of Hr with
  | context [set_frame_timer ?t (next_reading (next_reading r1))] =>
      set (r2 := set_frame_timer t (next_reading (next_reading r1))) in Hr
  end.
  match type of Hr with
  | context [if ?b then set_frame_timer ?t r2 else r2] =>
      set (r3 := if b then set_frame_timer t r2 else r2) in Hr
  end.
  assert (H3 : video_frame_queue r3 = video_frame_queue r
               /\ trace r3 = trace r /\ force_refresh r3 = force_refresh r
               /\ paused r3 = false
               /\ frame_drops_late r3 = frame_drops_late r
               /\ remaining_time r3 = remaining_time r
               /\ sync r3 = sync r).
  { subst r3 r2.
    match goal with |- context [if ?b then _ else _] => destruct b end;
      cbn; auto 10. }
  destruct H3 as (Hq3 & Ht3 & Hf3 & Hp3 & Hd3 & Hrt3 & Hs3).
  clearbody r3. clear r2.
  set (r4 := if negb (Dbl.isnan (pts vp))
             then update_video_pts (pts vp) (serial vp) r3 else r3) in Hr.
  assert (H4 : video_frame_queue r4 = video_frame_queue r
               /\ force_refresh r4 = force_refresh r
               /\ paused r4 = false
               /\ frame_drops_late r4 = frame_drops_late r
               /\ remaining_time r4 = remaining_time r
               /\ sync r4 = sync r
               /\ exists evs, trace r4 = evs ++ trace r).
  { subst r4. destruct (negb (Dbl.isnan (pts vp))); cbn.
    - repeat split; auto.
      exists [EvSyncClockWith; EvSetClock (pts vp) (serial vp)].
      rewrite Ht3. reflexivity.
    - repeat split; auto. exists []. rewrite Ht3. reflexivity. }
  destruct H4 as (Hq4 & Hf4 & Hp4 & Hd4 & Hrt4 & Hs4 & evs4 & Ht4).
  clearbody r4.
  rewrite <- Hp1.
  match type of Hr with
  | (if ?b then _ else _) = _ => destruct b eqn:Hlate
  end.
  - (* late *)
    right. left. split; [reflexivity|]. split.
    { destruct (1 <? FrameQueue.remaining_count (video_frame_queue r))%nat;
        [| discriminate Hlate].
      destruct (FrameQueue.peek_next (video_frame_queue r));
        [| discriminate Hlate].
      apply andb_prop in Hlate. destruct Hlate as [Hlate _].
      apply andb_prop in Hlate. destruct Hlate as [Hlate _].
      apply negb_true_iff in Hlate. exact Hlate. }
    eexists.
    split; [| split; [| split; [| split; [| split; [| split; [| split;
      [| exact Hr]]]]]]]; cbn; auto;
      [rewrite Hd4; reflexivity | eauto].
  - (* shown *)
    right. right. split; [reflexivity|].
    remember (if subtitle_st c
              then drop_subtitles env c
                     (S (FrameQueue.remaining_count
                           (subtitle_frame_queue r4))) r4
              else Some r4) as subs eqn:Hsub in Hr.
    destruct subs as [r5 |]; [| discriminate Hr].
    assert (H5 : video_frame_queue r5 = video_frame_queue r
                 /\ force_refresh r5 = force_refresh r
                 /\ paused r5 = false
                 /\ frame_drops_late r5 = frame_drops_late r
                 /\ remaining_time r5 = remaining_time r
                 /\ sync r5 = sync r
                 /\ exists evs, trace r5 = evs ++ trace r).
    { destruct (subtitle_st c).
      - symmetry in Hsub. apply drop_subtitles_fields in Hsub.
        destruct Hsub as (Hq5 & Hf5 & Hp5 & Hd5 & Hrt5 & Hs5 & evs5 & Ht5).
        repeat split; try congruence.
        exists (evs5 ++ evs4). rewrite Ht5, Ht4, app_assoc. reflexivity.
      - injection Hsub as ->. repeat split; auto. eauto. }
    destruct H5 as (Hq5 & Hf5 & Hp5 & Hd5 & Hrt5 & Hs5 & evs5 & Ht5).
    clear Hsub. injection Hr as <-.
    cbn [paused set_force_refresh set_video_queue]. rewrite Hp5. cbn [negb].
    rewrite andb_true_r.
    destruct (step c).
    + rewrite stream_toggle_pause_running by (cbn; exact Hp5).
      cbn. repeat split; auto.
      exists (EvSetPaused Subtitle true :: EvSetPaused Video true
              :: EvSetPaused Audio true :: EvSyncSerialClock Subtitle
              :: evs5).
      rewrite Ht5. reflexivity.
    + cbn. repeat split; auto. eauto.
Qed.

Lemma move_to_next_pending (q : FrameQueue.t Frame) :
  FrameQueue.pending (FrameQueue.move_to_next q) = tl (FrameQueue.pending q).
Proof.
  unfold FrameQueue.move_to_next.
  destruct (FrameQueue.pending q) eqn:Hq; [rewrite Hq|]; reflexivity.
Qed.

Lemma core_retry_paused fuel :
  forall r r',
    paused r = true ->
    retry env c fuel r = Some r' ->
    FrameQueue.pending (video_frame_queue r')
    = core_drop_stale (video_queue_serial c)
        (FrameQueue.pending (video_frame_queue r))
    /\ trace r' = trace r /\ paused r' = true
    /\ force_refresh r' = force_refresh r
    /\ frame_drops_late r' = frame_drops_late r
    /\ remaining_time r' = remaining_time r
    /\ sync r' = sync r.
Proof.
  induction fuel as [| fuel IH]; intros r r' Hp Hr; [discriminate|].
  apply core_retry_cases in Hr.
  destruct (FrameQueue.pending (video_frame_queue r)) as [| vp rest] eqn:Hq.
  { subst r'. rewrite Hq. auto 10. }
  cbn [core_drop_stale].
  destruct (serial vp =? video_queue_serial c).
  - destruct Hr as [(Hq' & Ht & Hf & Hp' & Hd & Hs & Hrt) | [H | H]];
      [| destruct H as [H _]; congruence | destruct H as [H _]; congruence].
    rewrite Hq', Hq. repeat split; auto; try congruence.
    destruct Hrt as [[_ H] | [H _]]; congruence.
  - apply IH in Hr; [| exact Hp].
    cbn in Hr. rewrite move_to_next_pending, Hq in Hr. exact Hr.
Qed.

Lemma core_retry_step fuel :
  forall r r',
    step c = true -> paused r = false ->
    retry env c fuel r = Some r' ->
    frame_drops_late r' = frame_drops_late r
    /\ (paused r' = true /\ force_refresh r' = true
        /\ (exists vp,
              core_drop_stale (video_queue_serial c)
                (FrameQueue.pending (video_frame_queue r))
              = vp :: FrameQueue.pending (video_frame_queue r'))
        \/ paused r' = false /\ force_refresh r' = force_refresh r
           /\ trace r' = trace r
           /\ FrameQueue.pending (video_frame_queue r')
              = core_drop_stale (video_queue_serial c)
                  (FrameQueue.pending (video_frame_queue r))).
Proof.
  induction fuel as [| fuel IH]; intros r r' Hs Hp Hr; [discriminate|].
  apply core_retry_cases in Hr.
  destruct (FrameQueue.pending (video_frame_queue r)) as [| vp rest] eqn:Hq.
  { subst r'. rewrite Hq. auto 10. }
  cbn [core_drop_stale].
  destruct (serial vp =? video_queue_serial c).
  - destruct Hr as [(Hq' & Ht & Hf & Hp' & Hd & Hsy & Hrt) | [H | H]].
    + split; [exact Hd|]. right. rewrite Hq', Hq. repeat split; congruence.
    + destruct H as (_ & H & _). congruence.
    + destruct H as (_ & Hq' & Hf & Hp' & Hd & _).
      split; [exact Hd|]. left. repeat split; try congruence.
      exists vp. rewrite Hq', move_to_next_pending, Hq. reflexivity.
  - apply IH in Hr; [| exact Hs | exact Hp].
    cbn in Hr. rewrite move_to_next_pending, Hq in Hr. exact Hr.
Qed.

Lemma core_retry_consumes fuel :
  forall r r',
    retry env c fuel r = Some r' ->
    exists consumed dropped,
      FrameQueue.pending (video_frame_queue r)
      = consumed ++ FrameQueue.pending (video_frame_queue r')
      /\ frame_drops_late r'
         = Nat.iter dropped (fun n => Int.add n 1) (frame_drops_late r)
      /\ (dropped
          <= length (filter
                       (fun vp => (serial vp =? video_queue_serial c)%Z)
                       consumed))%nat.
Proof.
  induction fuel as [| fuel IH]; intros r r' Hr; [discriminate|].
  apply core_retry_cases in Hr.
  destruct (FrameQueue.pending (video_frame_queue r)) as [| vp rest] eqn:Hq.
  { subst r'. rewrite Hq. exists [], O. cbn. auto. }
  destruct (serial vp =? video_queue_serial c) eqn:Hser.
  - destruct Hr as [(Hq' & Ht & Hf & Hp' & Hd & Hrt) | [H | H]].
    + exists [], O. rewrite Hq', Hq, Hd. cbn. auto.
    + destruct H as (_ & _ & r5 & Hq5 & _ & _ & Hd5 & _ & _ & _ & Hr5).
      apply IH in Hr5. destruct Hr5 as (consumed & dropped & Hc & Hn & Hle).
      rewrite Hq5, move_to_next_pending, Hq in Hc. cbn [tl] in Hc.
      exists (vp :: consumed), (S dropped). cbn [app filter]. rewrite Hser.
      cbn [length]. split; [congruence|]. split; [| lia].
      rewrite Hn, Hd5. rewrite Nat.iter_succ_r. reflexivity.
    + destruct H as (_ & Hq' & _ & _ & Hd & _).
      exists [vp], O. rewrite Hq', move_to_next_pending, Hq, Hd.
      cbn [tl app filter]. rewrite Hser. cbn. auto.
  - apply IH in Hr. destruct Hr as (consumed & dropped & Hc & Hn & Hle).
    cbn in Hc, Hn. rewrite move_to_next_pending, Hq in Hc. cbn [tl] in Hc.
    exists (vp :: consumed), dropped. cbn [app filter]. rewrite Hser.
    split; [congruence | auto].
Qed.

Lemma core_retry_remaining_time fuel :
  forall r r',
    retry env c fuel r = Some r' ->
    (remaining_time r' >? remaining_time r)%dbl = false.
Proof.
  induction fuel as [| fuel IH]; intros r r' Hr; [discriminate|].
  apply core_retry_cases in Hr.
  destruct (FrameQueue.pending (video_frame_queue r)) as [| vp rest] eqn:Hq.
  { subst r'. apply dbl_gt_irrefl. }
  destruct (serial vp =? video_queue_serial c) eqn:Hser.
  - destruct Hr as [(Hq' & Ht & Hf & Hp' & Hd & Hs & Hrt) | [H | H]].
    + destruct Hrt as [[_ ->] | [_ [x ->]]];
        [apply dbl_gt_irrefl | apply FFMIN_left_not_above].
    + destruct H as (_ & _ & r5 & _ & _ & _ & _ & Hrt5 & _ & _ & Hr5).
      apply IH in Hr5. rewrite Hrt5 in Hr5. exact Hr5.
    + destruct H as (_ & _ & _ & _ & _ & -> & _). apply dbl_gt_irrefl.
  - apply IH in Hr. exact Hr.
Qed.

Lemma core_still_nil : core_still [].
Proof. intros e []. Qed.

Lemma core_still_app e1 e2 :
  core_still e1 -> core_still e2 -> core_still (e1 ++ e2).
Proof.
  intros H1 H2 e Hin. apply in_app_or in Hin.
  destruct Hin; [apply H1 | apply H2]; assumption.
Qed.

Lemma video_display_still r :
  video_frame_queue (video_display c r) = video_frame_queue r
  /\ paused (video_display c r) = paused r
  /\ frame_drops_late (video_display c r) = frame_drops_late r
  /\ remaining_time (video_display c r) = remaining_time r
  /\ force_refresh (video_display c r) = force_refresh r
  /\ sync (video_display c r) = sync r
  /\ exists evs, trace (video_display c r) = evs ++ trace r
                 /\ core_still evs.
Proof.
  unfold video_display, video_image_display.
  destruct (audio_st (sync r) && negb (show_mode_eqb (show_mode c)
                                         SHOW_MODE_VIDEO)).
  { cbn. repeat split. exists [EvAudioDisplay]. split; [reflexivity|].
    intros e [<- | []]. exact I. }
  destruct (video_st (sync r));
    [| repeat split; exists []; split;
       [reflexivity | apply core_still_nil]].
  destruct (FrameQueue.peek_last (video_frame_queue r)) as [vp |];
    [| repeat split; exists []; split;
       [reflexivity | apply core_still_nil]].
  destruct (bmp vp);
    [| repeat split; exists []; split;
       [reflexivity | apply core_still_nil]].
  cbn. repeat split. exists [EvImageDisplay vp]. split; [reflexivity|].
  intros e [<- | []]. exact I.
Qed.

Lemma check_external_clock_speed_streams s :
  video_st (check_external_clock_speed s) = video_st s
  /\ audio_st (check_external_clock_speed s) = audio_st s.
Proof.
  unfold check_external_clock_speed.
  repeat match goal with
         | |- context [if ?b then _ else _] => destruct b
         end; split; reflexivity.
Qed.

(** The whole step: what comes before the loop, the loop, and the
    display that follows it. *)
Lemma video_refresh_cases r :
  exists r1 r2 r',
    video_refresh env c r = Some r'
    /\ (video_frame_queue r1 = video_frame_queue r
        /\ paused r1 = paused r
        /\ frame_drops_late r1 = frame_drops_late r
        /\ force_refresh r1 = force_refresh r
        /\ video_st (sync r1) = video_st (sync r)
        /\ (remaining_time r1 = remaining_time r
            \/ exists y, remaining_time r1
                         = Dbl.FFMIN (remaining_time r) y)
        /\ exists evs, trace r1 = evs ++ trace r /\ core_still evs)
    /\ (if video_st (sync r)
        then retry env c
               (S (FrameQueue.remaining_count (video_frame_queue r1))) r1
             = Some r2
        else r2 = r1)
    /\ (video_frame_queue r' = video_frame_queue r2
        /\ paused r' = paused r2
        /\ frame_drops_late r' = frame_drops_late r2
        /\ remaining_time r' = remaining_time r2
        /\ force_refresh r' = false
        /\ exists evs, trace r' = evs ++ trace r2 /\ core_still evs).
Proof.
  unfold video_refresh.
  match goal with
  | |- context [retry _ _ _ ?x] => set (r1 := x)
  end.
  assert (H1 : video_frame_queue r1 = video_frame_queue r
               /\ paused r1 = paused r
               /\ frame_drops_late r1 = frame_drops_late r
               /\ force_refresh r1 = force_refresh r
               /\ video_st (sync r1) = video_st (sync r)
               /\ (remaining_time r1 = remaining_time r
                   \/ exists y, remaining_time r1
                                = Dbl.FFMIN (remaining_time r) y)
               /\ exists evs, trace r1 = evs ++ trace r /\ core_still evs).
  { subst r1.
    match goal with
    | |- context [if ?b then set_sync ?s r else r] =>
        set (r0 := if b then set_sync s r else r)
    end.
    assert (H0 : video_frame_queue r0 = video_frame_queue r
                 /\ paused r0 = paused r
                 /\ frame_drops_late r0 = frame_drops_late r
                 /\ force_refresh r0 = force_refresh r
                 /\ video_st (sync r0) = video_st (sync r)
                 /\ remaining_time r0 = remaining_time r
                 /\ trace r0 = trace r).
    { subst r0.
      match goal with |- context [if ?b then _ else _] => destruct b end;
        cbn; repeat split; auto.
      apply check_external_clock_speed_streams. }
    destruct H0 as (Hq0 & Hp0 & Hd0 & Hf0 & Hv0 & Hrt0 & Ht0). clearbody r0.
    destruct (negb (display_disable c)
              && negb (show_mode_eqb (show_mode c) SHOW_MODE_VIDEO)
              && audio_st (sync r0));
      [| repeat split; auto; exists []; split;
         [exact Ht0 | apply core_still_nil]].
    cbn [time_now].
    destruct (video_display_still (next_reading r0))
      as (Dq & Dp & Dd & Drt & Df & Dsy & evs & Dt & Ds).
    match goal with |- context [if ?b then _ else _] => destruct b end.
    - cbn. rewrite Dq, Dp, Dd, Drt, Df, Dsy, Dt. cbn.
      repeat split; auto. right. rewrite Hrt0. eexists. reflexivity.
      rewrite Ht0. eauto.
    - cbn. repeat split; auto. right. rewrite Hrt0. eexists. reflexivity.
      exists []. split; [exact Ht0 | apply core_still_nil]. }
  clearbody r1.
  assert (Hepi : forall r2,
             let r' := set_force_refresh false
                         (if negb (display_disable c) && force_refresh r2
                             && show_mode_eqb (show_mode c) SHOW_MODE_VIDEO
                             && FrameQueue.rindex_shown (video_frame_queue r2)
                          then video_display c r2 else r2) in
             video_frame_queue r' = video_frame_queue r2
             /\ paused r' = paused r2
             /\ frame_drops_late r' = frame_drops_late r2
             /\ remaining_time r' = remaining_time r2
             /\ force_refresh r' = false
             /\ exists evs, trace r' = evs ++ trace r2 /\ core_still evs).
  { intros r2.
    destruct (video_display_still r2)
      as (Dq & Dp & Dd & Drt & Df & Dsy & evs & Dt & Ds).
    match goal with |- context [if ?b then _ else _] => destruct b end.
    - cbn. rewrite Dq, Dp, Dd, Drt, Dt. repeat split; auto. eauto.
    - cbn. repeat split; auto. exists []. split;
        [reflexivity | apply core_still_nil]. }
  destruct H1 as (Hq1 & Hp1 & Hd1 & Hf1 & Hv1 & Hrt1 & evs1 & Ht1 & Hs1).
  rewrite Hv1.
  destruct (video_st (sync r)) eqn:Hv.
  - destruct (core_retry_terminates env c
                (S (FrameQueue.remaining_count (video_frame_queue r1))) r1)
      as [r2 Hr2]; [apply PeanoNat.Nat.lt_succ_diag_r|].
    rewrite Hr2.
    eexists r1, r2, _. split; [reflexivity|].
    split; [repeat split; eauto|]. split; [exact Hr2|]. apply Hepi.
  - eexists r1, r1, _. split; [reflexivity|].
    split; [repeat split; eauto|]. split; [reflexivity|].
    cbn. repeat split; auto. exists []. split;
      [reflexivity | apply core_still_nil].
Qed.

End CoreRefreshCases.

Lemma core_drop_stale_split qs l :
  exists stale,
    l = stale ++ core_drop_stale qs l
    /\ forall vp, In vp stale -> Core.serial vp <> qs.
Proof.
  induction l as [| vp l IH]; [exists []; split; [reflexivity | intros ? []]|].
  cbn [core_drop_stale].
  destruct (Z.eqb_spec (Core.serial vp) qs) as [Heq | Hne].
  - exists []. split; [reflexivity | intros ? []].
  - destruct IH as (stale & Hl & Hs). exists (vp :: stale). split.
    + cbn [app]. congruence.
    + intros vp' [<- | Hin]; auto.
Qed.

(** X14.  A paused player shows no new picture, in
    [src/core/video_state.cpp] too.  Unless a refresh is forced, a turn of
    the refresh loop only resets [remaining_time]; when one is forced,
    [video_refresh] returns, the player is still paused, the frames it
    took from the queue are leading frames of another serial than the
    queue's (all of them, when there is a video stream), no frame is
    counted as dropped, and it sets no clock, pauses no stream and clears
    no subtitle. *)
Theorem core_paused_refresh_freezes :
  forall (env : Core.Env) (c : Core.Config) (r : Core.Refresh),
    Core.paused r = true ->
    exists r',
      CoreStep.refresh_turn env c r = Some r'
      /\ (Core.force_refresh r = false ->
          r' = Core.set_remaining_time CoreStep.REFRESH_RATE r)
      /\ Core.paused r' = true
      /\ Core.frame_drops_late r' = Core.frame_drops_late r
      /\ (exists evs,
            Core.trace r' = evs ++ Core.trace r /\ core_still evs)
      /\ (exists stale,
            FrameQueue.pending (Core.video_frame_queue r)
            = stale ++ FrameQueue.pending (Core.video_frame_queue r')
            /\ forall vp, In vp stale ->
                 Core.serial vp <> Core.video_queue_serial c)
      /\ (Core.force_refresh r = true ->
          Core.show_mode c <> Core.SHOW_MODE_NONE ->
          Core.video_st (Core.sync r) = true ->
          FrameQueue.pending (Core.video_frame_queue r')
          = core_drop_stale (Core.video_queue_serial c)
              (FrameQueue.pending (Core.video_frame_queue r))).
Proof.
  intros env c r Hp.
  unfold CoreStep.refresh_turn.
  set (r0 := Core.set_remaining_time CoreStep.REFRESH_RATE r).
  assert (H0 : Core.paused r0 = true
               /\ Core.force_refresh r0 = Core.force_refresh r
               /\ Core.frame_drops_late r0 = Core.frame_drops_late r
               /\ Core.trace r0 = Core.trace r
               /\ Core.video_frame_queue r0 = Core.video_frame_queue r
               /\ Core.sync r0 = Core.sync r)
    by (subst r0; cbn; auto 10).
  destruct H0 as (Hp0 & Hf0 & Hd0 & Ht0 & Hq0 & Hs0).
  rewrite Hp0, Hf0. cbn [negb orb].
  assert (Hidle :
            Core.force_refresh r = false
            \/ Core.show_mode c = Core.SHOW_MODE_NONE ->
            exists r',
              Some r0 = Some r'
              /\ (Core.force_refresh r = false -> r' = r0)
              /\ Core.paused r' = true
              /\ Core.frame_drops_late r' = Core.frame_drops_late r
              /\ (exists evs,
                    Core.trace r' = evs ++ Core.trace r /\ core_still evs)
              /\ (exists stale,
                    FrameQueue.pending (Core.video_frame_queue r)
                    = stale ++ FrameQueue.pending (Core.video_frame_queue r')
                    /\ forall vp, In vp stale ->
                         Core.serial vp <> Core.video_queue_serial c)
              /\ (Core.force_refresh r = true ->
                  Core.show_mode c <> Core.SHOW_MODE_NONE ->
                  Core.video_st (Core.sync r) = true ->
                  FrameQueue.pending (Core.video_frame_queue r')
                  = core_drop_stale (Core.video_queue_serial c)
                      (FrameQueue.pending (Core.video_frame_queue r)))).
  { intros Hwhy. exists r0.
    split; [reflexivity|]. split; [reflexivity|]. split; [exact Hp0|].
    split; [exact Hd0|].
    split; [exists []; split; [exact Ht0 | apply core_still_nil]|].
    split; [exists []; split; [rewrite Hq0; reflexivity | intros ? []]|].
    intros Hf Hm _. destruct Hwhy; congruence. }
  destruct (Core.show_mode_eqb (Core.show_mode c) Core.SHOW_MODE_NONE)
    eqn:Hmode; cbn [negb andb].
  { apply Hidle. right. destruct (Core.show_mode c); cbn in Hmode;
      congruence. }
  destruct (Core.force_refresh r) eqn:Hf; [| apply Hidle; left; reflexivity].
  clear Hidle.
  destruct (video_refresh_cases env c r0)
    as (r1 & r2 & r' & Hr & H1 & H2 & H3).
  destruct H1 as (Hq1 & Hp1 & Hd1 & Hf1 & Hv1 & Hrt1 & evs1 & Ht1 & Hs1).
  destruct H3 as (Hq3 & Hp3 & Hd3 & Hrt3 & Hf3 & evs3 & Ht3 & Hs3).
  rewrite Hs0 in H2.
  assert (Hloop :
            Core.paused r2 = true
            /\ Core.frame_drops_late r2 = Core.frame_drops_late r1
            /\ Core.trace r2 = Core.trace r1
            /\ (exists stale,
                  FrameQueue.pending (Core.video_frame_queue r1)
                  = stale ++ FrameQueue.pending (Core.video_frame_queue r2)
                  /\ forall vp, In vp stale ->
                       Core.serial vp <> Core.video_queue_serial c)
            /\ (Core.video_st (Core.sync r) = true ->
                FrameQueue.pending (Core.video_frame_queue r2)
                = core_drop_stale (Core.video_queue_serial c)
                    (FrameQueue.pending (Core.video_frame_queue r1)))).
  { destruct (Core.video_st (Core.sync r)).
    - apply core_retry_paused in H2; [| congruence].
      destruct H2 as (Hq2 & Ht2 & Hp2 & Hf2 & Hd2 & Hrt2 & Hsy2).
      split; [exact Hp2|]. split; [exact Hd2|]. split; [exact Ht2|].
      split; [| intros _; exact Hq2].
      rewrite Hq2. apply core_drop_stale_split.
    - subst r2.
      split; [congruence|]. split; [reflexivity|]. split; [reflexivity|].
      split; [| discriminate].
      exists []. split; [reflexivity | intros ? []]. }
  destruct Hloop as (Hp2 & Hd2 & Ht2 & Hst2 & Hq2).
  exists r'. split; [exact Hr|]. split; [discriminate|].
  split; [congruence|]. split; [congruence|]. split.
  { exists (evs3 ++ evs1). split.
    - rewrite Ht3, Ht2, Ht1, Ht0, app_assoc. reflexivity.
    - apply core_still_app; assumption. }
  split.
  { rewrite Hq3, <- Hq0, <- Hq1. exact Hst2. }
  intros _ _ Hv. rewrite Hq3, <- Hq0, <- Hq1. apply Hq2, Hv.
Qed.

Lemma core_paused_refresh_freezes_witness :
  exists r',
    CoreStep.refresh_turn core_clock_5s (core_video_shown false)
      (core_queue_after_seek true true) = Some r'
    /\ (Core.force_refresh (core_queue_after_seek true true) = false ->
        r' = Core.set_remaining_time CoreStep.REFRESH_RATE
               (core_queue_after_seek true true))
    /\ Core.paused r' = true
    /\ Core.frame_drops_late r'
       = Core.frame_drops_late (core_queue_after_seek true true)
    /\ (exists evs,
          Core.trace r' = evs ++ Core.trace (core_queue_after_seek true true)
          /\ core_still evs)
    /\ (exists stale,
          FrameQueue.pending
            (Core.video_frame_queue (core_queue_after_seek true true))
          = stale ++ FrameQueue.pending (Core.video_frame_queue r')
          /\ forall vp, In vp stale ->
               Core.serial vp
               <> Core.video_queue_serial (core_video_shown false))
    /\ (Core.force_refresh (core_queue_after_seek true true) = true ->
        Core.show_mode (core_video_shown false) <> Core.SHOW_MODE_NONE ->
        Core.video_st (Core.sync (core_queue_after_seek true true)) = true ->
        FrameQueue.pending (Core.video_frame_queue r')
        = core_drop_stale (Core.video_queue_serial (core_video_shown false))
            (FrameQueue.pending
               (Core.video_frame_queue (core_queue_after_seek true true)))).
Proof.
  apply (core_paused_refresh_freezes core_clock_5s (core_video_shown false)
           (core_queue_after_seek true true)).
  reflexivity.
Defined.

(** X15.  Stepping shows one frame, in [src/core/video_state.cpp] too.
    [step_to_next_frame] leaves the player running with [step] set,
    whether it was paused or not; the [video_refresh] that follows
    returns, drops no late frame, and either finds no frame of the queue's
    serial due and changes nothing but stale frames, or consumes exactly
    the first frame of the queue's serial and pauses the player again. *)
Theorem core_step_shows_one_frame :
  forall (env : Core.Env) (c : Core.Config) (r : Core.Refresh),
    Core.video_st (Core.sync r) = true ->
    let (c1, r1) := CoreStep.step_to_next_frame env c r in
    Core.step c1 = true
    /\ Core.paused r1 = false
    /\ Core.video_frame_queue r1 = Core.video_frame_queue r
    /\ exists r',
        Core.video_refresh env c1 r1 = Some r'
        /\ Core.frame_drops_late r' = Core.frame_drops_late r
        /\ (Core.paused r' = true
            /\ (exists vp,
                  core_drop_stale (Core.video_queue_serial c)
                    (FrameQueue.pending (Core.video_frame_queue r))
                  = vp :: FrameQueue.pending (Core.video_frame_queue r'))
            \/ Core.paused r' = false
               /\ FrameQueue.pending (Core.video_frame_queue r')
                  = core_drop_stale (Core.video_queue_serial c)
                      (FrameQueue.pending (Core.video_frame_queue r))).
Proof.
  intros env c r Hv.
  unfold CoreStep.step_to_next_frame.
  set (r1 := if Core.paused r then Core.stream_toggle_pause env c r else r).
  assert (H1 : Core.paused r1 = false
               /\ Core.video_frame_queue r1 = Core.video_frame_queue r
               /\ Core.frame_drops_late r1 = Core.frame_drops_late r
               /\ Core.sync r1 = Core.sync r).
  { subst r1. destruct (Core.paused r) eqn:Hp; [| auto].
    unfold Core.stream_toggle_pause. rewrite Hp. cbn.
    destruct (negb (Core.read_pause_enosys c)); cbn; rewrite Hp; auto. }
  destruct H1 as (Hp1 & Hq1 & Hd1 & Hs1). clearbody r1.
  split; [reflexivity|]. split; [exact Hp1|]. split; [exact Hq1|].
  destruct (video_refresh_cases env (CoreStep.set_step true c) r1)
    as (r2 & r3 & r' & Hr & H2 & H3 & H4).
  destruct H2 as (Hq2 & Hp2 & Hd2 & Hf2 & Hv2 & Hrt2 & evs2 & Ht2 & Hs2).
  destruct H4 as (Hq4 & Hp4 & Hd4 & Hrt4 & Hf4 & evs4 & Ht4 & Hs4).
  rewrite Hs1, Hv in H3.
  apply core_retry_step in H3; [| reflexivity | congruence].
  cbn [Core.video_queue_serial CoreStep.set_step] in H3.
  destruct H3 as (Hd3 & Hcase).
  exists r'. split; [exact Hr|]. split; [congruence|].
  rewrite Hq4, Hp4, <- Hq1, <- Hq2.
  destruct Hcase as [(Hp3 & _ & Hvp) | (Hp3 & _ & _ & Hq3)]; auto.
Qed.

Lemma core_step_shows_one_frame_witness :
  let (c1, r1) :=
    CoreStep.step_to_next_frame core_clock_5s (core_video_shown false)
      (core_queue_after_seek true false) in
  Core.step c1 = true
  /\ Core.paused r1 = false
  /\ Core.video_frame_queue r1
     = Core.video_frame_queue (core_queue_after_seek true false)
  /\ exists r',
      Core.video_refresh core_clock_5s c1 r1 = Some r'
      /\ Core.frame_drops_late r'
         = Core.frame_drops_late (core_queue_after_seek true false)
      /\ (Core.paused r' = true
          /\ (exists vp,
                core_drop_stale
                  (Core.video_queue_serial (core_video_shown false))
                  (FrameQueue.pending
                     (Core.video_frame_queue
                        (core_queue_after_seek true false)))
                = vp :: FrameQueue.pending (Core.video_frame_queue r'))
          \/ Core.paused r' = false
             /\ FrameQueue.pending (Core.video_frame_queue r')
                = core_drop_stale
                    (Core.video_queue_serial (core_video_shown false))
                    (FrameQueue.pending
                       (Core.video_frame_queue
                          (core_queue_after_seek true false)))).
Proof.
  apply (core_step_shows_one_frame core_clock_5s (core_video_shown false)
           (core_queue_after_seek true false)).
  reflexivity.
Defined.

(** X16.  [video_refresh] returns and only consumes frames, from the head
    of the queue: the frames left are a tail of the frames found, and
    [frame_drops_late] is incremented at most once for each frame of the
    queue's serial that was consumed. *)
Theorem core_refresh_consumes_head :
  forall (env : Core.Env) (c : Core.Config) (r : Core.Refresh),
    exists r' consumed dropped,
      Core.video_refresh env c r = Some r'
      /\ FrameQueue.pending (Core.video_frame_queue r)
         = consumed ++ FrameQueue.pending (Core.video_frame_queue r')
      /\ Core.frame_drops_late r'
         = Nat.iter dropped (fun n => Int.add n 1) (Core.frame_drops_late r)
      /\ (dropped
          <= length
               (filter
                  (fun vp => (Core.serial vp =? Core.video_queue_serial c)%Z)
                  consumed))%nat.
Proof.
  intros env c r.
  destruct (video_refresh_cases env c r)
    as (r1 & r2 & r' & Hr & H1 & H2 & H3).
  destruct H1 as (Hq1 & Hp1 & Hd1 & Hf1 & Hv1 & Hrt1 & evs1 & Ht1 & Hs1).
  destruct H3 as (Hq3 & Hp3 & Hd3 & Hrt3 & Hf3 & evs3 & Ht3 & Hs3).
  destruct (Core.video_st (Core.sync r)).
  - apply core_retry_consumes in H2.
    destruct H2 as (consumed & dropped & Hc & Hn & Hle).
    exists r', consumed, dropped. split; [exact Hr|].
    rewrite Hq3, Hd3, <- Hq1, <- Hd1. auto.
  - subst r2. exists r', [], O. split; [exact Hr|].
    rewrite Hq3, Hd3, Hq1, Hd1. cbn. auto.
Qed.

(** X17.  [video_refresh] never lengthens the wait it is given: the
    [remaining_time] it leaves is not above the one it found. *)
Theorem core_refresh_never_lengthens_wait :
  forall (env : Core.Env) (c : Core.Config) (r : Core.Refresh),
    exists r',
      Core.video_refresh env c r = Some r'
      /\ (Core.remaining_time r' >? Core.remaining_time r)%dbl = false.
Proof.
  intros env c r.
  destruct (video_refresh_cases env c r)
    as (r1 & r2 & r' & Hr & H1 & H2 & H3).
  destruct H1 as (Hq1 & Hp1 & Hd1 & Hf1 & Hv1 & Hrt1 & evs1 & Ht1 & Hs1).
  destruct H3 as (Hq3 & Hp3 & Hd3 & Hrt3 & Hf3 & evs3 & Ht3 & Hs3).
  exists r'. split; [exact Hr|]. rewrite Hrt3.
  assert (H12 : (Core.remaining_time r2 >? Core.remaining_time r1)%dbl
                = false).
  { destruct (Core.video_st (Core.sync r)).
    - eapply core_retry_remaining_time. exact H2.
    - subst r2. apply dbl_gt_irrefl. }
  destruct Hrt1 as [Heq | [y Hy]].
  - rewrite <- Heq. exact H12.
  - rewrite Hy in H12. eapply wait_not_above_twice. exact H12.
Qed.

(** ** The sample array *)

Section SampleRing.

Import SampleDisplay.

Variable SIZE : Z.
Hypothesis SIZE_range : 0 < SIZE < 2 ^ 30.

Lemma ring_push_app st a b :
  ring_push SIZE st (a ++ b) = ring_push SIZE (ring_push SIZE st a) b.
Proof.
  revert st. induction a as [| x a IH]; intros st; [reflexivity|].
  cbn [app ring_push]. apply IH.
Qed.

(** A chunk that does not pass the end of the array is written in one
    piece. *)
Lemma ring_push_chunk chunk :
  forall arr idx,
    Z.of_nat (length arr) = SIZE -> 0 <= idx < SIZE ->
    idx + Z.of_nat (length chunk) <= SIZE ->
    ring_push SIZE {| sample_array := arr; sample_array_index := idx |} chunk
    = {| sample_array :=
           firstn (Z.to_nat idx) arr ++ chunk
           ++ skipn (Z.to_nat (idx + Z.of_nat (length chunk))) arr;
         sample_array_index :=
           if idx + Z.of_nat (length chunk) >=? SIZE then 0
           else idx + Z.of_nat (length chunk) |}.
Proof.
  induction chunk as [| x chunk IH]; intros arr idx Hlen Hidx Hfit.
  - cbn [ring_push length app Z.of_nat]. rewrite Z.add_0_r.
    rewrite firstn_skipn. rewrite Z.geb_leb.
    destruct (Z.leb_spec SIZE idx); [lia | reflexivity].
  - cbn [ring_push sample_array sample_array_index].
    cbn [length] in Hfit. rewrite Nat2Z.inj_succ in Hfit.
    set (arr1 := firstn (Z.to_nat idx) arr ++ [x]
                 ++ skipn (S (Z.to_nat idx)) arr).
    assert (Hlen1 : Z.of_nat (length arr1) = SIZE).
    { subst arr1. rewrite !length_app, length_firstn, length_skipn.
      cbn [length]. lia. }
    assert (Hfirst : firstn (Z.to_nat (idx + 1)) arr1
                     = firstn (Z.to_nat idx) arr ++ [x]).
    { subst arr1. rewrite app_assoc.
      rewrite firstn_app.
      replace (Z.to_nat (idx + 1)
               - length (firstn (Z.to_nat idx) arr ++ [x]))%nat with O
        by (rewrite length_app, length_firstn; cbn [length]; lia).
      cbn [firstn]. rewrite app_nil_r.
      apply firstn_all2.
      rewrite length_app, length_firstn. cbn [length]. lia. }
    assert (Hskip : forall k, (Z.to_nat idx < k)%nat ->
                      skipn k arr1 = skipn k arr).
    { intros k Hk. subst arr1. rewrite app_assoc.
      rewrite skipn_app.
      rewrite (skipn_all2 (firstn (Z.to_nat idx) arr ++ [x]))
        by (rewrite length_app, length_firstn; cbn [length]; lia).
      cbn [app]. rewrite skipn_skipn.
      f_equal. rewrite length_app, length_firstn. cbn [length]. lia. }
    destruct chunk as [| y chunk].
    + cbn [ring_push length]. change (Z.of_nat 1) with 1.
      subst arr1. cbn [app].
      replace (Z.to_nat (idx + 1)) with (S (Z.to_nat idx)) by lia.
      reflexivity.
    + assert (Hidx1 : idx + 1 < SIZE).
      { cbn [length] in Hfit. lia. }
      rewrite Z.geb_leb. destruct (Z.leb_spec SIZE (idx + 1)); [lia|].
      rewrite IH by lia.
      rewrite Hfirst, Hskip by lia.
      rewrite <- app_assoc. cbn [app].
      cbn [length]. rewrite !Nat2Z.inj_succ.
      replace (idx + 1 + Z.succ (Z.of_nat (length chunk)))
        with (idx + Z.succ (Z.succ (Z.of_nat (length chunk)))) by lia.
      reflexivity.
Qed.

Lemma ring_push_ok st samples :
  ring_ok SIZE st -> ring_ok SIZE (ring_push SIZE st samples).
Proof.
  revert st. induction samples as [| x samples IH]; intros st Hok; [exact Hok|].
  cbn [ring_push]. apply IH. destruct Hok as [Hlen Hidx]. split.
  - cbn [sample_array]. rewrite !length_app, length_firstn, length_skipn.
    cbn [length]. lia.
  - cbn [sample_array_index]. rewrite Z.geb_leb.
    destruct (Z.leb_spec SIZE (sample_array_index st + 1)); lia.
Qed.

Lemma ring_push_index samples :
  forall st,
    ring_ok SIZE st ->
    sample_array_index (ring_push SIZE st samples)
    = (sample_array_index st + Z.of_nat (length samples)) mod SIZE.
Proof.
  induction samples as [| x samples IH]; intros st Hok.
  - cbn. rewrite Z.add_0_r. symmetry. apply Z.mod_small. apply Hok.
  - cbn [ring_push]. rewrite IH.
    2: { apply (ring_push_ok st [x]). exact Hok. }
    cbn [sample_array_index length]. rewrite Nat2Z.inj_succ.
    destruct Hok as [_ Hidx]. rewrite Z.geb_leb.
    destruct (Z.leb_spec SIZE (sample_array_index st + 1)).
    + assert (sample_array_index st + 1 = SIZE) by lia.
      replace (sample_array_index st + Z.succ (Z.of_nat (length samples)))
        with (Z.of_nat (length samples) + 1 * SIZE) by lia.
      rewrite Z.mod_add by lia. reflexivity.
    + f_equal. lia.
Qed.

Lemma copy_samples_ring fuel :
  forall st samples,
    ring_ok SIZE st -> (length samples < fuel)%nat ->
    Z.of_nat (length samples) < 2 ^ 30 ->
    copy_samples SIZE fuel st samples (Z.of_nat (length samples))
    = Some (ring_push SIZE st samples).
Proof.
  induction fuel as [| fuel IH]; intros st samples Hok Hfuel Hn; [lia|].
  cbn [copy_samples].
  rewrite Z.gtb_ltb.
  destruct (Z.ltb_spec 0 (Z.of_nat (length samples))) as [Hpos | Hzero].
  2: { destruct samples; [reflexivity | cbn [length] in Hzero; lia]. }
  destruct st as [arr idx]. destruct Hok as [Hlen Hidx].
  cbn [sample_array sample_array_index] in *.
  rewrite (wrap_in_range (SIZE - idx))
    by (unfold Int.INT_MIN, Int.INT_MAX; lia).
  set (len := if SIZE - idx >? Z.of_nat (length samples)
              then Z.of_nat (length samples) else SIZE - idx).
  assert (Hlen' : 0 < len /\ len <= SIZE - idx
                  /\ len <= Z.of_nat (length samples)).
  { subst len. rewrite Z.gtb_ltb.
    destruct (Z.ltb_spec (Z.of_nat (length samples)) (SIZE - idx)); lia. }
  clearbody len.
  unfold memcpy.
  destruct (Z.leb_spec 0 len); [| lia].
  destruct (Z.leb_spec 0 idx); [| lia].
  destruct (Z.leb_spec (idx + len) (Z.of_nat (length arr))); [| lia].
  destruct (Z.leb_spec len (Z.of_nat (length samples))); [| lia].
  cbn [andb].
  set (chunk := firstn (Z.to_nat len) samples).
  assert (Hchunk : Z.of_nat (length chunk) = len).
  { subst chunk. rewrite length_firstn. lia. }
  unfold Int.add.
  rewrite (wrap_in_range (idx + len))
    by (unfold Int.INT_MIN, Int.INT_MAX; lia).
  rewrite (wrap_in_range (Z.of_nat (length samples) - len))
    by (unfold Int.INT_MIN, Int.INT_MAX; lia).
  pose proof (ring_push_chunk chunk arr idx Hlen Hidx ltac:(lia)) as Hpush.
  rewrite Hchunk in Hpush. rewrite <- Hpush.
  replace (Z.of_nat (length samples) - len)
    with (Z.of_nat (length (skipn (Z.to_nat len) samples)))
    by (rewrite length_skipn; lia).
  rewrite IH.
  - rewrite <- ring_push_app. subst chunk. rewrite firstn_skipn. reflexivity.
  - apply ring_push_ok. split; assumption.
  - rewrite length_skipn. lia.
  - rewrite length_skipn. lia.
Qed.

End SampleRing.

(** X18.  [update_sample_display] and [UpdateSampleDisplay] keep a
    circular buffer: copying the samples in chunks with [memcpy] gives
    the array and the index that writing them one at a time, wrapping
    around at [SAMPLE_ARRAY_SIZE], would give.  The call returns, the
    array keeps its size, and the index ends at
    [(index + n) mod SAMPLE_ARRAY_SIZE] for [n] samples. *)
Theorem update_sample_display_ring :
  forall (SIZE : Z) (st : SampleDisplay.Samples) (samples : list Z)
         (samples_size : Z),
    0 < SIZE < 2 ^ 30 ->
    Z.of_nat (length (SampleDisplay.sample_array st)) = SIZE ->
    0 <= SampleDisplay.sample_array_index st < SIZE ->
    0 <= samples_size < 2 ^ 30 ->
    Z.of_nat (length samples) = samples_size / 2 ->
    let st' := ring_push SIZE st samples in
    SampleDisplay.update_sample_display SIZE (S (length samples)) st samples
      samples_size = Some st'
    /\ Z.of_nat (length (SampleDisplay.sample_array st')) = SIZE
    /\ SampleDisplay.sample_array_index st'
       = (SampleDisplay.sample_array_index st + Z.of_nat (length samples))
         mod SIZE.
Proof.
  intros SIZE st samples samples_size HS Hlen Hidx Hsz Hn st'.
  assert (Hok : ring_ok SIZE st) by (split; assumption).
  assert (Hq : 0 <= samples_size / 2 < 2 ^ 30).
  { split; [apply Z.div_pos; lia|].
    apply Z.div_lt_upper_bound; lia. }
  split; [| split].
  - unfold SampleDisplay.update_sample_display, SizeT.wrap.
    rewrite (Z.mod_small samples_size) by lia.
    rewrite wrap_in_range by (unfold Int.INT_MIN, Int.INT_MAX; lia).
    rewrite <- Hn. apply copy_samples_ring; try assumption; lia.
  - apply (ring_push_ok SIZE HS st samples Hok).
  - apply ring_push_index; assumption.
Qed.

Lemma update_sample_display_ring_witness :
  let st := {| SampleDisplay.sample_array := [0; 0; 0; 0];
               SampleDisplay.sample_array_index := 3 |} in
  let st' := ring_push 4 st [11; 12; 13; 14; 15; 16] in
  SampleDisplay.update_sample_display 4 (S (length [11; 12; 13; 14; 15; 16]))
    st [11; 12; 13; 14; 15; 16] 12 = Some st'
  /\ Z.of_nat (length (SampleDisplay.sample_array st')) = 4
  /\ SampleDisplay.sample_array_index st'
     = (SampleDisplay.sample_array_index st
        + Z.of_nat (length [11; 12; 13; 14; 15; 16])) mod 4.
Proof.
  apply (update_sample_display_ring 4
           {| SampleDisplay.sample_array := [0; 0; 0; 0];
              SampleDisplay.sample_array_index := 3 |}
           [11; 12; 13; 14; 15; 16] 12).
  - split; reflexivity.
  - reflexivity.
  - split; [discriminate | reflexivity].
  - split; [discriminate | reflexivity].
  - reflexivity.
Defined.

(** ** The first measures of the A-V filter *)

Lemma core_synchronize_audio_warming s nb :
  0 <= Core.audio_diff_avg_count s < AUDIO_DIFF_AVG_NB ->
  snd (Core.synchronize_audio s nb) = nb
  /\ 0 <= Core.audio_diff_avg_count (fst (Core.synchronize_audio s nb))
     <= Core.audio_diff_avg_count s + 1.
Proof.
  unfold AUDIO_DIFF_AVG_NB. intros Hc. unfold Core.synchronize_audio.
  destruct (negb (Core.sync_eqb (Core.get_master_sync_type s)
                    Core.AV_SYNC_AUDIO_MASTER)); [| cbn; lia].
  match goal with |- context [if ?b then _ else _] => destruct b end;
    [| cbn; lia].
  destruct (Z.ltb_spec (Core.audio_diff_avg_count s) AUDIO_DIFF_AVG_NB)
    as [_ | H]; [| unfold AUDIO_DIFF_AVG_NB in H; lia].
  cbn. unfold Int.add.
  rewrite wrap_in_range by (unfold Int.INT_MIN, Int.INT_MAX; lia). lia.
Qed.

Lemma player_synchronize_audio_warming s nb :
  0 <= Player.audio_diff_avg_count s < AUDIO_DIFF_AVG_NB ->
  snd (Player.SynchronizeAudio s nb) = nb
  /\ 0 <= Player.audio_diff_avg_count (fst (Player.SynchronizeAudio s nb))
     <= Player.audio_diff_avg_count s + 1.
Proof.
  unfold AUDIO_DIFF_AVG_NB. intros Hc. unfold Player.SynchronizeAudio.
  destruct (negb (Player.sync_eqb (Player.GetMasterSyncType s)
                    Player.AV_SYNC_AUDIO_MASTER)); [| cbn; lia].
  match goal with |- context [if ?b then _ else _] => destruct b end;
    [| cbn; lia].
  destruct (Z.ltb_spec (Player.audio_diff_avg_count s) AUDIO_DIFF_AVG_NB)
    as [_ | H]; [| unfold AUDIO_DIFF_AVG_NB in H; lia].
  cbn. unfold Int.add.
  rewrite wrap_in_range by (unfold Int.INT_MIN, Int.INT_MAX; lia). lia.
Qed.

Lemma core_audio_run_warming frames :
  forall s,
    0 <= Core.audio_diff_avg_count s ->
    Core.audio_diff_avg_count s + Z.of_nat (length frames)
    <= AUDIO_DIFF_AVG_NB ->
    (forall world nb, In (world, nb) frames -> core_keeps_count world) ->
    core_audio_run s frames = map snd frames.
Proof.
  induction frames as [| [world nb] frames IH]; intros s H0 Hn Hw;
    [reflexivity|].
  cbn [core_audio_run map snd]. cbn [length] in Hn.
  rewrite Nat2Z.inj_succ in Hn.
  assert (Hkeep : core_keeps_count world) by (eapply Hw; left; reflexivity).
  destruct (core_synchronize_audio_warming (world s) nb) as [Hout Hcount].
  { rewrite Hkeep. lia. }
  rewrite Hkeep in Hcount.
  destruct (Core.synchronize_audio (world s) nb) as [s' wanted].
  cbn [fst snd] in *. subst wanted. f_equal.
  apply IH; [lia | lia |].
  intros w n Hin. eapply Hw. right. exact Hin.
Qed.

Lemma player_audio_run_warming frames :
  forall s,
    0 <= Player.audio_diff_avg_count s ->
    Player.audio_diff_avg_count s + Z.of_nat (length frames)
    <= AUDIO_DIFF_AVG_NB ->
    (forall world nb, In (world, nb) frames -> player_keeps_count world) ->
    player_audio_run s frames = map snd frames.
Proof.
  induction frames as [| [world nb] frames IH]; intros s H0 Hn Hw;
    [reflexivity|].
  cbn [player_audio_run map snd]. cbn [length] in Hn.
  rewrite Nat2Z.inj_succ in Hn.
  assert (Hkeep : player_keeps_count world) by (eapply Hw; left; reflexivity).
  destruct (player_synchronize_audio_warming (world s) nb) as [Hout Hcount].
  { rewrite Hkeep. lia. }
  rewrite Hkeep in Hcount.
  destruct (Player.SynchronizeAudio (world s) nb) as [s' wanted].
  cbn [fst snd] in *. subst wanted. f_equal.
  apply IH; [lia | lia |].
  intros w n Hin. eapply Hw. right. exact Hin.
Qed.

(** X19.  After a reset of the A-V filter the next [AUDIO_DIFF_AVG_NB]
    audio frames pass uncorrected: whatever the clocks do in between,
    [synchronize_audio] and [SynchronizeAudio] return the sample count
    they were given for each of the first 20 frames that follow a state
    with no measure. *)
Theorem audio_filter_warm_up :
  forall (s : Core.VideoState) (p : Player.VideoState)
         (frames : list ((Core.VideoState -> Core.VideoState) * Z))
         (pframes : list ((Player.VideoState -> Player.VideoState) * Z)),
    Core.audio_diff_avg_count s = 0 ->
    Player.audio_diff_avg_count p = 0 ->
    (length frames <= 20)%nat -> (length pframes <= 20)%nat ->
    (forall world nb, In (world, nb) frames -> core_keeps_count world) ->
    (forall world nb, In (world, nb) pframes -> player_keeps_count world) ->
    core_audio_run s frames = map snd frames
    /\ player_audio_run p pframes = map snd pframes.
Proof.
  intros s p frames pframes Hs Hp Hn Hpn Hw Hpw. split.
  - apply core_audio_run_warming; [lia | unfold AUDIO_DIFF_AVG_NB; lia | exact Hw].
  - apply player_audio_run_warming;
      [lia | unfold AUDIO_DIFF_AVG_NB; lia | exact Hpw].
Qed.

Lemma audio_filter_warm_up_witness :
  core_audio_run core_video_master
    [(fun s => s, 1024); (fun s => s, 1152)]
  = map snd [(fun s : Core.VideoState => s, 1024); (fun s => s, 1152)]
  /\ player_audio_run player_video_master
       [(fun s => s, 1024); (fun s => s, 1152)]
     = map snd [(fun s : Player.VideoState => s, 1024); (fun s => s, 1152)].
Proof.
  apply (audio_filter_warm_up core_video_master player_video_master
           [(fun s => s, 1024); (fun s => s, 1152)]
           [(fun s => s, 1024); (fun s => s, 1152)]).
  - reflexivity.
  - reflexivity.
  - cbn. lia.
  - cbn. lia.
  - intros world nb [H | [H | []]]; injection H as <- _; intros s;
      reflexivity.
  - intros world nb [H | [H | []]]; injection H as <- _; intros s;
      reflexivity.
Defined.

(** ** The audio callback *)

Lemma shorts_of_bytes_length bytes :
  Z.of_nat (length (AudioOut.shorts_of_bytes bytes))
  = Z.of_nat (length bytes) / 2.
Proof.
  assert (H : forall n bytes, (length bytes <= n)%nat ->
              Z.of_nat (length (AudioOut.shorts_of_bytes bytes))
              = Z.of_nat (length bytes) / 2).
  { clear bytes. induction n as [| n IH]; intros bytes Hn.
    - destruct bytes; [reflexivity | cbn [length] in Hn; lia].
    - destruct bytes as [| lo [| hi bytes]]; try reflexivity.
      cbn [AudioOut.shorts_of_bytes length].
      rewrite !Nat2Z.inj_succ. rewrite IH by (cbn [length] in Hn; lia).
      replace (Z.succ (Z.succ (Z.of_nat (length bytes))))
        with (Z.of_nat (length bytes) + 1 * 2) by lia.
      rewrite Z.div_add by lia. lia. }
  apply (H (length bytes)). lia.
Qed.

Section AudioCallback.

Import AudioOut.

Variable MINSZ : Z.
Variable MAXVOL : Z.
Variable SDL_MixAudio : list Z -> list Z -> Z -> list Z.
Variable SIZE : Z.
Variable decode : nat -> Decoded.
Variable is_video : bool.
Variable frame_size : Z.

Hypothesis frame_size_range : 0 < frame_size <= MINSZ.
Hypothesis MINSZ_range : MINSZ < 2 ^ 30.
Hypothesis SIZE_range : 0 < SIZE < 2 ^ 30.
Hypothesis decode_ok : decodes_ok decode.
Hypothesis mix_length :
  forall dst src volume, length (SDL_MixAudio dst src volume) = length dst.

Lemma refill_ok a :
  ring_ok SIZE (samples a) ->
  exists a',
    refill MINSZ SIZE decode is_video frame_size a = Some a'
    /\ audio_buf_index a' = 0 /\ 0 < audio_buf_size a'
    /\ audio_ok a' /\ ring_ok SIZE (samples a')
    /\ muted a' = muted a.
Proof.
  intros Hring. unfold refill.
  destruct (decode_ok (decodes a)) as [Herr | [Hsize Hbuf]].
  - destruct (Z.ltb_spec (audio_size (decode (decodes a))) 0); [| lia].
    destruct (Z.eqb_spec frame_size 0); [lia|].
    eexists. split; [reflexivity|]. cbn.
    assert (Hq : 1 <= MINSZ / frame_size <= MINSZ).
    { split; [apply Z.div_le_lower_bound; lia|].
      apply Z.div_le_upper_bound; nia. }
    assert (Hm : MINSZ / frame_size * frame_size <= MINSZ).
    { rewrite Z.mul_comm. apply Z.mul_div_le. lia. }
    unfold Int.mul, Int.div.
    rewrite Z.quot_div_nonneg by lia.
    rewrite (wrap_in_range (MINSZ / frame_size))
      by (unfold Int.INT_MIN, Int.INT_MAX; lia).
    rewrite wrap_in_range by (unfold Int.INT_MIN, Int.INT_MAX; nia).
    split; [reflexivity|]. split; [nia|].
    split; [unfold audio_ok; cbn; split; [nia | split; [lia | exact I]]|].
    split; [exact Hring | reflexivity].
  - destruct (Z.ltb_spec (audio_size (decode (decodes a))) 0); [lia|].
    assert (Hshown : exists s,
               (if negb is_video
                then SampleDisplay.update_sample_display SIZE
                       (S (length (shorts_of_bytes
                                     (decoded_buf (decode (decodes a))))))
                       (samples a)
                       (shorts_of_bytes (decoded_buf (decode (decodes a))))
                       (audio_size (decode (decodes a)))
                else Some (samples a)) = Some s
               /\ ring_ok SIZE s).
    { destruct (negb is_video); [| eauto].
      exists (ring_push SIZE (samples a)
                (shorts_of_bytes (decoded_buf (decode (decodes a))))).
      split; [| apply ring_push_ok; assumption].
      unfold SampleDisplay.update_sample_display, SizeT.wrap.
      rewrite (Z.mod_small (audio_size (decode (decodes a)))) by lia.
      assert (Hq : 0 <= audio_size (decode (decodes a)) / 2 < 2 ^ 30).
      { split; [apply Z.div_pos; lia|].
        apply Z.div_lt_upper_bound; lia. }
      rewrite wrap_in_range by (unfold Int.INT_MIN, Int.INT_MAX; lia).
      rewrite <- Hbuf, <- shorts_of_bytes_length.
      apply copy_samples_ring; try assumption; try lia.
      rewrite shorts_of_bytes_length, Hbuf. lia. }
    destruct Hshown as (s & -> & Hs).
    eexists. split; [reflexivity|]. cbn.
    split; [reflexivity|]. split; [lia|].
    split; [unfold audio_ok; cbn; split; [lia | split; lia]|].
    split; [exact Hs | reflexivity].
Qed.

Lemma output_ok a len1 :
  audio_ok a -> 0 <= len1 <= audio_buf_size a - audio_buf_index a ->
  exists bytes,
    output MAXVOL SDL_MixAudio a len1 = Some bytes
    /\ Z.of_nat (length bytes) = len1
    /\ (muted a = true -> bytes = repeat 0 (Z.to_nat len1)).
Proof.
  intros (Hidx & Hsz & Hbuf) Hlen. unfold output.
  destruct (audio_buf a) as [buf |].
  - assert (Hat : exists src,
               bytes_at buf (audio_buf_index a) len1 = Some src
               /\ Z.of_nat (length src) = len1).
    { unfold bytes_at.
      destruct (Z.leb_spec 0 len1); [| lia].
      destruct (Z.leb_spec 0 (audio_buf_index a)); [| lia].
      destruct (Z.leb_spec (audio_buf_index a + len1)
                  (Z.of_nat (length buf))); [| lia].
      eexists. split; [reflexivity|].
      rewrite length_firstn, length_skipn. lia. }
    destruct Hat as (src & Hsrc & Hsrclen).
    destruct (muted a); cbn [negb andb].
    + destruct (Z.ltb_spec len1 0); [lia|].
      eexists. split; [reflexivity|]. split; [| reflexivity].
      rewrite repeat_length. lia.
    + destruct (audio_volume a =? MAXVOL).
      * exists src. repeat split; auto. discriminate.
      * destruct (Z.ltb_spec len1 0); [lia|]. rewrite Hsrc.
        eexists. split; [reflexivity|]. split; [| discriminate].
        rewrite mix_length, repeat_length. lia.
  - destruct (Z.ltb_spec len1 0); [lia|].
    eexists. split; [reflexivity|]. split; [| reflexivity].
    rewrite repeat_length. lia.
Qed.

Lemma fill_ok fuel :
  forall a stream len,
    audio_ok a -> ring_ok SIZE (samples a) ->
    0 <= len < 2 ^ 30 -> (Z.to_nat len < fuel)%nat ->
    exists a' out,
      fill MINSZ MAXVOL SDL_MixAudio SIZE decode is_video frame_size
        fuel a stream len = Some (a', stream ++ out)
      /\ Z.of_nat (length out) = len
      /\ (muted a = true -> out = repeat 0 (Z.to_nat len))
      /\ audio_ok a' /\ muted a' = muted a.
Proof.
  induction fuel as [| fuel IH]; intros a stream len Hok Hring Hlen Hfuel;
    [lia|].
  cbn [fill]. rewrite Z.gtb_ltb.
  destruct (Z.ltb_spec 0 len) as [Hpos | Hzero].
  2: { assert (len = 0) by lia. subst len.
       exists a, []. rewrite app_nil_r.
       split; [reflexivity|]. split; [reflexivity|].
       split; [reflexivity|]. split; [exact Hok | reflexivity]. }
  assert (Hready : exists a1,
             (if audio_buf_index a >=? audio_buf_size a
              then refill MINSZ SIZE decode is_video frame_size a
              else Some a) = Some a1
             /\ audio_buf_index a1 < audio_buf_size a1
             /\ audio_ok a1 /\ ring_ok SIZE (samples a1)
             /\ muted a1 = muted a).
  { rewrite Z.geb_leb.
    destruct (Z.leb_spec (audio_buf_size a) (audio_buf_index a)).
    - destruct (refill_ok a Hring) as (a1 & Hr & Hi & Hs & Hok1 & Hr1 & Hm1).
      exists a1. split; [exact Hr|]. split; [lia|].
      split; [exact Hok1|]. split; [exact Hr1 | exact Hm1].
    - exists a. split; [reflexivity|]. split; [lia|].
      split; [exact Hok|]. split; [exact Hring | reflexivity]. }
  destruct Hready as (a1 & -> & Hlt & Hok1 & Hring1 & Hm1).
  destruct Hok1 as (Hidx1 & Hsz1 & Hbuf1).
  rewrite (wrap_in_range (audio_buf_size a1 - audio_buf_index a1))
    by (unfold Int.INT_MIN, Int.INT_MAX; lia).
  set (len1 := if audio_buf_size a1 - audio_buf_index a1 >? len
               then len else audio_buf_size a1 - audio_buf_index a1).
  assert (Hlen1 : 0 < len1 /\ len1 <= len
                  /\ len1 <= audio_buf_size a1 - audio_buf_index a1).
  { subst len1. rewrite Z.gtb_ltb.
    destruct (Z.ltb_spec len (audio_buf_size a1 - audio_buf_index a1)); lia. }
  clearbody len1.
  destruct (output_ok a1 len1) as (bytes & -> & Hbytes & Hsilent);
    [split; [exact Hidx1 | split; [exact Hsz1 | exact Hbuf1]] | lia |].
  unfold Int.add.
  rewrite (wrap_in_range (audio_buf_index a1 + len1))
    by (unfold Int.INT_MIN, Int.INT_MAX; lia).
  rewrite (wrap_in_range (len - len1))
    by (unfold Int.INT_MIN, Int.INT_MAX; lia).
  match goal with
  | |- context [fill _ _ _ _ _ _ _ fuel ?x _ _] => set (a2 := x)
  end.
  destruct (IH a2 (stream ++ bytes) (len - len1))
    as (a' & out & Hfill & Hout & Hsil & Hok' & Hm');
    [subst a2; unfold audio_ok; cbn;
     split; [lia | split; [exact Hsz1 | exact Hbuf1]]
    | subst a2; exact Hring1 | lia | lia |].
  exists a', (bytes ++ out). rewrite app_assoc. split; [exact Hfill|].
  split; [rewrite length_app; lia|]. split.
  - intros Hm. rewrite Hsilent by congruence.
    rewrite Hsil by (subst a2; cbn; congruence).
    rewrite <- repeat_app. f_equal. lia.
  - split; [exact Hok'|]. subst a2. cbn in Hm'. congruence.
Qed.

End AudioCallback.

(** X20.  [sdl_audio_callback] fills the device buffer: when every call
    of [audio_decode_frame()] fails or leaves a buffer that is not empty,
    the callback returns having written exactly [len] bytes, whatever
    the state of the buffer it started from; when the player is muted all
    of them are zero; and it leaves [audio_write_buf_size] as the part of
    the buffer not played yet, which is not negative. *)
Theorem sdl_audio_callback_fills_stream :
  forall (MINSZ MAXVOL : Z) (SDL_MixAudio : list Z -> list Z -> Z -> list Z)
         (SIZE : Z) (decode : nat -> AudioOut.Decoded) (is_video : bool)
         (frame_size bytes_per_sec hw_buf_size : Z) (subtitles : bool)
         (now : Z) (a : AudioOut.Audio) (len : Z),
    0 < frame_size <= MINSZ -> MINSZ < 2 ^ 30 -> 0 < SIZE < 2 ^ 30 ->
    decodes_ok decode ->
    (forall dst src volume,
        length (SDL_MixAudio dst src volume) = length dst) ->
    audio_ok a -> ring_ok SIZE (AudioOut.samples a) ->
    0 <= len < 2 ^ 30 ->
    exists a' stream events,
      AudioOut.sdl_audio_callback MINSZ MAXVOL SDL_MixAudio SIZE decode
        is_video frame_size bytes_per_sec hw_buf_size subtitles
        (S (Z.to_nat len)) now a len
      = Some (a', stream, events)
      /\ Z.of_nat (length stream) = len
      /\ (AudioOut.muted a = true -> stream = repeat 0 (Z.to_nat len))
      /\ AudioOut.audio_write_buf_size a'
         = AudioOut.audio_buf_size a' - AudioOut.audio_buf_index a'
      /\ 0 <= AudioOut.audio_write_buf_size a'.
Proof.
  intros MINSZ MAXVOL SDL_MixAudio SIZE decode is_video frame_size
         bytes_per_sec hw_buf_size subtitles now a len
         Hfs HMIN HSIZE Hdec Hmix Hok Hring Hlen.
  unfold AudioOut.sdl_audio_callback.
  match goal with
  | |- context [AudioOut.fill _ _ _ _ _ _ _ _ ?x _ _] => set (a0 := x)
  end.
  destruct (fill_ok MINSZ MAXVOL SDL_MixAudio SIZE decode is_video frame_size
              Hfs HMIN HSIZE Hdec Hmix (S (Z.to_nat len)) a0 [] len)
    as (a' & out & Hfill & Hout & Hsil & Hok' & Hm');
    [exact Hok | exact Hring | exact Hlen | lia |].
  cbn [app] in Hfill. rewrite Hfill.
  destruct Hok' as (Hidx & Hsz & Hbuf).
  eexists _, out, _. split; [reflexivity|].
  split; [exact Hout|]. split; [exact Hsil|].
  cbn [AudioOut.audio_write_buf_size AudioOut.audio_buf_size
       AudioOut.audio_buf_index].
  rewrite wrap_in_range by (unfold Int.INT_MIN, Int.INT_MAX; lia).
  split; [reflexivity | lia].
Qed.

Lemma sdl_audio_callback_fills_stream_witness :
  exists a' stream events,
    AudioOut.sdl_audio_callback 512 128 example_mix 4 example_decode false
      4 192000 8192 true (S (Z.to_nat 10)) 5000000 (example_audio true) 10
    = Some (a', stream, events)
    /\ Z.of_nat (length stream) = 10
    /\ (AudioOut.muted (example_audio true) = true ->
        stream = repeat 0 (Z.to_nat 10))
    /\ AudioOut.audio_write_buf_size a'
       = AudioOut.audio_buf_size a' - AudioOut.audio_buf_index a'
    /\ 0 <= AudioOut.audio_write_buf_size a'.
Proof.
  apply (sdl_audio_callback_fills_stream 512 128 example_mix 4 example_decode
           false 4 192000 8192 true 5000000 (example_audio true) 10).
  - split; [reflexivity | discriminate].
  - reflexivity.
  - split; reflexivity.
  - intros n. unfold example_decode. destruct (Nat.even n); cbn.
    + right. split; [split; reflexivity | reflexivity].
    + left. reflexivity.
  - intros dst src volume. unfold example_mix.
    rewrite length_map, length_combine, length_app, repeat_length. lia.
  - unfold audio_ok; cbn. split; [lia | split; [lia | exact I]].
  - unfold ring_ok; cbn. lia.
  - lia.
Defined.

(** ** Cycling through the streams *)

Lemma interval_nil lo hi : hi <= lo -> interval lo hi = [].
Proof.
  intros H. unfold interval.
  replace (Z.to_nat (hi - lo)) with O by lia. reflexivity.
Qed.

Lemma interval_cons lo hi :
  lo < hi -> interval lo hi = lo :: interval (lo + 1) hi.
Proof.
  intros H. unfold interval.
  replace (Z.to_nat (hi - lo)) with (S (Z.to_nat (hi - (lo + 1)))) by lia.
  cbn [seq map]. f_equal; [lia|].
  rewrite <- seq_shift, map_map. apply map_ext. intros k. lia.
Qed.

Lemma find_app_first {A : Type} (f : A -> bool) (l1 l2 : list A) :
  find f (l1 ++ l2)
  = match find f l1 with
    | Some x => Some x
    | None => find f l2
    end.
Proof.
  induction l1 as [| x l1 IH]; [reflexivity|].
  cbn [app find]. destruct (f x); [reflexivity | exact IH].
Qed.

Lemma at_index_nth (entries : list Z) (k : Z) :
  0 <= k < Z.of_nat (length entries) ->
  Media.at_index entries k = Some (nth (Z.to_nat k) entries (-1)).
Proof.
  intros Hk. unfold Media.at_index.
  destruct (Z.ltb_spec k 0); [lia|].
  apply nth_error_nth'. lia.
Qed.

Lemma program_position_from (entries : list Z) (start k : Z) :
  Int.INT_MIN <= start <= Int.INT_MAX ->
  0 <= k -> k + Z.of_nat (length entries) < 2 ^ 30 ->
  Forall (fun entry => 0 <= entry < 2 ^ 30) entries ->
  Media.program_position entries start k
  = (let q := position_from entries start k in
     if q =? -1 then k + Z.of_nat (length entries) else q)
  /\ (position_from entries start k = -1
      \/ k <= position_from entries start k < k + Z.of_nat (length entries)).
Proof.
  intros Hstart. revert k.
  induction entries as [| entry entries IH]; intros k Hk Hlen Hall.
  - cbn. split; [lia | left; reflexivity].
  - cbn [Media.program_position position_from length] in *.
    rewrite Nat2Z.inj_succ in *.
    inversion Hall as [| ? ? Hentry Hrest]; subst.
    assert (Hsame : (entry =? UInt.wrap start) = (entry =? start)).
    { unfold UInt.wrap. unfold Int.INT_MIN, Int.INT_MAX in Hstart.
      destruct (Z.le_gt_cases 0 start).
      - rewrite Z.mod_small by lia. reflexivity.
      - assert (start mod 2 ^ 32 = start + 2 ^ 32).
        { symmetry. apply (Z.mod_unique _ _ (-1)); lia. }
        destruct (Z.eqb_spec entry (start mod 2 ^ 32));
          destruct (Z.eqb_spec entry start); try reflexivity; lia. }
    rewrite Hsame.
    destruct (Z.eqb_spec entry start).
    + cbv zeta. destruct (Z.eqb_spec k (-1)); [lia|].
      split; [reflexivity | right; lia].
    + unfold Int.add.
      rewrite wrap_in_range by (unfold Int.INT_MIN, Int.INT_MAX; lia).
      destruct (IH (k + 1)) as [IH1 IH2]; [lia | lia | assumption |].
      rewrite IH1. cbv zeta. split.
      * destruct (position_from entries start (k + 1) =? -1); lia.
      * destruct IH2 as [IH2 | IH2]; [left; exact IH2 | right; lia].
Qed.

Section CoreCycleLoop.

Import Media.

Variable streams : list AVStream.
Variable codec_type : AVMediaType.
Variable p : option (list Z).
Variable n : Z.
Variable start : Z.
Variable slot : Z -> Z.

Hypothesis n_range : n < 2 ^ 30.
Hypothesis start_range : -1 <= start < n.
Hypothesis slot_ok :
  forall k, 0 <= k < n ->
    match p with
    | Some entries => at_index entries k
    | None => Some k
    end = Some (slot k)
    /\ 0 <= slot k < Z.of_nat (length streams).

Lemma core_cycle_visit fuel s i :
  -1 <= i -> i + 1 < n -> i + 1 <> start ->
  CoreCycle.cycle streams codec_type p n start (S fuel) s i
  = if selectable streams codec_type (slot (i + 1))
    then Some (s, TheEnd (i + 1))
    else CoreCycle.cycle streams codec_type p n start fuel s (i + 1).
Proof.
  intros Hi Hn Hs. cbn [CoreCycle.cycle]. unfold Int.add.
  rewrite wrap_in_range by (unfold Int.INT_MIN, Int.INT_MAX; lia).
  rewrite Z.geb_leb.
  destruct (Z.leb_spec n (i + 1)); [lia|].
  destruct (Z.eqb_spec (i + 1) start); [contradiction|].
  destruct (slot_ok (i + 1)) as [-> Hslot]; [lia|].
  unfold selectable.
  destruct (at_index streams (slot (i + 1))) as [st |] eqn:Hst.
  - destruct (media_type_eqb (Media.codec_type st) codec_type);
      [| reflexivity].
    cbn [andb].
    destruct codec_type; try reflexivity.
  - exfalso. unfold at_index in Hst.
    destruct (Z.ltb_spec (slot (i + 1)) 0); [lia|].
    apply nth_error_None in Hst. lia.
Qed.

Lemma core_cycle_scan d :
  forall fuel s i,
    -1 <= i -> i + Z.of_nat d < n ->
    start <= i \/ i + Z.of_nat d < start ->
    CoreCycle.cycle streams codec_type p n start (d + fuel) s i
    = match
        find (fun k => selectable streams codec_type (slot k))
          (interval (i + 1) (i + 1 + Z.of_nat d))
      with
      | Some k => Some (s, TheEnd k)
      | None =>
          CoreCycle.cycle streams codec_type p n start fuel s
            (i + Z.of_nat d)
      end.
Proof.
  induction d as [| d IH]; intros fuel s i Hi Hn Hs.
  - rewrite interval_nil by lia. cbn [find Nat.add].
    replace (i + Z.of_nat 0) with i by lia. reflexivity.
  - rewrite Nat2Z.inj_succ in *.
    rewrite interval_cons by lia. cbn [find Nat.add].
    rewrite core_cycle_visit by lia.
    destruct (selectable streams codec_type (slot (i + 1))); [reflexivity|].
    rewrite IH by lia.
    replace (i + 1 + 1 + Z.of_nat d) with (i + 1 + Z.succ (Z.of_nat d))
      by lia.
    replace (i + 1 + Z.of_nat d) with (i + Z.succ (Z.of_nat d)) by lia.
    reflexivity.
Qed.

(** The whole loop from its first turn. *)
Lemma core_cycle_from_start fuel s :
  (Z.to_nat n < fuel)%nat ->
  CoreCycle.cycle streams codec_type p n start fuel s start
  = Some
      (let subtitle := media_type_eqb codec_type AVMEDIA_TYPE_SUBTITLE in
       match
         find (fun k => selectable streams codec_type (slot k))
           (places_after (negb subtitle) start n)
       with
       | Some k => (s, TheEnd k)
       | None =>
           if subtitle
           then ({| CoreCycle.video_stream := CoreCycle.video_stream s;
                    CoreCycle.audio_stream := CoreCycle.audio_stream s;
                    CoreCycle.subtitle_stream := CoreCycle.subtitle_stream s;
                    CoreCycle.last_video_stream :=
                      CoreCycle.last_video_stream s;
                    CoreCycle.last_audio_stream :=
                      CoreCycle.last_audio_stream s;
                    CoreCycle.last_subtitle_stream := -1 |}, TheEnd (-1))
           else (s, Return)
       end).
Proof.
  intros Hfuel. cbv zeta. unfold places_after. rewrite find_app_first.
  set (dA := Z.to_nat (n - 1 - start)).
  replace fuel with (dA + (fuel - dA))%nat by lia.
  rewrite core_cycle_scan by lia.
  replace (start + 1 + Z.of_nat dA) with n by lia.
  destruct (find (fun k => selectable streams codec_type (slot k))
              (interval (start + 1) n)) as [k |]; [reflexivity|].
  replace (start + Z.of_nat dA) with (n - 1) by lia.
  destruct (fuel - dA)%nat as [| fuel1] eqn:Hfuel1; [lia|].
  destruct (media_type_eqb codec_type AVMEDIA_TYPE_SUBTITLE) eqn:Hsub.
  - cbn [CoreCycle.cycle negb find]. unfold Int.add.
    rewrite wrap_in_range by (unfold Int.INT_MIN, Int.INT_MAX; lia).
    replace (n - 1 + 1 >=? n) with true by (symmetry; apply Z.geb_le; lia).
    rewrite Hsub. reflexivity.
  - cbn [negb].
    destruct (Z.eq_dec start (-1)) as [Hnone | Hsome].
    + rewrite Hnone. rewrite (interval_nil 0 (-1)) by lia.
      cbn [CoreCycle.cycle find]. unfold Int.add.
      rewrite wrap_in_range by (unfold Int.INT_MIN, Int.INT_MAX; lia).
      replace (n - 1 + 1 >=? n) with true by (symmetry; apply Z.geb_le; lia).
      rewrite Hsub. reflexivity.
    + assert (Hwrap :
                CoreCycle.cycle streams codec_type p n start (S fuel1) s
                  (n - 1)
                = CoreCycle.cycle streams codec_type p n start (S fuel1) s
                    (-1)).
      { cbn [CoreCycle.cycle]. unfold Int.add.
        rewrite !wrap_in_range by (unfold Int.INT_MIN, Int.INT_MAX; lia).
        replace (n - 1 + 1 >=? n) with true
          by (symmetry; apply Z.geb_le; lia).
        replace (-1 + 1 >=? n) with false
          by (symmetry; rewrite Z.geb_leb; apply Z.leb_gt; lia).
        rewrite Hsub.
        replace (start =? -1) with false
          by (symmetry; apply Z.eqb_neq; exact Hsome).
        reflexivity. }
      rewrite Hwrap.
      set (dB := Z.to_nat start).
      replace (S fuel1) with (dB + (S fuel1 - dB))%nat by lia.
      rewrite core_cycle_scan by lia.
      replace (-1 + 1 + Z.of_nat dB) with start by lia.
      replace (-1 + 1) with 0 by lia.
      destruct (find (fun k => selectable streams codec_type (slot k))
                  (interval 0 start)) as [k |]; [reflexivity|].
      destruct (S fuel1 - dB)%nat as [| fuel2] eqn:Hfuel2; [lia|].
      cbn [CoreCycle.cycle]. unfold Int.add.
      rewrite wrap_in_range by (unfold Int.INT_MIN, Int.INT_MAX; lia).
      replace (-1 + Z.of_nat dB + 1 >=? n) with false
        by (symmetry; rewrite Z.geb_leb; apply Z.leb_gt; lia).
      replace (-1 + Z.of_nat dB + 1 =? start) with true
        by (symmetry; apply Z.eqb_eq; lia).
      reflexivity.
Qed.

End CoreCycleLoop.

Lemma places_after_range wrap start n k :
  -1 <= start -> In k (places_after wrap start n) ->
  0 <= k < n \/ 0 <= k < start.
Proof.
  intros Hs Hin. unfold places_after in Hin.
  apply in_app_or in Hin. destruct Hin as [Hin | Hin].
  - unfold interval in Hin. apply in_map_iff in Hin.
    destruct Hin as (j & <- & Hj). apply in_seq in Hj. lia.
  - destruct wrap; [| contradiction].
    unfold interval in Hin. apply in_map_iff in Hin.
    destruct Hin as (j & <- & Hj). apply in_seq in Hj. lia.
Qed.

Lemma player_cycle_core (streams : list Media.AVStream)
  (codec_type : Media.AVMediaType) (p : option (list Z)) (n start : Z)
  (s : CoreCycle.Streams) :
  Media.media_type_eqb codec_type Media.AVMEDIA_TYPE_SUBTITLE = false ->
  forall fuel i,
    PlayerCycle.cycle streams codec_type p n start fuel i
    = option_map snd
        (CoreCycle.cycle streams codec_type p n start fuel s i).
Proof.
  intros Hsub. induction fuel as [| fuel IH]; intros i; [reflexivity|].
  cbn [PlayerCycle.cycle CoreCycle.cycle]. rewrite Hsub.
  unfold PlayerCycle.invalid_stream_index.
  destruct (Int.add i 1 >=? n).
  - destruct (start =? -1); [reflexivity|].
    destruct (0 =? start); [reflexivity|].
    destruct (match p with
              | Some entries => Media.at_index entries 0
              | None => Some 0
              end) as [j |]; [| reflexivity].
    destruct (Media.at_index streams j) as [st |]; [| reflexivity].
    destruct (Media.media_type_eqb (Media.codec_type st) codec_type);
      [| apply IH].
    destruct codec_type; try apply IH; try reflexivity.
    destruct (negb (Media.sample_rate st =? 0)
              && negb (Media.channels st =? 0)); [reflexivity | apply IH].
  - destruct (Int.add i 1 =? start); [reflexivity|].
    destruct (match p with
              | Some entries => Media.at_index entries (Int.add i 1)
              | None => Some (Int.add i 1)
              end) as [j |]; [| reflexivity].
    destruct (Media.at_index streams j) as [st |]; [| reflexivity].
    destruct (Media.media_type_eqb (Media.codec_type st) codec_type);
      [| apply IH].
    destruct codec_type; try apply IH; try reflexivity.
    destruct (negb (Media.sample_rate st =? 0)
              && negb (Media.channels st =? 0)); [reflexivity | apply IH].
Qed.

(** What the code before the loop computes, and the loop after it. *)
Lemma cycle_ready_loop (streams : list Media.AVStream)
  (codec_type : Media.AVMediaType) (p : option (list Z)) (start : Z)
  (s : CoreCycle.Streams) (fuel : nat) :
  cycle_ready p (Z.of_nat (length streams)) start ->
  (Z.to_nat (places_count p (Z.of_nat (length streams))) < fuel)%nat ->
  let n := places_count p (Z.of_nat (length streams)) in
  let place := start_place p start in
  let subtitle :=
    Media.media_type_eqb codec_type Media.AVMEDIA_TYPE_SUBTITLE in
  (match p with
   | Some entries =>
       let lnb_streams := Int.wrap (Z.of_nat (length entries)) in
       let start_index :=
         Media.program_position (firstn (Z.to_nat lnb_streams) entries)
           start 0 in
       let start_index :=
         if start_index =? lnb_streams then -1 else start_index in
       (lnb_streams, start_index, start_index)
   | None => (Int.wrap (Z.of_nat (length streams)), start, start)
   end) = (n, place, place)
  /\ CoreCycle.cycle streams codec_type p n place fuel s place
     = Some
         (match
            find (fun k => selectable streams codec_type (slot_of p k))
              (places_after (negb subtitle) place n)
          with
          | Some k => (s, Media.TheEnd k)
          | None =>
              if subtitle then (core_subtitles_off s, Media.TheEnd (-1))
              else (s, Media.Return)
          end)
  /\ (forall k,
        In k (places_after (negb subtitle) place n) ->
        match p with
        | Some entries =>
            if negb (k =? -1)
            then option_map Int.wrap (Media.at_index entries k)
            else Some k
        | None => Some k
        end = Some (slot_of p k)).
Proof.
  intros (Hnb & Hstart & Hp) Hfuel. cbv zeta.
  destruct p as [entries |].
  - destruct Hp as [Hlen Hall].
    cbn [places_count start_place] in *.
    assert (Hall' : Forall (fun entry => 0 <= entry < 2 ^ 30) entries).
    { eapply Forall_impl; [| exact Hall]. cbv beta. intros entry H. lia. }
    destruct (program_position_from entries start 0) as [Hpos Hq];
      [unfold Int.INT_MIN, Int.INT_MAX; lia | lia | lia | exact Hall' |].
    cbv zeta in Hpos.
    rewrite wrap_in_range by (unfold Int.INT_MIN, Int.INT_MAX; lia).
    rewrite Nat2Z.id, firstn_all, Hpos.
    assert (Hplace :
              (if (if position_from entries start 0 =? -1
                   then 0 + Z.of_nat (length entries)
                   else position_from entries start 0)
                  =? Z.of_nat (length entries)
               then -1
               else (if position_from entries start 0 =? -1
                     then 0 + Z.of_nat (length entries)
                     else position_from entries start 0))
              = position_from entries start 0).
    { destruct (Z.eqb_spec (position_from entries start 0) (-1)) as [Hnone |].
      - rewrite Z.add_0_l, Z.eqb_refl. symmetry. exact Hnone.
      - destruct (Z.eqb_spec (position_from entries start 0)
                    (Z.of_nat (length entries))); [lia | reflexivity]. }
    rewrite Hplace.
    assert (Hslot : forall k, 0 <= k < Z.of_nat (length entries) ->
              Media.at_index entries k
              = Some (nth (Z.to_nat k) entries (-1))
              /\ 0 <= nth (Z.to_nat k) entries (-1)
                 < Z.of_nat (length streams)).
    { intros k Hk. split; [apply at_index_nth; exact Hk|].
      rewrite Forall_forall in Hall. apply Hall. apply nth_In. lia. }
    split; [reflexivity|]. split.
    + apply (core_cycle_from_start streams codec_type (Some entries)
               (Z.of_nat (length entries)) (position_from entries start 0)
               (fun k => nth (Z.to_nat k) entries (-1)));
        [exact Hlen | lia | exact Hslot | exact Hfuel].
    + intros k Hin. apply places_after_range in Hin; [| lia].
      destruct (Z.eqb_spec k (-1)); [lia|]. cbn [negb slot_of].
      rewrite at_index_nth by lia. cbn [option_map].
      rewrite wrap_in_range; [reflexivity|].
      destruct (Hslot k) as [_ Hr]; [lia|].
      unfold Int.INT_MIN, Int.INT_MAX; lia.
  - cbn [places_count start_place] in *.
    rewrite wrap_in_range by (unfold Int.INT_MIN, Int.INT_MAX; lia).
    split; [reflexivity|]. split.
    + apply (core_cycle_from_start streams codec_type None
               (Z.of_nat (length streams)) start (fun k => k));
        [exact Hnb | exact Hstart | | exact Hfuel].
      intros k Hk. split; [reflexivity | exact Hk].
    + intros k _. reflexivity.
Qed.

(** X21.  [stream_cycle_channel] of [src/core/video_state.cpp] returns
    and switches to the first stream that can be selected for the type
    among the places after the one of the stream opened last, then, but
    for subtitles, among the places before it: it closes the stream in
    use and opens that one.  When there is none, subtitles are switched
    off (stream [-1]) and [last_subtitle_stream] is reset, while for the
    other types nothing is done.  The places are the streams of the
    program of the video stream when it has one, for another type than
    video, and all the streams otherwise. *)
Theorem core_stream_cycle_channel_next :
  forall (streams : list Media.AVStream)
         (av_find_program_from_stream : Z -> option (list Z))
         (s : CoreCycle.Streams) (codec_type : Media.AVMediaType)
         (fuel : nat),
    let nb_streams := Z.of_nat (length streams) in
    let start := core_cycle_start s codec_type in
    let old_index := core_cycle_old s codec_type in
    let p := core_cycle_program av_find_program_from_stream s codec_type in
    let subtitle :=
      Media.media_type_eqb codec_type Media.AVMEDIA_TYPE_SUBTITLE in
    cycle_ready p nb_streams start ->
    (Z.to_nat (places_count p nb_streams) < fuel)%nat ->
    CoreCycle.stream_cycle_channel streams av_find_program_from_stream
      fuel s codec_type
    = Some
        (match
           first_selectable streams codec_type (slot_of p)
             (places_after (negb subtitle) (start_place p start)
                (places_count p nb_streams))
         with
         | Some stream_index =>
             (s, [Media.EvClose old_index; Media.EvOpen stream_index])
         | None =>
             if subtitle
             then (core_subtitles_off s,
                   [Media.EvClose old_index; Media.EvOpen (-1)])
             else (s, [])
         end).
Proof.
  intros streams find_program s codec_type fuel nb_streams start old_index
         p subtitle Hready Hfuel.
  subst nb_streams.
  destruct (cycle_ready_loop streams codec_type p start s fuel Hready Hfuel)
    as (Hpre & Hloop & Hslot).
  unfold CoreCycle.stream_cycle_channel.
  replace (match codec_type with
           | Media.AVMEDIA_TYPE_VIDEO =>
               (CoreCycle.last_video_stream s, CoreCycle.video_stream s)
           | Media.AVMEDIA_TYPE_AUDIO =>
               (CoreCycle.last_audio_stream s, CoreCycle.audio_stream s)
           | _ =>
               (CoreCycle.last_subtitle_stream s, CoreCycle.subtitle_stream s)
           end) with (start, old_index)
    by (subst start old_index; destruct codec_type; reflexivity).
  replace (if negb (Media.media_type_eqb codec_type Media.AVMEDIA_TYPE_VIDEO)
              && negb (CoreCycle.video_stream s =? -1)
           then find_program (CoreCycle.video_stream s)
           else None) with p
    by (subst p; unfold core_cycle_program;
        destruct codec_type; cbn [Media.media_type_eqb negb andb];
        try reflexivity;
        destruct (CoreCycle.video_stream s =? -1); reflexivity).
  cbv beta iota zeta. cbv beta iota zeta in Hpre.
  rewrite Hpre. cbv beta iota zeta. rewrite Hloop.
  unfold first_selectable. fold subtitle.
  destruct (find (fun k => selectable streams codec_type (slot_of p k))
              (places_after (negb subtitle) (start_place p start)
                 (places_count p (Z.of_nat (length streams)))))
    as [k |] eqn:Hfind.
  - apply find_some in Hfind. destruct Hfind as [Hin _].
    rewrite (Hslot k Hin). reflexivity.
  - destruct subtitle; [| reflexivity].
    destruct p; reflexivity.
Qed.

Lemma core_stream_cycle_channel_next_witness :
  CoreCycle.stream_cycle_channel example_streams example_program 5
    core_example_selection Media.AVMEDIA_TYPE_AUDIO
  = Some (core_example_selection, [Media.EvClose 2; Media.EvOpen 3]).
Proof.
  apply (core_stream_cycle_channel_next example_streams example_program
           core_example_selection Media.AVMEDIA_TYPE_AUDIO 5).
  - unfold cycle_ready. cbn. split; [lia | split; [lia | split; [lia|]]].
    repeat constructor; lia.
  - cbn. lia.
Defined.

(** X22.  [StreamCycleChannel] of [src/video_state.cpp], for video and
    for audio, returns and switches to the first stream that can be
    selected for the type among the places after the one of the stream
    opened last, then among the places before it: it closes the stream in
    use and opens that one; when there is none, nothing is done.  For
    audio, with the video stream opened, the places are the streams of the
    program of the audio stream in use when it has one. *)
Theorem player_stream_cycle_channel_next :
  forall (streams : list Media.AVStream)
         (av_find_program_from_stream : Z -> option (list Z))
         (s : PlayerCycle.Streams) (codec_type : Media.AVMediaType)
         (fuel : nat),
    codec_type = Media.AVMEDIA_TYPE_VIDEO
    \/ codec_type = Media.AVMEDIA_TYPE_AUDIO ->
    let nb_streams := Z.of_nat (length streams) in
    let start := player_cycle_start s codec_type in
    let old_index := player_cycle_old s codec_type in
    let p := player_cycle_program av_find_program_from_stream s codec_type in
    cycle_ready p nb_streams start ->
    (Z.to_nat (places_count p nb_streams) < fuel)%nat ->
    PlayerCycle.StreamCycleChannel streams av_find_program_from_stream
      fuel s codec_type
    = Some
        (match
           first_selectable streams codec_type (slot_of p)
             (places_after true (start_place p start)
                (places_count p nb_streams))
         with
         | Some stream_index =>
             [Media.EvClose old_index; Media.EvOpen stream_index]
         | None => []
         end).
Proof.
  intros streams find_program s codec_type fuel Htype nb_streams start
         old_index p Hready Hfuel.
  subst nb_streams.
  assert (Hsub : Media.media_type_eqb codec_type Media.AVMEDIA_TYPE_SUBTITLE
                 = false)
    by (destruct Htype as [-> | ->]; reflexivity).
  set (cs := CoreCycle.Build_Streams 0 0 0 0 0 0).
  destruct (cycle_ready_loop streams codec_type p start cs fuel Hready Hfuel)
    as (Hpre & Hloop & Hslot).
  rewrite Hsub in Hloop, Hslot. cbn [negb] in Hloop, Hslot.
  unfold PlayerCycle.StreamCycleChannel, PlayerCycle.invalid_stream_index.
  replace (match codec_type with
           | Media.AVMEDIA_TYPE_VIDEO =>
               (PlayerCycle.last_video_stream s, PlayerCycle.vstream_index s)
           | Media.AVMEDIA_TYPE_AUDIO =>
               (PlayerCycle.last_audio_stream s, PlayerCycle.astream_index s)
           | _ => (-1, -1)
           end) with (start, old_index)
    by (subst start old_index; destruct Htype as [-> | ->]; reflexivity).
  cbv beta iota zeta.
  replace (if negb (Media.media_type_eqb codec_type Media.AVMEDIA_TYPE_VIDEO)
              && PlayerCycle.vstream_opened s
           then find_program old_index
           else None) with p
    by (subst p old_index; unfold player_cycle_program;
        destruct Htype as [-> | ->]; cbn [Media.media_type_eqb negb andb];
        reflexivity).
  cbv beta iota zeta in Hpre.
  rewrite Hpre. cbv beta iota zeta.
  rewrite (player_cycle_core streams codec_type p _ _ cs Hsub), Hloop.
  unfold first_selectable.
  destruct (find (fun k => selectable streams codec_type (slot_of p k))
              (places_after true (start_place p start)
                 (places_count p (Z.of_nat (length streams)))))
    as [k |] eqn:Hfind.
  - apply find_some in Hfind. destruct Hfind as [Hin _].
    cbn [option_map snd]. rewrite (Hslot k Hin). reflexivity.
  - reflexivity.
Qed.

Lemma player_stream_cycle_channel_next_witness :
  PlayerCycle.StreamCycleChannel example_streams example_program 5
    player_example_selection Media.AVMEDIA_TYPE_AUDIO
  = Some [Media.EvClose 2; Media.EvOpen 3].
Proof.
  apply (player_stream_cycle_channel_next example_streams example_program
           player_example_selection Media.AVMEDIA_TYPE_AUDIO 5).
  - right. reflexivity.
  - unfold cycle_ready. cbn. split; [lia | split; [lia | split; [lia|]]].
    repeat constructor; lia.
  - cbn. lia.
Defined.
